(** * hive: position representation, make/unmake, draw detection and the
      staged move orderer, embedded in Rocq.

    Sources embedded: [src/position.cpp] and [src/move_order.cpp] together
    with the declarations of [include/move_order.hpp].  The headers
    [types.hpp], [bitboard.hpp], [move.hpp], [zobrist.hpp],
    [piece_square_tables.hpp] and [position.hpp] are not part of the
    sources at hand; what the embedded functions need from them is either
    taken as a parameter (tables of constants) or modelled from the
    specification, and says so in its doc comment. *)

From Stdlib Require Import ZArith List Bool Lia Ascii Permutation FinFun Btauto.
From Stdlib Require String.
Import ListNotations String.StringSyntax Ascii.AsciiSyntax.
Local Open Scope Z_scope.
Delimit Scope string_scope with string.

(* ================================================================== *)
(** * Basic types *)
(* ================================================================== *)

(** Modelled from the spec: [Turn] is [{WHITE, BLACK}] and [~turn] toggles.
    [m_full_move_clock += m_turn] in [Board::make_move] fixes the numeric
    values WHITE = 0 and BLACK = 1. *)
Inductive Turn : Type := WHITE | BLACK.

Definition opp (t : Turn) : Turn :=
  match t with WHITE => BLACK | BLACK => WHITE end.

Definition turn_index (t : Turn) : Z :=
  match t with WHITE => 0 | BLACK => 1 end.

Definition Turn_eqb (a b : Turn) : bool :=
  match a, b with
  | WHITE, WHITE | BLACK, BLACK => true
  | _, _ => false
  end.

(** Modelled from the spec: scores are "signed by colour". *)
Definition turn_to_color (t : Turn) : Z :=
  match t with WHITE => 1 | BLACK => -1 end.

Definition turns : list Turn := [WHITE; BLACK].

(** Modelled from the spec: [{PAWN, KNIGHT, BISHOP, ROOK, QUEEN, KING, NONE}]. *)
Inductive PieceType : Type :=
  PAWN | KNIGHT | BISHOP | ROOK | QUEEN | KING | PIECE_NONE.

Definition piece_index (p : PieceType) : Z :=
  match p with
  | PAWN => 0 | KNIGHT => 1 | BISHOP => 2 | ROOK => 3
  | QUEEN => 4 | KING => 5 | PIECE_NONE => 6
  end.

Definition PieceType_eqb (a b : PieceType) : bool :=
  piece_index a =? piece_index b.

(** The braced list [{ PAWN, KNIGHT, BISHOP, ROOK, QUEEN, KING }] that every
    loop over piece types in [position.cpp] iterates. *)
Definition piece_types : list PieceType :=
  [PAWN; KNIGHT; BISHOP; ROOK; QUEEN; KING].

(** Modelled from the spec: a [Piece] is a (PieceType, Turn) pair with a
    [NO_PIECE] sentinel. *)
Inductive Piece : Type :=
| Pc (p : PieceType) (t : Turn)
| NO_PIECE.

Definition get_piece_type (pc : Piece) : PieceType :=
  match pc with Pc p _ => p | NO_PIECE => PIECE_NONE end.

Definition get_turn (pc : Piece) : Turn :=
  match pc with Pc _ t => t | NO_PIECE => WHITE end.

Definition Piece_eqb (a b : Piece) : bool :=
  match a, b with
  | Pc p t, Pc q u => PieceType_eqb p q && Turn_eqb t u
  | NO_PIECE, NO_PIECE => true
  | _, _ => false
  end.

Inductive CastleSide : Type := KINGSIDE | QUEENSIDE | NO_SIDE.

Definition CastleSide_eqb (a b : CastleSide) : bool :=
  match a, b with
  | KINGSIDE, KINGSIDE | QUEENSIDE, QUEENSIDE | NO_SIDE, NO_SIDE => true
  | _, _ => false
  end.

Definition castle_sides : list CastleSide := [KINGSIDE; QUEENSIDE].

(* ------------------------------------------------------------------ *)
(** ** Squares *)

Definition Square := Z.

Definition NUM_SQUARES : Z := 64.

(** Modelled from the spec: a sentinel distinguishable from all valid
    squares [0..63]. *)
Definition SQUARE_NULL : Square := 64.

Definition make_square (rank file : Z) : Square := rank * 8 + file.
Definition file (sq : Square) : Z := Z.land sq 7.
Definition rank (sq : Square) : Z := Z.shiftr sq 3.

Definition SQUARE_A1 : Square := 0.
Definition SQUARE_H1 : Square := 7.
Definition SQUARE_A8 : Square := 56.
Definition SQUARE_H8 : Square := 63.

Definition valid_square (s : Z) : bool := (0 <=? s) && (s <? 64).

(** The squares [0; 1; ...; 63] in increasing order. *)
Definition all_squares : list Square := map Z.of_nat (seq 0 64).

(* ------------------------------------------------------------------ *)
(** ** Bitboards: 64-bit sets of squares, as [Z] in [0, 2^64). *)

Definition Bitboard := Z.

Definition bb_full : Bitboard := Z.ones 64.
Definition bb_in_range (b : Bitboard) : Prop := 0 <= b < 2 ^ 64.

Definition bb_test (b : Bitboard) (s : Square) : bool := Z.testbit b s.
Definition bb_set (b : Bitboard) (s : Square) : Bitboard := Z.setbit b s.
Definition bb_reset (b : Bitboard) (s : Square) : Bitboard := Z.clearbit b s.
Definition from_square (s : Square) : Bitboard := Z.shiftl 1 s.
(** [~b] on 64 bits. *)
Definition bb_not (b : Bitboard) : Bitboard := Z.ldiff bb_full b.
(** [if (b)]: a bitboard converts to true when it is not empty. *)
Definition bb_any (b : Bitboard) : bool := negb (b =? 0).

(** The members of a bitboard, lowest square first. *)
Definition bb_squares (b : Bitboard) : list Square :=
  filter (bb_test b) all_squares.

Definition bb_count (b : Bitboard) : Z := Z.of_nat (List.length (bb_squares b)).

(** Index of the lowest set bit; 64 on the empty board, where the
    processor instruction behind it is left undefined. *)
Definition bitscan_forward (b : Bitboard) : Square :=
  match bb_squares b with
  | s :: _ => s
  | [] => 64
  end.

(** [bitscan_forward_reset]: the lowest member, and the board without it. *)
Definition bitscan_forward_reset (b : Bitboard) : Square * Bitboard :=
  let s := bitscan_forward b in (s, bb_reset b s).

(** [while (bb) acc = f(acc, bb.bitscan_forward_reset());] *)
Fixpoint bb_loop {A : Type} (fuel : nat) (f : A -> Square -> A)
         (b : Bitboard) (acc : A) : A :=
  match fuel with
  | O => acc
  | S k =>
      if bb_any b then
        let '(s, b') := bitscan_forward_reset b in
        bb_loop k f b' (f acc s)
      else acc
  end.

Definition bb_of_list (l : list Square) : Bitboard :=
  fold_left (fun acc s => if valid_square s then bb_set acc s else acc) l 0.

(* ------------------------------------------------------------------ *)
(** ** Moves *)

(** Modelled from the spec: a move is a bit-packed 16-bit value with
    [from:6], [to:6], [flags:4]; the flags follow the classic encoding
    quiet, double push, the two castles, capture, ep capture, two reserved
    invalid patterns, four promotions and four promotion captures. *)
Definition Move := Z.

Definition move_from (m : Move) : Square := Z.land m 63.
Definition move_to (m : Move) : Square := Z.land (Z.shiftr m 6) 63.
Definition move_type (m : Move) : Z := Z.land (Z.shiftr m 12) 15.

Definition QUIET : Z := 0.
Definition DOUBLE_PAWN_PUSH : Z := 1.
Definition KING_CASTLE : Z := 2.
Definition QUEEN_CASTLE : Z := 3.
Definition CAPTURE : Z := 4.
Definition EP_CAPTURE : Z := 5.
Definition INVALID_1 : Z := 6.
Definition INVALID_2 : Z := 7.
Definition KNIGHT_PROMO : Z := 8.
Definition BISHOP_PROMO : Z := 9.
Definition ROOK_PROMO : Z := 10.
Definition QUEEN_PROMO : Z := 11.
Definition KNIGHT_PROMO_CAPTURE : Z := 12.
Definition BISHOP_PROMO_CAPTURE : Z := 13.
Definition ROOK_PROMO_CAPTURE : Z := 14.
Definition QUEEN_PROMO_CAPTURE : Z := 15.

Definition mk_move (from to mt : Z) : Move :=
  Z.lor (Z.lor from (Z.shiftl to 6)) (Z.shiftl mt 12).

Definition MOVE_NULL : Move := 0.

Definition is_capture (m : Move) : bool := Z.testbit (move_type m) 2.
Definition is_ep_capture (m : Move) : bool := move_type m =? EP_CAPTURE.
Definition is_double_pawn_push (m : Move) : bool :=
  move_type m =? DOUBLE_PAWN_PUSH.
Definition is_castle (m : Move) : bool :=
  (move_type m =? KING_CASTLE) || (move_type m =? QUEEN_CASTLE).
Definition is_promotion (m : Move) : bool := Z.testbit (move_type m) 3.
Definition promo_piece (m : Move) : PieceType :=
  match Z.land (move_type m) 3 with
  | 0 => KNIGHT
  | 1 => BISHOP
  | 2 => ROOK
  | _ => QUEEN
  end.

(* ------------------------------------------------------------------ *)
(** ** Mixed (middlegame, endgame) scores *)

Record MixedScore : Type := mkScore { middlegame : Z; endgame : Z }.

Definition ms_add (a b : MixedScore) : MixedScore :=
  mkScore (middlegame a + middlegame b) (endgame a + endgame b).
Definition ms_sub (a b : MixedScore) : MixedScore :=
  mkScore (middlegame a - middlegame b) (endgame a - endgame b).
Definition ms_scale (a : MixedScore) (k : Z) : MixedScore :=
  mkScore (middlegame a * k) (endgame a * k).

(** [uint8_t] arithmetic: the stored phase wraps modulo 256. *)
Definition u8 (x : Z) : Z := x mod 256.

(* ------------------------------------------------------------------ *)
(** ** Tables of constants (parameters) *)

(** The Zobrist keys of [zobrist.hpp]: random 64-bit constants. *)
Record ZobristKeys : Type := mkZobrist {
  get_piece_turn_square : PieceType -> Turn -> Square -> Z;
  get_black_move : Z;
  get_ep_file : Z -> Z;
  get_castle_side_turn : CastleSide -> Turn -> Z
}.

(** The evaluation tables of [piece_square_tables.hpp] and the [Phases]
    constants. *)
Record EvalTables : Type := mkEval {
  piece_value : PieceType -> MixedScore;
  piece_square : PieceType -> Square -> Turn -> MixedScore;
  Phases_Total : Z;
  Phases_Pieces : PieceType -> Z
}.

(* ================================================================== *)
(** * Board *)
(* ================================================================== *)

Record Board : Type := mkBoard {
  m_hash : Z;
  m_pieces : PieceType -> Turn -> Bitboard;
  m_board_pieces : Square -> Piece;
  m_turn : Turn;
  m_castling_rights : CastleSide -> Turn -> bool;
  m_enpassant_square : Square;
  m_half_move_clock : Z;
  m_full_move_clock : Z;
  m_psq : MixedScore;
  m_phase : Z;
  m_checkers : Bitboard
}.

Definition set_hash (b : Board) (h : Z) : Board :=
  mkBoard h (m_pieces b) (m_board_pieces b) (m_turn b) (m_castling_rights b)
          (m_enpassant_square b) (m_half_move_clock b) (m_full_move_clock b)
          (m_psq b) (m_phase b) (m_checkers b).

Definition set_turn (b : Board) (t : Turn) : Board :=
  mkBoard (m_hash b) (m_pieces b) (m_board_pieces b) t (m_castling_rights b)
          (m_enpassant_square b) (m_half_move_clock b) (m_full_move_clock b)
          (m_psq b) (m_phase b) (m_checkers b).

Definition set_enpassant (b : Board) (s : Square) : Board :=
  mkBoard (m_hash b) (m_pieces b) (m_board_pieces b) (m_turn b)
          (m_castling_rights b) s (m_half_move_clock b) (m_full_move_clock b)
          (m_psq b) (m_phase b) (m_checkers b).

Definition set_half_move_clock (b : Board) (n : Z) : Board :=
  mkBoard (m_hash b) (m_pieces b) (m_board_pieces b) (m_turn b)
          (m_castling_rights b) (m_enpassant_square b) n (m_full_move_clock b)
          (m_psq b) (m_phase b) (m_checkers b).

Definition set_full_move_clock (b : Board) (n : Z) : Board :=
  mkBoard (m_hash b) (m_pieces b) (m_board_pieces b) (m_turn b)
          (m_castling_rights b) (m_enpassant_square b) (m_half_move_clock b) n
          (m_psq b) (m_phase b) (m_checkers b).

Definition set_checkers (b : Board) (c : Bitboard) : Board :=
  mkBoard (m_hash b) (m_pieces b) (m_board_pieces b) (m_turn b)
          (m_castling_rights b) (m_enpassant_square b) (m_half_move_clock b)
          (m_full_move_clock b) (m_psq b) (m_phase b) c.

Definition set_castling_rights (b : Board) (r : CastleSide -> Turn -> bool)
  : Board :=
  mkBoard (m_hash b) (m_pieces b) (m_board_pieces b) (m_turn b) r
          (m_enpassant_square b) (m_half_move_clock b) (m_full_move_clock b)
          (m_psq b) (m_phase b) (m_checkers b).

(** Array updates [a[i][j] = v] and [a[i] = v]. *)
Definition upd_pieces (f : PieceType -> Turn -> Bitboard)
           (p : PieceType) (t : Turn) (v : Bitboard)
  : PieceType -> Turn -> Bitboard :=
  fun p' t' => if PieceType_eqb p' p && Turn_eqb t' t then v else f p' t'.

Definition upd_mailbox (f : Square -> Piece) (s : Square) (v : Piece)
  : Square -> Piece :=
  fun s' => if s' =? s then v else f s'.

Definition upd_rights (f : CastleSide -> Turn -> bool)
           (side : CastleSide) (t : Turn) (v : bool)
  : CastleSide -> Turn -> bool :=
  fun side' t' => if CastleSide_eqb side' side && Turn_eqb t' t then v
                  else f side' t'.

(** [Board::get_piece_at]: the piece type in the mailbox. *)
Definition get_piece_at (b : Board) (s : Square) : PieceType :=
  get_piece_type (m_board_pieces b s).

(** [Board::get_pieces(Turn, PieceType)]. *)
Definition get_pieces_tp (b : Board) (t : Turn) (p : PieceType) : Bitboard :=
  m_pieces b p t.

(** [Board::get_pieces<TURN>()]: all pieces of one side. *)
Definition get_pieces_turn (b : Board) (t : Turn) : Bitboard :=
  fold_left (fun acc p => Z.lor acc (m_pieces b p t)) piece_types 0.

(** [Board::get_pieces()]. *)
Definition get_pieces (b : Board) : Bitboard :=
  Z.lor (get_pieces_turn b WHITE) (get_pieces_turn b BLACK).

(** [Board::operator==] (position.cpp:417-436). *)
Definition Board_eq (a b : Board) : bool :=
  if negb (m_hash a =? m_hash b) then false
  else if negb (Turn_eqb (m_turn a) (m_turn b))
          || negb (m_enpassant_square a =? m_enpassant_square b) then false
  else if negb (forallb (fun side =>
                  forallb (fun t =>
                    Bool.eqb (m_castling_rights a side t)
                             (m_castling_rights b side t)) turns)
                castle_sides) then false
  else if negb (forallb (fun p =>
                  forallb (fun t => m_pieces a p t =? m_pieces b p t) turns)
                piece_types) then false
  else true.


(* ================================================================== *)
(** * Attack geometry *)
(* ================================================================== *)

(** Modelled from the spec: the attack tables of [bitboard.hpp] are not in
    the sources.  The contract of the spec is that
    [attacks(piece, sq, occ)] returns exactly the squares pseudo-legally
    reachable; they are computed here by walking files and ranks. *)
Definition step_square (s : Square) (df dr : Z) : option Square :=
  let f := file s + df in
  let r := rank s + dr in
  if valid_square s && (0 <=? f) && (f <? 8) && (0 <=? r) && (r <? 8)
  then Some (make_square r f) else None.

Definition leaper_attacks (deltas : list (Z * Z)) (s : Square) : Bitboard :=
  fold_left (fun acc d => match step_square s (fst d) (snd d) with
                          | Some t => bb_set acc t
                          | None => acc
                          end) deltas 0.

Definition knight_deltas : list (Z * Z) :=
  [(1, 2); (2, 1); (2, -1); (1, -2); (-1, -2); (-2, -1); (-2, 1); (-1, 2)].
Definition king_deltas : list (Z * Z) :=
  [(1, 0); (1, 1); (0, 1); (-1, 1); (-1, 0); (-1, -1); (0, -1); (1, -1)].
Definition pawn_deltas (t : Turn) : list (Z * Z) :=
  match t with
  | WHITE => [(-1, 1); (1, 1)]
  | BLACK => [(-1, -1); (1, -1)]
  end.
Definition bishop_dirs : list (Z * Z) := [(1, 1); (1, -1); (-1, 1); (-1, -1)].
Definition rook_dirs : list (Z * Z) := [(1, 0); (0, 1); (-1, 0); (0, -1)].

(** The squares seen from [s] along one direction, up to and including the
    first occupied one. *)
Fixpoint ray (fuel : nat) (s : Square) (df dr : Z) (occ : Bitboard)
  : Bitboard :=
  match fuel with
  | O => 0
  | S k =>
      match step_square s df dr with
      | None => 0
      | Some t =>
          if bb_test occ t then from_square t
          else Z.lor (from_square t) (ray k t df dr occ)
      end
  end.

Definition slider_attacks (dirs : list (Z * Z)) (s : Square) (occ : Bitboard)
  : Bitboard :=
  fold_left (fun acc d => Z.lor acc (ray 7 s (fst d) (snd d) occ)) dirs 0.

Definition pawn_attacks (t : Turn) (s : Square) : Bitboard :=
  leaper_attacks (pawn_deltas t) s.
Definition knight_attacks (s : Square) : Bitboard :=
  leaper_attacks knight_deltas s.
Definition king_attacks (s : Square) : Bitboard :=
  leaper_attacks king_deltas s.
Definition bishop_attacks (s : Square) (occ : Bitboard) : Bitboard :=
  slider_attacks bishop_dirs s occ.
Definition rook_attacks (s : Square) (occ : Bitboard) : Bitboard :=
  slider_attacks rook_dirs s occ.

(** Modelled from the spec: [attackers(sq, occ, side)] = pawns of [side]
    attacking [sq], united with the knight attacks, the king attacks, the
    bishop/queen diagonal attacks through [occ] and the rook/queen
    orthogonal attacks through [occ]. *)
Definition attackers (b : Board) (sq : Square) (occ : Bitboard) (side : Turn)
  : Bitboard :=
  Z.lor (Z.lor (Z.lor (Z.lor
    (Z.land (pawn_attacks (opp side) sq) (m_pieces b PAWN side))
    (Z.land (knight_attacks sq) (m_pieces b KNIGHT side)))
    (Z.land (king_attacks sq) (m_pieces b KING side)))
    (Z.land (bishop_attacks sq occ)
            (Z.lor (m_pieces b BISHOP side) (m_pieces b QUEEN side))))
    (Z.land (rook_attacks sq occ)
            (Z.lor (m_pieces b ROOK side) (m_pieces b QUEEN side))).

(** Modelled from the spec: [update_checkers()] computes
    [attackers(our_king, all_occ, enemy)]. *)
Definition update_checkers (b : Board) : Board :=
  set_checkers b
    (attackers b (bitscan_forward (m_pieces b KING (m_turn b)))
               (get_pieces b) (opp (m_turn b))).

(** [Board::make_null_move] (position.cpp:362-375) is defined with the
    Zobrist keys below. *)

Definition pawn_push (t : Turn) : Z :=
  match t with WHITE => 8 | BLACK => -8 end.

Definition king_home (t : Turn) : Square :=
  match t with WHITE => 4 | BLACK => 60 end.

(** The rook home squares that [make_move] compares against. *)
Definition rook_home (side : CastleSide) (t : Turn) : Square :=
  match side, t with
  | KINGSIDE, WHITE => SQUARE_H1
  | KINGSIDE, BLACK => SQUARE_H8
  | _, WHITE => SQUARE_A1
  | _, BLACK => SQUARE_A8
  end.

(** [enum class MoveGenType]. *)
Module MoveGenType.
Inductive t : Type := CAPTURES | QUIETS | LEGAL.
End MoveGenType.

(** The flag patterns a generated move can carry. *)
Definition move_types : list Z :=
  [QUIET; DOUBLE_PAWN_PUSH; KING_CASTLE; QUEEN_CASTLE; CAPTURE; EP_CAPTURE;
   KNIGHT_PROMO; BISHOP_PROMO; ROOK_PROMO; QUEEN_PROMO;
   KNIGHT_PROMO_CAPTURE; BISHOP_PROMO_CAPTURE; ROOK_PROMO_CAPTURE;
   QUEEN_PROMO_CAPTURE].

(** Every move value that leaves the square [from]. *)
Definition moves_from (from : Square) : list Move :=
  flat_map (fun to => map (fun mt => mk_move from to mt) move_types)
           all_squares.

Section BoardOps.

Variable zk : ZobristKeys.
Variable ev : EvalTables.

(* ------------------------------------------------------------------ *)
(** ** Piece-level primitives *)

(** Modelled from the spec: [set_piece], [pop_piece] and [move_piece] are
    defined in [position.hpp], which is not in the sources.  Per the spec,
    every piece-level primitive XORs the Zobrist term, adjusts the
    PST/material accumulator (piece value plus piece-square entry, signed
    by colour) and updates the phase. *)
Definition set_piece (b : Board) (p : PieceType) (t : Turn) (s : Square)
  : Board :=
  mkBoard (Z.lxor (m_hash b) (get_piece_turn_square zk p t s))
          (upd_pieces (m_pieces b) p t (bb_set (m_pieces b p t) s))
          (upd_mailbox (m_board_pieces b) s (Pc p t))
          (m_turn b) (m_castling_rights b) (m_enpassant_square b)
          (m_half_move_clock b) (m_full_move_clock b)
          (ms_add (m_psq b)
                  (ms_scale (ms_add (piece_value ev p) (piece_square ev p s t))
                            (turn_to_color t)))
          (u8 (m_phase b - Phases_Pieces ev p))
          (m_checkers b).

(** Modelled from the spec: the inverse of [set_piece]. *)
Definition pop_piece (b : Board) (p : PieceType) (t : Turn) (s : Square)
  : Board :=
  mkBoard (Z.lxor (m_hash b) (get_piece_turn_square zk p t s))
          (upd_pieces (m_pieces b) p t (bb_reset (m_pieces b p t) s))
          (upd_mailbox (m_board_pieces b) s NO_PIECE)
          (m_turn b) (m_castling_rights b) (m_enpassant_square b)
          (m_half_move_clock b) (m_full_move_clock b)
          (ms_sub (m_psq b)
                  (ms_scale (ms_add (piece_value ev p) (piece_square ev p s t))
                            (turn_to_color t)))
          (u8 (m_phase b + Phases_Pieces ev p))
          (m_checkers b).

(** Modelled from the spec: the piece leaves [from] and lands on [to]. *)
Definition move_piece (b : Board) (p : PieceType) (t : Turn)
           (from to : Square) : Board :=
  set_piece (pop_piece b p t from) p t to.

(** Modelled from the spec: [set_castling<CAN_CASTLE>(side, turn)] of
    [position.hpp]; the castling term is XORed into the hash when the right
    changes, which keeps the hash the XOR of the active rights. *)
Definition set_castling (can : bool) (b : Board) (side : CastleSide)
           (t : Turn) : Board :=
  if Bool.eqb (m_castling_rights b side t) can then b
  else set_hash
         (set_castling_rights b (upd_rights (m_castling_rights b) side t can))
         (Z.lxor (m_hash b) (get_castle_side_turn zk side t)).

(* ------------------------------------------------------------------ *)
(** ** [Board::generate_hash] (position.cpp:174-202) *)

Definition hash_pieces (b : Board) (hash : Z) : Z :=
  fold_left (fun h t =>
    fold_left (fun h p =>
      bb_loop 64 (fun h s => Z.lxor h (get_piece_turn_square zk p t s))
              (m_pieces b p t) h)
      piece_types h)
    turns hash.

Definition hash_castling (b : Board) (hash : Z) : Z :=
  fold_left (fun h side =>
    fold_left (fun h t =>
      if m_castling_rights b side t
      then Z.lxor h (get_castle_side_turn zk side t) else h)
      turns h)
    castle_sides hash.

Definition generate_hash (b : Board) : Z :=
  let hash := 0 in
  let hash := hash_pieces b hash in
  let hash := if Turn_eqb (m_turn b) BLACK
              then Z.lxor hash (get_black_move zk) else hash in
  let hash := if negb (m_enpassant_square b =? SQUARE_NULL)
              then Z.lxor hash (get_ep_file zk (file (m_enpassant_square b)))
              else hash in
  hash_castling b hash.

(* ------------------------------------------------------------------ *)
(** ** [Board::make_move] (position.cpp:223-307) *)

(** Increment clocks; initial empty ep square. *)
Definition mm_clocks (b : Board) (move : Move) (result : Board) : Board :=
  let piece := get_piece_at b (move_from move) in
  let result :=
    set_full_move_clock result
      (m_full_move_clock result + turn_index (m_turn b)) in
  let result :=
    if PieceType_eqb piece PAWN || is_capture move
    then set_half_move_clock result 0
    else set_half_move_clock result (m_half_move_clock result + 1) in
  set_enpassant result SQUARE_NULL.

(** Update castling rights after this move. *)
Definition mm_castling (b : Board) (move : Move) (result : Board) : Board :=
  let turn := m_turn b in
  let piece := get_piece_at b (move_from move) in
  if PieceType_eqb piece KING then
    fold_left (fun r side => set_castling false r side turn)
              castle_sides result
  else if PieceType_eqb piece ROOK then
    let result :=
      if move_from move =? (match turn with WHITE => SQUARE_H1
                                          | BLACK => SQUARE_H8 end)
      then set_castling false result KINGSIDE turn else result in
    if move_from move =? (match turn with WHITE => SQUARE_A1
                                        | BLACK => SQUARE_A8 end)
    then set_castling false result QUEENSIDE turn else result
  else result.

(** Per move type action. *)
Definition mm_action (b : Board) (move : Move) (result : Board) : Board :=
  let turn := m_turn b in
  let up := pawn_push turn in
  if is_capture move then
    let target := if is_ep_capture move then move_to move - up
                  else move_to move in
    let result := pop_piece result (get_piece_at b target) (opp turn) target in
    let result :=
      if move_to move =? (match turn with WHITE => SQUARE_H8
                                        | BLACK => SQUARE_H1 end)
      then set_castling false result KINGSIDE (opp turn) else result in
    if move_to move =? (match turn with WHITE => SQUARE_A8
                                      | BLACK => SQUARE_A1 end)
    then set_castling false result QUEENSIDE (opp turn) else result
  else if is_double_pawn_push move then
    set_hash (set_enpassant result (move_to move - up))
             (Z.lxor (m_hash result) (get_ep_file zk (file (move_to move))))
  else if is_castle move then
    let iS := move_to move + (if move_to move >? move_from move
                              then 1 else -2) in
    let iE := move_to move + (if move_to move >? move_from move
                              then -1 else 1) in
    move_piece result ROOK turn iS iE
  else result.

(** Set piece on target square. *)
Definition mm_place (b : Board) (move : Move) (result : Board) : Board :=
  let turn := m_turn b in
  let piece := get_piece_at b (move_from move) in
  if is_promotion move then
    set_piece (pop_piece result piece turn (move_from move))
              (promo_piece move) turn (move_to move)
  else move_piece result piece turn (move_from move) (move_to move).

(** Swap turns; reset previous en-passant hash. *)
Definition mm_finish (b : Board) (result : Board) : Board :=
  let result := set_turn result (opp (m_turn b)) in
  let result := set_hash result (Z.lxor (m_hash result) (get_black_move zk)) in
  if negb (m_enpassant_square b =? SQUARE_NULL)
  then set_hash result
         (Z.lxor (m_hash result) (get_ep_file zk (file (m_enpassant_square b))))
  else result.

Definition make_move (b : Board) (move : Move) : Board :=
  let result := b in
  let result := mm_clocks b move result in
  let result := mm_castling b move result in
  let result := mm_action b move result in
  let result := mm_place b move result in
  let result := mm_finish b result in
  update_checkers result.

(* ------------------------------------------------------------------ *)
(** ** [Board::make_null_move] (position.cpp:362-375) *)

Definition make_null_move (b : Board) : Board :=
  let result := b in
  let result := set_enpassant result SQUARE_NULL in
  let result :=
    if negb (m_enpassant_square b =? SQUARE_NULL)
    then set_hash result
           (Z.lxor (m_hash result)
                   (get_ep_file zk (file (m_enpassant_square b))))
    else result in
  let result := set_turn result (opp (m_turn b)) in
  set_hash result (Z.lxor (m_hash result) (get_black_move zk)).

(* ------------------------------------------------------------------ *)
(** ** [Board::is_valid] (position.cpp:310-359) *)

(** Bitboard consistency: the running occupancy, or [None] as soon as one
    bitboard meets it. *)
Definition bitboard_occupancy (b : Board) : option Bitboard :=
  fold_left (fun acc p =>
    fold_left (fun acc t =>
      match acc with
      | None => None
      | Some occupancy =>
          if bb_any (Z.land (m_pieces b p t) occupancy) then None
          else Some (Z.lor occupancy (m_pieces b p t))
      end) turns acc)
    piece_types (Some 0).

(** Piece-square consistency. *)
Definition mailbox_consistent (b : Board) (occupancy : Bitboard) : bool :=
  forallb (fun square =>
    match m_board_pieces b square with
    | NO_PIECE => negb (bb_test occupancy square)
    | pc => bb_test (m_pieces b (get_piece_at b square) (get_turn pc)) square
    end) all_squares.

(** Material and phase evaluation, from scratch. *)
Definition material_phase (b : Board) : Z * MixedScore :=
  fold_left (fun acc p =>
    fold_left (fun (acc : Z * MixedScore) t =>
      let bb := get_pieces_tp b t p in
      let eval :=
        ms_add (snd acc)
               (ms_scale (ms_scale (piece_value ev p) (bb_count bb))
                         (turn_to_color t)) in
      let phase := u8 (fst acc - bb_count bb * Phases_Pieces ev p) in
      let eval :=
        bb_loop 64 (fun e s =>
                      ms_add e (ms_scale (piece_square ev p s t)
                                         (turn_to_color t)))
                bb eval in
      (phase, eval)) turns acc)
    piece_types (u8 (Phases_Total ev), mkScore 0 0).

Definition is_valid (b : Board) : bool :=
  let king_square := bitscan_forward (m_pieces b KING (opp (m_turn b))) in
  if bb_any (attackers b king_square (get_pieces b) (m_turn b)) then false
  else
    match bitboard_occupancy b with
    | None => false
    | Some occupancy =>
        if negb (mailbox_consistent b occupancy) then false
        else if negb (m_hash b =? generate_hash b) then false
        else
          let '(phase, eval) := material_phase b in
          if negb (phase =? m_phase b) then false
          else if negb (middlegame eval =? middlegame (m_psq b))
                  || negb (endgame eval =? endgame (m_psq b)) then false
          else true
    end.

(* ------------------------------------------------------------------ *)
(** ** [Board::legal] (position.cpp:514-566) *)

(** Modelled from the spec: the per-piece templates [legal<PIECE>] are in
    [position.hpp], not in the sources.  Rule 5 of the spec is the
    per-piece geometry check against the current occupancy. *)
Definition pawn_geometry (b : Board) (move : Move) (occ : Bitboard) : bool :=
  let t := m_turn b in
  let up := pawn_push t in
  let from := move_from move in
  let to := move_to move in
  (if is_capture move then bb_test (pawn_attacks t from) to
   else if is_double_pawn_push move then
     (rank from =? (match t with WHITE => 1 | BLACK => 6 end))
     && (to =? from + 2 * up) && negb (bb_test occ (from + up))
   else to =? from + up)
  && Bool.eqb (is_promotion move)
              (rank to =? (match t with WHITE => 7 | BLACK => 0 end)).

(** Modelled from the spec: castling needs the right, empty squares between
    king and rook, and a king path that is not attacked (e to g with f
    unattacked, e to c with d unattacked and b empty); the king may not
    castle out of check. *)
Definition castle_geometry (b : Board) (move : Move) (occ : Bitboard) : bool :=
  let t := m_turn b in
  let from := king_home t in
  let attacked s := bb_any (attackers b s occ (opp t)) in
  (move_from move =? from) && negb (attacked from) &&
  (if move_type move =? KING_CASTLE then
     m_castling_rights b KINGSIDE t && (move_to move =? from + 2)
     && negb (bb_test occ (from + 1)) && negb (bb_test occ (from + 2))
     && negb (attacked (from + 1))
   else
     m_castling_rights b QUEENSIDE t && (move_to move =? from - 2)
     && negb (bb_test occ (from - 1)) && negb (bb_test occ (from - 2))
     && negb (bb_test occ (from - 3)) && negb (attacked (from - 1))).

Definition piece_geometry (p : PieceType) (b : Board) (move : Move)
           (occ : Bitboard) : bool :=
  let from := move_from move in
  let to := move_to move in
  match p with
  | PAWN => pawn_geometry b move occ
  | KNIGHT => bb_test (knight_attacks from) to
  | BISHOP => bb_test (bishop_attacks from occ) to
  | ROOK => bb_test (rook_attacks from occ) to
  | QUEEN => bb_test (Z.lor (bishop_attacks from occ) (rook_attacks from occ)) to
  | KING => if is_castle move then castle_geometry b move occ
            else bb_test (king_attacks from) to
  | PIECE_NONE => false
  end.

(** Modelled from the spec: rule 6, "after the move, our king must not be
    attacked". *)
Definition king_safe_after (b : Board) (move : Move) : bool :=
  let r := make_move b move in
  negb (bb_any (attackers r (bitscan_forward (m_pieces r KING (m_turn b)))
                          (get_pieces r) (opp (m_turn b)))).

(** Modelled from the spec: [legal<PIECE>(move, occupancy)]. *)
Definition legal_piece (p : PieceType) (b : Board) (move : Move)
           (occ : Bitboard) : bool :=
  piece_geometry p b move occ && king_safe_after b move.

(** The body of [Board::legal], with the per-piece check it dispatches to
    as a parameter. *)
Definition legal_with (final : PieceType -> Board -> Move -> Bitboard -> bool)
           (b : Board) (move : Move) : bool :=
  (* Same source and destination squares? *)
  if move_from move =? move_to move then false
  (* Ep without the square defined? *)
  else if is_ep_capture move
          && ((m_enpassant_square b =? SQUARE_NULL)
              || negb (move_to move =? m_enpassant_square b)) then false
  (* Valid movetype? *)
  else if (move_type move =? INVALID_1) || (move_type move =? INVALID_2)
  then false
  else
    (* Source square is not ours or destination ours? *)
    let our_pieces := get_pieces_turn b (m_turn b) in
    if negb (bb_test our_pieces (move_from move))
       || bb_test our_pieces (move_to move) then false
    else
      (* Capture and destination square not occupied by the opponent? *)
      let piece := get_piece_at b (move_from move) in
      let enemy_pieces := Z.land (get_pieces b) (bb_not our_pieces) in
      let enemy_pieces :=
        if is_ep_capture move && PieceType_eqb piece PAWN
           && negb (m_enpassant_square b =? SQUARE_NULL)
        then bb_set enemy_pieces (m_enpassant_square b) else enemy_pieces in
      if negb (Bool.eqb (bb_test enemy_pieces (move_to move))
                        (is_capture move)) then false
      (* Pawn flags *)
      else if negb (PieceType_eqb piece PAWN)
              && (is_double_pawn_push move || is_ep_capture move
                  || is_promotion move) then false
      (* King flags *)
      else if negb (PieceType_eqb piece KING) && is_castle move then false
      else
        let occupancy := get_pieces b in
        match piece with
        | PIECE_NONE => false
        | p => final p b move occupancy
        end.

Definition legal (b : Board) (move : Move) : bool :=
  legal_with legal_piece b move.

(** A move that passes every test of [legal] except king safety. *)
Definition pseudo_legal (b : Board) (move : Move) : bool :=
  legal_with piece_geometry b move.

(** Modelled from the spec: [generate_moves(out, type)] emits the
    pseudo-legal moves filtered by [type]; [LEGAL] post-filters by king
    safety.  The templates [generate_moves<TURN>] are not in the sources;
    the moves are listed piece by piece, lowest origin square first. *)
Definition candidate_moves (b : Board) : list Move :=
  flat_map moves_from (bb_squares (get_pieces_turn b (m_turn b))).

Definition generate_moves (b : Board) (type : MoveGenType.t) : list Move :=
  match type with
  | MoveGenType.CAPTURES =>
      filter (fun m => pseudo_legal b m && is_capture m) (candidate_moves b)
  | MoveGenType.QUIETS =>
      filter (fun m => pseudo_legal b m && negb (is_capture m))
             (candidate_moves b)
  | MoveGenType.LEGAL => filter (legal b) (candidate_moves b)
  end.

(** [Board::see] is not needed by the properties below. *)

End BoardOps.

(* ================================================================== *)
(** * FEN *)
(* ================================================================== *)

(** A [std::string] is a sequence of characters; an iterator into it is the
    suffix that starts at the character it points to, and the empty suffix
    stands for [cend()] and everything past it. *)
Definition code (c : ascii) : Z := Z.of_N (N_of_ascii c).
Definition char_of (z : Z) : ascii := ascii_of_N (Z.to_N z).

Definition isspace (c : ascii) : bool :=
  (code c =? 32) || ((9 <=? code c) && (code c <=? 13)).
Definition isdigit (c : ascii) : bool := (48 <=? code c) && (code c <=? 57).
Definition isupper (c : ascii) : bool := (65 <=? code c) && (code c <=? 90).
Definition islower (c : ascii) : bool := (97 <=? code c) && (code c <=? 122).
Definition tolower (c : ascii) : ascii :=
  if isupper c then char_of (code c + 32) else c.
Definition toupper (c : ascii) : ascii :=
  if islower c then char_of (code c - 32) else c.

Definition char_eqb (a b : ascii) : bool := code a =? code b.

(** [PieceType fen_piece(char c)] (position.cpp:12-22). *)
Definition fen_piece (c : ascii) : PieceType :=
  let lower := tolower c in
  if char_eqb lower "p" then PAWN
  else if char_eqb lower "n" then KNIGHT
  else if char_eqb lower "b" then BISHOP
  else if char_eqb lower "r" then ROOK
  else if char_eqb lower "q" then QUEEN
  else if char_eqb lower "k" then KING
  else PIECE_NONE.

(** [char fen_piece(Piece pc)] (position.cpp:25-36). *)
Definition fen_piece_char (pc : Piece) : ascii :=
  let piece := get_piece_type pc in
  let p := match piece with
           | PAWN => "p" | KNIGHT => "n" | BISHOP => "b"
           | ROOK => "r" | QUEEN => "q" | KING => "k"
           | PIECE_NONE => "x"
           end%char in
  match get_turn pc with WHITE => toupper p | BLACK => p end.

(** [CastleSide fen_castle_side(char c)] (position.cpp:39-45). *)
Definition fen_castle_side (c : ascii) : CastleSide :=
  let lower := tolower c in
  if char_eqb lower "k" then KINGSIDE
  else if char_eqb lower "q" then QUEENSIDE
  else NO_SIDE.

(** [char fen_castle_side(CastleSide side, Turn turn)] (position.cpp:48-54). *)
Definition fen_castle_side_char (side : CastleSide) (t : Turn) : ascii :=
  let c := match side with
           | KINGSIDE => "k" | QUEENSIDE => "q" | NO_SIDE => "x"
           end%char in
  match t with WHITE => toupper c | BLACK => c end.

(** [ss << n] for an [int]: decimal digits, most significant first. *)
Fixpoint digits_rev (fuel : nat) (n : Z) : list ascii :=
  match fuel with
  | O => []
  | S k =>
      let d := char_of (48 + n mod 10) in
      if n <? 10 then [d] else d :: digits_rev k (n / 10)
  end.

Definition show_int (z : Z) : list ascii :=
  if z <? 0 then "-"%char :: rev (digits_rev (S (Z.to_nat (Z.log2 (- z)))) (- z))
  else rev (digits_rev (S (Z.to_nat (Z.log2 z))) z).

(** Modelled from the spec: [get_square] prints a square as file letter and
    rank digit, [a1] to [h8]. *)
Definition get_square (s : Square) : list ascii :=
  [char_of (97 + file s); char_of (49 + rank s)].

(** The empty board that the constructor starts from. *)
Definition blank_board (phase : Z) : Board :=
  mkBoard 0 (fun _ _ => 0) (fun _ => NO_PIECE) WHITE (fun _ _ => false)
          SQUARE_NULL 0 0 (mkScore 0 0) phase 0.

Section Fen.

Variable zk : ZobristKeys.
Variable ev : EvalTables.

(** Read position: the first loop of [Board::Board(std::string)]. *)
Fixpoint parse_placement (c : list ascii) (square : Square) (b : Board)
  : list ascii * Board :=
  match c with
  | [] => ([], b)
  | ch :: rest =>
      if isspace ch then (c, b)
      else if isdigit ch then parse_placement rest (square + (code ch - 48)) b
      else if char_eqb ch "/" then parse_placement rest (square - 16) b
      else parse_placement rest (square + 1)
             (set_piece zk ev b (fen_piece ch)
                        (if isupper ch then WHITE else BLACK) square)
  end.

(** [while ((++c) < fen.cend() && !isspace( *c)) body;] started on the
    iterator already advanced once: every round reads one character. *)
Fixpoint field_loop {S : Type} (body : S -> ascii -> S) (c : list ascii)
         (st : S) : list ascii * S :=
  match c with
  | [] => ([], st)
  | ch :: rest =>
      if isspace ch then (c, st) else field_loop body rest (body st ch)
  end.

(** The ep loop advances the iterator inside its body as well. *)
Fixpoint parse_ep (c : list ascii) (ep : Square) : list ascii * Square :=
  match c with
  | [] => ([], ep)
  | ch :: rest =>
      if isspace ch then (c, ep)
      else if negb (char_eqb ch "-") then
        match rest with
        | [] => ([], ep)
        | d :: rest' =>
            if isspace d then parse_ep rest' ep
            else parse_ep rest' (make_square (code d - 49) (code ch - 97))
        end
      else parse_ep rest ep
  end.

(** [Board::Board(std::string fen)] (position.cpp:62-121). *)
Definition Board_of_fen (fen : list ascii) : Board :=
  let b := blank_board (u8 (Phases_Total ev)) in
  (* Read position *)
  let '(c, b) := parse_placement fen SQUARE_A8 b in
  (* Side to move *)
  let '(c, turn) :=
    field_loop (fun _ ch => if char_eqb ch "w" then WHITE else BLACK)
               (tl c) WHITE in
  let b := set_turn b turn in
  (* Castling rights *)
  let b := set_castling_rights b (fun _ _ => false) in
  let '(c, b) :=
    field_loop (fun b ch =>
                  match fen_castle_side ch with
                  | NO_SIDE => b
                  | side => set_castling zk true b side
                              (if isupper ch then WHITE else BLACK)
                  end) (tl c) b in
  (* Ep square *)
  let '(c, ep) := parse_ep (tl c) SQUARE_NULL in
  let b := set_enpassant b ep in
  (* Half-move clock *)
  let '(c, hmc) := field_loop (fun n ch => n * 10 + (code ch - 48)) (tl c) 0 in
  let b := set_half_move_clock b hmc in
  (* Full-move clock *)
  let '(c, fmc) := field_loop (fun n ch => n * 10 + (code ch - 48)) (tl c) 0 in
  let b := set_full_move_clock b (Z.max fmc 1) in
  (* Update remaining hash: turn and ep square *)
  let b := if Turn_eqb (m_turn b) BLACK
           then set_hash b (Z.lxor (m_hash b) (get_black_move zk)) else b in
  let b := if negb (m_enpassant_square b =? SQUARE_NULL)
           then set_hash b (Z.lxor (m_hash b)
                                   (get_ep_file zk (file (m_enpassant_square b))))
           else b in
  update_checkers b.

End Fen.

(** One rank of the position field of [Board::to_fen]. *)
Definition fen_rank (b : Board) (rank : Z) : list ascii :=
  let '(out, space) :=
    fold_left (fun (acc : list ascii * Z) file =>
                 let '(out, space) := acc in
                 match m_board_pieces b (make_square rank file) with
                 | NO_PIECE => (out, space + 1)
                 | pc =>
                     (out ++ (if negb (space =? 0) then show_int space else [])
                          ++ [fen_piece_char pc], 0)
                 end)
              [0; 1; 2; 3; 4; 5; 6; 7] ([], 0) in
  out ++ (if negb (space =? 0) then show_int space else [])
      ++ [if rank >? 0 then "/" else " "]%char.

(** [Board::to_fen] (position.cpp:124-171). *)
Definition to_fen (b : Board) : list ascii :=
  (* Position *)
  let ss := flat_map (fen_rank b) [7; 6; 5; 4; 3; 2; 1; 0] in
  (* Side to move *)
  let ss := ss ++ (match m_turn b with
                   | WHITE => ["w"; " "] | BLACK => ["b"; " "]
                   end)%char in
  (* Castling rights *)
  let rights :=
    flat_map (fun t =>
      flat_map (fun side =>
        if m_castling_rights b side t then [fen_castle_side_char side t]
        else []) castle_sides) turns in
  let found := negb (Nat.eqb (List.length rights) 0) in
  let ss := ss ++ rights ++ (if found then [" "] else ["-"; " "])%char in
  (* Ep square *)
  let ss := ss ++ (if m_enpassant_square b =? SQUARE_NULL then ["-"%char]
                   else get_square (m_enpassant_square b)) ++ [" "%char] in
  (* Half- and full-move clocks *)
  ss ++ show_int (m_half_move_clock b) ++ [" "%char]
     ++ show_int (m_full_move_clock b).

Definition startpos_fen : list ascii :=
  String.list_ascii_of_string
    "rnbqkbnr/pppppppp/8/8/8/8/PPPPPPPP/RNBQKBNR w KQkq - 0 1".

(* ================================================================== *)
(** * Position: the move stack *)
(* ================================================================== *)

Module Position.

Record MoveInfo : Type := mkMoveInfo { move : Move; extended : bool }.

(** [m_boards] and [m_moves] are vectors, [push_back] appends at the end.
    [m_stack] is the [MoveStack], of which only the depth cursor moved by
    [++] and [--] matters here; [m_pos], [m_extensions] are counters. *)
Record t : Type := mk {
  m_boards : list Board;
  m_stack : Z;
  m_pos : Z;
  m_extensions : Z;
  m_moves : list MoveInfo;
  m_reduced : bool
}.

(** [back()] and [operator[]] of an empty vector are undefined; the model
    reads a blank board there. *)
Definition no_board : Board := blank_board 0.

(** [Position::board] (position.cpp:711-720). *)
Definition board (p : t) : Board := last (m_boards p) no_board.

Definition board_at (p : t) (i : Z) : Board :=
  nth (Z.to_nat i) (m_boards p) no_board.

(** [Position::hash]. *)
Definition hash (p : t) : Z := m_hash (board p).

(** The inner walk of [is_draw]: [while (pos2 >= min_pos)]. *)
Fixpoint draw_walk2 (fuel : nat) (p : t) (min_pos pos2 : Z) : bool :=
  match fuel with
  | O => false
  | S k =>
      if pos2 >=? min_pos then
        if m_hash (board p) =? m_hash (board_at p pos2) then true
        else draw_walk2 k p min_pos (pos2 - 2)
      else false
  end.

(** The outer walk of [is_draw]: [while (pos1 >= min_pos)]. *)
Fixpoint draw_walk1 (fuel : nat) (p : t) (unique : bool) (min_pos pos1 : Z)
  : bool :=
  match fuel with
  | O => false
  | S k =>
      if pos1 >=? min_pos then
        if m_hash (board p) =? m_hash (board_at p pos1) then
          if unique then true
          else if draw_walk2 fuel p min_pos (pos1 - 4) then true
          else draw_walk1 k p unique min_pos (pos1 - 2)
        else draw_walk1 k p unique min_pos (pos1 - 2)
      else false
  end.

(** [Position::is_draw] (position.cpp:611-644). *)
Definition is_draw (p : t) (unique : bool) : bool :=
  (* Fifty move rule *)
  if m_half_move_clock (board p) >=? 100 then true
  else
    (* Repetitions *)
    let cur_pos := Z.of_nat (List.length (m_boards p)) - 1 in
    let n_moves := Z.min (cur_pos + 1) (m_half_move_clock (board p)) in
    let min_pos := cur_pos - n_moves + 1 in
    if n_moves >=? 8 then
      draw_walk1 (List.length (m_boards p)) p unique min_pos (cur_pos - 4)
    else false.

(** [Position::in_check]. *)
Definition in_check (p : t) : bool := bb_any (m_checkers (board p)).

(** [Position::get_turn]. *)
Definition get_turn (p : t) : Turn := m_turn (board p).

(** [Position::move_list]: the empty list at the current stack depth. *)
Definition move_list (p : t) : list Move := [].

Definition num_extensions (p : t) : Z := m_extensions p.
Definition ply (p : t) : Z := m_pos p.
Definition reduced (p : t) : bool := m_reduced p.

(** [Position::set_init_ply] (position.cpp:741-745). *)
Definition set_init_ply (p : t) : t :=
  mk (m_boards p) 0 0 (m_extensions p) (m_moves p) (m_reduced p).

(** [Position::unmake_move] (position.cpp:679-690). *)
Definition unmake_move (p : t) : t :=
  let boards := removelast (m_boards p) in
  let stack := m_stack p - 1 in
  let pos := m_pos p - 1 in
  let info := last (m_moves p) (mkMoveInfo MOVE_NULL false) in
  let extensions :=
    if extended info then m_extensions p - 1 else m_extensions p in
  mk boards stack pos extensions (removelast (m_moves p)) (m_reduced p).

(** [Position::unmake_null_move] (position.cpp:702-708). *)
Definition unmake_null_move (p : t) : t :=
  mk (removelast (m_boards p)) (m_stack p - 1) (m_pos p - 1)
     (m_extensions p) (removelast (m_moves p)) (m_reduced p).

Section WithTables.

Variable zk : ZobristKeys.
Variable ev : EvalTables.

(** [Position::Position()] and [Position::Position(std::string)]
    (position.cpp:599-608). *)
Definition create (fen : list ascii) : t :=
  mk [Board_of_fen zk ev fen] 0 0 0 [] false.

(** [Position::generate_moves]. *)
Definition generate_moves (p : t) (type : MoveGenType.t) : list Move :=
  generate_moves zk ev (board p) type.

(** [Position::make_move] (position.cpp:667-676). *)
Definition make_move (p : t) (move : Move) (extension : bool) : t :=
  let stack := m_stack p + 1 in
  let pos := m_pos p + 1 in
  let boards := m_boards p ++ [make_move zk ev (board p) move] in
  let moves := m_moves p ++ [mkMoveInfo move extension] in
  let extensions :=
    if extension then m_extensions p + 1 else m_extensions p in
  mk boards stack pos extensions moves (m_reduced p).

(** [Position::make_null_move] (position.cpp:693-699). *)
Definition make_null_move (p : t) : t :=
  mk (m_boards p ++ [make_null_move zk (board p)]) (m_stack p + 1)
     (m_pos p + 1) (m_extensions p)
     (m_moves p ++ [mkMoveInfo MOVE_NULL false]) (m_reduced p).

(** The position reached from a FEN by the moves of a
    [position ... moves ...] command (uci: [make_move] then
    [set_init_ply] for each move). *)
Definition play (fen : list ascii) (moves : list Move) : t :=
  fold_left (fun p m => set_init_ply (make_move p m false)) moves (create fen).

End WithTables.

End Position.

(* ================================================================== *)
(** * Histories *)
(* ================================================================== *)

Definition NUM_KILLERS : Z := 3.

Module Histories.

Record t : Type := mk {
  m_killers : Z -> Z -> Move;
  m_butterfly : Turn -> Square -> Square -> Z;
  m_piece_type : PieceType -> Square -> Z;
  m_countermoves : Square -> Square -> Move
}.

(** [Histories::clear] (move_order.cpp:16-34). *)
Definition clear : t :=
  mk (fun _ _ => MOVE_NULL) (fun _ _ _ => 0) (fun _ _ => 0)
     (fun _ _ => MOVE_NULL).

Definition upd_butterfly (f : Turn -> Square -> Square -> Z)
           (t : Turn) (from to : Square) (v : Z) :=
  fun t' from' to' =>
    if Turn_eqb t' t && (from' =? from) && (to' =? to) then v
    else f t' from' to'.

Definition upd_piece_type (f : PieceType -> Square -> Z)
           (p : PieceType) (to : Square) (v : Z) :=
  fun p' to' => if PieceType_eqb p' p && (to' =? to) then v else f p' to'.

Definition upd_move2 (f : Z -> Z -> Move) (i j : Z) (v : Move) :=
  fun i' j' => if (i' =? i) && (j' =? j) then v else f i' j'.

(** [Histories::add_bonus] (move_order.cpp:37-41). *)
Definition add_bonus (h : t) (move : Move) (turn : Turn) (piece : PieceType)
           (bonus : Z) : t :=
  mk (m_killers h)
     (upd_butterfly (m_butterfly h) turn (move_from move) (move_to move)
        (m_butterfly h turn (move_from move) (move_to move) + bonus))
     (upd_piece_type (m_piece_type h) piece (move_to move)
        (m_piece_type h piece (move_to move) + bonus))
     (m_countermoves h).

(** [Histories::is_killer] (move_order.cpp:61-67). *)
Definition is_killer (h : t) (move : Move) (ply : Z) : bool :=
  existsb (fun i => m_killers h i ply =? move) [0; 1; 2].

(** [Histories::fail_high] (move_order.cpp:44-58). *)
Definition fail_high (h : t) (move prev_move : Move) (turn : Turn)
           (depth ply : Z) (piece : PieceType) : t :=
  let h := add_bonus h move turn piece (depth * depth) in
  let h := mk (m_killers h) (m_butterfly h) (m_piece_type h)
              (upd_move2 (m_countermoves h) (move_from prev_move)
                         (move_to prev_move) move) in
  (* Exit if killer already in the list *)
  if is_killer h move ply then h
  else
    (* Right-shift killers and add new one *)
    let k := m_killers h in
    let k := upd_move2 k 2 ply (k 1 ply) in
    let k := upd_move2 k 1 ply (k 0 ply) in
    let k := upd_move2 k 0 ply move in
    mk k (m_butterfly h) (m_piece_type h) (m_countermoves h).

Definition butterfly_score (h : t) (move : Move) (turn : Turn) : Z :=
  m_butterfly h turn (move_from move) (move_to move).

Definition piece_type_score (h : t) (move : Move) (piece : PieceType) : Z :=
  m_piece_type h piece (move_to move).

Definition get_killer (h : t) (index ply : Z) : Move := m_killers h index ply.

Definition countermove (h : t) (move : Move) : Move :=
  m_countermoves h (move_from move) (move_to move).

End Histories.

(* ================================================================== *)
(** * MoveOrder: the staged cursor *)
(* ================================================================== *)

(** [std::swap( *pos, *list_move)] on the shared move storage. *)
Definition swap_at (l : list Move) (i j : nat) : list Move :=
  let a := nth i l MOVE_NULL in
  let b := nth j l MOVE_NULL in
  map (fun k => if Nat.eqb k i then b
                else if Nat.eqb k j then a
                else nth k l MOVE_NULL)
      (seq 0 (List.length l)).

(** One valid behaviour of [std::sort] with the comparator
    [score(a) > score(b)]: insertion into a list kept in descending score
    order.  The standard leaves the order of moves with equal scores
    unspecified. *)
Fixpoint insert_desc (score : Move -> Z) (x : Move) (l : list Move)
  : list Move :=
  match l with
  | [] => [x]
  | y :: r => if score y <? score x then x :: l
              else y :: insert_desc score x r
  end.

Definition insertion_sort_desc (score : Move -> Z) (l : list Move)
  : list Move :=
  fold_right (insert_desc score) [] l.

Module MoveOrder.

Inductive MoveStage : Type :=
| HASH
| CAPTURES_INIT
| CAPTURES
| CAPTURES_END
| COUNTERMOVES
| KILLERS
| QUIET_INIT
| QUIET
| NO_MOVES.

Definition stage_index (s : MoveStage) : nat :=
  match s with
  | HASH => 0 | CAPTURES_INIT => 1 | CAPTURES => 2 | CAPTURES_END => 3
  | COUNTERMOVES => 4 | KILLERS => 5 | QUIET_INIT => 6 | QUIET => 7
  | NO_MOVES => 8
  end%nat.

(** [operator++(MoveStage&)] (move_order.cpp:102-106); it is never applied
    to [NO_MOVES]. *)
Definition next_stage (s : MoveStage) : MoveStage :=
  match s with
  | HASH => CAPTURES_INIT
  | CAPTURES_INIT => CAPTURES
  | CAPTURES => CAPTURES_END
  | CAPTURES_END => COUNTERMOVES
  | COUNTERMOVES => KILLERS
  | KILLERS => QUIET_INIT
  | QUIET_INIT => QUIET
  | QUIET => NO_MOVES
  | NO_MOVES => NO_MOVES
  end.

(** The cursor.  [m_position] and [m_histories] are references to objects
    that stay as they are while the cursor is in use; [m_moves] is the
    move list in the shared stack storage and [m_curr] the index the
    pointer of that name has reached in it. *)
Record t : Type := mk {
  m_position : Position.t;
  m_ply : Z;
  m_depth : Z;
  m_hash_move : Move;
  m_histories : Histories.t;
  m_prev_move : Move;
  m_quiescence : bool;
  m_moves : list Move;
  m_stage : MoveStage;
  m_countermove : Move;
  m_killer : Move;
  m_curr : nat
}.

Definition set_stage (mo : t) (s : MoveStage) : t :=
  mk (m_position mo) (m_ply mo) (m_depth mo) (m_hash_move mo)
     (m_histories mo) (m_prev_move mo) (m_quiescence mo) (m_moves mo) s
     (m_countermove mo) (m_killer mo) (m_curr mo).

Definition set_moves (mo : t) (l : list Move) (curr : nat) : t :=
  mk (m_position mo) (m_ply mo) (m_depth mo) (m_hash_move mo)
     (m_histories mo) (m_prev_move mo) (m_quiescence mo) l (m_stage mo)
     (m_countermove mo) (m_killer mo) curr.

Definition set_countermove (mo : t) (m : Move) : t :=
  mk (m_position mo) (m_ply mo) (m_depth mo) (m_hash_move mo)
     (m_histories mo) (m_prev_move mo) (m_quiescence mo) (m_moves mo)
     (m_stage mo) m (m_killer mo) (m_curr mo).

Definition set_killer (mo : t) (m : Move) : t :=
  mk (m_position mo) (m_ply mo) (m_depth mo) (m_hash_move mo)
     (m_histories mo) (m_prev_move mo) (m_quiescence mo) (m_moves mo)
     (m_stage mo) (m_countermove mo) m (m_curr mo).

(** [MoveOrder::MoveOrder] (move_order.cpp:94-99). *)
Definition create (pos : Position.t) (ply depth : Z) (hash_move : Move)
           (histories : Histories.t) (prev_move : Move) (quiescence : bool)
  : t :=
  mk pos ply depth hash_move histories prev_move quiescence [] HASH
     MOVE_NULL MOVE_NULL 0.

(** [MoveOrder::capture_score] (move_order.cpp:117-124): MVV-LVA. *)
Definition piece_score (p : PieceType) : Z :=
  match p with
  | PAWN => 10 | KNIGHT => 30 | BISHOP => 31 | ROOK => 50
  | QUEEN => 90 | KING => 1000 | PIECE_NONE => 0
  end.

Definition capture_score (mo : t) (move : Move) : Z :=
  let b := Position.board (m_position mo) in
  let from := get_piece_at b (move_from move) in
  let to := if is_ep_capture move then PAWN
            else get_piece_at b (move_to move) in
  piece_score to - piece_score from.

(** [MoveOrder::quiet_score] (move_order.cpp:128-136). *)
Definition quiet_score (mo : t) (move : Move) : Z :=
  let piece := get_piece_at (Position.board (m_position mo)) (move_from move) in
  Histories.butterfly_score (m_histories mo) move
                            (Position.get_turn (m_position mo))
  + Histories.piece_type_score (m_histories mo) move piece.

(** [MoveOrder::next] (move_order.hpp:150-157). *)
Definition next (mo : t) : option Move * t :=
  match nth_error (m_moves mo) (m_curr mo) with
  | None => (None, mo)
  | Some move => (Some move, set_moves mo (m_moves mo) (S (m_curr mo)))
  end.

(** [while (next(move)) if (keep(move)) return move;] *)
Fixpoint next_kept (fuel : nat) (keep : Move -> bool) (mo : t)
  : option Move * t :=
  match fuel with
  | O => (None, mo)
  | S k =>
      match next mo with
      | (None, mo') => (None, mo')
      | (Some move, mo') =>
          if keep move then (Some move, mo') else next_kept k keep mo'
      end
  end.

(** [MoveOrder::threshold_moves] (move_order.hpp:160-175): the loop over
    [list_move], with [pos] the index of the write position; it returns
    the storage after the swaps and the length of the list it returns. *)
Fixpoint threshold_loop (score : Move -> Z) (threshold : Z) (n : nat)
         (list_move pos : nat) (l : list Move) : list Move * nat :=
  match n with
  | O => (l, pos)
  | S k =>
      if score (nth list_move l MOVE_NULL) >? threshold then
        threshold_loop score threshold k (S list_move) (S pos)
          (if Nat.eqb pos list_move then l else swap_at l pos list_move)
      else threshold_loop score threshold k (S list_move) pos l
  end.

Definition threshold_moves (score : Move -> Z) (l : list Move)
           (threshold : Z) : list Move * nat :=
  threshold_loop score threshold (List.length l) 0 0 l.

(** What one round of the [while (true)] of [next_move] does. *)
Inductive Outcome : Type :=
| Return (move : Move) (mo : t)
| Continue (mo : t).

Section WithTables.

Variable zk : ZobristKeys.
Variable ev : EvalTables.

(** [std::sort] by descending score (see [insertion_sort_desc]). *)
Variable sort_desc : (Move -> Z) -> list Move -> list Move.

Definition board (mo : t) : Board := Position.board (m_position mo).

(** The test of the KILLERS stage on a stored killer. *)
Definition killer_ok (mo : t) (candidate : Move) : bool :=
  negb (candidate =? m_hash_move mo)
  && negb (candidate =? m_countermove mo)
  && legal zk ev (board mo) candidate.

(** One round of the loop of [MoveOrder::next_move]
    (move_order.cpp:139-219). *)
Definition stage_round (mo : t) : Outcome :=
  match m_stage mo with
  | HASH =>
      let mo := set_stage mo (next_stage (m_stage mo)) in
      if legal zk ev (board mo) (m_hash_move mo)
      then Return (m_hash_move mo) mo
      else Continue mo
  | CAPTURES_INIT =>
      let mo := set_stage mo (next_stage (m_stage mo)) in
      let moves := Position.move_list (m_position mo)
                   ++ generate_moves zk ev (board mo) MoveGenType.CAPTURES in
      Continue (set_moves mo (sort_desc (capture_score mo) moves) 0)
  | CAPTURES =>
      match next_kept (List.length (m_moves mo))
                      (fun move => negb (move =? m_hash_move mo)) mo with
      | (Some move, mo) => Return move mo
      | (None, mo) => Continue (set_stage mo (next_stage (m_stage mo)))
      end
  | CAPTURES_END =>
      (* Stop providing moves in non-check quiescence *)
      if m_quiescence mo && negb (Position.in_check (m_position mo))
      then Return MOVE_NULL mo
      else Continue (set_stage mo (next_stage (m_stage mo)))
  | COUNTERMOVES =>
      let mo := set_stage mo (next_stage (m_stage mo)) in
      let candidate := Histories.countermove (m_histories mo) (m_prev_move mo) in
      if negb (candidate =? m_hash_move mo)
         && legal zk ev (board mo) candidate
      then Return candidate (set_countermove mo candidate)
      else Continue mo
  | KILLERS =>
      let mo := set_stage mo (next_stage (m_stage mo)) in
      let mo := set_killer mo MOVE_NULL in
      match find (killer_ok mo)
                 (map (fun i => Histories.get_killer (m_histories mo) i
                                                     (m_ply mo))
                      [0; 1; 2]) with
      | Some candidate => Return candidate (set_killer mo candidate)
      | None => Continue mo
      end
  | QUIET_INIT =>
      let mo := set_stage mo (next_stage (m_stage mo)) in
      let moves := Position.move_list (m_position mo)
                   ++ generate_moves zk ev (board mo) MoveGenType.QUIETS in
      let '(moves, pos) :=
        threshold_moves (quiet_score mo) moves (-3000 * m_depth mo) in
      let moves := sort_desc (quiet_score mo) (firstn pos moves)
                   ++ skipn pos moves in
      Continue (set_moves mo moves 0)
  | QUIET =>
      match next_kept (List.length (m_moves mo))
                      (fun move => negb (move =? m_hash_move mo)
                                   && negb (move =? m_killer mo)
                                   && negb (move =? m_countermove mo)) mo with
      | (Some move, mo) => Return move mo
      | (None, mo) => Continue (set_stage mo (next_stage (m_stage mo)))
      end
  | NO_MOVES => Return MOVE_NULL mo
  end.

(** The loop itself: every round that does not return moves the stage
    forward, so nine rounds are enough (see [next_move_total]). *)
Fixpoint next_move_rounds (fuel : nat) (mo : t) : option (Move * t) :=
  match fuel with
  | O => None
  | S k =>
      match stage_round mo with
      | Return move mo' => Some (move, mo')
      | Continue mo' => next_move_rounds k mo'
      end
  end.

(** [MoveOrder::next_move]. *)
Definition next_move (mo : t) : Move * t :=
  match next_move_rounds 9 mo with
  | Some r => r
  | None => (MOVE_NULL, mo)
  end.

(** The cursor after [n] calls of [next_move]. *)
Fixpoint after_calls (n : nat) (mo : t) : t :=
  match n with
  | O => mo
  | S k => after_calls k (snd (next_move mo))
  end.

(** The moves that the first [n] calls return, in order. *)
Fixpoint calls (n : nat) (mo : t) : list Move :=
  match n with
  | O => []
  | S k => let '(move, mo') := next_move mo in move :: calls k mo'
  end.

(** The stored killers that pass the tests of the KILLERS stage. *)
Definition eligible_killers (mo : t) : list Move :=
  filter (killer_ok (set_killer mo MOVE_NULL))
         (map (fun i => Histories.get_killer (m_histories mo) i (m_ply mo))
              [0; 1; 2]).

End WithTables.

End MoveOrder.

(* ================================================================== *)
(** * Sample tables and positions *)
(* ================================================================== *)

(** The properties below hold for every table of keys and scores.  To
    evaluate the operations on concrete positions, one table of each kind
    is fixed here; the keys are 64-bit values spread by multiplication with
    an odd constant. *)
Definition sample_keys : ZobristKeys :=
  mkZobrist
    (fun p t s =>
       ((piece_index p * 128 + turn_index t * 64 + s + 1)
        * 11400714819323198485) mod 2 ^ 64)
    (2 ^ 63 + 12345)
    (fun f => ((f + 1000) * 6364136223846793005) mod 2 ^ 64)
    (fun side t =>
       (((match side with KINGSIDE => 1 | QUEENSIDE => 2 | NO_SIDE => 3 end)
         * 2 + turn_index t + 2000) * 1442695040888963407) mod 2 ^ 64).

Definition sample_eval : EvalTables :=
  mkEval
    (fun p => match p with
              | PAWN => mkScore 100 120
              | KNIGHT => mkScore 320 300
              | BISHOP => mkScore 330 320
              | ROOK => mkScore 500 550
              | QUEEN => mkScore 900 950
              | _ => mkScore 0 0
              end)
    (fun p s t => mkScore (piece_index p + file s) (rank s - piece_index p))
    24
    (fun p => match p with
              | KNIGHT => 1 | BISHOP => 1 | ROOK => 2 | QUEEN => 4
              | _ => 0
              end).

Definition fen (s : String.string) : list ascii :=
  String.list_ascii_of_string s.

(** The initial position. *)
Definition startpos : Board := Board_of_fen sample_keys sample_eval startpos_fen.

(** Squares by name, for the sample moves. *)
Definition sq_b1 : Square := 1.
Definition sq_g1 : Square := 6.
Definition sq_e2 : Square := 12.
Definition sq_c3 : Square := 18.
Definition sq_f3 : Square := 21.
Definition sq_d4 : Square := 27.
Definition sq_e4 : Square := 28.
Definition sq_c6 : Square := 42.
Definition sq_f6 : Square := 45.
Definition sq_b8 : Square := 57.
Definition sq_g8 : Square := 62.

(** Knights out and back: after [1. Nc3 Nc6 2. Nf3 Nf6 3. Ng1 Ng8] the
    position after [1. Nc3 Nc6] stands on the board again. *)
Definition knight_dance : list Move :=
  [mk_move sq_b1 sq_c3 QUIET; mk_move sq_b8 sq_c6 QUIET;
   mk_move sq_g1 sq_f3 QUIET; mk_move sq_g8 sq_f6 QUIET;
   mk_move sq_f3 sq_g1 QUIET; mk_move sq_f6 sq_g8 QUIET].

Definition dance_position : Position.t :=
  Position.play sample_keys sample_eval startpos_fen knight_dance.

(** [1. Nf3 Nf6 2. Ng1 Ng8 3. Nf3 Nf6 4. Ng1 Ng8]: eight reversible plies
    that end in the initial position. *)
Definition long_dance : list Move :=
  [mk_move sq_g1 sq_f3 QUIET; mk_move sq_g8 sq_f6 QUIET;
   mk_move sq_f3 sq_g1 QUIET; mk_move sq_f6 sq_g8 QUIET;
   mk_move sq_g1 sq_f3 QUIET; mk_move sq_g8 sq_f6 QUIET;
   mk_move sq_f3 sq_g1 QUIET; mk_move sq_f6 sq_g8 QUIET].

Definition long_dance_position : Position.t :=
  Position.play sample_keys sample_eval startpos_fen long_dance.

(** White to move and in check from the rook on h1. *)
Definition checked_board : Board :=
  Board_of_fen sample_keys sample_eval (fen "7k/8/8/8/8/8/8/4K2r w - - 0 1"%string).

(** The knight on e2 is pinned to the king on e1 by the rook on e8; the
    pawn on d4 stands where the knight could capture. *)
Definition pinned_knight_position : Position.t :=
  Position.create sample_keys sample_eval
    (fen "4r2k/8/8/8/3p4/8/4N3/4K3 w - - 0 1"%string).


Definition pinned_cursor : MoveOrder.t :=
  MoveOrder.create pinned_knight_position 0 1 MOVE_NULL Histories.clear
                   MOVE_NULL false.

(** The position after [1. a3 c5], white to move. *)
Definition sq_a2 : Square := 8.
Definition sq_a3 : Square := 16.
Definition sq_d2 : Square := 11.
Definition sq_c5 : Square := 34.
Definition sq_c7 : Square := 50.

Definition move_c5 : Move := mk_move sq_c7 sq_c5 DOUBLE_PAWN_PUSH.

Definition sicilian_position : Position.t :=
  Position.play sample_keys sample_eval startpos_fen
                [mk_move sq_a2 sq_a3 QUIET; move_c5].

(** Histories after four cut-offs: [Nc3] and then [Nf3] at ply 0 with
    depth 1, [d4] and then [e4] at ply 2 with depths 9 and 10, the last one
    in reply to [c5]. *)
Definition killer_Nf3 : Move := mk_move sq_g1 sq_f3 QUIET.
Definition killer_Nc3 : Move := mk_move sq_b1 sq_c3 QUIET.
Definition quiet_d4 : Move := mk_move sq_d2 sq_d4 DOUBLE_PAWN_PUSH.
Definition quiet_e4 : Move := mk_move sq_e2 sq_e4 DOUBLE_PAWN_PUSH.

Definition sample_histories : Histories.t :=
  let h := Histories.clear in
  let h := Histories.fail_high h killer_Nc3 (mk_move 52 36 DOUBLE_PAWN_PUSH)
                               WHITE 1 0 KNIGHT in
  let h := Histories.fail_high h killer_Nf3 (mk_move 51 35 DOUBLE_PAWN_PUSH)
                               WHITE 1 0 KNIGHT in
  let h := Histories.fail_high h quiet_d4 (mk_move sq_g8 sq_f6 QUIET)
                               WHITE 9 2 PAWN in
  Histories.fail_high h quiet_e4 move_c5 WHITE 10 2 PAWN.

(** A cursor on that position at ply 0, no hash move, previous move [c5];
    and the same cursor after its first call. *)
Definition killer_cursor : MoveOrder.t :=
  MoveOrder.create sicilian_position 0 1 MOVE_NULL sample_histories
                   move_c5 false.

Definition killer_stage_cursor : MoveOrder.t :=
  MoveOrder.after_calls sample_keys sample_eval insertion_sort_desc 1
                        killer_cursor.

(* ================================================================== *)
(** * Properties named by the theorems *)
(* ================================================================== *)

(** Board invariant 7: the cached checkers are the enemy pieces that
    attack the king of the side to move on the current occupancy. *)
Definition checkers_correct (b : Board) : Prop :=
  m_checkers b =
  attackers b (bitscan_forward (m_pieces b KING (m_turn b)))
            (get_pieces b) (opp (m_turn b)).

(** Some earlier board at an even offset 4, 6, 8, ... back from the current
    one, not further back than [n - 1] plies, has the hash of the current
    board; [n = min(ply + 1, half_move_clock)] and [ply] is the index of
    the current board in the stack. *)
Definition repetition_in_window (p : Position.t) : Prop :=
  let cur := Z.of_nat (List.length (Position.m_boards p)) - 1 in
  let n := Z.min (cur + 1) (m_half_move_clock (Position.board p)) in
  exists k, 4 <= k <= n - 1 /\ Z.even k = true /\
            m_hash (Position.board_at p (cur - k))
            = m_hash (Position.board p).

Definition repetition_window_size (p : Position.t) : Z :=
  Z.min (Z.of_nat (List.length (Position.m_boards p)))
        (m_half_move_clock (Position.board p)).

Section CursorProperties.

Variable zk : ZobristKeys.
Variable ev : EvalTables.
Variable sort_desc : (Move -> Z) -> list Move -> list Move.

Definition captures_of (mo : MoveOrder.t) : list Move :=
  generate_moves zk ev (MoveOrder.board mo) MoveGenType.CAPTURES.

Definition quiets_of (mo : MoveOrder.t) : list Move :=
  generate_moves zk ev (MoveOrder.board mo) MoveGenType.QUIETS.

(** The move that call number [j + 1] on the cursor returns. *)
Definition returned (mo : MoveOrder.t) (j : nat) : Move :=
  fst (MoveOrder.next_move zk ev sort_desc
         (MoveOrder.after_calls zk ev sort_desc j mo)).

(** Every move of the list the cursor walks came out of the generator. *)
Definition cursor_ok (mo : MoveOrder.t) : Prop :=
  incl (MoveOrder.m_moves mo) (captures_of mo ++ quiets_of mo).

(** An upper bound on the number of moves other than [MOVE_NULL] that the
    cursor can still return. *)
Definition cursor_budget (mo : MoveOrder.t) : nat :=
  let c := List.length (captures_of mo) in
  let q := List.length (quiets_of mo) in
  let rest := (List.length (MoveOrder.m_moves mo) - MoveOrder.m_curr mo)%nat in
  match MoveOrder.m_stage mo with
  | MoveOrder.HASH => c + q + 3
  | MoveOrder.CAPTURES_INIT => c + q + 2
  | MoveOrder.CAPTURES => rest + q + 2
  | MoveOrder.CAPTURES_END => q + 2
  | MoveOrder.COUNTERMOVES => q + 2
  | MoveOrder.KILLERS => q + 1
  | MoveOrder.QUIET_INIT => q
  | MoveOrder.QUIET => rest
  | MoveOrder.NO_MOVES => 0
  end%nat.


(** What the spec promises of the KILLERS stage: from a cursor that is in
    that stage, successive calls return every eligible killer, one per
    call. *)
Definition killers_all_yielded (mo : MoveOrder.t) : Prop :=
  MoveOrder.calls zk ev sort_desc
    (List.length (MoveOrder.eligible_killers zk ev mo)) mo
  = MoveOrder.eligible_killers zk ev mo.

End CursorProperties.

(** The fields of the cursor that no call changes. *)
Definition same_setting (a b : MoveOrder.t) : Prop :=
  MoveOrder.m_position a = MoveOrder.m_position b /\
  MoveOrder.m_ply a = MoveOrder.m_ply b /\
  MoveOrder.m_hash_move a = MoveOrder.m_hash_move b /\
  MoveOrder.m_histories a = MoveOrder.m_histories b.


(* ================================================================== *)
(** * The Board invariants *)
(* ================================================================== *)

(** A bitboard has no member outside the 64 squares. *)
Definition bb_bounded (bb : Bitboard) : Prop :=
  forall s, Z.testbit bb s = true -> 0 <= s < 64.

(** Invariants 1 and 2: a square lies in the bitboard of a piece exactly
    when the mailbox holds that piece there, so the twelve bitboards are
    pairwise disjoint and agree with the mailbox. *)
Definition placed (b : Board) : Prop :=
  forall p t s,
    p <> PIECE_NONE ->
    Z.testbit (m_pieces b p t) s
    = valid_square s && Piece_eqb (m_board_pieces b s) (Pc p t).

(** The mailbox holds real pieces or [NO_PIECE]. *)
Definition mailbox_clean (b : Board) : Prop :=
  forall s t, m_board_pieces b s <> Pc PIECE_NONE t.

(** Invariant 8, as far as the position shows it: an ep square is empty
    and has the pawn that made the double push right behind it. *)
Definition ep_ok (b : Board) : Prop :=
  m_enpassant_square b = SQUARE_NULL \/
  (valid_square (m_enpassant_square b) = true /\
   valid_square (m_enpassant_square b - pawn_push (m_turn b)) = true /\
   m_board_pieces b (m_enpassant_square b) = NO_PIECE /\
   m_board_pieces b (m_enpassant_square b - pawn_push (m_turn b))
   = Pc PAWN (opp (m_turn b))).

(** A castling right is held only while the rook stands on its home
    square. *)
Definition castling_ok (b : Board) : Prop :=
  forall side t,
    side <> NO_SIDE ->
    m_castling_rights b side t = true ->
    m_board_pieces b (rook_home side t) = Pc ROOK t.

(** The occupancy that the first loop of [is_valid] accumulates. *)
Definition get_pieces_by_piece (b : Board) : Bitboard :=
  fold_left (fun acc p =>
    fold_left (fun acc t => Z.lor acc (m_pieces b p t)) turns acc)
    piece_types 0.

(** The pairs (piece, colour) in the order of the loops of [is_valid], and
    in the order of the loops of [generate_hash]. *)
Definition pairs_by_piece : list (PieceType * Turn) :=
  flat_map (fun p => map (fun t => (p, t)) turns) piece_types.

Definition pairs_by_turn : list (PieceType * Turn) :=
  flat_map (fun t => map (fun p => (p, t)) piece_types) turns.

(** Folds over the 64 squares. *)
Definition squares_fold (op : Z -> Z -> Z) (e : Z) (g : Square -> Z) : Z :=
  fold_left (fun a s => op a (g s)) all_squares e.

Definition xor_squares (g : Square -> Z) : Z := squares_fold Z.lxor 0 g.
Definition sum_squares (g : Square -> Z) : Z := squares_fold Z.add 0 g.

(** [placed], decided square by square on 64-bit values. *)
Definition placed_check (b : Board) : bool :=
  forallb (fun p =>
    forallb (fun t =>
      (0 <=? m_pieces b p t) && (m_pieces b p t <? 2 ^ 64)
      && forallb (fun s =>
           Bool.eqb (Z.testbit (m_pieces b p t) s)
                    (Piece_eqb (m_board_pieces b s) (Pc p t)))
         all_squares)
      turns)
    piece_types.

(** Steps that leave the pieces and the scores alone. *)
Definition same_placement (r r' : Board) : Prop :=
  m_pieces r' = m_pieces r /\ m_board_pieces r' = m_board_pieces r /\
  m_psq r' = m_psq r /\ m_phase r' = m_phase r.

Section Invariants.

Variable zk : ZobristKeys.
Variable ev : EvalTables.

(** What one square contributes to the hash, to the two scores and to the
    phase. *)
Definition piece_key (pc : Piece) (s : Square) : Z :=
  match pc with
  | Pc p t => get_piece_turn_square zk p t s
  | NO_PIECE => 0
  end.

Definition piece_mg (pc : Piece) (s : Square) : Z :=
  match pc with
  | Pc p t => (middlegame (piece_value ev p)
               + middlegame (piece_square ev p s t)) * turn_to_color t
  | NO_PIECE => 0
  end.

Definition piece_eg (pc : Piece) (s : Square) : Z :=
  match pc with
  | Pc p t => (endgame (piece_value ev p)
               + endgame (piece_square ev p s t)) * turn_to_color t
  | NO_PIECE => 0
  end.

Definition piece_phase (pc : Piece) : Z :=
  match pc with
  | Pc p _ => Phases_Pieces ev p
  | NO_PIECE => 0
  end.

(** The hash terms of the pieces, square by square. *)
Definition placement_hash (b : Board) : Z :=
  xor_squares (fun s => piece_key (m_board_pieces b s) s).

(** Scores and phase, square by square. *)
Definition placement_mg (b : Board) : Z :=
  sum_squares (fun s => piece_mg (m_board_pieces b s) s).

Definition placement_eg (b : Board) : Z :=
  sum_squares (fun s => piece_eg (m_board_pieces b s) s).

Definition placement_phase (b : Board) : Z :=
  u8 (Phases_Total ev - sum_squares (fun s => piece_phase (m_board_pieces b s))).

(** What the piece-level primitives keep true: bitboards, mailbox, scores
    and phase agree. *)
Definition core (b : Board) : Prop :=
  placed b /\ mailbox_clean b /\
  m_psq b = mkScore (placement_mg b) (placement_eg b) /\
  m_phase b = placement_phase b.

(** The stored hash without the terms of the pieces. *)
Definition hash_rest (b : Board) : Z := Z.lxor (m_hash b) (placement_hash b).

(** The hash terms of side to move, ep file and castling rights. *)
Definition state_hash (b : Board) : Z :=
  hash_castling zk b
    (let hash := if Turn_eqb (m_turn b) BLACK then get_black_move zk else 0 in
     if negb (m_enpassant_square b =? SQUARE_NULL)
     then Z.lxor hash (get_ep_file zk (file (m_enpassant_square b)))
     else hash).

(** The same terms, one by one. *)
Definition ep_term (ep : Square) : Z :=
  if negb (ep =? SQUARE_NULL) then get_ep_file zk (file ep) else 0.

Definition right_term (rights : CastleSide -> Turn -> bool)
           (side : CastleSide) (t : Turn) : Z :=
  if rights side t then get_castle_side_turn zk side t else 0.

Definition state_terms (turn : Turn) (ep : Square)
           (rights : CastleSide -> Turn -> bool) : Z :=
  Z.lxor (Z.lxor (Z.lxor (Z.lxor (Z.lxor
    (if Turn_eqb turn BLACK then get_black_move zk else 0)
    (ep_term ep))
    (right_term rights KINGSIDE WHITE))
    (right_term rights KINGSIDE BLACK))
    (right_term rights QUEENSIDE WHITE))
    (right_term rights QUEENSIDE BLACK).

(** The key in the words of the specification: the XOR of the terms of
    every occupied piece/colour/square, of the black-to-move term, of the
    ep-file term when the ep square is set, and of each active castling
    right. *)
Definition spec_hash (b : Board) : Z :=
  Z.lxor (placement_hash b)
         (state_terms (m_turn b) (m_enpassant_square b) (m_castling_rights b)).

(** What separates the stored hash from the from-scratch hash. *)
Definition hash_gap (b : Board) : Z :=
  Z.lxor (hash_rest b)
         (state_terms (m_turn b) (m_enpassant_square b) (m_castling_rights b)).

(** The three components of one round of the material loop of
    [is_valid]. *)
Definition phase_step (b : Board) (a : Z) (i : PieceType * Turn) : Z :=
  u8 (a - bb_count (m_pieces b (fst i) (snd i)) * Phases_Pieces ev (fst i)).

Definition score_step (part : MixedScore -> Z) (b : Board) (a : Z)
           (i : PieceType * Turn) : Z :=
  bb_loop 64
    (fun e s => e + part (piece_square ev (fst i) s (snd i))
                    * turn_to_color (snd i))
    (m_pieces b (fst i) (snd i))
    (a + part (piece_value ev (fst i))
         * bb_count (m_pieces b (fst i) (snd i)) * turn_to_color (snd i)).

Definition material_step (b : Board) (acc : Z * MixedScore)
           (i : PieceType * Turn) : Z * MixedScore :=
  let bb := get_pieces_tp b (snd i) (fst i) in
  let eval :=
    ms_add (snd acc)
           (ms_scale (ms_scale (piece_value ev (fst i)) (bb_count bb))
                     (turn_to_color (snd i))) in
  let phase := u8 (fst acc - bb_count bb * Phases_Pieces ev (fst i)) in
  let eval :=
    bb_loop 64 (fun e s =>
                  ms_add e (ms_scale (piece_square ev (fst i) s (snd i))
                                     (turn_to_color (snd i))))
            bb eval in
  (phase, eval).

(** Invariants 4, 5 and 6. *)
Definition hash_ok (b : Board) : Prop := m_hash b = generate_hash zk b.

Definition eval_ok (b : Board) : Prop :=
  material_phase ev b = (m_phase b, m_psq b).

(** The Board invariants that [make_move] relies on and maintains: a legal
    position. *)
Record board_legal (b : Board) : Prop := mkLegal {
  legal_placed : placed b;
  legal_clean : mailbox_clean b;
  legal_hash : hash_ok b;
  legal_eval : eval_ok b;
  legal_ep : ep_ok b;
  legal_castling : castling_ok b
}.

(** What the checks of [legal] say about the move, in terms of the
    mailbox. *)
Record move_facts (b : Board) (m : Move) : Prop := mkMoveFacts {
  mf_distinct : move_from m <> move_to m;
  mf_from :
    m_board_pieces b (move_from m)
    = Pc (get_piece_at b (move_from m)) (m_turn b);
  mf_real : get_piece_at b (move_from m) <> PIECE_NONE;
  mf_capture :
    is_capture m = true -> is_ep_capture m = false ->
    exists q, m_board_pieces b (move_to m) = Pc q (opp (m_turn b));
  mf_quiet :
    is_capture m = false -> m_board_pieces b (move_to m) = NO_PIECE;
  mf_ep :
    is_ep_capture m = true ->
    m_board_pieces b (move_to m) = NO_PIECE /\
    0 <= move_to m - pawn_push (m_turn b) < 64 /\
    m_board_pieces b (move_to m - pawn_push (m_turn b))
    = Pc PAWN (opp (m_turn b));
  mf_double :
    is_double_pawn_push m = true ->
    get_piece_at b (move_from m) = PAWN /\
    move_to m = move_from m + 2 * pawn_push (m_turn b) /\
    m_board_pieces b (move_from m + pawn_push (m_turn b)) = NO_PIECE;
  mf_castle :
    is_castle m = true ->
    get_piece_at b (move_from m) = KING /\
    exists side,
      side <> NO_SIDE /\
      move_from m = king_home (m_turn b) /\
      move_to m = king_home (m_turn b)
                  + (match side with KINGSIDE => 2 | _ => -2 end) /\
      m_board_pieces b (rook_home side (m_turn b)) = Pc ROOK (m_turn b) /\
      m_board_pieces b (king_home (m_turn b)
                        + (match side with KINGSIDE => 1 | _ => -1 end))
      = NO_PIECE;
  mf_safe : king_safe_after zk ev b m = true
}.

(** [make_move b m] once the castling rights of the mover are updated. *)
Record rights_done (b : Board) (m : Move) (r : Board) : Prop := mkRightsDone {
  rd_core : core r;
  rd_gap : hash_gap r = Z.lxor (hash_gap b) (ep_term (m_enpassant_square b));
  rd_turn : m_turn r = m_turn b;
  rd_mailbox : m_board_pieces r = m_board_pieces b;
  rd_ep : m_enpassant_square r = SQUARE_NULL;
  rd_sub :
    forall side t,
      m_castling_rights r side t = true -> m_castling_rights b side t = true;
  rd_from :
    forall side t,
      side <> NO_SIDE -> m_castling_rights r side t = true ->
      rook_home side t <> move_from m;
  rd_king :
    get_piece_at b (move_from m) = KING ->
    forall side, side <> NO_SIDE ->
                 m_castling_rights r side (m_turn b) = false
}.

(** [make_move b m] once the per move type action is done. *)
Record action_done (b : Board) (m : Move) (r : Board) : Prop := mkActionDone {
  ad_core : core r;
  ad_gap : hash_gap r = Z.lxor (hash_gap b) (ep_term (m_enpassant_square b));
  ad_turn : m_turn r = m_turn b;
  ad_from :
    m_board_pieces r (move_from m)
    = Pc (get_piece_at b (move_from m)) (m_turn b);
  ad_to : m_board_pieces r (move_to m) = NO_PIECE;
  ad_castling : castling_ok r;
  ad_rooks :
    forall side t,
      side <> NO_SIDE -> m_castling_rights r side t = true ->
      rook_home side t <> move_from m /\ rook_home side t <> move_to m;
  ad_ep :
    m_enpassant_square r = SQUARE_NULL \/
    (is_promotion m = false /\
     get_piece_at b (move_from m) = PAWN /\
     m_enpassant_square r = move_to m - pawn_push (m_turn b) /\
     0 <= move_to m - pawn_push (m_turn b) < 64 /\
     move_to m - pawn_push (m_turn b) <> move_from m /\
     m_board_pieces r (move_to m - pawn_push (m_turn b)) = NO_PIECE)
}.

(** [make_move] along a list of moves, each of them legal where it is
    made. *)
Fixpoint play_moves (b : Board) (moves : list Move) : option Board :=
  match moves with
  | [] => Some b
  | m :: rest =>
      if legal zk ev b m then play_moves (make_move zk ev b m) rest
      else None
  end.

End Invariants.

(* ================================================================== *)
(** * Further properties: what they are stated with *)
(* ================================================================== *)

(** No move other than [MOVE_NULL] is stored twice among the killers of one
    ply. *)
Definition killers_distinct (h : Histories.t) (ply : Z) : Prop :=
  forall i j,
    0 <= i < NUM_KILLERS -> 0 <= j < NUM_KILLERS -> i <> j ->
    Histories.get_killer h i ply = Histories.get_killer h j ply ->
    Histories.get_killer h i ply = MOVE_NULL.

(** Two earlier boards of the window have the hash of the current board:
    one at an even offset [k1 >= 4] back, and one at least four plies
    before that one, at an even offset [k2 <= n - 1]. *)
Definition two_repetitions_in_window (p : Position.t) : Prop :=
  let cur := Z.of_nat (List.length (Position.m_boards p)) - 1 in
  let n := Z.min (cur + 1) (m_half_move_clock (Position.board p)) in
  exists k1 k2,
    4 <= k1 /\ k1 + 4 <= k2 <= n - 1 /\
    Z.even k1 = true /\ Z.even k2 = true /\
    m_hash (Position.board_at p (cur - k1)) = m_hash (Position.board p) /\
    m_hash (Position.board_at p (cur - k2)) = m_hash (Position.board p).

(** [1. Nf3 Nf6 2. Ng1 Ng8], three times over: twelve reversible plies, and
    the initial position stands on the board for the fourth time. *)
Definition triple_dance_position : Position.t :=
  Position.play sample_keys sample_eval startpos_fen
    (long_dance ++ firstn 4 long_dance).

(** A cursor of the quiescence search on the initial position. *)
Definition quiescence_cursor : MoveOrder.t :=
  MoveOrder.create (Position.create sample_keys sample_eval startpos_fen)
                   0 1 quiet_e4 Histories.clear MOVE_NULL true.

(** What a cursor of the quiescence search keeps true while the side to
    move is not in check: it never gets past the captures, and the list it
    walks holds captures only. *)
Definition quiescence_inv (zk : ZobristKeys) (ev : EvalTables)
           (mo0 mo : MoveOrder.t) : Prop :=
  same_setting mo0 mo /\
  MoveOrder.m_quiescence mo = true /\
  (MoveOrder.stage_index (MoveOrder.m_stage mo) <= 3)%nat /\
  (MoveOrder.m_stage mo = MoveOrder.CAPTURES ->
   incl (MoveOrder.m_moves mo) (captures_of zk ev mo0)).

(* ------------------------------------------------------------------ *)
(** ** More of the board: piece sets and the least valuable piece *)

(** [Board::least_valuable] (position.cpp:445-456): the loop over the
    piece types, cheapest first, with its early return. *)
Fixpoint least_valuable_from (b : Board) (bb : Bitboard)
         (pieces : list PieceType) : Square :=
  match pieces with
  | [] => SQUARE_NULL
  | piece :: rest =>
      let piece_bb :=
        Z.land (Z.lor (get_pieces_tp b WHITE piece)
                      (get_pieces_tp b BLACK piece)) bb in
      if bb_any piece_bb then bitscan_forward piece_bb
      else least_valuable_from b bb rest
  end.

Definition least_valuable (b : Board) (bb : Bitboard) : Square :=
  least_valuable_from b bb piece_types.

(** [Board::non_pawn_material()] (position.cpp:569-575). *)
Definition non_pawn_material (b : Board) : Bitboard :=
  Z.lor (Z.lor (Z.lor (Z.lor (Z.lor (Z.lor (Z.lor
    (m_pieces b KNIGHT WHITE) (m_pieces b KNIGHT BLACK))
    (m_pieces b BISHOP WHITE)) (m_pieces b BISHOP BLACK))
    (m_pieces b ROOK WHITE)) (m_pieces b ROOK BLACK))
    (m_pieces b QUEEN WHITE)) (m_pieces b QUEEN BLACK).

(** [Board::non_pawn_material(Turn)] (position.cpp:577-585). *)
Definition non_pawn_material_turn (b : Board) (turn : Turn) : Bitboard :=
  match turn with
  | WHITE =>
      Z.lor (Z.lor (Z.lor (m_pieces b KNIGHT WHITE) (m_pieces b BISHOP WHITE))
                   (m_pieces b ROOK WHITE)) (m_pieces b QUEEN WHITE)
  | BLACK =>
      Z.lor (Z.lor (Z.lor (m_pieces b KNIGHT BLACK) (m_pieces b BISHOP BLACK))
                   (m_pieces b ROOK BLACK)) (m_pieces b QUEEN BLACK)
  end.

(** [Board::sliders] (position.cpp:588-593). *)
Definition sliders (b : Board) : Bitboard :=
  Z.lor (Z.lor (Z.lor (Z.lor (Z.lor
    (m_pieces b BISHOP WHITE) (m_pieces b BISHOP BLACK))
    (m_pieces b ROOK WHITE)) (m_pieces b ROOK BLACK))
    (m_pieces b QUEEN WHITE)) (m_pieces b QUEEN BLACK).

Definition is_minor_or_major (p : PieceType) : bool :=
  match p with KNIGHT | BISHOP | ROOK | QUEEN => true | _ => false end.

Definition is_slider (p : PieceType) : bool :=
  match p with BISHOP | ROOK | QUEEN => true | _ => false end.

(* ------------------------------------------------------------------ *)
(** ** Static exchange evaluation *)

(** [constexpr Score piece_score[] = { 10, 30, 30, 50, 90, 1000, 0, 0 }]
    of [Board::see], indexed by the piece type. *)
Definition see_piece_score (p : PieceType) : Z :=
  match p with
  | PAWN => 10 | KNIGHT => 30 | BISHOP => 30 | ROOK => 50 | QUEEN => 90
  | KING => 1000 | PIECE_NONE => 0
  end.

(** The [while (attacks_target)] loop of [Board::see]
    (position.cpp:476-495); the fuel bounds the number of rounds, and
    [None] says that it ran out.

    Modelled from the spec: [Score] is declared in [types.hpp], which is
    not in the sources; the swap-off score is taken as an integer without
    wrap-around. *)
Fixpoint see_loop (fuel : nat) (b : Board) (target : Square) (gain : Z)
         (last_attacker : PieceType) (occupancy : Bitboard)
         (side_to_move : Turn) (color : Z) (attacks_target : Bitboard)
  : option Z :=
  match fuel with
  | O => None
  | S k =>
      if bb_any attacks_target then
        (* If the side to move is already ahead they can stop *)
        if color * gain >? 0 then Some (10 * gain)
        else
          (* Get least valuable attacker *)
          let attacker := least_valuable b attacks_target in
          let attacker_bb := from_square attacker in
          (* Make the capture *)
          let gain := gain + color * see_piece_score last_attacker in
          let last_attacker := get_piece_at b attacker in
          let occupancy := Z.lxor occupancy attacker_bb in
          let side_to_move := opp side_to_move in
          let color := - color in
          (* Get opponent attackers *)
          let attacks_target :=
            Z.land (attackers b target occupancy side_to_move) occupancy in
          see_loop k b target gain last_attacker occupancy side_to_move color
                   attacks_target
      else Some (10 * gain)
  end.

(** [Board::see] (position.cpp:459-498), with the fuel of its loop;
    [threshold / 10] truncates as in C++. *)
Definition see_with (fuel : nat) (b : Board) (move : Move) (threshold : Z)
  : option Z :=
  let target := move_to move in
  (* Make the initial capture *)
  let last_attacker := get_piece_at b (move_from move) in
  let gain :=
    see_piece_score (if is_ep_capture move then PAWN
                     else get_piece_at b target)
    - Z.quot threshold 10 in
  let from_bb := from_square (move_from move) in
  let occupancy := Z.lxor (get_pieces b) from_bb in
  let side_to_move := opp (m_turn b) in
  let color := -1 in
  (* Iterate over opponent attackers *)
  let attacks_target :=
    Z.land (attackers b target occupancy side_to_move) occupancy in
  see_loop fuel b target gain last_attacker occupancy side_to_move color
           attacks_target.

(** Every round takes a piece off the board, which the moving piece has
    left already: 64 covers the rounds and the last test. *)
Definition see (b : Board) (move : Move) (threshold : Z) : option Z :=
  see_with 64 b move threshold.

(** The seed of the swap-off: the value of the victim less the
    threshold. *)
Definition see_seed (b : Board) (move : Move) (threshold : Z) : Z :=
  see_piece_score (if is_ep_capture move then PAWN
                   else get_piece_at b (move_to move))
  - Z.quot threshold 10.

(** The pieces that can take back on the target square once the moving
    piece has left its square. *)
Definition see_defenders (b : Board) (move : Move) : Bitboard :=
  let occupancy := Z.lxor (get_pieces b) (from_square (move_from move)) in
  Z.land (attackers b (move_to move) occupancy (opp (m_turn b))) occupancy.

(** The pieces of the side that moved that can take on the target square
    once the cheapest defender has taken back. *)
Definition see_second_attackers (b : Board) (move : Move) : Bitboard :=
  let occupancy := Z.lxor (get_pieces b) (from_square (move_from move)) in
  let attacker := least_valuable b (see_defenders b move) in
  let occupancy := Z.lxor occupancy (from_square attacker) in
  Z.land (attackers b (move_to move) occupancy (opp (opp (m_turn b))))
         occupancy.

(** The queen takes a pawn that a knight defends. *)
Definition queen_takes_pawn_fen : list ascii :=
  String.list_ascii_of_string "4k3/8/2n5/4p3/8/8/8/4Q1K1 w - - 0 1".

Definition queen_takes_pawn_board : Board :=
  Board_of_fen sample_keys sample_eval queen_takes_pawn_fen.

Definition queen_takes_pawn : Move := mk_move 4 36 CAPTURE.

(** The squares of a bitboard all hold a piece. *)
Definition all_occupied (b : Board) (bb : Bitboard) : Prop :=
  forall s, 0 <= s -> Z.testbit bb s = true ->
            s < 64 /\ m_board_pieces b s <> NO_PIECE.

(* ------------------------------------------------------------------ *)
(** ** UCI: moves by their text *)

Module UCI.

Definition string_eqb (a b : list ascii) : bool :=
  if list_eq_dec ascii_dec a b then true else false.

Section WithTables.

Variable zk : ZobristKeys.
Variable ev : EvalTables.

(** [Move::to_uci] is declared in [move.hpp], which is not among the
    sources: the text of a move is a parameter. *)
Variable to_uci : Move -> list ascii.

(** [UCI::move_from_uci] (move_order.cpp:543-555): the first legal move
    of the position with the given text, or [MOVE_NULL]. *)
Definition move_from_uci (position : Position.t) (move_str : list ascii)
  : Move :=
  (* Get moves for current position *)
  let list := Position.generate_moves zk ev position MoveGenType.LEGAL in
  (* Search for the move in the move list *)
  match find (fun move => string_eqb (to_uci move) move_str) list with
  | Some move => move
  | None => MOVE_NULL
  end.

(** "Push moves to the position": the last loop of [UCI::position]
    (move_order.cpp:509-515) over the tokens that are left in the stream;
    it stops at the first token that names no legal move. *)
Fixpoint push_moves (pos : Position.t) (tokens : list (list ascii))
  : Position.t :=
  match tokens with
  | [] => pos
  | token :: rest =>
      let move := move_from_uci pos token in
      if move =? MOVE_NULL then pos
      else push_moves
             (Position.set_init_ply (Position.make_move zk ev pos move false))
             rest
  end.

End WithTables.

End UCI.

(** A text for moves: origin and destination square. *)
Definition squares_text (m : Move) : list ascii :=
  get_square (move_from m) ++ get_square (move_to m).

(* ------------------------------------------------------------------ *)
(** ** FEN: what the round trip is stated with *)

(** One round of the inner loop of [Board::to_fen] (the body of the fold in
    [fen_rank]). *)
Definition fen_rank_step (b : Board) (rank : Z) (acc : list ascii * Z)
           (file : Z) : list ascii * Z :=
  let '(out, space) := acc in
  match m_board_pieces b (make_square rank file) with
  | NO_PIECE => (out, space + 1)
  | pc =>
      (out ++ (if negb (space =? 0) then show_int space else [])
           ++ [fen_piece_char pc], 0)
  end.

(** The squares of a rank from file a to file h, and the squares in the
    order in which a FEN lists them. *)
Definition rank_squares (rank : Z) (files : nat) : list Square :=
  map (fun file => make_square rank (Z.of_nat file)) (seq 0 files).

Definition fen_order : list Square :=
  flat_map (fun rank => rank_squares rank 8) [7; 6; 5; 4; 3; 2; 1; 0].

Fixpoint distinctb (l : list Z) : bool :=
  match l with
  | [] => true
  | x :: r => negb (existsb (Z.eqb x) r) && distinctb r
  end.

(** The castling field of [Board::to_fen], without the blank. *)
Definition rights_text (b : Board) : list ascii :=
  flat_map (fun t =>
    flat_map (fun side =>
      if m_castling_rights b side t then [fen_castle_side_char side t]
      else []) castle_sides) turns.

(** The body of the side-to-move loop of the constructor. *)
Definition turn_body (_ : Turn) (ch : ascii) : Turn :=
  if char_eqb ch "w" then WHITE else BLACK.

(** The body of the castling loop of the constructor. *)
Definition castle_body (zk : ZobristKeys) (b : Board) (ch : ascii) : Board :=
  match fen_castle_side ch with
  | NO_SIDE => b
  | side => set_castling zk true b side (if isupper ch then WHITE else BLACK)
  end.

(** The body of the two clock loops of the constructor. *)
Definition clock_body (n : Z) (ch : ascii) : Z := n * 10 + (code ch - 48).

(** Where a field ends: at the end of the string or at a blank. *)
Definition field_end (rest : list ascii) : Prop :=
  rest = [] \/ exists c r, rest = c :: r /\ isspace c = true.

Section FenPlacement.

Variable zk : ZobristKeys.
Variable ev : EvalTables.

(** What the constructor does for one square of the board that was
    printed. *)
Definition place_square (b : Board) (result : Board) (s : Square) : Board :=
  match m_board_pieces b s with
  | Pc p t => set_piece zk ev result p t s
  | NO_PIECE => result
  end.

(** The characters printed for the first [k] files of a rank take the
    constructor from the first square of the rank to file [k], less the
    empty squares not printed yet, with the pieces of these files set. *)
Definition rank_inv (b : Board) (rank : Z) (acc : list ascii * Z) (k : nat)
  : Prop :=
  0 <= snd acc <= Z.of_nat k /\
  forall (l : list ascii) (result : Board),
    parse_placement zk ev (fst acc ++ l) (rank * 8) result
    = parse_placement zk ev l (rank * 8 + Z.of_nat k - snd acc)
        (fold_left (place_square b) (rank_squares rank k) result).

End FenPlacement.

(** The clocks are C++ [int]s ([int Board::half_move_clock()],
    [std::max(m_full_move_clock, 1)]): the values an [int] holds, and those
    that [++] and [+= 1] do not take out of its range. *)
Definition INT_MAX : Z := 2147483647.
Definition INT_MIN : Z := -2147483648.

Definition int_value (z : Z) : Prop := INT_MIN <= z <= INT_MAX.

Definition int_below_max (z : Z) : Prop := INT_MIN <= z < INT_MAX.

(** The clocks and the ep square stay as they are. *)
Definition same_clocks (r r' : Board) : Prop :=
  m_half_move_clock r' = m_half_move_clock r /\
  m_full_move_clock r' = m_full_move_clock r /\
  m_enpassant_square r' = m_enpassant_square r.
(* ================================================================== *)
(** * Theorems *)
(* ================================================================== *)

Lemma Turn_eqb_refl (t : Turn) : Turn_eqb t t = true.
Proof. destruct t; reflexivity. Qed.

Lemma Turn_eqb_eq (a b : Turn) : Turn_eqb a b = true <-> a = b.
Proof. destruct a, b; simpl; split; congruence. Qed.

Lemma PieceType_eqb_eq (a b : PieceType) : PieceType_eqb a b = true <-> a = b.
Proof.
  unfold PieceType_eqb; rewrite Z.eqb_eq.
  destruct a, b; simpl; split; intro H; try reflexivity; discriminate H.
Qed.

Lemma PieceType_eqb_refl (p : PieceType) : PieceType_eqb p p = true.
Proof. apply PieceType_eqb_eq; reflexivity. Qed.

(** C10.  [Board::operator==] disregards the move clocks: two boards that
    agree on the hash, the side to move, the en-passant square, the four
    castling rights and the twelve piece bitboards compare equal, whatever
    their half-move and full-move clocks are. *)
Theorem Board_eq_ignores_clocks (a b : Board) :
  m_hash a = m_hash b ->
  m_turn a = m_turn b ->
  m_enpassant_square a = m_enpassant_square b ->
  (forall side t, m_castling_rights a side t = m_castling_rights b side t) ->
  (forall p t, m_pieces a p t = m_pieces b p t) ->
  Board_eq a b = true.
Proof.
  intros Hh Ht He Hc Hp. unfold Board_eq.
  rewrite Hh, Z.eqb_refl, Ht, Turn_eqb_refl, He, Z.eqb_refl. simpl.
  rewrite !Hc, !Hp, !Z.eqb_refl, !Bool.eqb_reflx. reflexivity.
Qed.

(** Two boards that differ in their clocks only. *)
Lemma Board_eq_ignores_clocks_witness :
  m_half_move_clock (set_half_move_clock
                       (set_full_move_clock startpos 40) 17) = 17 /\
  Board_eq (set_half_move_clock (set_full_move_clock startpos 40) 17)
           startpos = true.
Proof.
  split; [reflexivity|].
  apply (Board_eq_ignores_clocks
           (set_half_move_clock (set_full_move_clock startpos 40) 17)
           startpos);
    intros; vm_compute; reflexivity.
Defined.

(* ------------------------------------------------------------------ *)
(** ** Position: make and unmake *)

(** C8.  [pos.make_move(m)] followed by [pos.unmake_move()] gives back the
    position it started from: board stack, MoveInfo stack, stack cursor,
    ply counter, extension counter and reduced flag.  It holds for every
    move and both values of [extension], so in particular for the legal
    moves of the current board. *)
Theorem make_unmake_identity (zk : ZobristKeys) (ev : EvalTables)
        (p : Position.t) (m : Move) (extension : bool) :
  Position.unmake_move (Position.make_move zk ev p m extension) = p.
Proof.
  destruct p as [boards stack pos exts moves red].
  unfold Position.unmake_move, Position.make_move; simpl.
  rewrite !removelast_last, last_last; simpl.
  destruct extension; f_equal; lia.
Qed.

Lemma make_unmake_null_identity (zk : ZobristKeys) (p : Position.t) :
  Position.unmake_null_move (Position.make_null_move zk p) = p.
Proof.
  destruct p as [boards stack pos exts moves red].
  unfold Position.unmake_null_move, Position.make_null_move; simpl.
  rewrite !removelast_last. f_equal; lia.
Qed.

(* ------------------------------------------------------------------ *)
(** ** Position: draw detection *)

(** The outer walk with [unique] set finds exactly the equal hashes at
    [pos1], [pos1 - 2], ... down to [min_pos]. *)
Lemma draw_walk1_unique (p : Position.t) (min_pos : Z) :
  forall (fuel : nat) (pos1 : Z),
    pos1 - min_pos < 2 * Z.of_nat fuel ->
    Position.draw_walk1 fuel p true min_pos pos1 = true <->
    exists j, 0 <= j /\ min_pos <= pos1 - 2 * j /\
              m_hash (Position.board p)
              = m_hash (Position.board_at p (pos1 - 2 * j)).
Proof.
  induction fuel as [|fuel IH]; intros pos1 Hfuel.
  - cbn [Position.draw_walk1].
    split; [discriminate|]. intros (j & Hj & Hmin & _). lia.
  - cbn [Position.draw_walk1].
    destruct (pos1 >=? min_pos) eqn:Hge.
    + apply Z.geb_le in Hge.
      destruct (m_hash (Position.board p)
                =? m_hash (Position.board_at p pos1)) eqn:Heq.
      * apply Z.eqb_eq in Heq. split; [intros _|reflexivity].
        exists 0. rewrite Z.mul_0_r, Z.sub_0_r. repeat split; [lia|lia|exact Heq].
      * apply Z.eqb_neq in Heq. rewrite IH by lia. split.
        -- intros (j & Hj & Hmin & Hh). exists (j + 1).
           replace (pos1 - 2 * (j + 1)) with (pos1 - 2 - 2 * j) by lia.
           repeat split; [lia|lia|exact Hh].
        -- intros (j & Hj & Hmin & Hh).
           destruct (Z.eq_dec j 0) as [->|Hnz].
           ++ rewrite Z.mul_0_r, Z.sub_0_r in Hh. contradiction.
           ++ exists (j - 1).
              replace (pos1 - 2 - 2 * (j - 1)) with (pos1 - 2 * j) by lia.
              repeat split; [lia|lia|exact Hh].
    + rewrite Z.geb_leb in Hge. apply Z.leb_gt in Hge.
      split; [discriminate|]. intros (j & Hj & Hmin & _). lia.
Qed.

(** C7, as the code has it.  With [half_move_clock < 100], [is_draw(true)]
    returns true exactly when the window [n = min(ply + 1,
    half_move_clock)] has at least eight plies and some earlier board at an
    even offset 4, 6, 8, ... back, not below [ply - n + 1], has the hash of
    the current board. *)
Theorem is_draw_unique_spec (p : Position.t) :
  m_half_move_clock (Position.board p) < 100 ->
  Position.is_draw p true = true <->
  8 <= repetition_window_size p /\ repetition_in_window p.
Proof.
  intros Hclock. unfold Position.is_draw, repetition_in_window,
    repetition_window_size.
  set (len := Z.of_nat (List.length (Position.m_boards p))).
  replace (len - 1 + 1) with len by lia.
  set (n := Z.min len (m_half_move_clock (Position.board p))).
  assert (Hlen : 0 <= len) by (unfold len; lia).
  assert (Hn : n <= len) by (unfold n; lia).
  destruct (m_half_move_clock (Position.board p) >=? 100) eqn:H100.
  { apply Z.geb_le in H100. lia. }
  destruct (n >=? 8) eqn:H8.
  - apply Z.geb_le in H8.
    rewrite draw_walk1_unique by (fold len; lia).
    split.
    + intros (j & Hj & Hmin & Hh). split; [exact H8|].
      exists (4 + 2 * j). repeat split; try lia.
      * rewrite Z.even_add_mul_2. reflexivity.
      * replace (len - 1 - (4 + 2 * j)) with (len - 1 - 4 - 2 * j) by lia.
        symmetry; exact Hh.
    + intros (_ & k & Hk & Hev & Hh).
      apply Z.even_spec in Hev. destruct Hev as [m Hm].
      exists (m - 2). repeat split; try lia.
      replace (len - 1 - 4 - 2 * (m - 2)) with (len - 1 - k) by lia.
      symmetry; exact Hh.
  - rewrite Z.geb_leb in H8. apply Z.leb_gt in H8.
    split; [discriminate|]. intros [H _]. lia.
Qed.

(** Eight reversible plies back to the initial position: a draw. *)
Lemma is_draw_unique_spec_witness :
  m_half_move_clock (Position.board long_dance_position) < 100 /\
  (Position.is_draw long_dance_position true = true <->
   8 <= repetition_window_size long_dance_position /\
   repetition_in_window long_dance_position).
Proof.
  assert (H : m_half_move_clock (Position.board long_dance_position) < 100)
    by (vm_compute; reflexivity).
  split; [exact H | exact (is_draw_unique_spec long_dance_position H)].
Defined.

(** C7, as the claim words it, fails: after [1. Nc3 Nc6 2. Nf3 Nf6 3. Ng1
    Ng8] the window is [n = 6], the board four plies back has the hash of
    the current one, and [is_draw(true)] returns false because of the guard
    [n_moves >= 8]. *)
Lemma is_draw_unique_short_window :
  m_half_move_clock (Position.board dance_position) < 100 /\
  ~ (Position.is_draw dance_position true = true <->
     repetition_in_window dance_position).
Proof.
  split; [vm_compute; reflexivity|].
  intros [_ H].
  assert (Hrep : repetition_in_window dance_position).
  { exists 4. vm_compute. repeat split; congruence. }
  specialize (H Hrep). vm_compute in H. discriminate H.
Qed.

(* ------------------------------------------------------------------ *)
(** ** Null move and the cached checkers *)

Lemma attackers_pieces_ext (a b : Board) (sq : Square) (occ : Bitboard)
      (side : Turn) :
  m_pieces a = m_pieces b -> attackers a sq occ side = attackers b sq occ side.
Proof. intros H. unfold attackers. rewrite H. reflexivity. Qed.

Lemma opp_involutive (t : Turn) : opp (opp t) = t.
Proof. destruct t; reflexivity. Qed.

Lemma bb_any_false (b : Bitboard) : bb_any b = false <-> b = 0.
Proof.
  unfold bb_any. rewrite negb_false_iff. apply Z.eqb_eq.
Qed.

Lemma make_null_move_fields (zk : ZobristKeys) (b : Board) :
  m_pieces (make_null_move zk b) = m_pieces b /\
  m_turn (make_null_move zk b) = opp (m_turn b) /\
  m_checkers (make_null_move zk b) = m_checkers b /\
  m_board_pieces (make_null_move zk b) = m_board_pieces b.
Proof.
  unfold make_null_move.
  destruct (negb (m_enpassant_square b =? SQUARE_NULL)); simpl; auto.
Qed.

Lemma is_valid_other_king_safe (zk : ZobristKeys) (ev : EvalTables) (b : Board) :
  is_valid zk ev b = true ->
  attackers b (bitscan_forward (m_pieces b KING (opp (m_turn b))))
            (get_pieces b) (m_turn b) = 0.
Proof.
  unfold is_valid. intros H. apply bb_any_false.
  destruct (bb_any _); [discriminate H | reflexivity].
Qed.

(** C6, as the code has it.  [make_null_move] copies the cached checkers:
    invariant 7 holds afterwards when the board it is applied to passes
    [is_valid] (so the side not to move is not in check) and its side to
    move is not in check, which is what callers have to make sure of. *)
Theorem make_null_move_checkers (zk : ZobristKeys) (ev : EvalTables)
        (b : Board) :
  is_valid zk ev b = true ->
  checkers_correct b ->
  bb_any (m_checkers b) = false ->
  checkers_correct (make_null_move zk b).
Proof.
  intros Hvalid _ Hquiet.
  destruct (make_null_move_fields zk b) as (Hp & Ht & Hc & _).
  unfold checkers_correct.
  rewrite (attackers_pieces_ext _ b) by exact Hp.
  unfold get_pieces, get_pieces_turn.
  rewrite Hp, Ht, Hc, opp_involutive.
  apply bb_any_false in Hquiet. rewrite Hquiet. symmetry.
  apply (is_valid_other_king_safe zk ev b Hvalid).
Qed.

Lemma make_null_move_checkers_witness :
  is_valid sample_keys sample_eval startpos = true /\
  checkers_correct startpos /\
  bb_any (m_checkers startpos) = false /\
  checkers_correct (make_null_move sample_keys startpos).
Proof.
  assert (H1 : is_valid sample_keys sample_eval startpos = true)
    by (vm_compute; reflexivity).
  assert (H2 : checkers_correct startpos) by (vm_compute; reflexivity).
  assert (H3 : bb_any (m_checkers startpos) = false)
    by (vm_compute; reflexivity).
  split; [exact H1 | split; [exact H2 | split; [exact H3 |]]].
  exact (make_null_move_checkers sample_keys sample_eval startpos H1 H2 H3).
Defined.

(** C6, as the claim words it, fails on a board whose side to move is in
    check: with the white king on e1 checked by the rook on h1, the null
    move hands the move to black with the rook still cached as a checker,
    while nothing attacks the black king on h8. *)
Lemma make_null_move_stale_checkers :
  is_valid sample_keys sample_eval checked_board = true /\
  checkers_correct checked_board /\
  ~ checkers_correct (make_null_move sample_keys checked_board).
Proof.
  split; [vm_compute; reflexivity|].
  split; [vm_compute; reflexivity|].
  unfold checkers_correct. vm_compute. discriminate.
Qed.

(* ------------------------------------------------------------------ *)
(** ** The staged cursor *)



Lemma pseudo_legal_null (b : Board) : pseudo_legal b MOVE_NULL = false.
Proof. reflexivity. Qed.

Lemma legal_null (zk : ZobristKeys) (ev : EvalTables) (b : Board) :
  legal zk ev b MOVE_NULL = false.
Proof. reflexivity. Qed.

Lemma generated_pseudo_legal (zk : ZobristKeys) (ev : EvalTables)
      (b : Board) (m : Move) :
  In m (generate_moves zk ev b MoveGenType.CAPTURES
        ++ generate_moves zk ev b MoveGenType.QUIETS) ->
  pseudo_legal b m = true.
Proof.
  intros H. apply in_app_or in H. simpl in H.
  destruct H as [H|H]; apply filter_In in H; destruct H as [_ H];
    apply andb_true_iff in H; apply H.
Qed.

Lemma swap_at_length (l : list Move) (i j : nat) :
  List.length (swap_at l i j) = List.length l.
Proof. unfold swap_at. rewrite length_map, length_seq. reflexivity. Qed.

Lemma swap_at_incl (l : list Move) (i j : nat) :
  (i < List.length l)%nat -> (j < List.length l)%nat ->
  incl (swap_at l i j) l.
Proof.
  intros Hi Hj x Hx. unfold swap_at in Hx.
  apply in_map_iff in Hx. destruct Hx as (k & Hk & Hin).
  apply in_seq in Hin.
  destruct (Nat.eqb k i); [subst x; apply nth_In; exact Hj|].
  destruct (Nat.eqb k j); subst x; apply nth_In; [exact Hi | lia].
Qed.

Lemma threshold_loop_spec (score : Move -> Z) (threshold : Z) :
  forall (n list_move pos : nat) (l : list Move),
    (list_move + n = List.length l)%nat -> (pos <= list_move)%nat ->
    List.length (fst (MoveOrder.threshold_loop score threshold n
                                               list_move pos l))
    = List.length l /\
    incl (fst (MoveOrder.threshold_loop score threshold n list_move pos l)) l.
Proof.
  induction n as [|n IH]; intros list_move pos l Hlen Hpos; simpl.
  - split; [reflexivity | apply incl_refl].
  - destruct (score (nth list_move l MOVE_NULL) >? threshold).
    + destruct (Nat.eqb pos list_move).
      * apply IH; lia.
      * destruct (IH (S list_move) (S pos) (swap_at l pos list_move))
          as [H1 H2]; [rewrite swap_at_length; lia | lia |].
        rewrite H1, swap_at_length. split; [reflexivity|].
        eapply incl_tran; [exact H2 | apply swap_at_incl; lia].
    + apply IH; lia.
Qed.

Lemma find_filter {A : Type} (f : A -> bool) (l : list A) :
  find f l = match filter f l with x :: _ => Some x | [] => None end.
Proof.
  induction l as [|a l IH]; simpl; [reflexivity|].
  destruct (f a); [reflexivity | exact IH].
Qed.

Lemma insert_desc_perm (score : Move -> Z) (x : Move) (l : list Move) :
  Permutation (insert_desc score x l) (x :: l).
Proof.
  induction l as [|y l IH]; simpl; [apply Permutation_refl|].
  destruct (score y <? score x); [apply Permutation_refl|].
  eapply perm_trans; [apply perm_skip, IH | apply perm_swap].
Qed.

Lemma insertion_sort_desc_perm (score : Move -> Z) (l : list Move) :
  Permutation (insertion_sort_desc score l) l.
Proof.
  induction l as [|x l IH]; simpl; [apply perm_nil|].
  eapply perm_trans; [apply insert_desc_perm | apply perm_skip, IH].
Qed.

(** The generator and the legality test are used through the lemmas above
    from here on. *)
Opaque generate_moves legal pseudo_legal.

Section Cursor.

Variable zk : ZobristKeys.
Variable ev : EvalTables.
Variable sort_desc : (Move -> Z) -> list Move -> list Move.
Hypothesis sort_perm : forall f l, Permutation (sort_desc f l) l.

Local Abbreviation nm := (MoveOrder.next_move zk ev sort_desc).
Local Abbreviation round := (MoveOrder.stage_round zk ev sort_desc).
Local Abbreviation ok := (cursor_ok zk ev).
Local Abbreviation budget := (cursor_budget zk ev).

Lemma same_setting_refl (a : MoveOrder.t) : same_setting a a.
Proof. repeat split. Qed.

Lemma same_setting_trans (a b c : MoveOrder.t) :
  same_setting a b -> same_setting b c -> same_setting a c.
Proof.
  unfold same_setting. intros (H1 & H2 & H3 & H4) (K1 & K2 & K3 & K4).
  repeat split; congruence.
Qed.

Lemma same_setting_lists (a b : MoveOrder.t) :
  same_setting a b ->
  MoveOrder.board a = MoveOrder.board b /\
  captures_of zk ev a = captures_of zk ev b /\
  quiets_of zk ev a = quiets_of zk ev b.
Proof.
  intros (H & _). unfold captures_of, quiets_of, MoveOrder.board.
  rewrite H. repeat split.
Qed.

Lemma next_kept_spec (keep : Move -> bool) :
  forall (fuel : nat) (mo : MoveOrder.t),
    match MoveOrder.next_kept fuel keep mo with
    | (Some m, mo') =>
        mo' = MoveOrder.set_moves mo (MoveOrder.m_moves mo)
                                  (MoveOrder.m_curr mo') /\
        (MoveOrder.m_curr mo < MoveOrder.m_curr mo'
         <= List.length (MoveOrder.m_moves mo))%nat /\
        In m (MoveOrder.m_moves mo) /\ keep m = true
    | (None, mo') =>
        mo' = MoveOrder.set_moves mo (MoveOrder.m_moves mo)
                                  (MoveOrder.m_curr mo') /\
        (MoveOrder.m_curr mo <= MoveOrder.m_curr mo')%nat
    end.
Proof.
  induction fuel as [|fuel IH]; intros mo; simpl.
  - split; [destruct mo; reflexivity | lia].
  - unfold MoveOrder.next.
    destruct (nth_error (MoveOrder.m_moves mo) (MoveOrder.m_curr mo))
      as [m|] eqn:Hnth.
    + assert (Hlt : (MoveOrder.m_curr mo
                     < List.length (MoveOrder.m_moves mo))%nat)
        by (apply nth_error_Some; congruence).
      destruct (keep m) eqn:Hkeep.
      * simpl. repeat split; [lia | lia | | exact Hkeep].
        eapply nth_error_In; exact Hnth.
      * specialize (IH (MoveOrder.set_moves mo (MoveOrder.m_moves mo)
                                            (S (MoveOrder.m_curr mo)))).
        destruct (MoveOrder.next_kept fuel keep _) as [[m'|] mo'];
          simpl in IH.
        -- destruct IH as (E & Hc & Hin & Hk).
           repeat split; [exact E | lia | lia | exact Hin | exact Hk].
        -- destruct IH as (E & Hc). split; [exact E | lia].
    + split; [destruct mo; reflexivity | lia].
Qed.

Ltac cursor_norm :=
  unfold MoveOrder.board, Position.move_list in *;
  cbn [MoveOrder.board MoveOrder.m_position MoveOrder.m_ply MoveOrder.m_depth
       MoveOrder.m_hash_move MoveOrder.m_histories MoveOrder.m_prev_move
       MoveOrder.m_quiescence MoveOrder.m_moves MoveOrder.m_stage
       MoveOrder.m_countermove MoveOrder.m_killer MoveOrder.m_curr
       MoveOrder.set_stage MoveOrder.set_moves MoveOrder.set_countermove
       MoveOrder.set_killer MoveOrder.next_stage MoveOrder.stage_index
       Position.move_list app fst snd] in *.

(** What one round of the loop does to the budget and to the stage. *)
Lemma stage_round_spec (mo : MoveOrder.t) :
  ok mo ->
  match round mo with
  | MoveOrder.Return m mo' =>
      ok mo' /\ same_setting mo mo' /\
      (MoveOrder.stage_index (MoveOrder.m_stage mo)
       <= MoveOrder.stage_index (MoveOrder.m_stage mo'))%nat /\
      (m <> MOVE_NULL ->
       (budget mo' < budget mo)%nat /\
       (legal zk ev (MoveOrder.board mo) m = true
        \/ In m (captures_of zk ev mo) \/ In m (quiets_of zk ev mo))) /\
      (m = MOVE_NULL -> round mo' = MoveOrder.Return MOVE_NULL mo')
  | MoveOrder.Continue mo' =>
      ok mo' /\ same_setting mo mo' /\
      (budget mo' <= budget mo)%nat /\
      MoveOrder.stage_index (MoveOrder.m_stage mo')
      = S (MoveOrder.stage_index (MoveOrder.m_stage mo))
  end.
Proof.
  intros Hok.
  assert (Hnn : forall m, In m (MoveOrder.m_moves mo) -> m <> MOVE_NULL).
  { intros m Hin ->. apply Hok in Hin.
    unfold captures_of, quiets_of in Hin.
    apply (generated_pseudo_legal zk ev) in Hin.
    rewrite pseudo_legal_null in Hin. discriminate Hin. }
  assert (Hsrc : forall m, In m (MoveOrder.m_moves mo) ->
                           In m (captures_of zk ev mo)
                           \/ In m (quiets_of zk ev mo)).
  { intros m Hin. apply in_app_or. apply Hok. exact Hin. }
  destruct mo as [pos ply depth hm hist pm q moves stage cm kl curr].
  unfold MoveOrder.stage_round, cursor_ok, cursor_budget, captures_of,
    quiets_of, same_setting in *.
  cursor_norm.
  destruct stage; cursor_norm.
  - (* HASH *)
    destruct (legal zk ev (Position.board pos) hm) eqn:Hl; cursor_norm.
    + split; [exact Hok|]. split; [repeat split|]. split; [lia|].
      split; [intros _; split; [lia | left; exact Hl]|].
      intros ->. rewrite legal_null in Hl. discriminate Hl.
    + split; [exact Hok|]. split; [repeat split|]. split; [lia | reflexivity].
  - (* CAPTURES_INIT *)
    split; [|split; [repeat split|split]].
    + intros x Hx. apply in_or_app. left.
      apply (Permutation_in _ (sort_perm _ _)) in Hx. exact Hx.
    + rewrite (Permutation_length (sort_perm _ _)). lia.
    + reflexivity.
  - (* CAPTURES *)
    pose proof (next_kept_spec (fun move => negb (move =? hm))
                  (List.length moves)
                  (MoveOrder.mk pos ply depth hm hist pm q moves
                                MoveOrder.CAPTURES cm kl curr)) as Hk.
    destruct (MoveOrder.next_kept _ _ _) as [[m|] mo']; cursor_norm.
    + destruct Hk as (-> & Hc & Hin & _). cursor_norm.
      split; [exact Hok|]. split; [repeat split|]. split; [lia|].
      split; [intros _; split; [lia | right; apply Hsrc; exact Hin]|].
      intros ->. exfalso. exact (Hnn _ Hin eq_refl).
    + destruct Hk as (-> & Hc). cursor_norm.
      split; [exact Hok|]. split; [repeat split|]. split; [lia | reflexivity].
  - (* CAPTURES_END *)
    destruct (q && negb (Position.in_check pos)) eqn:Hq; cursor_norm.
    + split; [exact Hok|]. split; [repeat split|]. split; [lia|].
      split; [intros H; exfalso; apply H; reflexivity|].
      intros _. rewrite Hq. reflexivity.
    + split; [exact Hok|]. split; [repeat split|]. split; [lia | reflexivity].
  - (* COUNTERMOVES *)
    destruct (negb (Histories.countermove hist pm =? hm)
              && legal zk ev (Position.board pos) (Histories.countermove hist pm)) eqn:Hl;
      cursor_norm.
    + apply andb_true_iff in Hl. destruct Hl as [_ Hl].
      split; [exact Hok|]. split; [repeat split|]. split; [lia|].
      split; [intros _; split; [lia | left; exact Hl]|].
      intros E. rewrite E, legal_null in Hl. discriminate Hl.
    + split; [exact Hok|]. split; [repeat split|]. split; [lia | reflexivity].
  - (* KILLERS *)
    destruct (find _ _) as [k|] eqn:Hf; cursor_norm.
    + apply find_some in Hf. destruct Hf as [_ Hf].
      unfold MoveOrder.killer_ok in Hf. cursor_norm.
      apply andb_true_iff in Hf. destruct Hf as [_ Hf].
      split; [exact Hok|]. split; [repeat split|]. split; [lia|].
      split; [intros _; split; [lia | left; exact Hf]|].
      intros E. rewrite E, legal_null in Hf. discriminate Hf.
    + split; [exact Hok|]. split; [repeat split|]. split; [lia | reflexivity].
  - (* QUIET_INIT *)
    unfold MoveOrder.threshold_moves.
    set (score := MoveOrder.quiet_score _).
    pose proof (threshold_loop_spec score (-3000 * depth) _ 0 0
                  (generate_moves zk ev (Position.board pos)
                                  MoveGenType.QUIETS)
                  eq_refl (le_n 0)) as [Hlen Hincl].
    destruct (MoveOrder.threshold_loop _ _ _ _ _ _) as [l' n'].
    cursor_norm.
    assert (Hsplit : Permutation (sort_desc score (firstn n' l')
                                  ++ skipn n' l') l').
    { rewrite <- (firstn_skipn n' l') at 3.
      apply Permutation_app_tail, sort_perm. }
    split; [|split; [repeat split|split]].
    + intros x Hx. apply in_or_app. right. apply Hincl.
      apply (Permutation_in _ Hsplit). exact Hx.
    + rewrite (Permutation_length Hsplit), Hlen. lia.
    + reflexivity.
  - (* QUIET *)
    pose proof (next_kept_spec
                  (fun move => negb (move =? hm) && negb (move =? kl)
                               && negb (move =? cm))
                  (List.length moves)
                  (MoveOrder.mk pos ply depth hm hist pm q moves
                                MoveOrder.QUIET cm kl curr)) as Hk.
    destruct (MoveOrder.next_kept _ _ _) as [[m|] mo']; cursor_norm.
    + destruct Hk as (-> & Hc & Hin & _). cursor_norm.
      split; [exact Hok|]. split; [repeat split|]. split; [lia|].
      split; [intros _; split; [lia | right; apply Hsrc; exact Hin]|].
      intros ->. exfalso. exact (Hnn _ Hin eq_refl).
    + destruct Hk as (-> & Hc). cursor_norm.
      split; [exact Hok|]. split; [repeat split|]. split; [lia | reflexivity].
  - (* NO_MOVES *)
    split; [exact Hok|]. split; [repeat split|]. split; [lia|].
    split; [intros H; exfalso; apply H; reflexivity | reflexivity].
Qed.

Lemma next_move_rounds_spec :
  forall (fuel : nat) (mo : MoveOrder.t),
    ok mo ->
    (9 <= fuel + MoveOrder.stage_index (MoveOrder.m_stage mo))%nat ->
    exists m mo',
      MoveOrder.next_move_rounds zk ev sort_desc fuel mo = Some (m, mo') /\
      ok mo' /\ same_setting mo mo' /\
      (MoveOrder.stage_index (MoveOrder.m_stage mo)
       <= MoveOrder.stage_index (MoveOrder.m_stage mo'))%nat /\
      (m <> MOVE_NULL ->
       (budget mo' < budget mo)%nat /\
       (legal zk ev (MoveOrder.board mo) m = true
        \/ In m (captures_of zk ev mo) \/ In m (quiets_of zk ev mo))) /\
      (m = MOVE_NULL -> round mo' = MoveOrder.Return MOVE_NULL mo').
Proof.
  induction fuel as [|fuel IH]; intros mo Hok Hfuel.
  - destruct (MoveOrder.m_stage mo); simpl in Hfuel; lia.
  - pose proof (stage_round_spec mo Hok) as Hr. simpl.
    destruct (round mo) as [m mo'|mo'].
    + exists m, mo'. split; [reflexivity | exact Hr].
    + destruct Hr as (H1 & H2 & H3 & H4).
      destruct (IH mo' H1) as (m & mo'' & E & K1 & K2 & K3 & K4 & K5);
        [lia|].
      exists m, mo''. destruct (same_setting_lists _ _ H2) as (Eb & Ec & Eq).
      split; [exact E|]. split; [exact K1|].
      split; [eapply same_setting_trans; eassumption|].
      split; [lia|]. split; [|exact K5].
      intros Hm. destruct (K4 Hm) as [K K']. split; [lia|].
      rewrite Eb, Ec, Eq. exact K'.
Qed.

(** [next_move] always returns: nine rounds of the loop are enough. *)
Lemma next_move_total (mo : MoveOrder.t) :
  ok mo ->
  MoveOrder.next_move_rounds zk ev sort_desc 9 mo = Some (nm mo).
Proof.
  intros Hok.
  destruct (next_move_rounds_spec 9 mo Hok) as (m & mo' & E & _); [lia|].
  unfold MoveOrder.next_move. rewrite E. reflexivity.
Qed.

Lemma next_move_spec (mo : MoveOrder.t) :
  ok mo ->
  ok (snd (nm mo)) /\ same_setting mo (snd (nm mo)) /\
  (MoveOrder.stage_index (MoveOrder.m_stage mo)
   <= MoveOrder.stage_index (MoveOrder.m_stage (snd (nm mo))))%nat /\
  (fst (nm mo) <> MOVE_NULL ->
   (budget (snd (nm mo)) < budget mo)%nat /\
   (legal zk ev (MoveOrder.board mo) (fst (nm mo)) = true
    \/ In (fst (nm mo)) (captures_of zk ev mo)
    \/ In (fst (nm mo)) (quiets_of zk ev mo))) /\
  (fst (nm mo) = MOVE_NULL ->
   round (snd (nm mo)) = MoveOrder.Return MOVE_NULL (snd (nm mo))).
Proof.
  intros Hok.
  destruct (next_move_rounds_spec 9 mo Hok)
    as (m & mo' & E & H1 & H2 & H3 & H4 & H5); [lia|].
  unfold MoveOrder.next_move. rewrite E. cbn [fst snd].
  split; [exact H1|]. split; [exact H2|]. split; [exact H3|].
  split; [exact H4 | exact H5].
Qed.

(** A cursor whose round returns [MOVE_NULL] without changing it stays
    there. *)
Lemma exhausted_stays (mo : MoveOrder.t) :
  round mo = MoveOrder.Return MOVE_NULL mo ->
  forall j, MoveOrder.after_calls zk ev sort_desc j mo = mo /\
            returned zk ev sort_desc mo j = MOVE_NULL.
Proof.
  intros Hr.
  assert (Hnm : nm mo = (MOVE_NULL, mo)).
  { unfold MoveOrder.next_move. cbn [MoveOrder.next_move_rounds]. rewrite Hr.
    reflexivity. }
  assert (Hj : forall j, MoveOrder.after_calls zk ev sort_desc j mo = mo).
  { induction j as [|j IH]; simpl; [reflexivity|].
    rewrite Hnm. exact IH. }
  intros j. split; [apply Hj|].
  unfold returned. rewrite Hj, Hnm. reflexivity.
Qed.

Lemma after_calls_S (j : nat) (mo : MoveOrder.t) :
  MoveOrder.after_calls zk ev sort_desc (S j) mo
  = MoveOrder.after_calls zk ev sort_desc j (snd (nm mo)).
Proof. reflexivity. Qed.

Lemma returned_S (j : nat) (mo : MoveOrder.t) :
  returned zk ev sort_desc mo (S j)
  = returned zk ev sort_desc (snd (nm mo)) j.
Proof. reflexivity. Qed.

Lemma after_calls_spec (mo : MoveOrder.t) :
  ok mo ->
  forall j,
    ok (MoveOrder.after_calls zk ev sort_desc j mo) /\
    same_setting mo (MoveOrder.after_calls zk ev sort_desc j mo) /\
    (MoveOrder.stage_index (MoveOrder.m_stage mo)
     <= MoveOrder.stage_index
          (MoveOrder.m_stage (MoveOrder.after_calls zk ev sort_desc j mo)))%nat.
Proof.
  intros Hok j. revert mo Hok.
  induction j as [|j IH]; intros mo Hok.
  - cbn [MoveOrder.after_calls].
    split; [exact Hok|]. split; [apply same_setting_refl | lia].
  - rewrite after_calls_S.
    destruct (next_move_spec mo Hok) as (H1 & H2 & H3 & _).
    destruct (IH _ H1) as (K1 & K2 & K3).
    split; [exact K1|].
    split; [eapply same_setting_trans; eassumption | lia].
Qed.

(** Within [budget + 1] calls the cursor returns [MOVE_NULL], and from
    then on it always does. *)
Lemma null_within_budget :
  forall (n : nat) (mo : MoveOrder.t),
    ok mo -> (budget mo <= n)%nat ->
    exists k, (k <= n)%nat /\
              forall j, (k <= j)%nat ->
                        returned zk ev sort_desc mo j = MOVE_NULL.
Proof.
  induction n as [|n IH]; intros mo Hok Hb.
  - exists 0%nat. split; [lia|].
    destruct (next_move_spec mo Hok) as (_ & _ & _ & H4 & H5).
    destruct (Z.eq_dec (fst (nm mo)) MOVE_NULL) as [E|E].
    + intros [|j] _; [exact E|].
      rewrite returned_S. apply exhausted_stays. apply H5. exact E.
    + destruct (H4 E) as [Hlt _]. lia.
  - destruct (next_move_spec mo Hok) as (H1 & _ & _ & H4 & H5).
    destruct (Z.eq_dec (fst (nm mo)) MOVE_NULL) as [E|E].
    + exists 0%nat. split; [lia|].
      intros [|j] _; [exact E|].
      rewrite returned_S. apply exhausted_stays. apply H5. exact E.
    + destruct (H4 E) as [Hlt _].
      destruct (IH (snd (nm mo)) H1) as (k & Hk & Hall); [lia|].
      exists (S k). split; [lia|].
      intros [|j] Hj; [lia|]. rewrite returned_S. apply Hall. lia.
Qed.

Lemma create_ok (pos : Position.t) (ply depth : Z) (hash_move : Move)
      (histories : Histories.t) (prev_move : Move) (quiescence : bool) :
  ok (MoveOrder.create pos ply depth hash_move histories prev_move quiescence).
Proof. intros x Hx. destruct Hx. Qed.

Lemma after_calls_add (i k : nat) (mo : MoveOrder.t) :
  MoveOrder.after_calls zk ev sort_desc (i + k) mo
  = MoveOrder.after_calls zk ev sort_desc k
      (MoveOrder.after_calls zk ev sort_desc i mo).
Proof.
  revert mo. induction i as [|i IH]; intros mo;
    cbn [MoveOrder.after_calls Nat.add]; [reflexivity | apply IH].
Qed.

(** The first [MOVE_NULL] is final: whatever call returns it, every later
    call returns it too. *)
Lemma null_is_final (mo : MoveOrder.t) (i j : nat) :
  ok mo -> returned zk ev sort_desc mo i = MOVE_NULL -> (i <= j)%nat ->
  returned zk ev sort_desc mo j = MOVE_NULL.
Proof.
  intros Hok Hi Hij.
  destruct (Nat.eq_dec i j) as [<-|Hne]; [exact Hi|].
  destruct (after_calls_spec mo Hok i) as (Hcur & _ & _).
  destruct (next_move_spec _ Hcur) as (_ & _ & _ & _ & H5).
  unfold returned in Hi. specialize (H5 Hi).
  replace j with (i + S (j - i - 1))%nat by lia.
  unfold returned. rewrite after_calls_add. rewrite after_calls_S.
  exact (proj2 (exhausted_stays _ H5 (j - i - 1)%nat)).
Qed.

(** C9.  A cursor reaches [MOVE_NULL] after at most
    [|pseudo-legal moves| + 6] calls of [next_move] (the captures and the
    quiets that the generator emits for the position), and once it has
    returned [MOVE_NULL] - at whatever call - every later call returns
    [MOVE_NULL] as well. *)
Theorem next_move_reaches_null
        (pos : Position.t) (ply depth : Z) (hash_move : Move)
        (histories : Histories.t) (prev_move : Move) (quiescence : bool) :
  let mo := MoveOrder.create pos ply depth hash_move histories prev_move
                             quiescence in
  let pseudo_legal_moves :=
    (List.length (generate_moves zk ev (Position.board pos)
                                 MoveGenType.CAPTURES)
     + List.length (generate_moves zk ev (Position.board pos)
                                   MoveGenType.QUIETS))%nat in
  (exists k, (k < pseudo_legal_moves + 6)%nat /\
             forall j, (k <= j)%nat ->
                       returned zk ev sort_desc mo j = MOVE_NULL) /\
  (forall i j, returned zk ev sort_desc mo i = MOVE_NULL -> (i <= j)%nat ->
               returned zk ev sort_desc mo j = MOVE_NULL).
Proof.
  intros mo pseudo_legal_moves. split.
  - destruct (null_within_budget (pseudo_legal_moves + 3) mo)
      as (k & Hk & H).
    + apply create_ok.
    + unfold cursor_budget, captures_of, quiets_of, mo, pseudo_legal_moves,
        MoveOrder.create, MoveOrder.board.
      cbn [MoveOrder.m_stage MoveOrder.m_position]. lia.
    + exists k. split; [lia | exact H].
  - intros i j Hi Hij. apply (null_is_final mo i j); [|exact Hi | exact Hij].
    apply create_ok.
Qed.

(** The stage machine advances monotonically. *)
Lemma stage_monotone (mo : MoveOrder.t) (j : nat) :
  ok mo ->
  (MoveOrder.stage_index (MoveOrder.m_stage mo)
   <= MoveOrder.stage_index
        (MoveOrder.m_stage (MoveOrder.after_calls zk ev sort_desc j mo)))%nat.
Proof. intros Hok. apply after_calls_spec. exact Hok. Qed.


(** C5, as the code has it.  The KILLERS stage advances the stage before it
    looks at the killers and returns at the first eligible one: a call that
    enters in the KILLERS stage returns the first (lowest slot) stored
    killer that differs from the hash move and the countermove and is
    legal, records it in [m_killer] and leaves the cursor in QUIET_INIT;
    no later call is in the KILLERS stage again, so the stage yields at
    most one killer. *)
Theorem killers_stage_yields_first (mo : MoveOrder.t) :
  ok mo ->
  MoveOrder.m_stage mo = MoveOrder.KILLERS ->
  (forall k rest,
      MoveOrder.eligible_killers zk ev mo = k :: rest ->
      nm mo = (k, MoveOrder.set_killer
                    (MoveOrder.set_stage mo MoveOrder.QUIET_INIT) k)) /\
  (forall j, (1 <= j)%nat ->
             (MoveOrder.stage_index MoveOrder.KILLERS
              < MoveOrder.stage_index
                  (MoveOrder.m_stage
                     (MoveOrder.after_calls zk ev sort_desc j mo)))%nat).
Proof.
  intros Hok Hstage. split.
  - intros k rest Hel.
    unfold MoveOrder.next_move. cbn [MoveOrder.next_move_rounds].
    unfold MoveOrder.stage_round. rewrite Hstage.
    cbn [MoveOrder.next_stage]. rewrite find_filter.
    unfold MoveOrder.eligible_killers in Hel.
    destruct mo as [pos ply depth hm hist pm q moves stage cm kl curr].
    cbn [MoveOrder.set_stage MoveOrder.set_killer MoveOrder.m_histories
         MoveOrder.m_ply MoveOrder.m_position MoveOrder.m_depth
         MoveOrder.m_hash_move MoveOrder.m_prev_move MoveOrder.m_quiescence
         MoveOrder.m_moves MoveOrder.m_stage MoveOrder.m_countermove
         MoveOrder.m_killer MoveOrder.m_curr] in *.
    match goal with
    | |- context [filter ?f ?l] =>
        replace (filter f l) with (k :: rest)
          by (rewrite <- Hel; apply filter_ext; intros a; reflexivity)
    end.
    reflexivity.
  - intros [|j] Hj; [lia|]. rewrite after_calls_S.
    assert (Hfirst : (MoveOrder.stage_index MoveOrder.KILLERS
                      < MoveOrder.stage_index
                          (MoveOrder.m_stage (snd (nm mo))))%nat).
    { pose proof (stage_round_spec mo Hok) as Hr.
      unfold MoveOrder.next_move.
      change (MoveOrder.next_move_rounds zk ev sort_desc 9 mo)
        with (match round mo with
              | MoveOrder.Return move mo' => Some (move, mo')
              | MoveOrder.Continue mo' =>
                  MoveOrder.next_move_rounds zk ev sort_desc 8 mo'
              end).
      assert (Hr' : match round mo with
                    | MoveOrder.Return _ mo' | MoveOrder.Continue mo' =>
                        MoveOrder.m_stage mo' = MoveOrder.QUIET_INIT
                    end).
      { unfold MoveOrder.stage_round. rewrite Hstage.
        destruct (find _ _); reflexivity. }
      destruct (round mo) as [m mo'|mo'].
      - simpl. rewrite Hr'. simpl. lia.
      - destruct Hr as (H1 & _).
        destruct (next_move_rounds_spec 8 mo' H1) as (m & mo'' & E & _ & _ & K & _).
        + rewrite Hr'. simpl. lia.
        + rewrite E. simpl. rewrite Hr' in K. simpl in K. simpl. lia. }
    destruct (next_move_spec mo Hok) as (H1 & _).
    pose proof (stage_monotone (snd (nm mo)) j H1). lia.
Qed.

End Cursor.

Transparent generate_moves legal pseudo_legal.

(** The cursor on the pinned-knight position. *)
Lemma next_move_reaches_null_witness :
  (exists k,
     (k < List.length (generate_moves sample_keys sample_eval
                         (Position.board pinned_knight_position)
                         MoveGenType.CAPTURES)
          + List.length (generate_moves sample_keys sample_eval
                           (Position.board pinned_knight_position)
                           MoveGenType.QUIETS) + 6)%nat /\
     forall j, (k <= j)%nat ->
               returned sample_keys sample_eval insertion_sort_desc
                        pinned_cursor j = MOVE_NULL) /\
  (forall i j,
     returned sample_keys sample_eval insertion_sort_desc pinned_cursor i
     = MOVE_NULL -> (i <= j)%nat ->
     returned sample_keys sample_eval insertion_sort_desc pinned_cursor j
     = MOVE_NULL).
Proof.
  exact (next_move_reaches_null sample_keys sample_eval insertion_sort_desc
           insertion_sort_desc_perm pinned_knight_position 0 1 MOVE_NULL
           Histories.clear MOVE_NULL false).
Defined.



Lemma killer_stage_cursor_ok :
  cursor_ok sample_keys sample_eval killer_stage_cursor.
Proof.
  unfold killer_stage_cursor, killer_cursor.
  exact (proj1 (after_calls_spec sample_keys sample_eval insertion_sort_desc
                  insertion_sort_desc_perm _
                  (create_ok sample_keys sample_eval _ _ _ _ _ _ _) 1)).
Qed.

Lemma killers_stage_yields_first_witness :
  MoveOrder.m_stage killer_stage_cursor = MoveOrder.KILLERS /\
  forall j, (1 <= j)%nat ->
            (MoveOrder.stage_index MoveOrder.KILLERS
             < MoveOrder.stage_index
                 (MoveOrder.m_stage
                    (MoveOrder.after_calls sample_keys sample_eval
                       insertion_sort_desc j killer_stage_cursor)))%nat.
Proof.
  assert (H : MoveOrder.m_stage killer_stage_cursor = MoveOrder.KILLERS)
    by (vm_compute; reflexivity).
  split; [exact H|].
  exact (proj2 (killers_stage_yields_first sample_keys sample_eval
                  insertion_sort_desc insertion_sort_desc_perm
                  killer_stage_cursor killer_stage_cursor_ok H)).
Defined.

(** C5, as the claim words it, fails: after [1. a3 c5] with the killers
    [Nf3] and [Nc3] stored for the ply, both legal and different from the
    hash move and from the countermove [e4], the cursor that has returned
    the countermove is in the KILLERS stage; its next two calls return
    [Nf3] and then the quiet move [d4], not the second killer. *)
Lemma killers_stage_yields_one :
  MoveOrder.m_stage killer_stage_cursor = MoveOrder.KILLERS /\
  MoveOrder.eligible_killers sample_keys sample_eval killer_stage_cursor
  = [killer_Nf3; killer_Nc3] /\
  MoveOrder.calls sample_keys sample_eval insertion_sort_desc 2
                  killer_stage_cursor = [killer_Nf3; quiet_d4] /\
  ~ killers_all_yielded sample_keys sample_eval insertion_sort_desc
                        killer_stage_cursor.
Proof.
  split; [vm_compute; reflexivity|].
  split; [vm_compute; reflexivity|].
  split; [vm_compute; reflexivity|].
  unfold killers_all_yielded. vm_compute. discriminate.
Qed.

(* ------------------------------------------------------------------ *)
(** ** Squares, bitboards and folds over them *)

Lemma in_all_squares (s : Z) : In s all_squares <-> 0 <= s < 64.
Proof.
  unfold all_squares. rewrite in_map_iff. split.
  - intros (n & <- & Hn). apply in_seq in Hn. lia.
  - intros H. exists (Z.to_nat s). split; [lia|]. apply in_seq. lia.
Qed.

Lemma NoDup_all_squares : NoDup all_squares.
Proof.
  unfold all_squares. apply Injective_map_NoDup.
  - intros x y H. lia.
  - apply seq_NoDup.
Qed.

Lemma all_squares_length : List.length all_squares = 64%nat.
Proof. unfold all_squares. rewrite length_map, length_seq. reflexivity. Qed.

(** The list of squares is used through the three lemmas above. *)
Opaque all_squares.

Lemma valid_square_iff (s : Z) : valid_square s = true <-> 0 <= s < 64.
Proof. unfold valid_square. lia. Qed.

Lemma valid_square_false (s : Z) : valid_square s = false <-> ~ 0 <= s < 64.
Proof. unfold valid_square. lia. Qed.

Lemma bb_squares_In (bb : Bitboard) (s : Square) :
  In s (bb_squares bb) <-> 0 <= s < 64 /\ Z.testbit bb s = true.
Proof.
  unfold bb_squares, bb_test. rewrite filter_In, in_all_squares. tauto.
Qed.

Lemma bb_squares_length (bb : Bitboard) :
  (List.length (bb_squares bb) <= 64)%nat.
Proof.
  unfold bb_squares.
  eapply Nat.le_trans; [apply filter_length_le|].
  rewrite all_squares_length. lia.
Qed.

Lemma bb_squares_nil (bb : Bitboard) :
  bb_bounded bb -> bb_squares bb = [] -> bb = 0.
Proof.
  intros Hb Hnil. apply Z.bits_inj'. intros n Hn. rewrite Z.bits_0.
  destruct (Z.testbit bb n) eqn:E; [|reflexivity].
  assert (Hin : In n (bb_squares bb)) by (apply bb_squares_In; auto).
  rewrite Hnil in Hin. destruct Hin.
Qed.

Lemma filter_tail (f : Z -> bool) (l : list Z) (s : Z) (rest : list Z) :
  NoDup l -> filter f l = s :: rest ->
  filter (fun x => f x && negb (s =? x)) l = rest.
Proof.
  induction l as [|a l IH]; intros Hnd Hf; cbn [filter] in *.
  - discriminate Hf.
  - inversion Hnd as [|? ? Hnotin Hnd']; subst.
    destruct (f a) eqn:Hfa.
    + injection Hf as -> <-. rewrite Z.eqb_refl. cbn [andb negb].
      apply filter_ext_in. intros x Hx.
      destruct (Z.eqb_spec s x) as [->|_]; [contradiction|].
      rewrite andb_true_r. reflexivity.
    + cbn [andb]. apply IH; assumption.
Qed.

Lemma bb_bounded_reset (bb : Bitboard) (s : Square) :
  bb_bounded bb -> bb_bounded (bb_reset bb s).
Proof.
  intros Hb x Hx. apply Hb. unfold bb_reset in Hx.
  rewrite Z.clearbit_eqb in Hx. apply andb_true_iff in Hx. apply Hx.
Qed.

Lemma bb_bounded_set (bb : Bitboard) (s : Square) :
  0 <= s < 64 -> bb_bounded bb -> bb_bounded (bb_set bb s).
Proof.
  intros Hs Hb x Hx. unfold bb_set in Hx.
  apply Z.setbit_iff in Hx; [|lia]. destruct Hx as [<-|Hx]; [lia|].
  apply Hb. exact Hx.
Qed.

Lemma bb_bounded_0 : bb_bounded 0.
Proof. intros s Hs. rewrite Z.bits_0 in Hs. discriminate Hs. Qed.

(** The loop [while (bb) ... bb.bitscan_forward_reset()] visits the members
    of the bitboard, lowest first. *)
Lemma bb_loop_fold {A : Type} (f : A -> Square -> A) :
  forall (fuel : nat) (bb : Bitboard) (acc : A),
    bb_bounded bb ->
    (List.length (bb_squares bb) <= fuel)%nat ->
    bb_loop fuel f bb acc = fold_left f (bb_squares bb) acc.
Proof.
  induction fuel as [|fuel IH]; intros bb acc Hb Hlen.
  - destruct (bb_squares bb); [reflexivity | cbn in Hlen; lia].
  - cbn [bb_loop]. unfold bb_any.
    destruct (Z.eqb_spec bb 0) as [->|Hnz]; cbn [negb].
    + reflexivity.
    + unfold bitscan_forward_reset, bitscan_forward.
      destruct (bb_squares bb) as [|s rest] eqn:Hsq.
      * exfalso. apply Hnz. apply bb_squares_nil; assumption.
      * assert (Hrest : bb_squares (bb_reset bb s) = rest).
        { unfold bb_squares in *.
          rewrite (filter_ext (bb_test (bb_reset bb s))
                              (fun x => bb_test bb x && negb (s =? x)))
            by (intros x; apply Z.clearbit_eqb).
          exact (filter_tail (bb_test bb) all_squares s rest
                             NoDup_all_squares Hsq). }
        rewrite IH.
        -- rewrite Hrest. reflexivity.
        -- apply bb_bounded_reset. exact Hb.
        -- rewrite Hrest. cbn in Hlen. lia.
Qed.

Lemma bb_loop_64 {A : Type} (f : A -> Square -> A) (bb : Bitboard) (acc : A) :
  bb_bounded bb ->
  bb_loop 64 f bb acc = fold_left f (bb_squares bb) acc.
Proof.
  intros Hb. apply bb_loop_fold; [exact Hb | apply bb_squares_length].
Qed.

Section Monoid.

Variable op : Z -> Z -> Z.
Variable e : Z.
Hypothesis op_assoc : forall a b c, op a (op b c) = op (op a b) c.
Hypothesis op_comm : forall a b, op a b = op b a.
Hypothesis op_unit : forall a, op a e = a.

Lemma op_unit_l (a : Z) : op e a = a.
Proof. rewrite op_comm. apply op_unit. Qed.

Lemma fold_op_acc (g : Z -> Z) (l : list Z) (a : Z) :
  fold_left (fun a s => op a (g s)) l a
  = op a (fold_left (fun a s => op a (g s)) l e).
Proof.
  revert a. induction l as [|x l IH]; intros a; cbn [fold_left].
  - symmetry. apply op_unit.
  - rewrite IH, (IH (op e (g x))), op_unit_l, op_assoc. reflexivity.
Qed.

Lemma fold_op_ext (g g' : Z -> Z) (l : list Z) (a : Z) :
  (forall s, In s l -> g s = g' s) ->
  fold_left (fun a s => op a (g s)) l a
  = fold_left (fun a s => op a (g' s)) l a.
Proof.
  revert a. induction l as [|x l IH]; intros a H; cbn [fold_left].
  - reflexivity.
  - rewrite (H x) by (left; reflexivity). apply IH.
    intros s Hs. apply H. right. exact Hs.
Qed.

Lemma fold_op_filter (P : Z -> bool) (g : Z -> Z) (l : list Z) (a : Z) :
  fold_left (fun a s => op a (g s)) (filter P l) a
  = fold_left (fun a s => op a (if P s then g s else e)) l a.
Proof.
  revert a. induction l as [|x l IH]; intros a; cbn [fold_left filter].
  - reflexivity.
  - destruct (P x); cbn [fold_left]; [|rewrite op_unit]; apply IH.
Qed.

Lemma fold_op_split (g1 g2 : Z -> Z) (l : list Z) (a1 a2 : Z) :
  fold_left (fun a s => op a (op (g1 s) (g2 s))) l (op a1 a2)
  = op (fold_left (fun a s => op a (g1 s)) l a1)
       (fold_left (fun a s => op a (g2 s)) l a2).
Proof.
  revert a1 a2. induction l as [|x l IH]; intros a1 a2; cbn [fold_left].
  - reflexivity.
  - rewrite <- IH. f_equal.
    rewrite !op_assoc. f_equal.
    rewrite <- !op_assoc. f_equal. apply op_comm.
Qed.

Lemma fold_op_point (d s0 : Z) (l : list Z) (a : Z) :
  NoDup l ->
  fold_left (fun a s => op a (if s =? s0 then d else e)) l a
  = if existsb (Z.eqb s0) l then op a d else a.
Proof.
  revert a. induction l as [|x l IH]; intros a Hnd; cbn [fold_left existsb].
  - reflexivity.
  - inversion Hnd as [|? ? Hnotin Hnd']; subst.
    rewrite IH by exact Hnd'. rewrite (Z.eqb_sym s0 x).
    destruct (Z.eqb_spec x s0) as [->|Hne]; cbn [orb].
    + destruct (existsb (Z.eqb s0) l) eqn:Hex; [|reflexivity].
      apply existsb_exists in Hex. destruct Hex as (y & Hy & Heq).
      apply Z.eqb_eq in Heq. subst y. contradiction.
    + rewrite op_unit. reflexivity.
Qed.

Lemma squares_fold_ext (g g' : Square -> Z) :
  (forall s, 0 <= s < 64 -> g s = g' s) ->
  squares_fold op e g = squares_fold op e g'.
Proof.
  intros H. apply fold_op_ext. intros s Hs. apply H.
  apply in_all_squares. exact Hs.
Qed.

Lemma squares_fold_op (g1 g2 : Square -> Z) :
  squares_fold op e (fun s => op (g1 s) (g2 s))
  = op (squares_fold op e g1) (squares_fold op e g2).
Proof.
  unfold squares_fold. rewrite <- fold_op_split, op_unit. reflexivity.
Qed.

Lemma squares_fold_unit : squares_fold op e (fun _ => e) = e.
Proof.
  unfold squares_fold.
  assert (H : forall l a, fold_left (fun a (_ : Z) => op a e) l a = a).
  { induction l as [|x l IH]; intros a; cbn [fold_left];
      [reflexivity | rewrite op_unit; apply IH]. }
  apply H.
Qed.

Lemma squares_fold_point (d : Z) (s0 : Square) :
  squares_fold op e (fun s => if s =? s0 then d else e)
  = if valid_square s0 then d else e.
Proof.
  unfold squares_fold. rewrite fold_op_point by apply NoDup_all_squares.
  destruct (valid_square s0) eqn:Hv.
  - apply valid_square_iff in Hv.
    assert (Hex : existsb (Z.eqb s0) all_squares = true).
    { apply existsb_exists. exists s0. split;
        [apply in_all_squares; exact Hv | apply Z.eqb_refl]. }
    rewrite Hex. apply op_unit_l.
  - apply valid_square_false in Hv.
    destruct (existsb (Z.eqb s0) all_squares) eqn:Hex; [|reflexivity].
    apply existsb_exists in Hex. destruct Hex as (y & Hy & Heq).
    apply Z.eqb_eq in Heq. subst y. apply in_all_squares in Hy. contradiction.
Qed.

(** Changing the term of one square. *)
Lemma squares_fold_update (g g' : Square -> Z) (s0 : Square) (d : Z) :
  0 <= s0 < 64 ->
  g' s0 = op (g s0) d ->
  (forall s, s <> s0 -> g' s = g s) ->
  squares_fold op e g' = op (squares_fold op e g) d.
Proof.
  intros Hs0 Hat Hother.
  rewrite (squares_fold_ext g'
             (fun s => op (g s) (if s =? s0 then d else e))).
  - rewrite squares_fold_op, squares_fold_point.
    assert (Hv : valid_square s0 = true) by (apply valid_square_iff; exact Hs0).
    rewrite Hv. reflexivity.
  - intros s _. destruct (Z.eqb_spec s s0) as [->|Hne].
    + exact Hat.
    + rewrite op_unit. apply Hother. exact Hne.
Qed.

(** The bit loop folds the members of the bitboard. *)
Lemma bb_loop_squares (f : Square -> Z) (bb : Bitboard) (a : Z) :
  bb_bounded bb ->
  bb_loop 64 (fun a s => op a (f s)) bb a
  = op a (squares_fold op e (fun s => if Z.testbit bb s then f s else e)).
Proof.
  intros Hb. rewrite bb_loop_64 by exact Hb.
  unfold bb_squares, bb_test, squares_fold.
  rewrite fold_op_filter. apply fold_op_acc.
Qed.

(** A fold over pairs of folds over squares is a fold over squares of
    folds over pairs. *)
Lemma fold_squares_fold {I : Type} (g : I -> Square -> Z) (l : list I) (a : Z) :
  fold_left (fun a i => op a (squares_fold op e (g i))) l a
  = op a (squares_fold op e
            (fun s => fold_left (fun a i => op a (g i s)) l e)).
Proof.
  revert a. induction l as [|i l IH]; intros a; cbn [fold_left].
  - rewrite squares_fold_unit. symmetry. apply op_unit.
  - rewrite IH, <- op_assoc. f_equal.
    rewrite <- squares_fold_op. apply squares_fold_ext. intros s _.
    rewrite op_unit_l.
    assert (H : forall l' b,
               fold_left (fun a i => op a (g i s)) l' b
               = op b (fold_left (fun a i => op a (g i s)) l' e)).
    { induction l' as [|j l' IH']; intros b; cbn [fold_left].
      - symmetry. apply op_unit.
      - rewrite IH', (IH' (op e (g j s))), op_unit_l, op_assoc.
        reflexivity. }
    symmetry. apply H.
Qed.

End Monoid.

Lemma lxor_assoc' (a b c : Z) : Z.lxor a (Z.lxor b c) = Z.lxor (Z.lxor a b) c.
Proof. symmetry. apply Z.lxor_assoc. Qed.

(** Bitwise equalities between XOR expressions. *)
Ltac xor_solve :=
  apply Z.bits_inj'; intros ?n ?Hn;
  repeat rewrite Z.lxor_spec; repeat rewrite Z.bits_0; btauto.

(* ------------------------------------------------------------------ *)
(** ** The from-scratch values, square by square *)

Lemma fold_left_ext_in {A B : Type} (f g : A -> B -> A) (l : list B) (a : A) :
  (forall a x, In x l -> f a x = g a x) ->
  fold_left f l a = fold_left g l a.
Proof.
  revert a. induction l as [|x l IH]; intros a H; cbn [fold_left].
  - reflexivity.
  - rewrite (H a x) by (left; reflexivity). apply IH.
    intros a' y Hy. apply H. right. exact Hy.
Qed.

Lemma bb_loop_map {A B : Type} (h : A -> B) (f : A -> Square -> A)
      (f' : B -> Square -> B) :
  (forall a s, h (f a s) = f' (h a) s) ->
  forall (fuel : nat) (bb : Bitboard) (acc : A),
    h (bb_loop fuel f bb acc) = bb_loop fuel f' bb (h acc).
Proof.
  intros Hf. induction fuel as [|fuel IH]; intros bb acc; cbn [bb_loop].
  - reflexivity.
  - destruct (bb_any bb); [|reflexivity].
    destruct (bitscan_forward_reset bb) as [s bb']. rewrite IH, Hf.
    reflexivity.
Qed.

Lemma Piece_eqb_eq (a b : Piece) : Piece_eqb a b = true <-> a = b.
Proof.
  destruct a as [p t|], b as [q u|]; cbn [Piece_eqb];
    try (split; [discriminate | discriminate]); try tauto.
  rewrite andb_true_iff, PieceType_eqb_eq, Turn_eqb_eq.
  split; [intros [-> ->]; reflexivity | intros H; injection H; auto].
Qed.

Lemma Piece_eqb_refl (a : Piece) : Piece_eqb a a = true.
Proof. apply Piece_eqb_eq. reflexivity. Qed.

Lemma pairs_by_piece_real (i : PieceType * Turn) :
  In i pairs_by_piece -> fst i <> PIECE_NONE.
Proof.
  cbv [pairs_by_piece piece_types turns flat_map map app].
  intros H. repeat (destruct H as [<-|H]; [discriminate|]). destruct H.
Qed.

Lemma pairs_by_turn_real (i : PieceType * Turn) :
  In i pairs_by_turn -> fst i <> PIECE_NONE.
Proof.
  cbv [pairs_by_turn piece_types turns flat_map map app].
  intros H. repeat (destruct H as [<-|H]; [discriminate|]). destruct H.
Qed.

Lemma placed_bounded (b : Board) (p : PieceType) (t : Turn) :
  placed b -> p <> PIECE_NONE -> bb_bounded (m_pieces b p t).
Proof.
  intros Hp Hreal s Hs. rewrite Hp in Hs by exact Hreal.
  apply andb_true_iff in Hs. apply valid_square_iff. apply Hs.
Qed.

Lemma bb_count_sum (bb : Bitboard) (c : Z) :
  bb_count bb * c = sum_squares (fun s => if Z.testbit bb s then c else 0).
Proof.
  unfold bb_count, bb_squares, sum_squares, squares_fold.
  assert (H : forall l a,
             fold_left (fun a s => a + (if Z.testbit bb s then c else 0)) l a
             = a + Z.of_nat (List.length (filter (bb_test bb) l)) * c).
  { induction l as [|x l IH]; intros a; cbn [fold_left filter List.length].
    - lia.
    - rewrite IH. change (bb_test bb x) with (Z.testbit bb x).
      destruct (Z.testbit bb x); cbn [List.length]; lia. }
  rewrite H. lia.
Qed.

Section Canonical.

Variable zk : ZobristKeys.
Variable ev : EvalTables.

Local Abbreviation key := (get_piece_turn_square zk).

(** Per square, the terms of the twelve bitboards add up to the term of
    the piece in the mailbox. *)
Ltac by_mailbox Hp Hc s :=
  rewrite !Hp by discriminate;
  match goal with
  | Hv : 0 <= s < 64 |- _ =>
      rewrite (proj2 (valid_square_iff s) Hv)
  end;
  destruct (m_board_pieces _ s) as [[] []|] eqn:?Hmb;
  try (exfalso; eapply Hc; eassumption);
  cbn [andb Piece_eqb PieceType_eqb Turn_eqb piece_index Z.eqb Pos.eqb].

Lemma hash_pieces_canonical (b : Board) (h : Z) :
  placed b -> mailbox_clean b ->
  hash_pieces zk b h = Z.lxor h (placement_hash zk b).
Proof.
  intros Hp Hc.
  change (hash_pieces zk b h)
    with (fold_left
            (fun h i =>
               bb_loop 64 (fun h s => Z.lxor h (key (fst i) (snd i) s))
                       (m_pieces b (fst i) (snd i)) h)
            pairs_by_turn h).
  rewrite (fold_left_ext_in _
             (fun h i =>
                Z.lxor h (squares_fold Z.lxor 0
                            (fun s => if Z.testbit (m_pieces b (fst i) (snd i)) s
                                      then key (fst i) (snd i) s else 0)))).
  2:{ intros a i Hi.
      apply (bb_loop_squares Z.lxor 0 lxor_assoc' Z.lxor_comm Z.lxor_0_r).
      apply placed_bounded; [exact Hp | apply pairs_by_turn_real; exact Hi]. }
  rewrite (fold_squares_fold Z.lxor 0 lxor_assoc' Z.lxor_comm Z.lxor_0_r
             (fun i s => if Z.testbit (m_pieces b (fst i) (snd i)) s
                         then key (fst i) (snd i) s else 0)).
  f_equal. unfold placement_hash, xor_squares.
  apply (squares_fold_ext Z.lxor 0). intros s Hs.
  cbv [pairs_by_turn piece_types turns flat_map map app fold_left fst snd].
  by_mailbox Hp Hc s; cbn [piece_key];
    rewrite ?Z.lxor_0_r, ?Z.lxor_0_l; reflexivity.
Qed.

Lemma hash_castling_acc (b : Board) (x y : Z) :
  hash_castling zk b (Z.lxor x y) = Z.lxor x (hash_castling zk b y).
Proof.
  unfold hash_castling. cbn [fold_left castle_sides turns].
  destruct (m_castling_rights b KINGSIDE WHITE),
           (m_castling_rights b KINGSIDE BLACK),
           (m_castling_rights b QUEENSIDE WHITE),
           (m_castling_rights b QUEENSIDE BLACK); xor_solve.
Qed.

Lemma generate_hash_canonical (b : Board) :
  placed b -> mailbox_clean b ->
  generate_hash zk b = Z.lxor (placement_hash zk b) (state_hash zk b).
Proof.
  intros Hp Hc. unfold generate_hash, state_hash.
  rewrite hash_pieces_canonical by assumption. rewrite Z.lxor_0_l.
  destruct (Turn_eqb (m_turn b) BLACK),
           (negb (m_enpassant_square b =? SQUARE_NULL));
    rewrite <- ?hash_castling_acc, ?Z.lxor_0_r, ?Z.lxor_assoc; reflexivity.
Qed.

(** The stored hash is the from-scratch hash exactly when its part beyond
    the pieces is the state hash. *)
Lemma hash_ok_iff (b : Board) :
  placed b -> mailbox_clean b ->
  hash_ok zk b <-> hash_rest zk b = state_hash zk b.
Proof.
  intros Hp Hc. unfold hash_ok, hash_rest.
  rewrite generate_hash_canonical by assumption. split; intros H.
  - rewrite H. xor_solve.
  - rewrite <- H. xor_solve.
Qed.

Lemma material_phase_steps (b : Board) :
  material_phase ev b
  = fold_left (material_step ev b) pairs_by_piece
              (u8 (Phases_Total ev), mkScore 0 0).
Proof. reflexivity. Qed.

Lemma material_fold_parts (b : Board) (l : list (PieceType * Turn))
      (acc : Z * MixedScore) :
  fst (fold_left (material_step ev b) l acc)
  = fold_left (phase_step ev b) l (fst acc) /\
  middlegame (snd (fold_left (material_step ev b) l acc))
  = fold_left (score_step ev middlegame b) l (middlegame (snd acc)) /\
  endgame (snd (fold_left (material_step ev b) l acc))
  = fold_left (score_step ev endgame b) l (endgame (snd acc)).
Proof.
  revert acc. induction l as [|i l IH]; intros acc; cbn [fold_left].
  - repeat split.
  - destruct (IH (material_step ev b acc i)) as (H1 & H2 & H3).
    rewrite H1, H2, H3. unfold material_step, get_pieces_tp.
    cbn [fst snd]. unfold score_step. repeat split.
    + f_equal.
      rewrite (bb_loop_map middlegame _
                 (fun e s => e + middlegame (piece_square ev (fst i) s (snd i))
                                 * turn_to_color (snd i)))
        by (intros a s; reflexivity).
      reflexivity.
    + f_equal.
      rewrite (bb_loop_map endgame _
                 (fun e s => e + endgame (piece_square ev (fst i) s (snd i))
                                 * turn_to_color (snd i)))
        by (intros a s; reflexivity).
      reflexivity.
Qed.

Lemma phase_fold (b : Board) (l : list (PieceType * Turn)) (a : Z) :
  fold_left (phase_step ev b) l (u8 a)
  = u8 (a - fold_left
              (fun x i =>
                 x + sum_squares
                       (fun s => if Z.testbit (m_pieces b (fst i) (snd i)) s
                                 then Phases_Pieces ev (fst i) else 0))
              l 0).
Proof.
  assert (H : forall l a x,
             fold_left (phase_step ev b) l (u8 (a - x))
             = u8 (a - fold_left
                         (fun x i =>
                            x + sum_squares
                                  (fun s =>
                                     if Z.testbit (m_pieces b (fst i) (snd i)) s
                                     then Phases_Pieces ev (fst i) else 0))
                         l x)).
  { clear l a. induction l as [|i l IH]; intros a x; cbn [fold_left].
    - reflexivity.
    - rewrite <- IH. f_equal.
      unfold phase_step, u8. rewrite bb_count_sum, Zminus_mod_idemp_l.
      f_equal. lia. }
  specialize (H l a 0). rewrite Z.sub_0_r in H. exact H.
Qed.

Lemma score_step_sum (part : MixedScore -> Z) (b : Board) (a : Z)
      (i : PieceType * Turn) :
  placed b -> fst i <> PIECE_NONE ->
  score_step ev part b a i
  = a + sum_squares
          (fun s => if Z.testbit (m_pieces b (fst i) (snd i)) s
                    then (part (piece_value ev (fst i))
                          + part (piece_square ev (fst i) s (snd i)))
                         * turn_to_color (snd i)
                    else 0).
Proof.
  intros Hp Hreal. unfold score_step.
  rewrite (bb_loop_squares Z.add 0 Z.add_assoc Z.add_comm Z.add_0_r)
    by (apply placed_bounded; assumption).
  replace (part (piece_value ev (fst i))
           * bb_count (m_pieces b (fst i) (snd i)) * turn_to_color (snd i))
    with (bb_count (m_pieces b (fst i) (snd i))
          * (part (piece_value ev (fst i)) * turn_to_color (snd i))) by lia.
  rewrite bb_count_sum. rewrite <- Z.add_assoc. f_equal.
  unfold sum_squares.
  rewrite <- (squares_fold_op Z.add 0 Z.add_assoc Z.add_comm Z.add_0_r).
  apply (squares_fold_ext Z.add 0). intros s _.
  destruct (Z.testbit (m_pieces b (fst i) (snd i)) s); lia.
Qed.

Lemma material_phase_canonical (b : Board) :
  placed b -> mailbox_clean b ->
  material_phase ev b
  = (placement_phase ev b, mkScore (placement_mg ev b) (placement_eg ev b)).
Proof.
  intros Hp Hc. rewrite material_phase_steps.
  destruct (material_fold_parts b pairs_by_piece
              (u8 (Phases_Total ev), mkScore 0 0)) as (H1 & H2 & H3).
  destruct (fold_left (material_step ev b) pairs_by_piece _) as [ph [mg eg]].
  cbn [fst snd middlegame endgame] in H1, H2, H3.
  f_equal; [|f_equal].
  - rewrite H1, phase_fold. unfold placement_phase. f_equal. f_equal.
    rewrite (fold_squares_fold Z.add 0 Z.add_assoc Z.add_comm Z.add_0_r
               (fun i s => if Z.testbit (m_pieces b (fst i) (snd i)) s
                           then Phases_Pieces ev (fst i) else 0)).
    rewrite Z.add_0_l. apply (squares_fold_ext Z.add 0). intros s Hs.
    cbv [pairs_by_piece piece_types turns flat_map map app fold_left fst snd].
    by_mailbox Hp Hc s; cbn [piece_phase]; lia.
  - rewrite H2.
    rewrite (fold_left_ext_in _
               (fun a i =>
                  a + squares_fold Z.add 0
                        (fun s => if Z.testbit (m_pieces b (fst i) (snd i)) s
                                  then (middlegame (piece_value ev (fst i))
                                        + middlegame
                                            (piece_square ev (fst i) s (snd i)))
                                       * turn_to_color (snd i)
                                  else 0)))
      by (intros a i Hi; apply score_step_sum;
          [exact Hp | apply pairs_by_piece_real; exact Hi]).
    rewrite (fold_squares_fold Z.add 0 Z.add_assoc Z.add_comm Z.add_0_r
               (fun i s => if Z.testbit (m_pieces b (fst i) (snd i)) s
                           then (middlegame (piece_value ev (fst i))
                                 + middlegame
                                     (piece_square ev (fst i) s (snd i)))
                                * turn_to_color (snd i)
                           else 0)).
    rewrite Z.add_0_l. apply (squares_fold_ext Z.add 0). intros s Hs.
    cbv [pairs_by_piece piece_types turns flat_map map app fold_left fst snd].
    by_mailbox Hp Hc s; cbn [piece_mg]; lia.
  - rewrite H3.
    rewrite (fold_left_ext_in _
               (fun a i =>
                  a + squares_fold Z.add 0
                        (fun s => if Z.testbit (m_pieces b (fst i) (snd i)) s
                                  then (endgame (piece_value ev (fst i))
                                        + endgame
                                            (piece_square ev (fst i) s (snd i)))
                                       * turn_to_color (snd i)
                                  else 0)))
      by (intros a i Hi; apply score_step_sum;
          [exact Hp | apply pairs_by_piece_real; exact Hi]).
    rewrite (fold_squares_fold Z.add 0 Z.add_assoc Z.add_comm Z.add_0_r
               (fun i s => if Z.testbit (m_pieces b (fst i) (snd i)) s
                           then (endgame (piece_value ev (fst i))
                                 + endgame
                                     (piece_square ev (fst i) s (snd i)))
                                * turn_to_color (snd i)
                           else 0)).
    rewrite Z.add_0_l. apply (squares_fold_ext Z.add 0). intros s Hs.
    cbv [pairs_by_piece piece_types turns flat_map map app fold_left fst snd].
    by_mailbox Hp Hc s; cbn [piece_eg]; lia.
Qed.

End Canonical.

(* ------------------------------------------------------------------ *)
(** ** The piece-level primitives *)

Lemma Turn_eqb_sym (a b : Turn) : Turn_eqb a b = Turn_eqb b a.
Proof. destruct a, b; reflexivity. Qed.

Lemma PieceType_eqb_sym (a b : PieceType) :
  PieceType_eqb a b = PieceType_eqb b a.
Proof. unfold PieceType_eqb. apply Z.eqb_sym. Qed.

Lemma Piece_eqb_neq (a b : Piece) : Piece_eqb a b = false <-> a <> b.
Proof.
  rewrite <- Piece_eqb_eq. destruct (Piece_eqb a b); split; congruence.
Qed.

Lemma u8_sub_l (a b : Z) : u8 (u8 a - b) = u8 (a - b).
Proof. unfold u8. apply Zminus_mod_idemp_l. Qed.

Lemma u8_add_l (a b : Z) : u8 (u8 a + b) = u8 (a + b).
Proof. unfold u8. apply Zplus_mod_idemp_l. Qed.

Section Primitives.

Variable zk : ZobristKeys.
Variable ev : EvalTables.

Lemma state_hash_terms (b : Board) :
  state_hash zk b
  = state_terms zk (m_turn b) (m_enpassant_square b) (m_castling_rights b).
Proof.
  unfold state_hash, state_terms, ep_term, right_term, hash_castling.
  cbn [fold_left castle_sides turns].
  destruct (Turn_eqb (m_turn b) BLACK),
           (negb (m_enpassant_square b =? SQUARE_NULL)),
           (m_castling_rights b KINGSIDE WHITE),
           (m_castling_rights b KINGSIDE BLACK),
           (m_castling_rights b QUEENSIDE WHITE),
           (m_castling_rights b QUEENSIDE BLACK); xor_solve.
Qed.

Lemma hash_ok_gap (b : Board) :
  placed b -> mailbox_clean b -> hash_ok zk b <-> hash_gap zk b = 0.
Proof.
  intros Hp Hc. rewrite (hash_ok_iff zk b Hp Hc), state_hash_terms.
  unfold hash_gap. split; intros H.
  - rewrite H. apply Z.lxor_nilpotent.
  - apply Z.lxor_eq. exact H.
Qed.

Lemma eval_ok_iff (b : Board) :
  placed b -> mailbox_clean b ->
  eval_ok ev b <->
  m_psq b = mkScore (placement_mg ev b) (placement_eg ev b) /\
  m_phase b = placement_phase ev b.
Proof.
  intros Hp Hc. unfold eval_ok.
  rewrite (material_phase_canonical ev b Hp Hc). split.
  - intros H. injection H as H1 H2. split; congruence.
  - intros [H1 H2]. rewrite H1, H2. reflexivity.
Qed.

Lemma board_legal_core (b : Board) :
  board_legal zk ev b -> core ev b /\ hash_gap zk b = 0.
Proof.
  intros [Hp Hc Hh He _ _]. split.
  - apply (eval_ok_iff b Hp Hc) in He. destruct He as [E1 E2].
    repeat split; assumption.
  - apply (hash_ok_gap b Hp Hc). exact Hh.
Qed.

Lemma core_board_legal (b : Board) :
  core ev b -> hash_gap zk b = 0 -> ep_ok b -> castling_ok b ->
  board_legal zk ev b.
Proof.
  intros (Hp & Hc & E1 & E2) Hg Hep Hca. constructor; try assumption.
  - apply (hash_ok_gap b Hp Hc). exact Hg.
  - apply (eval_ok_iff b Hp Hc). split; assumption.
Qed.

(** Changing the mailbox on one square changes one term of each sum. *)
Lemma placement_hash_upd (b b' : Board) (s : Square) (pc : Piece) :
  0 <= s < 64 ->
  m_board_pieces b' = upd_mailbox (m_board_pieces b) s pc ->
  placement_hash zk b'
  = Z.lxor (placement_hash zk b)
           (Z.lxor (piece_key zk (m_board_pieces b s) s) (piece_key zk pc s)).
Proof.
  intros Hs Hmb. unfold placement_hash, xor_squares. rewrite Hmb.
  apply (squares_fold_update Z.lxor 0 lxor_assoc' Z.lxor_comm Z.lxor_0_r
           _ _ s); [exact Hs | |].
  - unfold upd_mailbox. rewrite Z.eqb_refl. xor_solve.
  - intros x Hx. unfold upd_mailbox.
    destruct (Z.eqb_spec x s); [contradiction | reflexivity].
Qed.

Lemma placement_sum_upd (g : Piece -> Square -> Z) (b b' : Board)
      (s : Square) (pc : Piece) :
  0 <= s < 64 ->
  m_board_pieces b' = upd_mailbox (m_board_pieces b) s pc ->
  sum_squares (fun x => g (m_board_pieces b' x) x)
  = sum_squares (fun x => g (m_board_pieces b x) x)
    + (g pc s - g (m_board_pieces b s) s).
Proof.
  intros Hs Hmb. unfold sum_squares. rewrite Hmb.
  apply (squares_fold_update Z.add 0 Z.add_assoc Z.add_comm Z.add_0_r
           _ _ s); [exact Hs | |].
  - unfold upd_mailbox. rewrite Z.eqb_refl. lia.
  - intros x Hx. unfold upd_mailbox.
    destruct (Z.eqb_spec x s); [contradiction | reflexivity].
Qed.

Lemma upd_pieces_same (f : PieceType -> Turn -> Bitboard) (p : PieceType)
      (t : Turn) (v : Bitboard) :
  upd_pieces f p t v p t = v.
Proof.
  unfold upd_pieces. rewrite PieceType_eqb_refl, Turn_eqb_refl. reflexivity.
Qed.

Lemma upd_pieces_other (f : PieceType -> Turn -> Bitboard) (p p' : PieceType)
      (t t' : Turn) (v : Bitboard) :
  Pc p' t' <> Pc p t -> upd_pieces f p t v p' t' = f p' t'.
Proof.
  intros H. unfold upd_pieces.
  destruct (PieceType_eqb p' p && Turn_eqb t' t) eqn:E; [|reflexivity].
  apply andb_true_iff in E. destruct E as [E1 E2].
  apply PieceType_eqb_eq in E1. apply Turn_eqb_eq in E2. subst.
  contradiction.
Qed.

(** [set_piece] on an empty square. *)
Lemma set_piece_core (b : Board) (p : PieceType) (t : Turn) (s : Square) :
  core ev b -> 0 <= s < 64 -> m_board_pieces b s = NO_PIECE ->
  p <> PIECE_NONE ->
  core ev (set_piece zk ev b p t s) /\
  hash_rest zk (set_piece zk ev b p t s) = hash_rest zk b.
Proof.
  intros (Hp & Hc & Epsq & Eph) Hs Hempty Hreal.
  assert (Hmb : m_board_pieces (set_piece zk ev b p t s)
                = upd_mailbox (m_board_pieces b) s (Pc p t)) by reflexivity.
  split; [split; [|split; [|split]]|].
  - (* placed *)
    intros p' t' x Hreal'. cbn [set_piece m_pieces m_board_pieces].
    unfold upd_mailbox.
    destruct (Piece_eqb (Pc p' t') (Pc p t)) eqn:Esame.
    + apply Piece_eqb_eq in Esame. injection Esame as -> ->.
      rewrite upd_pieces_same. unfold bb_set.
      rewrite Z.setbit_eqb by lia. rewrite (Z.eqb_sym s x).
      destruct (Z.eqb_spec x s) as [->|Hne]; cbn [orb].
      * rewrite Piece_eqb_refl, (proj2 (valid_square_iff s) Hs). reflexivity.
      * apply Hp. exact Hreal'.
    + apply Piece_eqb_neq in Esame.
      rewrite upd_pieces_other by exact Esame. rewrite Hp by exact Hreal'.
      destruct (Z.eqb_spec x s) as [->|Hne]; [|reflexivity].
      rewrite Hempty. cbn [Piece_eqb].
      assert (E : Piece_eqb (Pc p t) (Pc p' t') = false)
        by (apply Piece_eqb_neq; congruence).
      cbn [Piece_eqb] in E. rewrite E. reflexivity.
  - (* clean *)
    intros x t'. cbn [set_piece m_board_pieces]. unfold upd_mailbox.
    destruct (x =? s); [congruence | apply Hc].
  - (* scores *)
    cbn [set_piece m_psq]. rewrite Epsq.
    unfold placement_mg, placement_eg.
    rewrite (placement_sum_upd (piece_mg ev) b _ s (Pc p t) Hs Hmb).
    rewrite (placement_sum_upd (piece_eg ev) b _ s (Pc p t) Hs Hmb).
    rewrite Hempty. unfold ms_add, ms_scale. cbn [middlegame endgame piece_mg
      piece_eg]. f_equal; lia.
  - (* phase *)
    cbn [set_piece m_phase]. rewrite Eph. unfold placement_phase.
    rewrite (placement_sum_upd (fun pc _ => piece_phase ev pc) b _ s (Pc p t)
               Hs Hmb).
    rewrite Hempty, u8_sub_l. cbn [piece_phase]. f_equal. lia.
  - (* hash *)
    unfold hash_rest.
    rewrite (placement_hash_upd b _ s (Pc p t) Hs Hmb), Hempty.
    cbn [set_piece m_hash piece_key]. xor_solve.
Qed.

(** [pop_piece] on the square of the piece. *)
Lemma pop_piece_core (b : Board) (p : PieceType) (t : Turn) (s : Square) :
  core ev b -> 0 <= s < 64 -> m_board_pieces b s = Pc p t ->
  core ev (pop_piece zk ev b p t s) /\
  hash_rest zk (pop_piece zk ev b p t s) = hash_rest zk b.
Proof.
  intros (Hp & Hc & Epsq & Eph) Hs Hthere.
  assert (Hmb : m_board_pieces (pop_piece zk ev b p t s)
                = upd_mailbox (m_board_pieces b) s NO_PIECE) by reflexivity.
  split; [split; [|split; [|split]]|].
  - (* placed *)
    intros p' t' x Hreal'. cbn [pop_piece m_pieces m_board_pieces].
    unfold upd_mailbox.
    destruct (Piece_eqb (Pc p' t') (Pc p t)) eqn:Esame.
    + apply Piece_eqb_eq in Esame. injection Esame as -> ->.
      rewrite upd_pieces_same. unfold bb_reset.
      rewrite Z.clearbit_eqb, (Z.eqb_sym s x), Hp by exact Hreal'.
      destruct (Z.eqb_spec x s) as [->|Hne]; cbn [negb Piece_eqb].
      * rewrite !andb_false_r. reflexivity.
      * rewrite andb_true_r. reflexivity.
    + apply Piece_eqb_neq in Esame.
      rewrite upd_pieces_other by exact Esame. rewrite Hp by exact Hreal'.
      destruct (Z.eqb_spec x s) as [->|Hne]; [|reflexivity].
      rewrite Hthere. cbn [Piece_eqb].
      assert (E : Piece_eqb (Pc p t) (Pc p' t') = false)
        by (apply Piece_eqb_neq; congruence).
      cbn [Piece_eqb] in E. rewrite E. reflexivity.
  - (* clean *)
    intros x t'. cbn [pop_piece m_board_pieces]. unfold upd_mailbox.
    destruct (x =? s); [congruence | apply Hc].
  - (* scores *)
    cbn [pop_piece m_psq]. rewrite Epsq.
    unfold placement_mg, placement_eg.
    rewrite (placement_sum_upd (piece_mg ev) b _ s NO_PIECE Hs Hmb).
    rewrite (placement_sum_upd (piece_eg ev) b _ s NO_PIECE Hs Hmb).
    rewrite Hthere. unfold ms_sub, ms_add, ms_scale.
    cbn [middlegame endgame piece_mg piece_eg]. f_equal; lia.
  - (* phase *)
    cbn [pop_piece m_phase]. rewrite Eph. unfold placement_phase.
    rewrite (placement_sum_upd (fun pc _ => piece_phase ev pc) b _ s NO_PIECE
               Hs Hmb).
    rewrite Hthere. unfold u8 at 1 2. rewrite Zplus_mod_idemp_l.
    cbn [piece_phase]. unfold u8. f_equal. lia.
  - (* hash *)
    unfold hash_rest.
    rewrite (placement_hash_upd b _ s NO_PIECE Hs Hmb), Hthere.
    cbn [pop_piece m_hash piece_key]. xor_solve.
Qed.

(** Steps that touch neither the pieces nor the scores keep [core]. *)
Lemma core_frame (b b' : Board) :
  m_pieces b' = m_pieces b -> m_board_pieces b' = m_board_pieces b ->
  m_psq b' = m_psq b -> m_phase b' = m_phase b ->
  core ev b -> core ev b'.
Proof.
  intros E1 E2 E3 E4 (Hp & Hc & Epsq & Eph).
  unfold core, placed, mailbox_clean, placement_mg, placement_eg,
    placement_phase.
  rewrite E1, E2, E3, E4. repeat split; assumption.
Qed.

End Primitives.

(* ------------------------------------------------------------------ *)
(** ** Occupancy, and [is_valid] from the invariants *)

Ltac board_norm :=
  cbn [m_hash m_pieces m_board_pieces m_turn m_castling_rights
       m_enpassant_square m_half_move_clock m_full_move_clock m_psq m_phase
       m_checkers set_hash set_turn set_enpassant set_castling_rights
       set_half_move_clock set_full_move_clock set_checkers] in *.

Section Occupancy.

Variable b : Board.
Hypothesis Hp : placed b.
Hypothesis Hc : mailbox_clean b.

Lemma get_pieces_turn_spec (t : Turn) (s : Square) :
  Z.testbit (get_pieces_turn b t) s
  = valid_square s && match m_board_pieces b s with
                      | Pc _ t' => Turn_eqb t' t
                      | NO_PIECE => false
                      end.
Proof.
  unfold get_pieces_turn. cbn [fold_left piece_types].
  rewrite !Z.lor_spec, Z.bits_0, !Hp by discriminate.
  pose proof (Hc s) as Hcs.
  destruct (m_board_pieces b s) as [p t'|];
    [destruct p; try (exfalso; apply (Hcs t'); reflexivity);
     destruct (valid_square s), t', t; reflexivity
    | destruct (valid_square s); reflexivity].
Qed.

Lemma get_pieces_spec (s : Square) :
  Z.testbit (get_pieces b) s
  = valid_square s && negb (Piece_eqb (m_board_pieces b s) NO_PIECE).
Proof.
  unfold get_pieces. rewrite Z.lor_spec, !get_pieces_turn_spec.
  destruct (m_board_pieces b s) as [p []|], (valid_square s); reflexivity.
Qed.

Lemma ours_spec (t : Turn) (s : Square) :
  bb_test (get_pieces_turn b t) s = true ->
  0 <= s < 64 /\ exists p, m_board_pieces b s = Pc p t /\ p <> PIECE_NONE.
Proof.
  unfold bb_test. rewrite get_pieces_turn_spec. intros H.
  apply andb_true_iff in H. destruct H as [Hv H].
  split; [apply valid_square_iff; exact Hv|].
  destruct (m_board_pieces b s) as [p t'|] eqn:E; [|discriminate].
  apply Turn_eqb_eq in H. subst t'. exists p. split; [reflexivity|].
  intros ->. apply (Hc s t). exact E.
Qed.

Lemma empty_spec (s : Square) :
  0 <= s < 64 -> bb_test (get_pieces b) s = false ->
  m_board_pieces b s = NO_PIECE.
Proof.
  intros Hs. unfold bb_test. rewrite get_pieces_spec.
  rewrite (proj2 (valid_square_iff s) Hs).
  destruct (m_board_pieces b s); [discriminate | reflexivity].
Qed.

Lemma enemy_spec (t : Turn) (s : Square) :
  0 <= s < 64 ->
  Z.testbit (Z.land (get_pieces b) (bb_not (get_pieces_turn b t))) s
  = match m_board_pieces b s with
    | Pc _ t' => Turn_eqb t' (opp t)
    | NO_PIECE => false
    end.
Proof.
  intros Hs. unfold bb_not, bb_full.
  rewrite Z.land_spec, Z.ldiff_spec, Z.ones_spec_low by lia.
  rewrite get_pieces_spec, get_pieces_turn_spec.
  rewrite (proj2 (valid_square_iff s) Hs).
  destruct (m_board_pieces b s) as [p []|], t; reflexivity.
Qed.

Lemma bitboard_occupancy_placed :
  bitboard_occupancy b = Some (get_pieces_by_piece b).
Proof.
  unfold bitboard_occupancy, get_pieces_by_piece.
  cbn [fold_left piece_types turns].
  repeat match goal with
  | |- context [bb_any (Z.land ?x ?o)] =>
      replace (bb_any (Z.land x o)) with false;
      [cbv iota
      | symmetry; apply bb_any_false; apply Z.bits_inj'; intros n _;
        rewrite Z.land_spec, ?Z.lor_spec, Z.bits_0, !Hp by discriminate;
        destruct (m_board_pieces b n) as [[] []|], (valid_square n);
        reflexivity]
  end.
  reflexivity.
Qed.

Lemma get_pieces_by_piece_spec (s : Square) :
  Z.testbit (get_pieces_by_piece b) s
  = valid_square s && negb (Piece_eqb (m_board_pieces b s) NO_PIECE).
Proof.
  unfold get_pieces_by_piece. cbn [fold_left piece_types turns].
  rewrite !Z.lor_spec, Z.bits_0, !Hp by discriminate.
  pose proof (Hc s) as Hcs.
  destruct (m_board_pieces b s) as [p t'|];
    [destruct p; try (exfalso; apply (Hcs t'); reflexivity);
     destruct (valid_square s), t'; reflexivity
    | destruct (valid_square s); reflexivity].
Qed.

Lemma mailbox_consistent_placed :
  mailbox_consistent b (get_pieces_by_piece b) = true.
Proof.
  unfold mailbox_consistent. apply forallb_forall. intros s Hs.
  apply in_all_squares in Hs. apply valid_square_iff in Hs.
  unfold bb_test, get_piece_at. rewrite get_pieces_by_piece_spec, Hs.
  pose proof (Hc s) as Hcs.
  destruct (m_board_pieces b s) as [p t|] eqn:E; [|reflexivity].
  cbn [get_piece_type get_turn]. rewrite Hp.
  - rewrite Hs, E, Piece_eqb_refl. reflexivity.
  - intros ->. apply (Hcs t). reflexivity.
Qed.

End Occupancy.

(** A board with the invariants whose waiting king is not attacked passes
    every check of [is_valid]. *)
Lemma is_valid_intro (zk : ZobristKeys) (ev : EvalTables) (b : Board) :
  placed b -> mailbox_clean b -> hash_ok zk b -> eval_ok ev b ->
  bb_any (attackers b (bitscan_forward (m_pieces b KING (opp (m_turn b))))
                    (get_pieces b) (m_turn b)) = false ->
  is_valid zk ev b = true.
Proof.
  intros Hp Hc Hh He Hk. unfold is_valid. cbv zeta. rewrite Hk.
  rewrite (bitboard_occupancy_placed b Hp).
  rewrite (mailbox_consistent_placed b Hp Hc). cbn [negb].
  unfold hash_ok in Hh. rewrite <- Hh, Z.eqb_refl. cbn [negb].
  unfold eval_ok in He. rewrite He.
  rewrite !Z.eqb_refl. reflexivity.
Qed.

(* ------------------------------------------------------------------ *)
(** ** What [legal] checks *)

Lemma move_from_range (m : Move) : 0 <= move_from m < 64.
Proof.
  unfold move_from. change 63 with (Z.ones 6). rewrite Z.land_ones by lia.
  apply Z.mod_pos_bound. reflexivity.
Qed.

Lemma move_to_range (m : Move) : 0 <= move_to m < 64.
Proof.
  unfold move_to. change 63 with (Z.ones 6). rewrite Z.land_ones by lia.
  apply Z.mod_pos_bound. reflexivity.
Qed.

Lemma move_type_range (m : Move) : 0 <= move_type m < 16.
Proof.
  unfold move_type. change 15 with (Z.ones 4). rewrite Z.land_ones by lia.
  apply Z.mod_pos_bound. reflexivity.
Qed.

Lemma file_shift (s d : Z) : file (s + 8 * d) = file s.
Proof.
  unfold file. change 7 with (Z.ones 3). rewrite !Z.land_ones by lia.
  change (2 ^ 3) with 8. rewrite Z.mul_comm. apply Z_mod_plus_full.
Qed.

Lemma legal_inv (zk : ZobristKeys) (ev : EvalTables) (b : Board) (m : Move) :
  legal zk ev b m = true ->
  let ours := get_pieces_turn b (m_turn b) in
  let piece := get_piece_at b (move_from m) in
  let enemy := Z.land (get_pieces b) (bb_not ours) in
  move_from m <> move_to m /\
  (is_ep_capture m = true ->
   m_enpassant_square b <> SQUARE_NULL /\ move_to m = m_enpassant_square b) /\
  move_type m <> INVALID_1 /\ move_type m <> INVALID_2 /\
  bb_test ours (move_from m) = true /\
  bb_test ours (move_to m) = false /\
  bb_test (if is_ep_capture m && PieceType_eqb piece PAWN
              && negb (m_enpassant_square b =? SQUARE_NULL)
           then bb_set enemy (m_enpassant_square b) else enemy) (move_to m)
  = is_capture m /\
  (PieceType_eqb piece PAWN = false ->
   is_double_pawn_push m = false /\ is_ep_capture m = false /\
   is_promotion m = false) /\
  (PieceType_eqb piece KING = false -> is_castle m = false) /\
  piece_geometry piece b m (get_pieces b) = true /\
  king_safe_after zk ev b m = true.
Proof.
  unfold legal, legal_with. cbv zeta.
  destruct (Z.eqb_spec (move_from m) (move_to m)) as [|Hne];
    [discriminate|].
  destruct (is_ep_capture m
            && ((m_enpassant_square b =? SQUARE_NULL)
                || negb (move_to m =? m_enpassant_square b))) eqn:Eep;
    [discriminate|].
  destruct ((move_type m =? INVALID_1) || (move_type m =? INVALID_2))
    eqn:Einv; [discriminate|].
  destruct (negb (bb_test (get_pieces_turn b (m_turn b)) (move_from m))
            || bb_test (get_pieces_turn b (m_turn b)) (move_to m))
    eqn:Eours; [discriminate|].
  match goal with
  | |- (if negb (Bool.eqb ?x ?y) then _ else _) = true -> _ =>
      destruct (Bool.eqb x y) eqn:Ecap; [|discriminate]
  end.
  cbn [negb].
  destruct (negb (PieceType_eqb (get_piece_at b (move_from m)) PAWN)
            && (is_double_pawn_push m || is_ep_capture m || is_promotion m))
    eqn:Epawn; [discriminate|].
  destruct (negb (PieceType_eqb (get_piece_at b (move_from m)) KING)
            && is_castle m) eqn:Eking; [discriminate|].
  intros Hfinal.
  assert (Hlp : legal_piece zk ev (get_piece_at b (move_from m)) b m
                  (get_pieces b) = true).
  { destruct (get_piece_at b (move_from m));
      [exact Hfinal .. | discriminate Hfinal]. }
  unfold legal_piece in Hlp. apply andb_true_iff in Hlp.
  destruct Hlp as [Hgeo Hsafe].
  apply orb_false_iff in Einv. destruct Einv as [Ei1 Ei2].
  apply orb_false_iff in Eours. destruct Eours as [Eo1 Eo2].
  apply negb_false_iff in Eo1. apply Bool.eqb_prop in Ecap.
  split; [exact Hne|]. split.
  { intros Hep. rewrite Hep in Eep. cbn [andb] in Eep.
    apply orb_false_iff in Eep. destruct Eep as [E1 E2].
    apply negb_false_iff in E2. split.
    - apply Z.eqb_neq. exact E1.
    - apply Z.eqb_eq. exact E2. }
  split; [apply Z.eqb_neq; exact Ei1|].
  split; [apply Z.eqb_neq; exact Ei2|].
  split; [exact Eo1|]. split; [exact Eo2|]. split; [exact Ecap|].
  split.
  { intros Hnp. rewrite Hnp in Epawn. cbn [negb andb] in Epawn.
    apply orb_false_iff in Epawn. destruct Epawn as [E12 E3].
    apply orb_false_iff in E12. destruct E12 as [E1 E2].
    split; [exact E1|]. split; [exact E2 | exact E3]. }
  split.
  { intros Hnk. rewrite Hnk in Eking. exact Eking. }
  split; [exact Hgeo | exact Hsafe].
Qed.

(* ------------------------------------------------------------------ *)
(** ** [make_move], stage by stage *)

Lemma PieceType_eqb_neq (p q : PieceType) : PieceType_eqb p q = false <-> p <> q.
Proof.
  rewrite <- PieceType_eqb_eq. destruct (PieceType_eqb p q); split; congruence.
Qed.

Lemma ep_is_capture (m : Move) : is_ep_capture m = true -> is_capture m = true.
Proof.
  unfold is_ep_capture, is_capture. intros H. apply Z.eqb_eq in H.
  rewrite H. reflexivity.
Qed.

Lemma not_capture_not_ep (m : Move) :
  is_capture m = false -> is_ep_capture m = false.
Proof.
  intros H. destruct (is_ep_capture m) eqn:E; [|reflexivity].
  apply ep_is_capture in E. congruence.
Qed.

Lemma double_not_capture (m : Move) :
  is_double_pawn_push m = true ->
  is_capture m = false /\ is_promotion m = false.
Proof.
  unfold is_double_pawn_push, is_capture, is_promotion. intros H.
  apply Z.eqb_eq in H. rewrite H. split; reflexivity.
Qed.

Lemma castle_not_capture (m : Move) :
  is_castle m = true -> is_capture m = false.
Proof.
  unfold is_castle, is_capture. intros H. apply orb_true_iff in H.
  destruct H as [H|H]; apply Z.eqb_eq in H; rewrite H; reflexivity.
Qed.

Lemma promo_piece_real (m : Move) : promo_piece m <> PIECE_NONE.
Proof.
  unfold promo_piece.
  destruct (Z.land (move_type m) 3) as [|[[]|[]|]|]; discriminate.
Qed.

Lemma pawn_push_cases (t : Turn) : pawn_push t = 8 \/ pawn_push t = -8.
Proof. destruct t; [left | right]; reflexivity. Qed.

Lemma pawn_push_opp (t : Turn) : pawn_push (opp t) = - pawn_push t.
Proof. destruct t; reflexivity. Qed.

Lemma king_home_range (t : Turn) : 4 <= king_home t <= 60.
Proof. destruct t; cbn; lia. Qed.

Lemma turn_cases (t u : Turn) : u = t \/ u = opp t.
Proof. destruct t, u; auto. Qed.

Lemma opp_neq (t : Turn) : opp t <> t.
Proof. destruct t; discriminate. Qed.

(** The rook squares of a castling move, as [make_move] computes them. *)
Lemma castle_rook_squares (side : CastleSide) (t : Turn) :
  side <> NO_SIDE ->
  let from := king_home t in
  let to := king_home t + (match side with KINGSIDE => 2 | _ => -2 end) in
  to + (if to >? from then 1 else -2) = rook_home side t /\
  to + (if to >? from then -1 else 1)
  = king_home t + (match side with KINGSIDE => 1 | _ => -1 end).
Proof.
  intros Hs. destruct side, t; try contradiction; split; reflexivity.
Qed.

Lemma same_placement_refl (r : Board) : same_placement r r.
Proof. repeat split. Qed.

Lemma same_placement_trans (a b c : Board) :
  same_placement a b -> same_placement b c -> same_placement a c.
Proof.
  intros (A1 & A2 & A3 & A4) (B1 & B2 & B3 & B4).
  unfold same_placement. rewrite B1, B2, B3, B4. repeat split; assumption.
Qed.

Section Stages.

Variable zk : ZobristKeys.
Variable ev : EvalTables.

Lemma core_same (r r' : Board) : same_placement r r' -> core ev r -> core ev r'.
Proof.
  intros (E1 & E2 & E3 & E4). apply (core_frame ev); assumption.
Qed.

Lemma ep_term_null : ep_term zk SQUARE_NULL = 0.
Proof. reflexivity. Qed.

Lemma ep_term_valid (s : Square) :
  0 <= s < 64 -> ep_term zk s = get_ep_file zk (file s).
Proof.
  intros Hs. unfold ep_term, SQUARE_NULL.
  destruct (Z.eqb_spec s 64); [lia | reflexivity].
Qed.

(** What [legal] found out, read on the mailbox. *)
Lemma move_facts_intro (b : Board) (m : Move) :
  board_legal zk ev b -> legal zk ev b m = true -> move_facts zk ev b m.
Proof.
  intros [Hp Hc Hh He Hep Hca] Hl.
  apply legal_inv in Hl. cbv zeta in Hl.
  destruct Hl as (Hne & Hepc & _ & _ & Hours & Hnot & Hcap & Hpawn & Hking
                  & Hgeo & Hsafe).
  pose proof (move_from_range m) as Hf. pose proof (move_to_range m) as Ht.
  destruct (ours_spec b Hp Hc _ _ Hours) as (_ & p & Hmb & Hreal).
  assert (Hpiece : get_piece_at b (move_from m) = p)
    by (unfold get_piece_at; rewrite Hmb; reflexivity).
  assert (Hto : forall q, m_board_pieces b (move_to m) <> Pc q (m_turn b)).
  { intros q Hq. unfold bb_test in Hnot.
    rewrite (get_pieces_turn_spec b Hp Hc) in Hnot.
    rewrite Hq, Turn_eqb_refl, (proj2 (valid_square_iff _) Ht) in Hnot.
    discriminate Hnot. }
  constructor.
  - exact Hne.
  - rewrite Hpiece. exact Hmb.
  - rewrite Hpiece. exact Hreal.
  - (* capture *)
    intros Hc1 Hc2. rewrite Hc2 in Hcap. cbn [andb] in Hcap.
    unfold bb_test in Hcap.
    rewrite (enemy_spec b Hp Hc _ _ Ht), Hc1 in Hcap.
    destruct (m_board_pieces b (move_to m)) as [q t|]; [|discriminate Hcap].
    apply Turn_eqb_eq in Hcap. subst t. exists q. reflexivity.
  - (* no capture *)
    intros Hq. rewrite (not_capture_not_ep m Hq), Hq in Hcap.
    cbn [andb] in Hcap. unfold bb_test in Hcap.
    rewrite (enemy_spec b Hp Hc _ _ Ht) in Hcap.
    destruct (m_board_pieces b (move_to m)) as [q t|] eqn:E; [|reflexivity].
    exfalso. destruct (turn_cases (m_turn b) t) as [->| ->].
    + apply (Hto q). reflexivity.
    + rewrite Turn_eqb_refl in Hcap. discriminate Hcap.
  - (* ep capture *)
    intros Hep1. destruct (Hepc Hep1) as [Hnn Heq].
    destruct Hep as [Hnull | (Hv1 & Hv2 & He1 & He2)]; [contradiction|].
    rewrite <- Heq in *. split; [exact He1|].
    split; [apply valid_square_iff; exact Hv2 | exact He2].
  - (* double push *)
    intros Hd.
    assert (Hpw : get_piece_at b (move_from m) = PAWN).
    { apply PieceType_eqb_eq.
      destruct (PieceType_eqb (get_piece_at b (move_from m)) PAWN) eqn:E;
        [reflexivity|].
      destruct (Hpawn eq_refl) as (E1 & _). congruence. }
    split; [exact Hpw|]. rewrite Hpw in Hgeo.
    cbn [piece_geometry] in Hgeo. unfold pawn_geometry in Hgeo.
    cbv zeta in Hgeo.
    destruct (double_not_capture m Hd) as [Hnc Hnp].
    rewrite Hnc, Hd in Hgeo.
    apply andb_true_iff in Hgeo. destruct Hgeo as [Hg _].
    apply andb_true_iff in Hg. destruct Hg as [Hg Hocc].
    apply andb_true_iff in Hg. destruct Hg as [_ Hg].
    apply Z.eqb_eq in Hg. split; [exact Hg|].
    apply (empty_spec b Hp Hc).
    + destruct (pawn_push_cases (m_turn b)) as [E|E]; rewrite E in *; lia.
    + apply negb_true_iff in Hocc. exact Hocc.
  - (* castle *)
    intros Hcs.
    assert (Hk : get_piece_at b (move_from m) = KING).
    { apply PieceType_eqb_eq.
      destruct (PieceType_eqb (get_piece_at b (move_from m)) KING) eqn:E;
        [reflexivity|].
      rewrite (Hking eq_refl) in Hcs. discriminate Hcs. }
    split; [exact Hk|]. rewrite Hk in Hgeo.
    cbn [piece_geometry] in Hgeo. rewrite Hcs in Hgeo.
    unfold castle_geometry in Hgeo. cbv zeta in Hgeo.
    pose proof (king_home_range (m_turn b)) as Hkh.
    destruct (move_type m =? KING_CASTLE);
      repeat match goal with
             | H : _ && _ = true |- _ =>
                 apply andb_true_iff in H; destruct H
             end;
      repeat match goal with
             | H : (_ =? _) = true |- _ => apply Z.eqb_eq in H
             | H : negb _ = true |- _ => apply negb_true_iff in H
             end.
    + exists KINGSIDE. split; [discriminate|]. split; [assumption|].
      split; [assumption|]. split.
      * apply Hca; [discriminate | assumption].
      * apply (empty_spec b Hp Hc); [lia | assumption].
    + exists QUEENSIDE. split; [discriminate|]. split; [assumption|].
      split; [assumption|]. split.
      * apply Hca; [discriminate | assumption].
      * apply (empty_spec b Hp Hc); [lia | assumption].
  - exact Hsafe.
Qed.

(** [set_castling<false>]. *)
Lemma set_castling_false_spec (r : Board) (side : CastleSide) (t : Turn) :
  side <> NO_SIDE ->
  let r' := set_castling zk false r side t in
  same_placement r r' /\ m_turn r' = m_turn r /\
  m_enpassant_square r' = m_enpassant_square r /\
  hash_gap zk r' = hash_gap zk r /\
  m_castling_rights r' side t = false /\
  (forall s' t', m_castling_rights r' s' t' = true ->
                 m_castling_rights r s' t' = true).
Proof.
  intros Hside. cbv zeta. unfold set_castling.
  destruct (m_castling_rights r side t) eqn:E; cbn [Bool.eqb].
  - split; [repeat split|]. split; [reflexivity|]. split; [reflexivity|].
    split; [|split].
    + unfold hash_gap, hash_rest, placement_hash, state_terms, right_term.
      board_norm. unfold upd_rights.
      destruct side; [| |exfalso; apply Hside; reflexivity]; destruct t;
        cbn [CastleSide_eqb Turn_eqb andb]; rewrite E; xor_solve.
    + board_norm. unfold upd_rights. destruct side, t; reflexivity.
    + intros s' t'. board_norm. unfold upd_rights.
      destruct (CastleSide_eqb s' side && Turn_eqb t' t);
        [discriminate | auto].
  - split; [repeat split|]. repeat split; auto.
Qed.

(** The two conditional [set_castling<false>] calls that follow a move of
    the king or of a rook, and the capture of a rook. *)
Lemma two_castlings_spec (cK cQ : bool) (r : Board) (t : Turn) :
  let r1 := if cK then set_castling zk false r KINGSIDE t else r in
  let r2 := if cQ then set_castling zk false r1 QUEENSIDE t else r1 in
  same_placement r r2 /\ m_turn r2 = m_turn r /\
  m_enpassant_square r2 = m_enpassant_square r /\
  hash_gap zk r2 = hash_gap zk r /\
  (cK = true -> m_castling_rights r2 KINGSIDE t = false) /\
  (cQ = true -> m_castling_rights r2 QUEENSIDE t = false) /\
  (forall s' t', m_castling_rights r2 s' t' = true ->
                 m_castling_rights r s' t' = true).
Proof.
  cbv zeta.
  assert (HK : KINGSIDE <> NO_SIDE) by discriminate.
  assert (HQ : QUEENSIDE <> NO_SIDE) by discriminate.
  pose proof (set_castling_false_spec r KINGSIDE t HK) as SK.
  cbv zeta in SK. destruct SK as (K1 & K2 & K3 & K4 & K5 & K6).
  destruct cK.
  - pose proof (set_castling_false_spec
                  (set_castling zk false r KINGSIDE t) QUEENSIDE t HQ) as SQ.
    cbv zeta in SQ. destruct SQ as (Q1 & Q2 & Q3 & Q4 & Q5 & Q6).
    destruct cQ.
    + split; [exact (same_placement_trans _ _ _ K1 Q1)|].
      split; [congruence|]. split; [congruence|]. split; [congruence|].
      split.
      * intros _.
        destruct (m_castling_rights
                    (set_castling zk false
                       (set_castling zk false r KINGSIDE t) QUEENSIDE t)
                    KINGSIDE t) eqn:E; [|reflexivity].
        apply Q6 in E. congruence.
      * split; [intros _; exact Q5|]. intros s' t' H. apply K6, Q6, H.
    + split; [exact K1|]. split; [exact K2|]. split; [exact K3|].
      split; [exact K4|]. split; [intros _; exact K5|].
      split; [discriminate | exact K6].
  - pose proof (set_castling_false_spec r QUEENSIDE t HQ) as SQ.
    cbv zeta in SQ. destruct SQ as (Q1 & Q2 & Q3 & Q4 & Q5 & Q6).
    destruct cQ.
    + split; [exact Q1|]. split; [exact Q2|]. split; [exact Q3|].
      split; [exact Q4|]. split; [discriminate|].
      split; [intros _; exact Q5 | exact Q6].
    + split; [apply same_placement_refl|]. repeat split; auto; discriminate.
Qed.

Lemma mm_castling_eq (b : Board) (m : Move) (r : Board) :
  let piece := get_piece_at b (move_from m) in
  let cK := PieceType_eqb piece KING
            || PieceType_eqb piece ROOK
               && (move_from m =? rook_home KINGSIDE (m_turn b)) in
  let cQ := PieceType_eqb piece KING
            || PieceType_eqb piece ROOK
               && (move_from m =? rook_home QUEENSIDE (m_turn b)) in
  mm_castling zk b m r
  = (let r1 := if cK then set_castling zk false r KINGSIDE (m_turn b)
               else r in
     if cQ then set_castling zk false r1 QUEENSIDE (m_turn b) else r1).
Proof.
  cbv zeta. unfold mm_castling.
  destruct (PieceType_eqb (get_piece_at b (move_from m)) KING);
    [reflexivity|].
  destruct (PieceType_eqb (get_piece_at b (move_from m)) ROOK);
    [|reflexivity].
  destruct (m_turn b); reflexivity.
Qed.

Lemma mm_clocks_spec (b : Board) (m : Move) :
  let r := mm_clocks b m b in
  same_placement b r /\ m_turn r = m_turn b /\
  m_castling_rights r = m_castling_rights b /\
  m_enpassant_square r = SQUARE_NULL /\
  hash_gap zk r = Z.lxor (hash_gap zk b) (ep_term zk (m_enpassant_square b)).
Proof.
  cbv zeta. unfold mm_clocks.
  destruct (PieceType_eqb (get_piece_at b (move_from m)) PAWN || is_capture m);
    (split; [repeat split|]; split; [reflexivity|]; split; [reflexivity|];
     split; [reflexivity|];
     unfold hash_gap, hash_rest, placement_hash, state_terms; board_norm;
     rewrite ep_term_null; xor_solve).
Qed.

Lemma rights_done_intro (b : Board) (m : Move) :
  board_legal zk ev b -> move_facts zk ev b m ->
  rights_done zk ev b m (mm_castling zk b m (mm_clocks b m b)).
Proof.
  intros Hbl Hmf.
  destruct (board_legal_core zk ev b Hbl) as [Hcore Hgap].
  pose proof (legal_castling zk ev b Hbl) as Hca.
  destruct (mm_clocks_spec b m) as (C1 & C2 & C3 & C4 & C5). cbv zeta in *.
  rewrite mm_castling_eq. cbv zeta.
  match goal with
  | |- rights_done _ _ _ _
         (if ?cq then set_castling _ _ (if ?ck then _ else _) _ _ else _) =>
      pose proof (two_castlings_spec ck cq (mm_clocks b m b) (m_turn b)) as T;
      cbv zeta in T; set (cK := ck) in *; set (cQ := cq) in *
  end.
  destruct T as (T1 & T2 & T3 & T4 & T5 & T6 & T7).
  constructor.
  - apply (core_same _ _ (same_placement_trans _ _ _ C1 T1)). exact Hcore.
  - rewrite T4. exact C5.
  - congruence.
  - destruct T1 as (_ & T1 & _). destruct C1 as (_ & C1 & _). congruence.
  - congruence.
  - intros side t H. apply T7 in H. rewrite C3 in H. exact H.
  - intros side t Hside H Heq.
    assert (Hb : m_castling_rights b side t = true)
      by (rewrite <- C3; apply T7; exact H).
    pose proof (Hca side t Hside Hb) as Hrook.
    rewrite Heq, (mf_from zk ev b m Hmf) in Hrook.
    injection Hrook as Hp Ht. subst t.
    assert (Hc : PieceType_eqb (get_piece_at b (move_from m)) ROOK = true)
      by (rewrite Hp; reflexivity).
    destruct side; [| |contradiction].
    + rewrite T5 in H; [discriminate H|].
      unfold cK. rewrite Hc, Heq, Z.eqb_refl. apply orb_true_r.
    + rewrite T6 in H; [discriminate H|].
      unfold cQ. rewrite Hc, Heq, Z.eqb_refl. apply orb_true_r.
  - intros Hk side Hside.
    assert (Hc : PieceType_eqb (get_piece_at b (move_from m)) KING = true)
      by (rewrite Hk; reflexivity).
    destruct side; [| |contradiction].
    + apply T5. unfold cK. rewrite Hc. reflexivity.
    + apply T6. unfold cQ. rewrite Hc. reflexivity.
Qed.

End Stages.

(* ------------------------------------------------------------------ *)
(** ** The per move type action, the placement and the final swap *)

Lemma upd_mailbox_same (f : Square -> Piece) (s : Square) (v : Piece) :
  upd_mailbox f s v s = v.
Proof. unfold upd_mailbox. rewrite Z.eqb_refl. reflexivity. Qed.

Lemma upd_mailbox_other (f : Square -> Piece) (s x : Square) (v : Piece) :
  x <> s -> upd_mailbox f s v x = f x.
Proof.
  intros H. unfold upd_mailbox. destruct (Z.eqb_spec x s); [contradiction|].
  reflexivity.
Qed.

Lemma lxor_move (a b c : Z) : Z.lxor a b = c -> a = Z.lxor c b.
Proof. intros <-. xor_solve. Qed.

Lemma file_pawn_push (t : Turn) (s : Square) : file (s - pawn_push t) = file s.
Proof.
  destruct t; cbn [pawn_push].
  - replace (s - 8) with (s + 8 * (-1)) by lia. apply file_shift.
  - replace (s - -8) with (s + 8 * 1) by lia. apply file_shift.
Qed.

Lemma rook_home_opp_K (t : Turn) :
  match t with WHITE => SQUARE_H8 | BLACK => SQUARE_H1 end
  = rook_home KINGSIDE (opp t).
Proof. destruct t; reflexivity. Qed.

Lemma rook_home_opp_Q (t : Turn) :
  match t with WHITE => SQUARE_A8 | BLACK => SQUARE_A1 end
  = rook_home QUEENSIDE (opp t).
Proof. destruct t; reflexivity. Qed.

Section Action.

Variable zk : ZobristKeys.
Variable ev : EvalTables.

Lemma pop_piece_gap (r : Board) (p : PieceType) (t : Turn) (s : Square) :
  core ev r -> 0 <= s < 64 -> m_board_pieces r s = Pc p t ->
  let r' := pop_piece zk ev r p t s in
  core ev r' /\ hash_gap zk r' = hash_gap zk r /\
  m_board_pieces r' = upd_mailbox (m_board_pieces r) s NO_PIECE /\
  m_turn r' = m_turn r /\ m_enpassant_square r' = m_enpassant_square r /\
  m_castling_rights r' = m_castling_rights r.
Proof.
  intros Hcore Hs Hmb. cbv zeta.
  destruct (pop_piece_core zk ev r p t s Hcore Hs Hmb) as [A B].
  split; [exact A|]. split.
  - unfold hash_gap. rewrite B. reflexivity.
  - repeat split.
Qed.

Lemma set_piece_gap (r : Board) (p : PieceType) (t : Turn) (s : Square) :
  core ev r -> 0 <= s < 64 -> m_board_pieces r s = NO_PIECE ->
  p <> PIECE_NONE ->
  let r' := set_piece zk ev r p t s in
  core ev r' /\ hash_gap zk r' = hash_gap zk r /\
  m_board_pieces r' = upd_mailbox (m_board_pieces r) s (Pc p t) /\
  m_turn r' = m_turn r /\ m_enpassant_square r' = m_enpassant_square r /\
  m_castling_rights r' = m_castling_rights r.
Proof.
  intros Hcore Hs Hmb Hreal. cbv zeta.
  destruct (set_piece_core zk ev r p t s Hcore Hs Hmb Hreal) as [A B].
  split; [exact A|]. split.
  - unfold hash_gap. rewrite B. reflexivity.
  - repeat split.
Qed.

Section OneMove.

Variable b : Board.
Variable m : Move.
Hypothesis Hbl : board_legal zk ev b.
Hypothesis Hmf : move_facts zk ev b m.

Lemma action_capture (r : Board) :
  rights_done zk ev b m r -> is_capture m = true ->
  action_done zk ev b m (mm_action zk ev b m r).
Proof.
  intros [Rcore Rgap Rturn Rmb Rep Rsub Rfrom Rking] Hcap.
  pose proof (legal_castling zk ev b Hbl) as Hca.
  pose proof (move_from_range m) as Hf. pose proof (move_to_range m) as Ht.
  pose proof (mf_from zk ev b m Hmf) as Hfrom.
  pose proof (mf_distinct zk ev b m Hmf) as Hne.
  unfold mm_action. cbv zeta. rewrite Hcap.
  rewrite rook_home_opp_K, rook_home_opp_Q.
  set (target := if is_ep_capture m
                 then move_to m - pawn_push (m_turn b) else move_to m).
  assert (Htarget :
            0 <= target < 64 /\ target <> move_from m /\
            (exists q, m_board_pieces b target = Pc q (opp (m_turn b))) /\
            (target = move_to m \/ m_board_pieces b (move_to m) = NO_PIECE) /\
            (forall t, m_board_pieces b target = Pc ROOK t ->
                       target = move_to m /\ t = opp (m_turn b)) /\
            (forall t, m_board_pieces b (move_to m) = Pc ROOK t ->
                       target = move_to m /\ t = opp (m_turn b))).
  { unfold target. destruct (is_ep_capture m) eqn:Hep.
    - destruct (mf_ep zk ev b m Hmf Hep) as (E1 & E2 & E3).
      split; [exact E2|]. split.
      + intros Heq. rewrite Heq, Hfrom in E3. injection E3 as _ E3.
        symmetry in E3. apply opp_neq in E3. exact E3.
      + split; [exists PAWN; exact E3|]. split; [right; exact E1|].
        split; intros t Hr; [rewrite E3 in Hr | rewrite E1 in Hr];
          discriminate Hr.
    - destruct (mf_capture zk ev b m Hmf Hcap Hep) as (q & Hq).
      split; [exact Ht|]. split; [congruence|].
      split; [exists q; exact Hq|]. split; [left; reflexivity|].
      split; intros t Hr; rewrite Hq in Hr; injection Hr as _ Hr;
        (split; [reflexivity | congruence]). }
  destruct Htarget as (HT1 & HT2 & (q & Hq) & HT3 & HT4 & HT5).
  assert (Hpiece : get_piece_at b target = q)
    by (unfold get_piece_at; rewrite Hq; reflexivity).
  rewrite Hpiece.
  assert (Hmbr : m_board_pieces r target = Pc q (opp (m_turn b)))
    by (rewrite Rmb; exact Hq).
  destruct (pop_piece_gap r q (opp (m_turn b)) target Rcore HT1 Hmbr)
    as (P1 & P2 & P3 & P4 & P5 & P6).
  match goal with
  | |- action_done _ _ _ _
         (if ?cq then set_castling _ _ (if ?ck then _ else ?r') _ ?t else _) =>
      pose proof (two_castlings_spec zk ck cq r' t) as T; cbv zeta in T
  end.
  destruct T as (T1 & T2 & T3 & T4 & T5 & T6 & T7).
  assert (Hmb2 : forall x, x <> target ->
                           m_board_pieces
                             (pop_piece zk ev r q (opp (m_turn b)) target) x
                           = m_board_pieces b x).
  { intros x Hx. rewrite P3, upd_mailbox_other by exact Hx.
    rewrite Rmb. reflexivity. }
  assert (Hrooks :
            forall side t, side <> NO_SIDE ->
              m_castling_rights
                (if move_to m =? rook_home QUEENSIDE (opp (m_turn b))
                 then set_castling zk false
                        (if move_to m =? rook_home KINGSIDE (opp (m_turn b))
                         then set_castling zk false
                                (pop_piece zk ev r q (opp (m_turn b)) target)
                                KINGSIDE (opp (m_turn b))
                         else pop_piece zk ev r q (opp (m_turn b)) target)
                        QUEENSIDE (opp (m_turn b))
                 else
                   if move_to m =? rook_home KINGSIDE (opp (m_turn b))
                   then set_castling zk false
                          (pop_piece zk ev r q (opp (m_turn b)) target)
                          KINGSIDE (opp (m_turn b))
                   else pop_piece zk ev r q (opp (m_turn b)) target)
                side t = true ->
              m_castling_rights r side t = true /\
              rook_home side t <> move_to m /\ rook_home side t <> target).
  { intros side t Hside H.
    assert (Hr : m_castling_rights r side t = true)
      by (rewrite <- P6; apply T7; exact H).
    split; [exact Hr|].
    pose proof (Hca side t Hside (Rsub side t Hr)) as Hrook.
    assert (Hgone : forall u, Pc ROOK t = Pc ROOK u ->
                      rook_home side t = move_to m ->
                      u = opp (m_turn b) -> False).
    { intros u Hu Heq Hopp. injection Hu as Hu. subst u. subst t.
      destruct side; [| |contradiction].
      - rewrite T5 in H; [discriminate H|]. apply Z.eqb_eq. congruence.
      - rewrite T6 in H; [discriminate H|]. apply Z.eqb_eq. congruence. }
    split.
    - intros Heq. rewrite Heq in Hrook.
      destruct (HT5 t Hrook) as [_ Ht'].
      apply (Hgone t eq_refl Heq Ht').
    - intros Heq. rewrite Heq in Hrook.
      destruct (HT4 t Hrook) as [Ht1 Ht2].
      apply (Hgone t eq_refl); [congruence | exact Ht2]. }
  destruct T1 as (T1a & T1b & T1c & T1d).
  constructor.
  - apply (core_same ev _ _ (conj T1a (conj T1b (conj T1c T1d)))). exact P1.
  - rewrite T4, P2. exact Rgap.
  - rewrite T2, P4. exact Rturn.
  - rewrite T1b, Hmb2 by congruence. exact Hfrom.
  - rewrite T1b, P3. destruct HT3 as [<-|HT3].
    + apply upd_mailbox_same.
    + destruct (Z.eq_dec (move_to m) target) as [->|Hd];
        [apply upd_mailbox_same|].
      rewrite upd_mailbox_other by exact Hd. rewrite Rmb. exact HT3.
  - intros side t Hside H.
    destruct (Hrooks side t Hside H) as (Hr & _ & Hnt).
    rewrite T1b, Hmb2 by exact Hnt.
    apply Hca; [exact Hside | apply Rsub; exact Hr].
  - intros side t Hside H.
    destruct (Hrooks side t Hside H) as (Hr & Hnto & _).
    split; [apply (Rfrom side t Hside Hr) | exact Hnto].
  - left. rewrite T3, P5. exact Rep.
Qed.

Lemma action_double (r : Board) :
  rights_done zk ev b m r -> is_capture m = false ->
  is_double_pawn_push m = true ->
  action_done zk ev b m (mm_action zk ev b m r).
Proof.
  intros [Rcore Rgap Rturn Rmb Rep Rsub Rfrom Rking] Hcap Hd.
  pose proof (legal_castling zk ev b Hbl) as Hca.
  pose proof (move_from_range m) as Hf. pose proof (move_to_range m) as Ht.
  destruct (mf_double zk ev b m Hmf Hd) as (Hpw & Hto & Hmid).
  pose proof (mf_quiet zk ev b m Hmf Hcap) as Hempty.
  assert (Hep : 0 <= move_to m - pawn_push (m_turn b) < 64 /\
                move_to m - pawn_push (m_turn b) <> move_from m /\
                move_to m - pawn_push (m_turn b)
                = move_from m + pawn_push (m_turn b)).
  { destruct (pawn_push_cases (m_turn b)) as [E|E]; rewrite E in *; lia. }
  destruct Hep as (Hep1 & Hep2 & Hep3).
  unfold mm_action. cbv zeta. rewrite Hcap, Hd.
  constructor.
  - apply (core_same ev r); [repeat split | exact Rcore].
  - rewrite <- Rgap.
    unfold hash_gap, hash_rest, placement_hash, state_terms. board_norm.
    rewrite Rep, ep_term_null, (ep_term_valid zk _ Hep1), file_pawn_push.
    xor_solve.
  - exact Rturn.
  - board_norm. rewrite Rmb. apply (mf_from zk ev b m Hmf).
  - board_norm. rewrite Rmb. exact Hempty.
  - intros side t Hside H. board_norm. rewrite Rmb.
    apply Hca; [exact Hside | apply Rsub; exact H].
  - intros side t Hside H. board_norm.
    split; [apply (Rfrom side t Hside H)|].
    intros Heq. pose proof (Hca side t Hside (Rsub side t H)) as Hrook.
    rewrite Heq, Hempty in Hrook. discriminate Hrook.
  - right. split; [apply (double_not_capture m Hd)|]. split; [exact Hpw|].
    split; [reflexivity|]. split; [exact Hep1|]. split; [exact Hep2|].
    board_norm. rewrite Rmb, Hep3. exact Hmid.
Qed.

Lemma action_castle (r : Board) :
  rights_done zk ev b m r -> is_capture m = false ->
  is_double_pawn_push m = false -> is_castle m = true ->
  action_done zk ev b m (mm_action zk ev b m r).
Proof.
  intros [Rcore Rgap Rturn Rmb Rep Rsub Rfrom Rking] Hcap Hd Hcs.
  pose proof (legal_castling zk ev b Hbl) as Hca.
  pose proof (mf_quiet zk ev b m Hmf Hcap) as Hempty.
  pose proof (mf_from zk ev b m Hmf) as Hfrom.
  destruct (mf_castle zk ev b m Hmf Hcs)
    as (Hk & side & Hside & Hkf & Hkt & Hrook & Hfree).
  destruct (castle_rook_squares side (m_turn b) Hside) as [HiS HiE].
  cbv zeta in HiS, HiE.
  unfold mm_action. cbv zeta. rewrite Hcap, Hd, Hcs.
  replace (move_to m + (if move_to m >? move_from m then 1 else -2))
    with (rook_home side (m_turn b)) by (rewrite Hkf, Hkt; symmetry; exact HiS).
  replace (move_to m + (if move_to m >? move_from m then -1 else 1))
    with (king_home (m_turn b) + match side with KINGSIDE => 1 | _ => -1 end)
    by (rewrite Hkf, Hkt; symmetry; exact HiE).
  set (iS := rook_home side (m_turn b)) in *.
  set (iE := king_home (m_turn b) + match side with KINGSIDE => 1 | _ => -1 end)
    in *.
  assert (Hsq : 0 <= iS < 64 /\ 0 <= iE < 64 /\ iS <> iE /\
                move_from m <> iS /\ move_from m <> iE /\
                move_to m <> iS /\ move_to m <> iE).
  { rewrite Hkf, Hkt. unfold iS, iE.
    destruct side, (m_turn b); try contradiction;
      cbv [rook_home king_home SQUARE_H1 SQUARE_A1 SQUARE_H8 SQUARE_A8]; lia. }
  destruct Hsq as (S1 & S2 & S3 & S4 & S5 & S6 & S7).
  unfold move_piece.
  assert (Hmbr : m_board_pieces r iS = Pc ROOK (m_turn b))
    by (rewrite Rmb; exact Hrook).
  destruct (pop_piece_gap r ROOK (m_turn b) iS Rcore S1 Hmbr)
    as (P1 & P2 & P3 & P4 & P5 & P6).
  assert (Hfree' : m_board_pieces (pop_piece zk ev r ROOK (m_turn b) iS) iE
                   = NO_PIECE).
  { rewrite P3, upd_mailbox_other by congruence. rewrite Rmb. exact Hfree. }
  assert (Hreal : ROOK <> PIECE_NONE) by discriminate.
  destruct (set_piece_gap _ ROOK (m_turn b) iE P1 S2 Hfree' Hreal)
    as (Q1 & Q2 & Q3 & Q4 & Q5 & Q6).
  assert (Hmb2 : forall x, x <> iS -> x <> iE ->
                   m_board_pieces
                     (set_piece zk ev (pop_piece zk ev r ROOK (m_turn b) iS)
                                ROOK (m_turn b) iE) x
                   = m_board_pieces b x).
  { intros x H1 H2. rewrite Q3, upd_mailbox_other by exact H2.
    rewrite P3, upd_mailbox_other by exact H1. rewrite Rmb. reflexivity. }
  constructor.
  - exact Q1.
  - rewrite Q2, P2. exact Rgap.
  - rewrite Q4, P4. exact Rturn.
  - rewrite Hmb2 by assumption. exact Hfrom.
  - rewrite Hmb2 by assumption. exact Hempty.
  - intros side' t' Hside' H. rewrite Q6, P6 in H.
    pose proof (Hca side' t' Hside' (Rsub side' t' H)) as Hr.
    rewrite Hmb2; [exact Hr | |].
    + intros Heq. rewrite Heq in Hr. fold iS in Hrook. rewrite Hrook in Hr.
      injection Hr as Hr. subst t'.
      rewrite (Rking Hk side' Hside') in H. discriminate H.
    + intros Heq. rewrite Heq in Hr. rewrite Hfree in Hr. discriminate Hr.
  - intros side' t' Hside' H. rewrite Q6, P6 in H.
    split; [apply (Rfrom side' t' Hside' H)|].
    intros Heq. pose proof (Hca side' t' Hside' (Rsub side' t' H)) as Hr.
    rewrite Heq, Hempty in Hr. discriminate Hr.
  - left. rewrite Q5, P5. exact Rep.
Qed.

Lemma action_none (r : Board) :
  rights_done zk ev b m r -> is_capture m = false ->
  is_double_pawn_push m = false -> is_castle m = false ->
  action_done zk ev b m (mm_action zk ev b m r).
Proof.
  intros [Rcore Rgap Rturn Rmb Rep Rsub Rfrom Rking] Hcap Hd Hcs.
  pose proof (legal_castling zk ev b Hbl) as Hca.
  pose proof (mf_quiet zk ev b m Hmf Hcap) as Hempty.
  unfold mm_action. cbv zeta. rewrite Hcap, Hd, Hcs.
  constructor.
  - exact Rcore.
  - exact Rgap.
  - exact Rturn.
  - rewrite Rmb. apply (mf_from zk ev b m Hmf).
  - rewrite Rmb. exact Hempty.
  - intros side t Hside H. rewrite Rmb.
    apply Hca; [exact Hside | apply Rsub; exact H].
  - intros side t Hside H. split; [apply (Rfrom side t Hside H)|].
    intros Heq. pose proof (Hca side t Hside (Rsub side t H)) as Hrook.
    rewrite Heq, Hempty in Hrook. discriminate Hrook.
  - left. exact Rep.
Qed.

Lemma action_done_intro (r : Board) :
  rights_done zk ev b m r -> action_done zk ev b m (mm_action zk ev b m r).
Proof.
  intros Hrd. destruct (is_capture m) eqn:Hcap.
  - apply action_capture; assumption.
  - destruct (is_double_pawn_push m) eqn:Hd.
    + apply action_double; assumption.
    + destruct (is_castle m) eqn:Hcs.
      * apply action_castle; assumption.
      * apply action_none; assumption.
Qed.

End OneMove.

Lemma mm_place_eq (b : Board) (m : Move) (r : Board) :
  mm_place zk ev b m r
  = set_piece zk ev
      (pop_piece zk ev r (get_piece_at b (move_from m)) (m_turn b)
                 (move_from m))
      (if is_promotion m then promo_piece m
       else get_piece_at b (move_from m))
      (m_turn b) (move_to m).
Proof. unfold mm_place, move_piece. destruct (is_promotion m); reflexivity. Qed.

Lemma mm_finish_spec (b r : Board) :
  let r' := mm_finish zk b r in
  same_placement r r' /\ m_turn r' = opp (m_turn b) /\
  m_enpassant_square r' = m_enpassant_square r /\
  m_castling_rights r' = m_castling_rights r /\
  m_hash r' = Z.lxor (Z.lxor (m_hash r) (get_black_move zk))
                     (ep_term zk (m_enpassant_square b)).
Proof.
  cbv zeta. unfold mm_finish, ep_term. cbv zeta.
  destruct (negb (m_enpassant_square b =? SQUARE_NULL));
    (split; [repeat split|]; split; [reflexivity|]; split; [reflexivity|];
     split; [reflexivity|]); board_norm; [reflexivity|].
  rewrite Z.lxor_0_r. reflexivity.
Qed.

(** The swap of the side to move closes the gap that clearing the ep square
    opened. *)
Lemma finish_gap (b r : Board) :
  m_turn r = m_turn b ->
  hash_gap zk r = Z.lxor (hash_gap zk b) (ep_term zk (m_enpassant_square b)) ->
  hash_gap zk b = 0 ->
  hash_gap zk (update_checkers (mm_finish zk b r)) = 0.
Proof.
  intros Hturn Hgap Hb. rewrite Hb in Hgap.
  destruct (mm_finish_spec b r) as ((_ & F1 & _) & F2 & F3 & F4 & F5).
  cbv zeta in *.
  unfold hash_gap, hash_rest, placement_hash, state_terms in Hgap |- *.
  unfold update_checkers. board_norm.
  rewrite F1, F2, F3, F4, F5.
  apply lxor_move in Hgap. apply lxor_move in Hgap. rewrite Hgap, Hturn.
  destruct (m_turn b); cbn [opp Turn_eqb]; xor_solve.
Qed.

Lemma finish_legal (b r : Board) :
  hash_gap zk b = 0 ->
  core ev r ->
  hash_gap zk r = Z.lxor (hash_gap zk b) (ep_term zk (m_enpassant_square b)) ->
  m_turn r = m_turn b ->
  castling_ok r ->
  (m_enpassant_square r = SQUARE_NULL \/
   (0 <= m_enpassant_square r < 64 /\
    0 <= m_enpassant_square r + pawn_push (m_turn b) < 64 /\
    m_board_pieces r (m_enpassant_square r) = NO_PIECE /\
    m_board_pieces r (m_enpassant_square r + pawn_push (m_turn b))
    = Pc PAWN (m_turn b))) ->
  board_legal zk ev (update_checkers (mm_finish zk b r)).
Proof.
  intros Hb Hcore Hgap Hturn Hca Hep.
  pose proof (finish_gap b r Hturn Hgap Hb) as Hfin.
  destruct (mm_finish_spec b r) as (F0 & F2 & F3 & F4 & F5).
  cbv zeta in *. pose proof F0 as (_ & F1 & _).
  apply core_board_legal.
  - apply (core_same ev (mm_finish zk b r)); [repeat split|].
    apply (core_same ev r); assumption.
  - exact Hfin.
  - unfold ep_ok, update_checkers. board_norm. rewrite F1, F2, F3.
    destruct Hep as [Hep | (E1 & E2 & E3 & E4)]; [left; exact Hep | right].
    rewrite pawn_push_opp, opp_involutive.
    replace (m_enpassant_square r - - pawn_push (m_turn b))
      with (m_enpassant_square r + pawn_push (m_turn b)) by lia.
    split; [apply valid_square_iff; exact E1|].
    split; [apply valid_square_iff; exact E2|].
    split; [exact E3 | exact E4].
  - unfold castling_ok, update_checkers. board_norm. rewrite F1, F4.
    exact Hca.
Qed.

(** [make_move] keeps a legal position legal. *)
Lemma make_move_legal (b : Board) (m : Move) :
  board_legal zk ev b -> legal zk ev b m = true ->
  board_legal zk ev (make_move zk ev b m).
Proof.
  intros Hbl Hl.
  pose proof (move_facts_intro zk ev b m Hbl Hl) as Hmf.
  destruct (board_legal_core zk ev b Hbl) as [_ Hgap].
  pose proof (rights_done_intro zk ev b m Hbl Hmf) as Hrd.
  pose proof (action_done_intro b m Hbl Hmf _ Hrd) as Had.
  unfold make_move. cbv zeta.
  set (r := mm_action zk ev b m (mm_castling zk b m (mm_clocks b m b))) in *.
  clearbody r.
  destruct Had as [Acore Agap Aturn Afrom Ato Acast Arooks Aep].
  pose proof (move_from_range m) as Hf. pose proof (move_to_range m) as Ht.
  pose proof (mf_distinct zk ev b m Hmf) as Hne.
  rewrite mm_place_eq.
  set (X := if is_promotion m then promo_piece m
            else get_piece_at b (move_from m)).
  assert (HX : X <> PIECE_NONE).
  { unfold X. destruct (is_promotion m);
      [apply promo_piece_real | apply (mf_real zk ev b m Hmf)]. }
  destruct (pop_piece_gap r _ (m_turn b) (move_from m) Acore Hf Afrom)
    as (P1 & P2 & P3 & P4 & P5 & P6).
  assert (Hfree : m_board_pieces
                    (pop_piece zk ev r (get_piece_at b (move_from m))
                               (m_turn b) (move_from m)) (move_to m)
                  = NO_PIECE).
  { rewrite P3, upd_mailbox_other by congruence. exact Ato. }
  destruct (set_piece_gap _ X (m_turn b) (move_to m) P1 Ht Hfree HX)
    as (Q1 & Q2 & Q3 & Q4 & Q5 & Q6).
  apply finish_legal.
  - exact Hgap.
  - exact Q1.
  - rewrite Q2, P2. exact Agap.
  - rewrite Q4, P4. exact Aturn.
  - intros side t Hside H. rewrite Q6, P6 in H.
    destruct (Arooks side t Hside H) as [R1 R2].
    rewrite Q3, upd_mailbox_other by exact R2.
    rewrite P3, upd_mailbox_other by exact R1.
    apply Acast; assumption.
  - rewrite Q5, P5.
    destruct Aep as [Aep | (E1 & E2 & E3 & E4 & E5 & E6)];
      [left; exact Aep | right].
    rewrite E3.
    replace (move_to m - pawn_push (m_turn b) + pawn_push (m_turn b))
      with (move_to m) by lia.
    split; [exact E4|]. split; [exact Ht|].
    assert (Hneq : move_to m - pawn_push (m_turn b) <> move_to m)
      by (destruct (pawn_push_cases (m_turn b)) as [E|E]; rewrite E; lia).
    split.
    + rewrite Q3, upd_mailbox_other by exact Hneq.
      rewrite P3, upd_mailbox_other by exact E5. exact E6.
    + rewrite Q3, upd_mailbox_same. unfold X. rewrite E1, E2. reflexivity.
Qed.

End Action.

(* ------------------------------------------------------------------ *)
(** ** The Board invariants along legal moves *)

Lemma placed_check_sound (b : Board) : placed_check b = true -> placed b.
Proof.
  intros H p t s Hreal. unfold placed_check in H.
  assert (Hp : In p piece_types) by (destruct p; cbn; tauto).
  assert (Ht : In t turns) by (destruct t; cbn; tauto).
  rewrite forallb_forall in H. specialize (H p Hp).
  rewrite forallb_forall in H. specialize (H t Ht).
  apply andb_true_iff in H. destruct H as [Hrange Hsq].
  apply andb_true_iff in Hrange. destruct Hrange as [Hlo Hhi].
  apply Z.leb_le in Hlo. apply Z.ltb_lt in Hhi.
  destruct (valid_square s) eqn:Hv; cbn [andb].
  - rewrite forallb_forall in Hsq. apply valid_square_iff in Hv.
    apply Bool.eqb_prop. apply Hsq. apply in_all_squares. exact Hv.
  - apply valid_square_false in Hv.
    destruct (Z.ltb_spec s 0) as [Hneg|Hpos].
    + apply Z.testbit_neg_r. exact Hneg.
    + destruct (Z.eq_dec (m_pieces b p t) 0) as [->|Hnz];
        [apply Z.bits_0|].
      apply Z.bits_above_log2; [exact Hlo|].
      assert (Z.log2 (m_pieces b p t) < 64)
        by (apply Z.log2_lt_pow2; lia).
      lia.
Qed.

Lemma make_move_turn (zk : ZobristKeys) (ev : EvalTables) (b : Board)
      (m : Move) :
  m_turn (make_move zk ev b m) = opp (m_turn b).
Proof.
  unfold make_move, mm_finish, update_checkers. cbv zeta.
  destruct (negb (m_enpassant_square b =? SQUARE_NULL)); reflexivity.
Qed.

Lemma make_move_checkers (zk : ZobristKeys) (ev : EvalTables) (b : Board)
      (m : Move) :
  checkers_correct (make_move zk ev b m).
Proof. reflexivity. Qed.

Lemma play_moves_legal (zk : ZobristKeys) (ev : EvalTables)
      (moves : list Move) :
  forall b0 b,
    board_legal zk ev b0 -> play_moves zk ev b0 moves = Some b ->
    board_legal zk ev b.
Proof.
  induction moves as [|m rest IH]; intros b0 b Hbl H; cbn [play_moves] in H.
  - injection H as <-. exact Hbl.
  - destruct (legal zk ev b0 m) eqn:Hl; [|discriminate H].
    apply (IH (make_move zk ev b0 m)); [|exact H].
    apply make_move_legal; assumption.
Qed.

(** C1: for every board [b] that satisfies the Board invariants (a legal
    position) and every move [m] that [b.legal(m)] accepts, the board
    [b.make_move(m)] passes every check of [is_valid()], it satisfies the
    invariants again - the twelve bitboards pairwise disjoint and in
    agreement with the mailbox, the stored hash equal to [generate_hash()],
    the stored scores and phase equal to their from-scratch values - and
    its cached checkers are the attackers of the king of the side to
    move. *)
Theorem make_move_is_valid (zk : ZobristKeys) (ev : EvalTables)
        (b : Board) (m : Move) :
  board_legal zk ev b -> legal zk ev b m = true ->
  is_valid zk ev (make_move zk ev b m) = true /\
  board_legal zk ev (make_move zk ev b m) /\
  checkers_correct (make_move zk ev b m).
Proof.
  intros Hbl Hl.
  pose proof (make_move_legal zk ev b m Hbl Hl) as Hr.
  split; [|split; [exact Hr | apply make_move_checkers]].
  destruct Hr as [Hp Hc Hh He _ _].
  apply is_valid_intro; try assumption.
  rewrite make_move_turn, opp_involutive.
  apply legal_inv in Hl. cbv zeta in Hl.
  destruct Hl as (_ & _ & _ & _ & _ & _ & _ & _ & _ & _ & Hsafe).
  unfold king_safe_after in Hsafe. cbv zeta in Hsafe.
  apply negb_true_iff in Hsafe. exact Hsafe.
Qed.

(** C2: on every legal board, and so on every board reached from a legal
    one - the board of a legal FEN - by [make_move] calls on legal moves,
    the incrementally maintained key [hash()] equals [generate_hash()],
    which is the XOR of the terms of every occupied piece/colour/square, of
    the black-to-move term, of the ep-file term when the ep square is set
    and of each active castling right. *)
Theorem hash_is_generate_hash (zk : ZobristKeys) (ev : EvalTables)
        (b0 : Board) (moves : list Move) (b : Board) :
  board_legal zk ev b0 -> play_moves zk ev b0 moves = Some b ->
  m_hash b = generate_hash zk b /\ generate_hash zk b = spec_hash zk b.
Proof.
  intros Hbl H.
  pose proof (play_moves_legal zk ev moves b0 b Hbl H) as [Hp Hc Hh He _ _].
  split; [exact Hh|].
  rewrite (generate_hash_canonical zk b Hp Hc), (state_hash_terms zk b).
  reflexivity.
Qed.

(** The initial position is legal. *)
Lemma startpos_mailbox_clean : mailbox_clean startpos.
Proof.
  intros s t. destruct s as [|p|p]; vm_compute; try discriminate.
  do 7 (destruct p as [p|p|]; try discriminate).
Qed.

Lemma startpos_legal : board_legal sample_keys sample_eval startpos.
Proof.
  constructor.
  - apply placed_check_sound. vm_compute. reflexivity.
  - exact startpos_mailbox_clean.
  - unfold hash_ok. vm_compute. reflexivity.
  - unfold eval_ok. vm_compute. reflexivity.
  - left. vm_compute. reflexivity.
  - intros side t Hside _. destruct side, t; try contradiction;
      vm_compute; reflexivity.
Qed.

Lemma make_move_is_valid_witness :
  is_valid sample_keys sample_eval
           (make_move sample_keys sample_eval startpos quiet_e4) = true /\
  board_legal sample_keys sample_eval
              (make_move sample_keys sample_eval startpos quiet_e4) /\
  checkers_correct (make_move sample_keys sample_eval startpos quiet_e4).
Proof.
  apply (make_move_is_valid sample_keys sample_eval startpos quiet_e4).
  - exact startpos_legal.
  - vm_compute. reflexivity.
Defined.

Lemma hash_is_generate_hash_witness :
  let b := make_move sample_keys sample_eval
             (make_move sample_keys sample_eval startpos quiet_e4) move_c5 in
  m_hash b = generate_hash sample_keys b /\
  generate_hash sample_keys b = spec_hash sample_keys b.
Proof.
  intros b.
  apply (hash_is_generate_hash sample_keys sample_eval startpos
           [quiet_e4; move_c5] b).
  - exact startpos_legal.
  - cbn [play_moves].
    assert (H1 : legal sample_keys sample_eval startpos quiet_e4 = true)
      by (vm_compute; reflexivity).
    assert (H2 : legal sample_keys sample_eval
                   (make_move sample_keys sample_eval startpos quiet_e4)
                   move_c5 = true)
      by (vm_compute; reflexivity).
    rewrite H1, H2. reflexivity.
Defined.

(* ================================================================== *)
(** * Further properties of the board *)
(* ================================================================== *)

(* ------------------------------------------------------------------ *)
(** ** FEN letters *)

(** X1: the letter that [fen_piece(Piece)] prints for a piece is read back
    by [fen_piece(char)] as the type of that piece, and it is upper case
    exactly for a white piece, which is how the FEN constructor picks the
    colour. *)
Theorem fen_piece_round_trip (p : PieceType) (t : Turn) :
  fen_piece (fen_piece_char (Pc p t)) = p /\
  isupper (fen_piece_char (Pc p t)) = Turn_eqb t WHITE.
Proof. destruct p, t; split; vm_compute; reflexivity. Qed.

(** X2: the letter that [fen_castle_side(CastleSide, Turn)] prints is read
    back by [fen_castle_side(char)] as the same side, upper case exactly
    for white. *)
Theorem fen_castle_side_round_trip (side : CastleSide) (t : Turn) :
  fen_castle_side (fen_castle_side_char side t) = side /\
  isupper (fen_castle_side_char side t) = Turn_eqb t WHITE.
Proof. destruct side, t; split; vm_compute; reflexivity. Qed.

(* ------------------------------------------------------------------ *)
(** ** The null move *)

Lemma make_null_move_state (zk : ZobristKeys) (b : Board) :
  m_enpassant_square (make_null_move zk b) = SQUARE_NULL /\
  m_castling_rights (make_null_move zk b) = m_castling_rights b /\
  m_psq (make_null_move zk b) = m_psq b /\
  m_phase (make_null_move zk b) = m_phase b /\
  m_hash (make_null_move zk b)
  = Z.lxor (Z.lxor (m_hash b) (ep_term zk (m_enpassant_square b)))
           (get_black_move zk).
Proof.
  unfold make_null_move, ep_term. cbv zeta.
  destruct (negb (m_enpassant_square b =? SQUARE_NULL)); board_norm;
    repeat split.
  rewrite Z.lxor_0_r. reflexivity.
Qed.

(** X3: [make_null_move] keeps a legal position legal - bitboards and
    mailbox in agreement, stored hash equal to [generate_hash()], scores
    and phase equal to their recomputation - and when the side that passes
    is not in check, the board it returns passes [is_valid()]. *)
Theorem make_null_move_keeps_legal (zk : ZobristKeys) (ev : EvalTables)
        (b : Board) :
  board_legal zk ev b ->
  board_legal zk ev (make_null_move zk b) /\
  (bb_any (attackers b (bitscan_forward (m_pieces b KING (m_turn b)))
                     (get_pieces b) (opp (m_turn b))) = false ->
   is_valid zk ev (make_null_move zk b) = true).
Proof.
  intros Hbl.
  destruct (board_legal_core zk ev b Hbl) as [Hcore Hgap].
  destruct (make_null_move_fields zk b) as (Hp & Ht & _ & Hmb).
  destruct (make_null_move_state zk b) as (Hep & Hr & Hpsq & Hph & Hh).
  assert (Hlegal : board_legal zk ev (make_null_move zk b)).
  { apply core_board_legal.
    - apply (core_same ev b); [|exact Hcore].
      split; [exact Hp|]. split; [exact Hmb|]. split; assumption.
    - unfold hash_gap, hash_rest, placement_hash, state_terms in Hgap |- *.
      rewrite Hmb, Ht, Hep, Hr, Hh, ep_term_null.
      apply lxor_move in Hgap. apply lxor_move in Hgap. rewrite Hgap.
      destruct (m_turn b); cbn [opp Turn_eqb]; xor_solve.
    - left. exact Hep.
    - unfold castling_ok. rewrite Hmb, Hr.
      exact (legal_castling zk ev b Hbl). }
  split; [exact Hlegal|]. intros Hsafe.
  destruct Hlegal as [L1 L2 L3 L4 _ _].
  apply is_valid_intro; try assumption.
  rewrite Ht, opp_involutive, Hp.
  rewrite (attackers_pieces_ext _ b) by exact Hp.
  replace (get_pieces (make_null_move zk b)) with (get_pieces b)
    by (unfold get_pieces, get_pieces_turn; rewrite Hp; reflexivity).
  exact Hsafe.
Qed.

Lemma make_null_move_keeps_legal_witness :
  board_legal sample_keys sample_eval (make_null_move sample_keys startpos) /\
  (bb_any (attackers startpos
             (bitscan_forward (m_pieces startpos KING (m_turn startpos)))
             (get_pieces startpos) (opp (m_turn startpos))) = false ->
   is_valid sample_keys sample_eval (make_null_move sample_keys startpos)
   = true).
Proof.
  apply (make_null_move_keeps_legal sample_keys sample_eval startpos).
  exact startpos_legal.
Defined.

(** X4: two null moves in a row give the board back, field by field, when
    no ep square was set: the side to move and the hash are toggled
    twice. *)
Theorem make_null_move_twice (zk : ZobristKeys) (b : Board) :
  m_enpassant_square b = SQUARE_NULL ->
  make_null_move zk (make_null_move zk b) = b.
Proof.
  intros Hep. unfold make_null_move. cbv zeta.
  rewrite Hep, Z.eqb_refl. cbn [negb]. board_norm.
  rewrite Z.eqb_refl. cbn [negb].
  destruct b as [h pcs mb t rights ep hmc fmc psq ph chk].
  unfold set_hash, set_turn, set_enpassant. board_norm. rewrite Hep.
  f_equal; [xor_solve | apply opp_involutive].
Qed.

Lemma make_null_move_twice_witness :
  make_null_move sample_keys (make_null_move sample_keys startpos) = startpos.
Proof.
  apply (make_null_move_twice sample_keys startpos).
  vm_compute. reflexivity.
Defined.

(* ------------------------------------------------------------------ *)
(** ** What [make_move] does to the castling rights *)

Lemma set_castling_false_rights (zk : ZobristKeys) (r : Board)
      (side : CastleSide) (t : Turn) (s' : CastleSide) (t' : Turn) :
  m_castling_rights (set_castling zk false r side t) s' t' = true ->
  m_castling_rights r s' t' = true.
Proof.
  unfold set_castling.
  destruct (Bool.eqb (m_castling_rights r side t) false); [auto|].
  board_norm. unfold upd_rights.
  destruct (CastleSide_eqb s' side && Turn_eqb t' t); [discriminate | auto].
Qed.

Section Rights.

Variable zk : ZobristKeys.
Variable ev : EvalTables.
Variable b : Board.
Variable m : Move.

Lemma mm_castling_rights (r : Board) (s : CastleSide) (t : Turn) :
  m_castling_rights (mm_castling zk b m r) s t = true ->
  m_castling_rights r s t = true.
Proof.
  rewrite mm_castling_eq. cbv zeta.
  match goal with
  | |- m_castling_rights
         (if ?cq then set_castling _ _ (if ?ck then _ else _) _ _ else _)
         _ _ = _ -> _ =>
      pose proof (two_castlings_spec zk ck cq r (m_turn b)) as T
  end.
  cbv zeta in T. destruct T as (_ & _ & _ & _ & _ & _ & T). apply T.
Qed.

Lemma mm_action_rights (r : Board) (s : CastleSide) (t : Turn) :
  m_castling_rights (mm_action zk ev b m r) s t = true ->
  m_castling_rights r s t = true.
Proof.
  unfold mm_action. cbv zeta. destruct (is_capture m).
  - match goal with
    | |- m_castling_rights
           (if ?cq then set_castling _ _ (if ?ck then _ else ?r') _ ?u else _)
           _ _ = _ -> _ =>
        pose proof (two_castlings_spec zk ck cq r' u) as T
    end.
    cbv zeta in T. destruct T as (_ & _ & _ & _ & _ & _ & T).
    intros H. apply T in H. exact H.
  - destruct (is_double_pawn_push m); [auto|].
    destruct (is_castle m); auto.
Qed.

Lemma make_move_rights_after_action (s : CastleSide) (t : Turn) :
  m_castling_rights (make_move zk ev b m) s t
  = m_castling_rights
      (mm_action zk ev b m (mm_castling zk b m (mm_clocks b m b))) s t.
Proof.
  unfold make_move. cbv zeta.
  destruct (mm_finish_spec zk b
              (mm_place zk ev b m
                 (mm_action zk ev b m (mm_castling zk b m (mm_clocks b m b)))))
    as (_ & _ & _ & F & _).
  cbv zeta in F. unfold update_checkers. board_norm. rewrite F.
  rewrite mm_place_eq. reflexivity.
Qed.

(** X5: [make_move] never grants a castling right: a right that holds
    after the move, whatever the move, held before it. *)
Theorem make_move_rights_only_shrink (s : CastleSide) (t : Turn) :
  m_castling_rights (make_move zk ev b m) s t = true ->
  m_castling_rights b s t = true.
Proof.
  rewrite make_move_rights_after_action. intros H.
  apply mm_action_rights, mm_castling_rights in H.
  destruct (mm_clocks_spec zk b m) as (_ & _ & C & _). cbv zeta in C.
  rewrite C in H. exact H.
Qed.

(** X6: after a move of the king the mover holds no castling right, after
    a move of a rook from its home square the mover has lost the right of
    that side, and a capture on a rook home square of the opponent takes
    the opponent's right of that side. *)
Theorem make_move_drops_rights (side : CastleSide) :
  side <> NO_SIDE ->
  (get_piece_at b (move_from m) = KING \/
   (get_piece_at b (move_from m) = ROOK /\
    move_from m = rook_home side (m_turn b)) ->
   m_castling_rights (make_move zk ev b m) side (m_turn b) = false) /\
  (is_capture m = true -> move_to m = rook_home side (opp (m_turn b)) ->
   m_castling_rights (make_move zk ev b m) side (opp (m_turn b)) = false).
Proof.
  intros Hside. split.
  - intros Hmover.
    destruct (m_castling_rights (make_move zk ev b m) side (m_turn b)) eqn:E;
      [|reflexivity].
    rewrite make_move_rights_after_action in E.
    apply mm_action_rights in E. rewrite mm_castling_eq in E.
    cbv zeta in E.
    match type of E with
    | m_castling_rights
        (if ?cq then set_castling _ _ (if ?ck then _ else ?r) _ _ else _)
        _ _ = _ =>
        pose proof (two_castlings_spec zk ck cq r (m_turn b)) as T;
        cbv zeta in T; destruct T as (_ & _ & _ & _ & T5 & T6 & _);
        assert (Hk : ck = true /\ cq = true \/
                     (side = KINGSIDE /\ ck = true) \/
                     (side = QUEENSIDE /\ cq = true))
    end.
    { destruct Hmover as [Hk | [Hr Hfrom]].
      - left. rewrite Hk. split; reflexivity.
      - right. rewrite Hr, Hfrom.
        destruct side; [left | right | contradiction];
          (split; [reflexivity|]); rewrite Z.eqb_refl; apply orb_true_r. }
    destruct side; [| |contradiction].
    + rewrite T5 in E; [discriminate E|].
      destruct Hk as [[Hk _] | [[_ Hk] | [Hk _]]];
        [exact Hk | exact Hk | discriminate Hk].
    + rewrite T6 in E; [discriminate E|].
      destruct Hk as [[_ Hk] | [[Hk _] | [_ Hk]]];
        [exact Hk | discriminate Hk | exact Hk].
  - intros Hcap Hto.
    destruct (m_castling_rights (make_move zk ev b m) side (opp (m_turn b)))
      eqn:E; [|reflexivity].
    rewrite make_move_rights_after_action in E.
    unfold mm_action in E. cbv zeta in E. rewrite Hcap in E.
    rewrite rook_home_opp_K, rook_home_opp_Q in E.
    match type of E with
    | m_castling_rights
        (if ?cq then set_castling _ _ (if ?ck then _ else ?r) _ ?u else _)
        _ _ = _ =>
        pose proof (two_castlings_spec zk ck cq r u) as T;
        cbv zeta in T; destruct T as (_ & _ & _ & _ & T5 & T6 & _)
    end.
    destruct side; [| |contradiction].
    + rewrite T5 in E; [discriminate E|]. apply Z.eqb_eq. exact Hto.
    + rewrite T6 in E; [discriminate E|]. apply Z.eqb_eq. exact Hto.
Qed.

End Rights.

Lemma make_move_drops_rights_witness :
  KINGSIDE <> NO_SIDE /\
  m_castling_rights
    (make_move sample_keys sample_eval startpos (mk_move 4 12 QUIET))
    KINGSIDE (m_turn startpos) = false.
Proof.
  assert (H : KINGSIDE <> NO_SIDE) by discriminate.
  split; [exact H|].
  apply (make_move_drops_rights sample_keys sample_eval startpos
           (mk_move 4 12 QUIET) KINGSIDE H).
  left. vm_compute. reflexivity.
Defined.

Lemma make_move_rights_only_shrink_witness :
  m_castling_rights startpos KINGSIDE BLACK = true.
Proof.
  apply (make_move_rights_only_shrink sample_keys sample_eval startpos
           quiet_e4 KINGSIDE BLACK).
  vm_compute. reflexivity.
Defined.

(* ------------------------------------------------------------------ *)
(** ** What [make_move] does to the clocks, the ep square and the turn *)

Lemma same_clocks_refl (r : Board) : same_clocks r r.
Proof. repeat split. Qed.

Lemma same_clocks_trans (a b c : Board) :
  same_clocks a b -> same_clocks b c -> same_clocks a c.
Proof.
  intros (A1 & A2 & A3) (B1 & B2 & B3). unfold same_clocks.
  rewrite B1, B2, B3. repeat split; assumption.
Qed.

Lemma set_castling_clocks (zk : ZobristKeys) (can : bool) (r : Board)
      (side : CastleSide) (t : Turn) :
  same_clocks r (set_castling zk can r side t).
Proof.
  unfold set_castling.
  destruct (Bool.eqb (m_castling_rights r side t) can); repeat split.
Qed.

Lemma cond_castling_clocks (zk : ZobristKeys) (c : bool) (r : Board)
      (side : CastleSide) (t : Turn) :
  same_clocks r (if c then set_castling zk false r side t else r).
Proof.
  destruct c; [apply set_castling_clocks | apply same_clocks_refl].
Qed.

Section Clocks.

Variable zk : ZobristKeys.
Variable ev : EvalTables.
Variable b : Board.
Variable m : Move.

Lemma mm_castling_clocks (r : Board) : same_clocks r (mm_castling zk b m r).
Proof.
  rewrite mm_castling_eq. cbv zeta.
  eapply same_clocks_trans; [|apply cond_castling_clocks].
  apply cond_castling_clocks.
Qed.

Lemma mm_action_clocks (r : Board) :
  m_half_move_clock (mm_action zk ev b m r) = m_half_move_clock r /\
  m_full_move_clock (mm_action zk ev b m r) = m_full_move_clock r /\
  m_enpassant_square (mm_action zk ev b m r)
  = if negb (is_capture m) && is_double_pawn_push m
    then move_to m - pawn_push (m_turn b)
    else m_enpassant_square r.
Proof.
  unfold mm_action. cbv zeta. destruct (is_capture m); cbn [negb andb].
  - match goal with
    | |- context [if ?cq then set_castling _ _ (if ?ck then _ else ?r') _ ?u
                  else _] =>
        pose proof (same_clocks_trans _ _ _
                      (cond_castling_clocks zk ck r' KINGSIDE u)
                      (cond_castling_clocks zk cq
                         (if ck then set_castling zk false r' KINGSIDE u
                          else r') QUEENSIDE u)) as T
    end.
    destruct T as (T1 & T2 & T3). rewrite T1, T2, T3. repeat split.
  - destruct (is_double_pawn_push m); [repeat split|].
    destruct (is_castle m); repeat split.
Qed.

(** X7: on a board whose clocks are [int] values below [INT_MAX] (so that
    the increments of the source do not overflow), [make_move] hands the
    move to the other side, adds one to the full-move clock exactly after
    a move of Black, resets the half-move clock on a pawn move or a capture
    and increments it otherwise, and leaves an ep square - the square
    behind the pawn - exactly after a double pawn push; the new clocks are
    [int] values again. *)
Theorem make_move_clocks :
  int_below_max (m_full_move_clock b) ->
  int_below_max (m_half_move_clock b) ->
  m_turn (make_move zk ev b m) = opp (m_turn b) /\
  m_full_move_clock (make_move zk ev b m)
  = m_full_move_clock b + turn_index (m_turn b) /\
  m_half_move_clock (make_move zk ev b m)
  = (if PieceType_eqb (get_piece_at b (move_from m)) PAWN || is_capture m
     then 0 else m_half_move_clock b + 1) /\
  m_enpassant_square (make_move zk ev b m)
  = (if negb (is_capture m) && is_double_pawn_push m
     then move_to m - pawn_push (m_turn b) else SQUARE_NULL) /\
  int_value (m_full_move_clock (make_move zk ev b m)) /\
  int_value (m_half_move_clock (make_move zk ev b m)).
Proof.
  intros Hfull Hhalf.
  assert (Hmain :
    m_turn (make_move zk ev b m) = opp (m_turn b) /\
    m_full_move_clock (make_move zk ev b m)
    = m_full_move_clock b + turn_index (m_turn b) /\
    m_half_move_clock (make_move zk ev b m)
    = (if PieceType_eqb (get_piece_at b (move_from m)) PAWN || is_capture m
       then 0 else m_half_move_clock b + 1) /\
    m_enpassant_square (make_move zk ev b m)
    = (if negb (is_capture m) && is_double_pawn_push m
       then move_to m - pawn_push (m_turn b) else SQUARE_NULL));
    [|destruct Hmain as (M1 & M2 & M3 & M4);
      split; [exact M1|]; split; [exact M2|]; split; [exact M3|];
      split; [exact M4|]; rewrite M2, M3;
      unfold int_below_max, int_value, INT_MIN, INT_MAX in *;
      split;
      [destruct (m_turn b); cbn [turn_index]; lia
      |destruct (PieceType_eqb (get_piece_at b (move_from m)) PAWN
                 || is_capture m); lia]].
  split; [apply make_move_turn|].
  assert (Hlast : same_clocks
                    (mm_action zk ev b m (mm_castling zk b m (mm_clocks b m b)))
                    (make_move zk ev b m)).
  { unfold make_move. cbv zeta. rewrite mm_place_eq.
    unfold mm_finish, update_checkers. cbv zeta.
    destruct (negb (m_enpassant_square b =? SQUARE_NULL)); repeat split. }
  destruct Hlast as (L1 & L2 & L3).
  destruct (mm_action_clocks (mm_castling zk b m (mm_clocks b m b)))
    as (A1 & A2 & A3).
  destruct (mm_castling_clocks (mm_clocks b m b)) as (K1 & K2 & K3).
  rewrite L1, L2, L3, A1, A2, A3, K1, K2, K3.
  unfold mm_clocks. cbv zeta.
  destruct (PieceType_eqb (get_piece_at b (move_from m)) PAWN || is_capture m);
    repeat split.
Qed.

End Clocks.

Lemma make_move_clocks_witness :
  m_full_move_clock (make_move sample_keys sample_eval startpos quiet_e4)
  = m_full_move_clock startpos + turn_index (m_turn startpos).
Proof.
  refine (proj1 (proj2 (make_move_clocks sample_keys sample_eval startpos
                          quiet_e4 _ _)));
    vm_compute; (split; [discriminate | reflexivity]).
Defined.

(* ------------------------------------------------------------------ *)
(** ** What [legal] accepts *)

(** X8: on a legal position, a move that [Board::legal] accepts leaves a
    square that holds a piece of the side to move, arrives on a different
    square that holds no piece of that side, and carries the capture flag
    exactly when the destination holds a piece of the opponent or the move
    is an ep capture. *)
Theorem legal_move_squares (zk : ZobristKeys) (ev : EvalTables)
        (b : Board) (m : Move) :
  board_legal zk ev b -> legal zk ev b m = true ->
  move_from m <> move_to m /\
  (exists p, p <> PIECE_NONE /\
             m_board_pieces b (move_from m) = Pc p (m_turn b)) /\
  (forall q, m_board_pieces b (move_to m) <> Pc q (m_turn b)) /\
  (is_capture m = true <->
   is_ep_capture m = true \/
   exists q, m_board_pieces b (move_to m) = Pc q (opp (m_turn b))).
Proof.
  intros Hbl Hl.
  destruct (move_facts_intro zk ev b m Hbl Hl)
    as [Hne Hfrom Hreal Hcap Hquiet Hep _ _ _].
  split; [exact Hne|]. split.
  { exists (get_piece_at b (move_from m)). split; assumption. }
  assert (Hopp : forall q q', Pc q (opp (m_turn b)) <> Pc q' (m_turn b)).
  { intros q q' E. injection E as _ E. apply opp_neq in E. exact E. }
  split.
  - intros q Hq. destruct (is_capture m) eqn:Ec.
    + destruct (is_ep_capture m) eqn:Ee.
      * destruct (Hep eq_refl) as (E1 & _). congruence.
      * destruct (Hcap eq_refl eq_refl) as (q' & Hq').
        rewrite Hq' in Hq. apply (Hopp _ _ Hq).
    + rewrite (Hquiet eq_refl) in Hq. discriminate Hq.
  - split.
    + intros Ec. destruct (is_ep_capture m) eqn:Ee; [left; reflexivity|].
      right. apply Hcap; [exact Ec | reflexivity].
    + intros [Ee | (q & Hq)].
      * apply ep_is_capture. exact Ee.
      * destruct (is_capture m) eqn:Ec; [reflexivity|].
        rewrite (Hquiet eq_refl) in Hq. discriminate Hq.
Qed.

Lemma legal_move_squares_witness :
  move_from quiet_e4 <> move_to quiet_e4 /\
  (exists p, p <> PIECE_NONE /\
             m_board_pieces startpos (move_from quiet_e4)
             = Pc p (m_turn startpos)) /\
  (forall q, m_board_pieces startpos (move_to quiet_e4)
             <> Pc q (m_turn startpos)) /\
  (is_capture quiet_e4 = true <->
   is_ep_capture quiet_e4 = true \/
   exists q, m_board_pieces startpos (move_to quiet_e4)
             = Pc q (opp (m_turn startpos))).
Proof.
  apply (legal_move_squares sample_keys sample_eval startpos quiet_e4).
  - exact startpos_legal.
  - vm_compute. reflexivity.
Defined.

(* ================================================================== *)
(** * Further properties of the histories *)
(* ================================================================== *)

Section Killers.

Variable h : Histories.t.
Variables move prev_move : Move.
Variable turn : Turn.
Variables depth ply : Z.
Variable piece : PieceType.

Local Abbreviation h' :=
  (Histories.fail_high h move prev_move turn depth ply piece).

Lemma fail_high_known (i p : Z) :
  Histories.is_killer h move ply = true ->
  Histories.m_killers h' i p = Histories.m_killers h i p.
Proof.
  intros Hk. unfold Histories.fail_high. cbv zeta.
  change (Histories.is_killer
            (Histories.mk
               (Histories.m_killers
                  (Histories.add_bonus h move turn piece (depth * depth)))
               (Histories.m_butterfly
                  (Histories.add_bonus h move turn piece (depth * depth)))
               (Histories.m_piece_type
                  (Histories.add_bonus h move turn piece (depth * depth)))
               (Histories.upd_move2
                  (Histories.m_countermoves
                     (Histories.add_bonus h move turn piece (depth * depth)))
                  (move_from prev_move) (move_to prev_move) move))
            move ply)
    with (Histories.is_killer h move ply).
  rewrite Hk. reflexivity.
Qed.

Lemma fail_high_fresh (i p : Z) :
  Histories.is_killer h move ply = false ->
  Histories.m_killers h' i p
  = if p =? ply then
      if i =? 0 then move
      else if i =? 1 then Histories.m_killers h 0 ply
      else if i =? 2 then Histories.m_killers h 1 ply
      else Histories.m_killers h i p
    else Histories.m_killers h i p.
Proof.
  intros Hk. unfold Histories.fail_high. cbv zeta.
  change (Histories.is_killer
            (Histories.mk
               (Histories.m_killers
                  (Histories.add_bonus h move turn piece (depth * depth)))
               (Histories.m_butterfly
                  (Histories.add_bonus h move turn piece (depth * depth)))
               (Histories.m_piece_type
                  (Histories.add_bonus h move turn piece (depth * depth)))
               (Histories.upd_move2
                  (Histories.m_countermoves
                     (Histories.add_bonus h move turn piece (depth * depth)))
                  (move_from prev_move) (move_to prev_move) move))
            move ply)
    with (Histories.is_killer h move ply).
  rewrite Hk. cbn [Histories.m_killers Histories.add_bonus].
  unfold Histories.upd_move2. rewrite !Z.eqb_refl.
  destruct (p =? ply); [|rewrite !andb_false_r; reflexivity].
  rewrite !andb_true_r.
  destruct (Z.eqb_spec i 0) as [->|H0]; [reflexivity|].
  destruct (Z.eqb_spec i 1) as [->|H1]; [reflexivity|].
  destruct (Z.eqb_spec i 2) as [->|H2]; reflexivity.
Qed.

Lemma is_killer_false :
  Histories.is_killer h move ply = false ->
  Histories.m_killers h 0 ply <> move /\
  Histories.m_killers h 1 ply <> move /\
  Histories.m_killers h 2 ply <> move.
Proof.
  unfold Histories.is_killer. cbn [existsb]. intros H.
  apply orb_false_iff in H. destruct H as [H0 H].
  apply orb_false_iff in H. destruct H as [H1 H].
  apply orb_false_iff in H. destruct H as [H2 _].
  apply Z.eqb_neq in H0, H1, H2. auto.
Qed.

(** X9: [fail_high] with a move that is not yet a killer of the ply puts
    it into slot 0 and shifts the old slots 0 and 1 to slots 1 and 2, so
    the oldest killer is dropped; with a move that is a killer already the
    killers stay as they are; the killers of every other ply are never
    touched. *)
Theorem fail_high_killers :
  (Histories.is_killer h move ply = false ->
   Histories.get_killer h' 0 ply = move /\
   Histories.get_killer h' 1 ply = Histories.get_killer h 0 ply /\
   Histories.get_killer h' 2 ply = Histories.get_killer h 1 ply) /\
  (Histories.is_killer h move ply = true ->
   forall i, Histories.get_killer h' i ply = Histories.get_killer h i ply) /\
  (forall i p, p <> ply ->
               Histories.get_killer h' i p = Histories.get_killer h i p).
Proof.
  unfold Histories.get_killer. split; [|split].
  - intros Hk. rewrite !(fail_high_fresh _ _ Hk), Z.eqb_refl.
    repeat split.
  - intros Hk i. apply fail_high_known. exact Hk.
  - intros i p Hp. destruct (Histories.is_killer h move ply) eqn:Hk.
    + apply fail_high_known. exact Hk.
    + rewrite (fail_high_fresh _ _ Hk).
      destruct (Z.eqb_spec p ply); [contradiction | reflexivity].
Qed.

(** X10: after [fail_high] the move is a killer of its ply, and it is the
    countermove of every move with the origin and destination squares of
    the previous move (the table is indexed by the two squares only); the
    countermoves of all other moves are unchanged. *)
Theorem fail_high_records_move :
  Histories.is_killer h' move ply = true /\
  forall m,
    Histories.countermove h' m
    = if (move_from m =? move_from prev_move)
         && (move_to m =? move_to prev_move)
      then move else Histories.countermove h m.
Proof.
  split.
  - destruct (Histories.is_killer h move ply) eqn:Hk.
    + unfold Histories.is_killer in *. cbn [existsb] in *.
      rewrite !(fail_high_known _ _ Hk). exact Hk.
    + unfold Histories.is_killer. cbn [existsb].
      rewrite (fail_high_fresh 0 ply Hk), !Z.eqb_refl. reflexivity.
  - intros m. unfold Histories.countermove, Histories.fail_high. cbv zeta.
    destruct (Histories.is_killer _ move ply); reflexivity.
Qed.

(** X11: [fail_high] keeps the killers of every ply free of repetitions:
    if no move other than [MOVE_NULL] was stored twice for a ply before the
    call, none is afterwards. *)
Theorem fail_high_keeps_killers_distinct (p : Z) :
  killers_distinct h p -> killers_distinct h' p.
Proof.
  intros Hd i j Hi Hj Hij.
  unfold killers_distinct, Histories.get_killer, NUM_KILLERS in *.
  destruct (Histories.is_killer h move ply) eqn:Hk.
  - rewrite !(fail_high_known _ _ Hk). apply Hd; assumption.
  - rewrite !(fail_high_fresh _ _ Hk).
    destruct (Z.eqb_spec p ply) as [->|Hp]; [|apply Hd; assumption].
    destruct (is_killer_false Hk) as (N0 & N1 & N2).
    assert (H01 : Histories.m_killers h 0 ply = Histories.m_killers h 1 ply ->
                  Histories.m_killers h 0 ply = MOVE_NULL)
      by (apply (Hd 0 1); lia).
    assert (H10 : Histories.m_killers h 1 ply = Histories.m_killers h 0 ply ->
                  Histories.m_killers h 1 ply = MOVE_NULL)
      by (apply (Hd 1 0); lia).
    assert (Ei : i = 0 \/ i = 1 \/ i = 2) by lia.
    assert (Ej : j = 0 \/ j = 1 \/ j = 2) by lia.
    destruct Ei as [->|[->| ->]], Ej as [->|[->| ->]];
      try contradiction; cbn [Z.eqb Pos.eqb]; intros E;
      try (symmetry in E; contradiction); try contradiction; auto.
Qed.

End Killers.

Lemma clear_killers_distinct (p : Z) : killers_distinct Histories.clear p.
Proof. intros i j _ _ _ _. reflexivity. Qed.

Lemma fail_high_keeps_killers_distinct_witness :
  killers_distinct
    (Histories.fail_high Histories.clear killer_Nf3 move_c5 WHITE 1 0 KNIGHT)
    0.
Proof.
  apply (fail_high_keeps_killers_distinct Histories.clear killer_Nf3 move_c5
           WHITE 1 0 KNIGHT 0).
  apply clear_killers_distinct.
Defined.

Lemma fail_high_killers_witness :
  Histories.get_killer
    (Histories.fail_high Histories.clear killer_Nf3 move_c5 WHITE 1 0 KNIGHT)
    0 0 = killer_Nf3.
Proof.
  apply (fail_high_killers Histories.clear killer_Nf3 move_c5 WHITE 1 0
           KNIGHT).
  vm_compute. reflexivity.
Defined.

(* ================================================================== *)
(** * Further properties of the position stack *)
(* ================================================================== *)

(** The inner walk finds the equal hashes at [pos2], [pos2 - 2], ... down
    to [min_pos]. *)
Lemma draw_walk2_spec (p : Position.t) (min_pos : Z) :
  forall (fuel : nat) (pos2 : Z),
    pos2 - min_pos < 2 * Z.of_nat fuel ->
    Position.draw_walk2 fuel p min_pos pos2 = true <->
    exists j, 0 <= j /\ min_pos <= pos2 - 2 * j /\
              m_hash (Position.board p)
              = m_hash (Position.board_at p (pos2 - 2 * j)).
Proof.
  induction fuel as [|fuel IH]; intros pos2 Hfuel;
    cbn [Position.draw_walk2].
  - split; [discriminate|]. intros (j & Hj & Hmin & _). lia.
  - destruct (Z.geb_spec pos2 min_pos) as [Hge|Hlt].
    + destruct (Z.eqb_spec (m_hash (Position.board p))
                           (m_hash (Position.board_at p pos2))) as [Heq|Hneq].
      * split; [intros _|reflexivity]. exists 0.
        rewrite Z.mul_0_r, Z.sub_0_r. split; [lia|]. split; [lia | exact Heq].
      * rewrite IH by lia. split; intros (j & Hj & Hmin & Hh).
        -- exists (j + 1).
           replace (pos2 - 2 * (j + 1)) with (pos2 - 2 - 2 * j) by lia.
           split; [lia|]. split; [lia | exact Hh].
        -- destruct (Z.eq_dec j 0) as [->|Hnz].
           ++ rewrite Z.mul_0_r, Z.sub_0_r in Hh. contradiction.
           ++ exists (j - 1).
              replace (pos2 - 2 - 2 * (j - 1)) with (pos2 - 2 * j) by lia.
              split; [lia|]. split; [lia | exact Hh].
    + split; [discriminate|]. intros (j & Hj & Hmin & _). lia.
Qed.

(** The outer walk without [unique] needs a second equal hash at least
    four plies before the first. *)
Lemma draw_walk1_twice (p : Position.t) (min_pos : Z) :
  forall (fuel : nat) (pos1 : Z),
    pos1 - min_pos < 2 * Z.of_nat fuel ->
    Position.draw_walk1 fuel p false min_pos pos1 = true <->
    exists i j, 0 <= i /\ 0 <= j /\ min_pos <= pos1 - 2 * i - 4 - 2 * j /\
                m_hash (Position.board p)
                = m_hash (Position.board_at p (pos1 - 2 * i)) /\
                m_hash (Position.board p)
                = m_hash (Position.board_at p (pos1 - 2 * i - 4 - 2 * j)).
Proof.
  induction fuel as [|fuel IH]; intros pos1 Hfuel.
  - cbn [Position.draw_walk1]. split; [discriminate|].
    intros (i & j & Hi & Hj & Hmin & _). lia.
  - cbn [Position.draw_walk1].
    assert (Hshift :
              (exists i j, 0 <= i /\ 0 <= j /\
                           min_pos <= pos1 - 2 - 2 * i - 4 - 2 * j /\
                           m_hash (Position.board p)
                           = m_hash (Position.board_at p (pos1 - 2 - 2 * i)) /\
                           m_hash (Position.board p)
                           = m_hash (Position.board_at p
                                       (pos1 - 2 - 2 * i - 4 - 2 * j)))
              <-> (exists i j, 1 <= i /\ 0 <= j /\
                               min_pos <= pos1 - 2 * i - 4 - 2 * j /\
                               m_hash (Position.board p)
                               = m_hash (Position.board_at p (pos1 - 2 * i)) /\
                               m_hash (Position.board p)
                               = m_hash (Position.board_at p
                                           (pos1 - 2 * i - 4 - 2 * j)))).
    { split; intros (i & j & Hi & Hj & Hmin & H1 & H2).
      - exists (i + 1), j.
        replace (pos1 - 2 * (i + 1)) with (pos1 - 2 - 2 * i) by lia.
        split; [lia|]. split; [lia|]. split; [lia|]. split; assumption.
      - exists (i - 1), j.
        replace (pos1 - 2 - 2 * (i - 1)) with (pos1 - 2 * i) by lia.
        split; [lia|]. split; [lia|]. split; [lia|]. split; assumption. }
    destruct (Z.geb_spec pos1 min_pos) as [Hge|Hlt].
    + destruct (Z.eqb_spec (m_hash (Position.board p))
                           (m_hash (Position.board_at p pos1))) as [Heq|Hneq].
      * destruct (Position.draw_walk2 (S fuel) p min_pos (pos1 - 4)) eqn:Hw.
        -- split; [intros _|reflexivity].
           apply draw_walk2_spec in Hw; [|lia].
           destruct Hw as (j & Hj & Hmin & Hh). exists 0, j.
           rewrite Z.mul_0_r, Z.sub_0_r.
           split; [lia|]. split; [lia|]. split; [lia|]. split; assumption.
        -- rewrite IH by lia. rewrite Hshift.
           split; intros (i & j & Hi & Hj & Hmin & H1 & H2).
           ++ exists i, j. split; [lia|]. split; [lia|]. split; [lia|].
              split; assumption.
           ++ destruct (Z.eq_dec i 0) as [->|Hnz].
              ** rewrite Z.mul_0_r, Z.sub_0_r in *.
                 assert (Hw' : Position.draw_walk2 (S fuel) p min_pos
                                 (pos1 - 4) = true).
                 { apply draw_walk2_spec; [lia|]. exists j.
                   split; [lia|]. split; [lia | exact H2]. }
                 congruence.
              ** exists i, j. split; [lia|]. split; [lia|]. split; [lia|].
                 split; assumption.
      * rewrite IH by lia. rewrite Hshift.
        split; intros (i & j & Hi & Hj & Hmin & H1 & H2).
        -- exists i, j. split; [lia|]. split; [lia|]. split; [lia|].
           split; assumption.
        -- destruct (Z.eq_dec i 0) as [->|Hnz].
           ++ rewrite Z.mul_0_r, Z.sub_0_r in H1. contradiction.
           ++ exists i, j. split; [lia|]. split; [lia|]. split; [lia|].
              split; assumption.
    + split; [discriminate|]. intros (i & j & Hi & Hj & Hmin & _). lia.
Qed.

(** X12: with [half_move_clock < 100], [is_draw(false)] returns true
    exactly when the window [n = min(ply + 1, half_move_clock)] has at
    least eight plies and two earlier boards of it repeat the current one:
    one at an even offset of 4 or more plies back and a second one at least
    four plies before the first. *)
Theorem is_draw_twice_spec (p : Position.t) :
  m_half_move_clock (Position.board p) < 100 ->
  Position.is_draw p false = true <->
  8 <= repetition_window_size p /\ two_repetitions_in_window p.
Proof.
  intros Hclock. unfold Position.is_draw, two_repetitions_in_window,
    repetition_window_size. cbv zeta.
  set (len := Z.of_nat (List.length (Position.m_boards p))).
  replace (len - 1 + 1) with len by lia.
  set (n := Z.min len (m_half_move_clock (Position.board p))).
  assert (Hlen : 0 <= len) by (unfold len; lia).
  assert (Hn : n <= len) by (unfold n; lia).
  destruct (Z.geb_spec (m_half_move_clock (Position.board p)) 100); [lia|].
  destruct (Z.geb_spec n 8) as [H8|H8].
  - rewrite draw_walk1_twice by (fold len; lia). split.
    + intros (i & j & Hi & Hj & Hmin & H1 & H2). split; [exact H8|].
      exists (4 + 2 * i), (4 + 2 * i + 4 + 2 * j).
      split; [lia|]. split; [lia|].
      split; [rewrite Z.even_add_mul_2; reflexivity|].
      split.
      { replace (4 + 2 * i + 4 + 2 * j) with (8 + 2 * (i + j)) by lia.
        rewrite Z.even_add_mul_2. reflexivity. }
      split; symmetry.
      * replace (len - 1 - (4 + 2 * i)) with (len - 1 - 4 - 2 * i) by lia.
        exact H1.
      * replace (len - 1 - (4 + 2 * i + 4 + 2 * j))
          with (len - 1 - 4 - 2 * i - 4 - 2 * j) by lia.
        exact H2.
    + intros (_ & k1 & k2 & Hk1 & Hk2 & Hev1 & Hev2 & H1 & H2).
      apply Z.even_spec in Hev1. destruct Hev1 as [a Ha].
      apply Z.even_spec in Hev2. destruct Hev2 as [c Hc].
      exists (a - 2), (c - a - 2).
      split; [lia|]. split; [lia|]. split; [lia|]. split; symmetry.
      * replace (len - 1 - 4 - 2 * (a - 2)) with (len - 1 - k1) by lia.
        exact H1.
      * replace (len - 1 - 4 - 2 * (a - 2) - 4 - 2 * (c - a - 2))
          with (len - 1 - k2) by lia.
        exact H2.
  - split; [discriminate|]. intros [Hwin _]. lia.
Qed.

Lemma draw_walk1_any (p : Position.t) (min_pos : Z) :
  forall (fuel : nat) (pos1 : Z),
    Position.draw_walk1 fuel p false min_pos pos1 = true ->
    Position.draw_walk1 fuel p true min_pos pos1 = true.
Proof.
  induction fuel as [|fuel IH]; intros pos1; cbn [Position.draw_walk1];
    [auto|].
  destruct (pos1 >=? min_pos); [|auto].
  destruct (m_hash (Position.board p) =? m_hash (Position.board_at p pos1));
    [reflexivity | apply IH].
Qed.

(** X13: whenever [is_draw(false)] reports a draw, so does
    [is_draw(true)]: two repetitions, or the fifty-move rule, are a draw
    for the stricter test as well. *)
Theorem is_draw_twice_then_once (p : Position.t) :
  Position.is_draw p false = true -> Position.is_draw p true = true.
Proof.
  unfold Position.is_draw. cbv zeta.
  destruct (m_half_move_clock (Position.board p) >=? 100); [auto|].
  destruct (Z.min _ _ >=? 8); [apply draw_walk1_any | auto].
Qed.

(** X14: [unmake_null_move] after [make_null_move] gives the position
    back: board stack, move stack, stack cursor, ply and extension
    counters. *)
Theorem null_move_unmake (zk : ZobristKeys) (p : Position.t) :
  Position.unmake_null_move (Position.make_null_move zk p) = p.
Proof.
  destruct p as [boards stack pos exts moves red].
  unfold Position.unmake_null_move, Position.make_null_move.
  cbn [Position.m_boards Position.m_stack Position.m_pos
       Position.m_extensions Position.m_moves Position.m_reduced].
  rewrite !removelast_last. f_equal; lia.
Qed.

Lemma is_draw_twice_then_once_witness :
  Position.is_draw triple_dance_position true = true.
Proof.
  apply (is_draw_twice_then_once triple_dance_position).
  vm_compute. reflexivity.
Defined.

Lemma is_draw_twice_spec_witness :
  m_half_move_clock (Position.board long_dance_position) < 100 /\
  (Position.is_draw long_dance_position false = true <->
   8 <= repetition_window_size long_dance_position /\
   two_repetitions_in_window long_dance_position).
Proof.
  assert (H : m_half_move_clock (Position.board long_dance_position) < 100)
    by (vm_compute; reflexivity).
  split; [exact H | exact (is_draw_twice_spec long_dance_position H)].
Defined.

(* ================================================================== *)
(** * Further properties of the staged cursor *)
(* ================================================================== *)

Opaque generate_moves legal pseudo_legal.

Ltac order_norm :=
  unfold MoveOrder.board, Position.move_list in *;
  cbn [MoveOrder.board MoveOrder.m_position MoveOrder.m_ply MoveOrder.m_depth
       MoveOrder.m_hash_move MoveOrder.m_histories MoveOrder.m_prev_move
       MoveOrder.m_quiescence MoveOrder.m_moves MoveOrder.m_stage
       MoveOrder.m_countermove MoveOrder.m_killer MoveOrder.m_curr
       MoveOrder.set_stage MoveOrder.set_moves MoveOrder.set_countermove
       MoveOrder.set_killer MoveOrder.next_stage MoveOrder.stage_index
       Position.move_list app fst snd] in *.

Section Sources.

Variable zk : ZobristKeys.
Variable ev : EvalTables.
Variable sort_desc : (Move -> Z) -> list Move -> list Move.

Local Abbreviation next_move := (MoveOrder.next_move zk ev sort_desc).
Local Abbreviation stage_of :=
  (fun mo => MoveOrder.stage_index (MoveOrder.m_stage mo)).

(** Where a returned move comes from, stage by stage. *)
Lemma stage_round_source (mo : MoveOrder.t) :
  match MoveOrder.stage_round zk ev sort_desc mo with
  | MoveOrder.Return m mo' =>
      same_setting mo mo' /\
      MoveOrder.m_quiescence mo' = MoveOrder.m_quiescence mo /\
      (stage_of mo <= stage_of mo')%nat /\
      (m = MOVE_NULL \/
       (MoveOrder.m_stage mo = MoveOrder.HASH /\ m = MoveOrder.m_hash_move mo) \/
       (m <> MoveOrder.m_hash_move mo /\
        ((MoveOrder.m_stage mo = MoveOrder.CAPTURES /\
          In m (MoveOrder.m_moves mo)) \/ (4 <= stage_of mo)%nat))) /\
      (MoveOrder.m_stage mo' = MoveOrder.CAPTURES ->
       MoveOrder.m_stage mo = MoveOrder.CAPTURES /\
       MoveOrder.m_moves mo' = MoveOrder.m_moves mo) /\
      (MoveOrder.m_quiescence mo = true ->
       Position.in_check (MoveOrder.m_position mo) = false ->
       (stage_of mo <= 3)%nat -> (stage_of mo' <= 3)%nat)
  | MoveOrder.Continue mo' =>
      same_setting mo mo' /\
      MoveOrder.m_quiescence mo' = MoveOrder.m_quiescence mo /\
      stage_of mo' = S (stage_of mo) /\
      (MoveOrder.m_stage mo' = MoveOrder.CAPTURES ->
       MoveOrder.m_moves mo'
       = sort_desc (MoveOrder.capture_score mo') (captures_of zk ev mo)) /\
      (MoveOrder.m_quiescence mo = true ->
       Position.in_check (MoveOrder.m_position mo) = false ->
       (stage_of mo <= 3)%nat -> (stage_of mo' <= 3)%nat)
  end.
Proof.
  destruct mo as [pos ply depth hm hist pm q moves stage cm kl curr].
  unfold MoveOrder.stage_round, captures_of, same_setting.
  order_norm.
  destruct stage; order_norm.
  - (* HASH *)
    destruct (legal zk ev (Position.board pos) hm); order_norm.
    + split; [repeat split|]. split; [reflexivity|]. split; [lia|].
      split; [right; left; split; reflexivity|].
      split; [discriminate | intros; lia].
    + split; [repeat split|]. split; [reflexivity|]. split; [reflexivity|].
      split; [discriminate | intros; lia].
  - (* CAPTURES_INIT *)
    split; [repeat split|]. split; [reflexivity|]. split; [reflexivity|].
    split; [intros _; reflexivity | intros; lia].
  - (* CAPTURES *)
    pose proof (next_kept_spec (fun move => negb (move =? hm))
                  (List.length moves)
                  (MoveOrder.mk pos ply depth hm hist pm q moves
                                MoveOrder.CAPTURES cm kl curr)) as Hk.
    destruct (MoveOrder.next_kept _ _ _) as [[m|] mo']; order_norm.
    + destruct Hk as (-> & Hc & Hin & Hkeep). order_norm.
      apply negb_true_iff, Z.eqb_neq in Hkeep.
      split; [repeat split|]. split; [reflexivity|]. split; [lia|].
      split; [right; right; split; [exact Hkeep | left; split;
                                                   [reflexivity | exact Hin]]|].
      split; [intros _; split; reflexivity | intros; lia].
    + destruct Hk as (-> & Hc). order_norm.
      split; [repeat split|]. split; [reflexivity|]. split; [reflexivity|].
      split; [discriminate | intros; lia].
  - (* CAPTURES_END *)
    destruct (q && negb (Position.in_check pos)) eqn:Hq; order_norm.
    + split; [repeat split|]. split; [reflexivity|]. split; [lia|].
      split; [left; reflexivity|]. split; [discriminate | intros; lia].
    + split; [repeat split|]. split; [reflexivity|]. split; [reflexivity|].
      split; [discriminate|]. intros -> Hc _. rewrite Hc in Hq.
      discriminate Hq.
  - (* COUNTERMOVES *)
    destruct (negb (Histories.countermove hist pm =? hm)
              && legal zk ev (Position.board pos)
                       (Histories.countermove hist pm)) eqn:Hl; order_norm.
    + apply andb_true_iff in Hl. destruct Hl as [Hl _].
      apply negb_true_iff, Z.eqb_neq in Hl.
      split; [repeat split|]. split; [reflexivity|]. split; [lia|].
      split; [right; right; split; [exact Hl | right; lia]|].
      split; [discriminate | intros; lia].
    + split; [repeat split|]. split; [reflexivity|]. split; [reflexivity|].
      split; [discriminate | intros; lia].
  - (* KILLERS *)
    destruct (find _ _) as [k|] eqn:Hf; order_norm.
    + apply find_some in Hf. destruct Hf as [_ Hf].
      unfold MoveOrder.killer_ok in Hf. order_norm.
      apply andb_true_iff in Hf. destruct Hf as [Hf _].
      apply andb_true_iff in Hf. destruct Hf as [Hf _].
      apply negb_true_iff, Z.eqb_neq in Hf.
      split; [repeat split|]. split; [reflexivity|]. split; [lia|].
      split; [right; right; split; [exact Hf | right; lia]|].
      split; [discriminate | intros; lia].
    + split; [repeat split|]. split; [reflexivity|]. split; [reflexivity|].
      split; [discriminate | intros; lia].
  - (* QUIET_INIT *)
    destruct (MoveOrder.threshold_moves _ _ _) as [l' n']. order_norm.
    split; [repeat split|]. split; [reflexivity|]. split; [reflexivity|].
    split; [discriminate | intros; lia].
  - (* QUIET *)
    pose proof (next_kept_spec
                  (fun move => negb (move =? hm) && negb (move =? kl)
                               && negb (move =? cm))
                  (List.length moves)
                  (MoveOrder.mk pos ply depth hm hist pm q moves
                                MoveOrder.QUIET cm kl curr)) as Hk.
    destruct (MoveOrder.next_kept _ _ _) as [[m|] mo']; order_norm.
    + destruct Hk as (-> & Hc & Hin & Hkeep). order_norm.
      apply andb_true_iff in Hkeep. destruct Hkeep as [Hkeep _].
      apply andb_true_iff in Hkeep. destruct Hkeep as [Hkeep _].
      apply negb_true_iff, Z.eqb_neq in Hkeep.
      split; [repeat split|]. split; [reflexivity|]. split; [lia|].
      split; [right; right; split; [exact Hkeep | right; lia]|].
      split; [discriminate | intros; lia].
    + destruct Hk as (-> & Hc). order_norm.
      split; [repeat split|]. split; [reflexivity|]. split; [reflexivity|].
      split; [discriminate | intros; lia].
  - (* NO_MOVES *)
    split; [repeat split|]. split; [reflexivity|]. split; [lia|].
    split; [left; reflexivity|]. split; [discriminate | intros; lia].
Qed.

Lemma same_setting_refl' (a : MoveOrder.t) : same_setting a a.
Proof. repeat split. Qed.

Lemma same_setting_trans' (a b c : MoveOrder.t) :
  same_setting a b -> same_setting b c -> same_setting a c.
Proof.
  unfold same_setting. intros (H1 & H2 & H3 & H4) (K1 & K2 & K3 & K4).
  repeat split; congruence.
Qed.

Lemma hash_round_stage (mo : MoveOrder.t) :
  MoveOrder.m_stage mo = MoveOrder.HASH ->
  match MoveOrder.stage_round zk ev sort_desc mo with
  | MoveOrder.Return _ x | MoveOrder.Continue x => (1 <= stage_of x)%nat
  end.
Proof.
  destruct mo as [pos ply depth hm hist pm q moves stage cm kl curr].
  cbn [MoveOrder.m_stage]. intros ->.
  unfold MoveOrder.stage_round. order_norm.
  destruct (legal zk ev (Position.board pos) hm); order_norm; lia.
Qed.

(** Nine rounds are enough from every cursor. *)
Lemma next_move_rounds_some :
  forall (fuel : nat) (mo : MoveOrder.t),
    (9 <= fuel + stage_of mo)%nat ->
    MoveOrder.next_move_rounds zk ev sort_desc fuel mo <> None.
Proof.
  induction fuel as [|fuel IH]; intros mo Hfuel.
  - destruct (MoveOrder.m_stage mo); cbn in Hfuel; lia.
  - cbn [MoveOrder.next_move_rounds].
    pose proof (stage_round_source mo) as Hr.
    destruct (MoveOrder.stage_round zk ev sort_desc mo) as [m1 mo1|mo1];
      [discriminate|].
    destruct Hr as (_ & _ & R3 & _). apply IH. lia.
Qed.

(** One call: the stage does not go back, and a move that comes after the
    HASH stage is not the hash move. *)
Lemma next_move_rounds_stage :
  forall (fuel : nat) (mo : MoveOrder.t) (m : Move) (mo' : MoveOrder.t),
    MoveOrder.next_move_rounds zk ev sort_desc fuel mo = Some (m, mo') ->
    same_setting mo mo' /\
    (stage_of mo <= stage_of mo')%nat /\
    (m = MOVE_NULL \/ m <> MoveOrder.m_hash_move mo \/
     MoveOrder.m_stage mo = MoveOrder.HASH) /\
    (MoveOrder.m_stage mo = MoveOrder.HASH -> (1 <= stage_of mo')%nat).
Proof.
  induction fuel as [|fuel IH]; intros mo m mo' H;
    cbn [MoveOrder.next_move_rounds] in H; [discriminate H|].
  pose proof (stage_round_source mo) as Hr.
  pose proof (hash_round_stage mo) as Hh.
  destruct (MoveOrder.stage_round zk ev sort_desc mo) as [m1 mo1|mo1].
  - injection H as <- <-.
    destruct Hr as (R1 & _ & R3 & R4 & _).
    split; [exact R1|]. split; [exact R3|]. split; [|exact Hh].
    destruct R4 as [E | [[E _] | [E _]]]; auto.
  - destruct Hr as (R1 & _ & R3 & _).
    destruct (IH mo1 m mo' H) as (K1 & K2 & K3 & _).
    split; [exact (same_setting_trans' _ _ _ R1 K1)|]. split; [lia|].
    destruct R1 as (_ & _ & Eh & _). split.
    + destruct K3 as [E | [E | E]]; [auto | right; left; congruence|].
      exfalso. rewrite E in R3. cbn in R3. lia.
    + intros _. lia.
Qed.

Lemma next_move_stage (mo : MoveOrder.t) :
  same_setting mo (snd (next_move mo)) /\
  (stage_of mo <= stage_of (snd (next_move mo)))%nat /\
  (fst (next_move mo) = MOVE_NULL \/
   fst (next_move mo) <> MoveOrder.m_hash_move mo \/
   MoveOrder.m_stage mo = MoveOrder.HASH) /\
  (MoveOrder.m_stage mo = MoveOrder.HASH ->
   (1 <= stage_of (snd (next_move mo)))%nat).
Proof.
  unfold MoveOrder.next_move.
  pose proof (next_move_rounds_some 9 mo) as Hsome.
  destruct (MoveOrder.next_move_rounds zk ev sort_desc 9 mo) as [[m mo']|]
    eqn:E; cbn [fst snd].
  - exact (next_move_rounds_stage 9 mo m mo' E).
  - exfalso. apply Hsome; [lia | reflexivity].
Qed.

Lemma after_calls_plus (i k : nat) (mo : MoveOrder.t) :
  MoveOrder.after_calls zk ev sort_desc (i + k) mo
  = MoveOrder.after_calls zk ev sort_desc k
      (MoveOrder.after_calls zk ev sort_desc i mo).
Proof.
  revert mo. induction i as [|i IH]; intros mo;
    cbn [MoveOrder.after_calls Nat.add]; [reflexivity | apply IH].
Qed.

Lemma after_calls_stage (k : nat) :
  forall mo,
    same_setting mo (MoveOrder.after_calls zk ev sort_desc k mo) /\
    (stage_of mo
     <= stage_of (MoveOrder.after_calls zk ev sort_desc k mo))%nat.
Proof.
  induction k as [|k IH]; intros mo; cbn [MoveOrder.after_calls].
  - split; [apply same_setting_refl' | lia].
  - destruct (next_move_stage mo) as (H1 & H2 & _).
    destruct (IH (snd (next_move mo))) as (K1 & K2).
    split; [exact (same_setting_trans' _ _ _ H1 K1) | lia].
Qed.

(** X15: the stage of a cursor never goes back: after more calls of
    [next_move] the cursor is in the same or in a later stage. *)
Theorem stages_only_advance (mo : MoveOrder.t) (i j : nat) :
  (i <= j)%nat ->
  (stage_of (MoveOrder.after_calls zk ev sort_desc i mo)
   <= stage_of (MoveOrder.after_calls zk ev sort_desc j mo))%nat.
Proof.
  intros Hij. replace j with (i + (j - i))%nat by lia.
  rewrite after_calls_plus. apply after_calls_stage.
Qed.

(** X16: the hash move comes out of the HASH stage only: on a new cursor
    every call of [next_move] after the first returns [MOVE_NULL] or a move
    other than the hash move, so the hash move is never handed out
    twice. *)
Theorem hash_move_only_first
        (pos : Position.t) (ply depth : Z) (hash_move : Move)
        (histories : Histories.t) (prev_move : Move) (quiescence : bool)
        (j : nat) :
  let mo := MoveOrder.create pos ply depth hash_move histories prev_move
                             quiescence in
  returned zk ev sort_desc mo (S j) = MOVE_NULL \/
  returned zk ev sort_desc mo (S j) <> hash_move.
Proof.
  intros mo. unfold returned. cbn [MoveOrder.after_calls].
  destruct (next_move_stage mo) as (H1 & _ & _ & H4).
  specialize (H4 eq_refl).
  destruct (after_calls_stage j (snd (next_move mo))) as (K1 & K2).
  pose proof (same_setting_trans' _ _ _ H1 K1) as (_ & _ & Eh & _).
  destruct (next_move_stage
              (MoveOrder.after_calls zk ev sort_desc j (snd (next_move mo))))
    as (_ & _ & [E | [E | E]] & _).
  - left. exact E.
  - right. rewrite <- Eh in E. exact E.
  - exfalso. rewrite E in K2. cbn in K2. lia.
Qed.

Hypothesis sort_perm : forall f l, Permutation (sort_desc f l) l.

Lemma rounds_quiescence (mo0 : MoveOrder.t) :
  Position.in_check (MoveOrder.m_position mo0) = false ->
  forall (fuel : nat) (mo : MoveOrder.t) (m : Move) (mo' : MoveOrder.t),
    quiescence_inv zk ev mo0 mo ->
    MoveOrder.next_move_rounds zk ev sort_desc fuel mo = Some (m, mo') ->
    quiescence_inv zk ev mo0 mo' /\
    (m = MOVE_NULL \/ m = MoveOrder.m_hash_move mo0 \/
     In m (captures_of zk ev mo0)).
Proof.
  intros Hcheck.
  induction fuel as [|fuel IH]; intros mo m mo' Hinv H;
    cbn [MoveOrder.next_move_rounds] in H; [discriminate H|].
  destruct Hinv as (I1 & I2 & I3 & I4).
  assert (Hpos : Position.in_check (MoveOrder.m_position mo) = false).
  { destruct I1 as (E & _). rewrite <- E. exact Hcheck. }
  pose proof (stage_round_source mo) as Hr.
  destruct (MoveOrder.stage_round zk ev sort_desc mo) as [m1 mo1|mo1].
  - injection H as <- <-.
    destruct Hr as (R1 & R2 & R3 & R4 & R5 & R6).
    split.
    + split; [exact (same_setting_trans' _ _ _ I1 R1)|].
      split; [congruence|]. split; [apply R6; assumption|].
      intros Hs. destruct (R5 Hs) as [Hs' Em]. rewrite Em. apply I4, Hs'.
    + destruct R4 as [E | [[_ E] | [_ [[Hs Hin] | Hs]]]].
      * left. exact E.
      * right. left. destruct I1 as (_ & _ & Eh & _). congruence.
      * right. right. apply (I4 Hs). exact Hin.
      * lia.
  - destruct Hr as (R1 & R2 & R3 & R4 & R5).
    apply (IH mo1 m mo'); [|exact H].
    split; [exact (same_setting_trans' _ _ _ I1 R1)|].
    split; [congruence|]. split; [apply R5; assumption|].
    intros Hs. rewrite (R4 Hs).
    destruct (same_setting_lists zk ev _ _ I1) as (_ & Ec & _).
    rewrite Ec. intros x Hx.
    apply (Permutation_in _ (sort_perm _ _)) in Hx. exact Hx.
Qed.

Lemma next_move_quiescence (mo0 mo : MoveOrder.t) :
  Position.in_check (MoveOrder.m_position mo0) = false ->
  quiescence_inv zk ev mo0 mo ->
  quiescence_inv zk ev mo0 (snd (next_move mo)) /\
  (fst (next_move mo) = MOVE_NULL \/
   fst (next_move mo) = MoveOrder.m_hash_move mo0 \/
   In (fst (next_move mo)) (captures_of zk ev mo0)).
Proof.
  intros Hcheck Hinv. unfold MoveOrder.next_move.
  destruct (MoveOrder.next_move_rounds zk ev sort_desc 9 mo) as [[m mo']|]
    eqn:E; cbn [fst snd].
  - exact (rounds_quiescence mo0 Hcheck 9 mo m mo' Hinv E).
  - split; [exact Hinv | left; reflexivity].
Qed.

(** X17: a cursor of the quiescence search on a position whose side to
    move is not in check hands out captures only: every call of
    [next_move] returns [MOVE_NULL], the hash move, or one of the captures
    that the generator emits for the position; and it never reaches the
    countermove, killer or quiet stages: after any number of calls its
    stage is [HASH], [CAPTURES_INIT], [CAPTURES] or [CAPTURES_END]. *)
Theorem quiescence_returns_captures
        (pos : Position.t) (ply depth : Z) (hash_move : Move)
        (histories : Histories.t) (prev_move : Move) (j : nat) :
  Position.in_check pos = false ->
  let mo := MoveOrder.create pos ply depth hash_move histories prev_move
                             true in
  (returned zk ev sort_desc mo j = MOVE_NULL \/
   returned zk ev sort_desc mo j = hash_move \/
   In (returned zk ev sort_desc mo j) (captures_of zk ev mo)) /\
  In (MoveOrder.m_stage (MoveOrder.after_calls zk ev sort_desc j mo))
     [MoveOrder.HASH; MoveOrder.CAPTURES_INIT; MoveOrder.CAPTURES;
      MoveOrder.CAPTURES_END].
Proof.
  intros Hcheck mo. unfold returned.
  assert (Hinv : quiescence_inv zk ev mo mo).
  { split; [apply same_setting_refl'|]. split; [reflexivity|].
    split; [cbn; lia | discriminate]. }
  assert (Hall : forall k cur,
             quiescence_inv zk ev mo cur ->
             quiescence_inv zk ev mo
               (MoveOrder.after_calls zk ev sort_desc k cur)).
  { induction k as [|k IH]; intros cur Hc; cbn [MoveOrder.after_calls];
      [exact Hc|].
    apply IH. apply (next_move_quiescence mo cur Hcheck Hc). }
  split.
  - apply (next_move_quiescence mo _ Hcheck (Hall j mo Hinv)).
  - destruct (Hall j mo Hinv) as (_ & _ & Hstage & _).
    destruct (MoveOrder.m_stage
                (MoveOrder.after_calls zk ev sort_desc j mo));
      cbn [MoveOrder.stage_index] in Hstage; cbn [In];
      first [lia | tauto].
Qed.

End Sources.

Transparent generate_moves legal pseudo_legal.

Lemma stages_only_advance_witness :
  (MoveOrder.stage_index
     (MoveOrder.m_stage
        (MoveOrder.after_calls sample_keys sample_eval insertion_sort_desc 0
                               killer_cursor))
   <= MoveOrder.stage_index
        (MoveOrder.m_stage
           (MoveOrder.after_calls sample_keys sample_eval insertion_sort_desc
                                  1 killer_cursor)))%nat.
Proof.
  apply (stages_only_advance sample_keys sample_eval insertion_sort_desc
           killer_cursor 0 1).
  lia.
Defined.

Lemma quiescence_returns_captures_witness :
  (returned sample_keys sample_eval insertion_sort_desc quiescence_cursor 3
   = MOVE_NULL \/
   returned sample_keys sample_eval insertion_sort_desc quiescence_cursor 3
   = quiet_e4 \/
   In (returned sample_keys sample_eval insertion_sort_desc
                quiescence_cursor 3)
      (captures_of sample_keys sample_eval quiescence_cursor)) /\
  In (MoveOrder.m_stage
        (MoveOrder.after_calls sample_keys sample_eval insertion_sort_desc 3
                               quiescence_cursor))
     [MoveOrder.HASH; MoveOrder.CAPTURES_INIT; MoveOrder.CAPTURES;
      MoveOrder.CAPTURES_END].
Proof.
  apply (quiescence_returns_captures sample_keys sample_eval
           insertion_sort_desc insertion_sort_desc_perm
           (Position.create sample_keys sample_eval startpos_fen)
           0 1 quiet_e4 Histories.clear MOVE_NULL 3).
  vm_compute. reflexivity.
Defined.

(* ================================================================== *)
(** * [threshold_moves]: the moves above the threshold come first *)
(* ================================================================== *)

Lemma nth_after_middle {A : Type} (l : list A) (y : A) (r : list A) (k : nat)
      (d : A) :
  (length l < k)%nat ->
  nth k (l ++ y :: r) d = nth (k - length l - 1) r d.
Proof.
  intros Hk. rewrite app_nth2 by lia.
  destruct (k - length l)%nat as [|n] eqn:E; [lia|].
  cbn [nth]. f_equal. lia.
Qed.

(** Swapping the entries at the two marked places. *)
Lemma swap_at_middle (l1 : list Move) (a : Move) (l2 : list Move) (x : Move)
      (l3 : list Move) :
  swap_at (l1 ++ a :: l2 ++ x :: l3) (length l1) (length l1 + S (length l2))
  = l1 ++ x :: l2 ++ a :: l3.
Proof.
  set (l := l1 ++ a :: l2 ++ x :: l3).
  set (j := (length l1 + S (length l2))%nat). set (i := length l1).
  assert (Hlen : length l = (length l1 + S (length l2 + S (length l3)))%nat).
  { unfold l. rewrite length_app. cbn [length]. rewrite length_app.
    cbn [length]. reflexivity. }
  assert (Hi : nth i l MOVE_NULL = a) by (unfold l, i; apply nth_middle).
  assert (Hj : nth j l MOVE_NULL = x).
  { unfold l, j. rewrite nth_after_middle by lia.
    replace (length l1 + S (length l2) - length l1 - 1)%nat
      with (length l2) by lia.
    apply nth_middle. }
  unfold swap_at. cbv zeta. rewrite Hi, Hj.
  set (f := fun k0 : nat => if Nat.eqb k0 i then x
                            else if Nat.eqb k0 j then a
                            else nth k0 l MOVE_NULL).
  apply (nth_ext _ _ MOVE_NULL MOVE_NULL).
  - rewrite length_map, length_seq, Hlen, length_app. cbn [length].
    rewrite length_app. cbn [length]. reflexivity.
  - intros k Hk. rewrite length_map, length_seq in Hk.
    rewrite (nth_indep _ MOVE_NULL (f 0%nat))
      by (rewrite length_map, length_seq; exact Hk).
    rewrite (map_nth f), seq_nth by exact Hk. unfold f. cbn [Nat.add].
    destruct (Nat.eqb_spec k i) as [->|Hki].
    { unfold i. symmetry. apply nth_middle. }
    destruct (Nat.eqb_spec k j) as [->|Hkj].
    { unfold j. rewrite nth_after_middle by lia.
      replace (length l1 + S (length l2) - length l1 - 1)%nat
        with (length l2) by lia.
      symmetry. apply nth_middle. }
    unfold l. unfold i, j in *.
    destruct (Nat.ltb_spec k (length l1)) as [Hlt|Hge].
    { rewrite !app_nth1 by exact Hlt. reflexivity. }
    rewrite (nth_after_middle l1 a), (nth_after_middle l1 x) by lia.
    destruct (Nat.ltb_spec (k - length l1 - 1) (length l2)) as [Hlt2|Hge2].
    { rewrite !app_nth1 by exact Hlt2. reflexivity. }
    rewrite (nth_after_middle l2 x), (nth_after_middle l2 a) by lia.
    reflexivity.
Qed.

Section Threshold.

Variable score : Move -> Z.
Variable threshold : Z.

Local Abbreviation above := (fun m => score m >? threshold).

(** The loop keeps the storage in three runs: the moves above the
    threshold seen so far, in the order they were met; the other moves seen
    so far; and the moves not looked at yet. *)
Lemma threshold_loop_runs :
  forall (rest good bad : list Move),
    Forall (fun m => score m <= threshold) bad ->
    exists bad',
      MoveOrder.threshold_loop score threshold (length rest)
        (length good + length bad) (length good) (good ++ bad ++ rest)
      = (good ++ filter above rest ++ bad', length (good ++ filter above rest))
      /\ Forall (fun m => score m <= threshold) bad'
      /\ Permutation bad' (bad ++ filter (fun m => negb (above m)) rest).
Proof.
  induction rest as [|x rest IH]; intros good bad Hbad.
  - exists bad. cbn [length MoveOrder.threshold_loop filter].
    rewrite !app_nil_r. split; [reflexivity|]. split; [exact Hbad|].
    apply Permutation_refl.
  - cbn [length MoveOrder.threshold_loop filter].
    assert (Hx : nth (length good + length bad) (good ++ bad ++ x :: rest)
                     MOVE_NULL = x).
    { rewrite app_assoc, <- length_app. apply nth_middle. }
    rewrite Hx.
    destruct (score x >? threshold) eqn:Hgood; cbn [negb].
    + (* above the threshold: it goes to the write position *)
      destruct bad as [|a bad].
      * cbn [length app] in *. rewrite Nat.add_0_r, Nat.eqb_refl.
        destruct (IH (good ++ [x]) [] Hbad) as (bad' & E & F & P).
        exists bad'.
        rewrite length_app in E. cbn [length app] in E.
        rewrite Nat.add_0_r, Nat.add_1_r, <- !app_assoc in E.
        cbn [app] in E. rewrite E. split; [reflexivity|].
        split; [exact F | exact P].
      * cbn [length app] in *.
        destruct (Nat.eqb_spec (length good) (length good + S (length bad)));
          [lia|].
        rewrite swap_at_middle.
        assert (Hbad' : Forall (fun m => score m <= threshold) (bad ++ [a])).
        { apply Forall_app. inversion Hbad; subst. split; [assumption|].
          constructor; [assumption | constructor]. }
        destruct (IH (good ++ [x]) (bad ++ [a]) Hbad') as (bad' & E & F & P).
        exists bad'.
        rewrite !length_app in E. cbn [length] in E.
        replace (length good + 1 + (length bad + 1))%nat
          with (S (length good + S (length bad))) in E by lia.
        replace (length good + 1)%nat with (S (length good)) in E by lia.
        rewrite <- !app_assoc in E. cbn [app] in E.
        rewrite <- ?app_assoc in E. cbn [app] in E.
        rewrite E. split.
        { f_equal. rewrite length_app. cbn [length]. lia. }
        split; [exact F|].
        eapply Permutation_trans; [exact P|].
        rewrite <- app_assoc. cbn [app].
        apply Permutation_sym, Permutation_middle.
    + (* not above: it stays where it is *)
      assert (Hle : score x <= threshold).
      { destruct (Z.gtb_spec (score x) threshold); [discriminate | lia]. }
      assert (Hbad' : Forall (fun m => score m <= threshold) (bad ++ [x])).
      { apply Forall_app. split; [exact Hbad|].
        constructor; [exact Hle | constructor]. }
      destruct (IH good (bad ++ [x]) Hbad') as (bad' & E & F & P).
      exists bad'.
      rewrite length_app in E. cbn [length] in E.
      replace (length good + (length bad + 1))%nat
        with (S (length good + length bad)) in E by lia.
      rewrite <- ?app_assoc in E. cbn [app] in E.
      rewrite E. split; [reflexivity|]. split; [exact F|].
      eapply Permutation_trans; [exact P|].
      rewrite <- app_assoc. reflexivity.
Qed.

Lemma filter_split_perm (l : list Move) :
  Permutation (filter above l ++ filter (fun m => negb (above m)) l) l.
Proof.
  induction l as [|x l IH]; cbn [filter app]; [apply perm_nil|].
  destruct (score x >? threshold); cbn [negb app].
  - apply perm_skip. exact IH.
  - apply Permutation_sym. eapply Permutation_trans;
      [|apply Permutation_middle].
    apply perm_skip, Permutation_sym. exact IH.
Qed.

(** X18: [threshold_moves] partitions the storage in place: the list it
    returns - the first entries, up to the returned end - holds exactly the
    moves whose score is above the threshold, in their original order;
    what stays behind it scores at most the threshold; and no move is lost
    or duplicated. *)
Theorem threshold_moves_partition (l : list Move) :
  firstn (snd (MoveOrder.threshold_moves score l threshold))
         (fst (MoveOrder.threshold_moves score l threshold))
  = filter (fun m => score m >? threshold) l /\
  Forall (fun m => score m <= threshold)
         (skipn (snd (MoveOrder.threshold_moves score l threshold))
                (fst (MoveOrder.threshold_moves score l threshold))) /\
  Permutation (fst (MoveOrder.threshold_moves score l threshold)) l.
Proof.
  unfold MoveOrder.threshold_moves.
  destruct (threshold_loop_runs l [] [] (Forall_nil _)) as (bad' & E & F & P).
  cbn [length app Nat.add] in E. rewrite E. cbn [fst snd].
  split.
  { rewrite firstn_app, firstn_all, Nat.sub_diag. cbn [firstn].
    apply app_nil_r. }
  split.
  { rewrite skipn_app, skipn_all, Nat.sub_diag. cbn [skipn app]. exact F. }
  eapply Permutation_trans; [|apply filter_split_perm].
  apply Permutation_app_head. exact P.
Qed.

End Threshold.

(* ================================================================== *)
(** * Piece sets and the least valuable piece *)
(* ================================================================== *)

Transparent all_squares.

(** The squares are listed in increasing order, so the first member found
    is the lowest. *)
Lemma filter_seq_lowest (f : Z -> bool) :
  forall (n start : nat) (r : Z) (rest : list Z),
    filter f (map Z.of_nat (seq start n)) = r :: rest ->
    forall k, In k (seq start n) -> f (Z.of_nat k) = true -> r <= Z.of_nat k.
Proof.
  induction n as [|n IH]; intros start r rest Hf k Hk Hfk;
    cbn [seq map filter] in *; [destruct Hk|].
  destruct (f (Z.of_nat start)) eqn:Hs.
  - injection Hf as <- _. apply in_seq in Hk || idtac.
    destruct Hk as [<-|Hk]; [lia|]. apply in_seq in Hk. lia.
  - destruct Hk as [<-|Hk]; [congruence|].
    apply (IH (S start) r rest Hf k Hk Hfk).
Qed.

Lemma all_squares_lowest (f : Z -> bool) (r : Z) (rest : list Z) :
  filter f all_squares = r :: rest ->
  forall s, 0 <= s < 64 -> f s = true -> r <= s.
Proof.
  unfold all_squares. intros E s Hs Hfs.
  assert (H : r <= Z.of_nat (Z.to_nat s)).
  { apply (filter_seq_lowest f 64 0 r rest E).
    - apply in_seq. lia.
    - rewrite Z2Nat.id by lia. exact Hfs. }
  lia.
Qed.

Opaque all_squares.

Lemma bitscan_forward_lowest (bb : Bitboard) (s : Square) :
  0 <= s < 64 -> Z.testbit bb s = true ->
  0 <= bitscan_forward bb <= s /\ Z.testbit bb (bitscan_forward bb) = true.
Proof.
  intros Hs Hbit.
  assert (Hin : In s (bb_squares bb)) by (apply bb_squares_In; auto).
  assert (Hlow : forall r rest, bb_squares bb = r :: rest -> r <= s).
  { intros r rest E.
    exact (all_squares_lowest (bb_test bb) r rest E s Hs Hbit). }
  unfold bitscan_forward.
  destruct (bb_squares bb) as [|r rest] eqn:E; [destruct Hin|].
  assert (Hr : In r (bb_squares bb)) by (rewrite E; left; reflexivity).
  apply bb_squares_In in Hr. destruct Hr as [Hr1 Hr2].
  split; [|exact Hr2]. split; [lia|]. apply (Hlow r rest). reflexivity.
Qed.

Lemma nonzero_has_bit (bb : Bitboard) :
  bb_bounded bb -> bb <> 0 ->
  exists s, 0 <= s < 64 /\ Z.testbit bb s = true.
Proof.
  intros Hb Hnz. destruct (bb_squares bb) as [|s rest] eqn:E.
  - exfalso. apply Hnz. apply bb_squares_nil; assumption.
  - exists s. apply bb_squares_In. rewrite E. left. reflexivity.
Qed.

Section Sets.

Variable b : Board.
Hypothesis Hp : placed b.
Hypothesis Hc : mailbox_clean b.

(** The squares of the pieces of one type, of either colour. *)
Lemma both_colours_spec (p : PieceType) (s : Square) :
  p <> PIECE_NONE ->
  Z.testbit (Z.lor (get_pieces_tp b WHITE p) (get_pieces_tp b BLACK p)) s
  = valid_square s && PieceType_eqb (get_piece_at b s) p.
Proof.
  intros Hreal. unfold get_pieces_tp, get_piece_at.
  rewrite Z.lor_spec, !Hp by exact Hreal.
  destruct (m_board_pieces b s) as [q t|]; cbn [get_piece_type Piece_eqb].
  - destruct t; cbn [Turn_eqb]; rewrite ?andb_false_r, ?andb_true_r,
      ?orb_false_r, ?orb_false_l; reflexivity.
  - destruct p; try contradiction; rewrite ?andb_false_r; reflexivity.
Qed.

Lemma occupied_real (s : Square) :
  m_board_pieces b s <> NO_PIECE -> get_piece_at b s <> PIECE_NONE.
Proof.
  unfold get_piece_at. intros Hocc Hnone.
  destruct (m_board_pieces b s) as [q t|] eqn:E; [|contradiction].
  cbn [get_piece_type] in Hnone. subst q. apply (Hc s t). exact E.
Qed.

Lemma least_valuable_from_find (bb : Bitboard) (pieces : list PieceType) :
  least_valuable_from b bb pieces
  = match find (fun p => bb_any (Z.land (Z.lor (get_pieces_tp b WHITE p)
                                               (get_pieces_tp b BLACK p)) bb))
               pieces with
    | Some p => bitscan_forward
                  (Z.land (Z.lor (get_pieces_tp b WHITE p)
                                 (get_pieces_tp b BLACK p)) bb)
    | None => SQUARE_NULL
    end.
Proof.
  induction pieces as [|p rest IH]; cbn [least_valuable_from find];
    [reflexivity|].
  destruct (bb_any _); [reflexivity | exact IH].
Qed.

(** The first piece type found is the cheapest one present. *)
Lemma find_first_piece (f : PieceType -> bool) (p q : PieceType) :
  find f piece_types = Some p -> q <> PIECE_NONE -> f q = true ->
  piece_index p <= piece_index q.
Proof.
  cbn [find piece_types]. intros Hf Hq Hfq.
  destruct q; try contradiction; rewrite ?Hfq in Hf;
    repeat match type of Hf with
           | (if ?c then _ else _) = _ => destruct c
           end;
    injection Hf as <-; cbn [piece_index]; lia.
Qed.

Lemma piece_index_inj (p q : PieceType) :
  piece_index p = piece_index q -> p = q.
Proof. destruct p, q; cbn [piece_index]; intros H; congruence || lia. Qed.

(** X19: on a board whose bitboards agree with the mailbox,
    [least_valuable(bb)] returns [SQUARE_NULL] exactly when no square of
    [bb] holds a piece; otherwise it returns a square of [bb] that holds a
    piece of the cheapest type present on [bb] (pawn before knight before
    bishop before rook before queen before king), and among the squares of
    that type the lowest one. *)
Theorem least_valuable_spec (bb : Bitboard) :
  (least_valuable b bb = SQUARE_NULL <->
   forall s, 0 <= s < 64 -> Z.testbit bb s = true ->
             m_board_pieces b s = NO_PIECE) /\
  (least_valuable b bb <> SQUARE_NULL ->
   0 <= least_valuable b bb < 64 /\
   Z.testbit bb (least_valuable b bb) = true /\
   m_board_pieces b (least_valuable b bb) <> NO_PIECE /\
   forall s, 0 <= s < 64 -> Z.testbit bb s = true ->
             m_board_pieces b s <> NO_PIECE ->
             piece_index (get_piece_at b (least_valuable b bb))
             < piece_index (get_piece_at b s) \/
             (get_piece_at b (least_valuable b bb) = get_piece_at b s /\
              least_valuable b bb <= s)).
Proof.
  unfold least_valuable. rewrite least_valuable_from_find.
  set (f := fun p => bb_any (Z.land (Z.lor (get_pieces_tp b WHITE p)
                                           (get_pieces_tp b BLACK p)) bb)).
  assert (Hbit : forall p s, p <> PIECE_NONE ->
            Z.testbit (Z.land (Z.lor (get_pieces_tp b WHITE p)
                                     (get_pieces_tp b BLACK p)) bb) s
            = valid_square s && PieceType_eqb (get_piece_at b s) p
              && Z.testbit bb s).
  { intros p s Hreal. rewrite Z.land_spec, both_colours_spec by exact Hreal.
    reflexivity. }
  assert (Hf : forall s, 0 <= s < 64 -> Z.testbit bb s = true ->
                         m_board_pieces b s <> NO_PIECE ->
                         f (get_piece_at b s) = true).
  { intros s Hs Hbb Hocc. unfold f, bb_any. apply negb_true_iff, Z.eqb_neq.
    intros Hz. pose proof (Hbit (get_piece_at b s) s (occupied_real s Hocc)) as E.
    rewrite Hz, Z.bits_0, Hbb, PieceType_eqb_refl,
      (proj2 (valid_square_iff s) Hs) in E. discriminate E. }
  destruct (find f piece_types) as [p|] eqn:Efind.
  - destruct (find_some _ _ Efind) as [Hin Hfp].
    assert (Hreal : p <> PIECE_NONE).
    { intros ->. cbn in Hin. intuition discriminate. }
    unfold f, bb_any in Hfp. apply negb_true_iff, Z.eqb_neq in Hfp.
    set (X := Z.land (Z.lor (get_pieces_tp b WHITE p)
                            (get_pieces_tp b BLACK p)) bb) in *.
    assert (Hbound : bb_bounded X).
    { intros s Hs. unfold X in Hs. rewrite (Hbit p s Hreal) in Hs.
      apply andb_true_iff in Hs. destruct Hs as [Hs _].
      apply andb_true_iff in Hs. destruct Hs as [Hs _].
      apply valid_square_iff. exact Hs. }
    destruct (nonzero_has_bit X Hbound Hfp) as (s0 & Hs0 & Hbit0).
    destruct (bitscan_forward_lowest X s0 Hs0 Hbit0) as [Hlow Hmember].
    set (r := bitscan_forward X) in *.
    assert (Hr : 0 <= r < 64) by lia.
    unfold X in Hmember. rewrite (Hbit p r Hreal) in Hmember.
    apply andb_true_iff in Hmember. destruct Hmember as [Hm Hbb].
    apply andb_true_iff in Hm. destruct Hm as [_ Hm].
    apply PieceType_eqb_eq in Hm.
    assert (Hocc : m_board_pieces b r <> NO_PIECE).
    { intros E. unfold get_piece_at in Hm. rewrite E in Hm.
      cbn [get_piece_type] in Hm. congruence. }
    split.
    + split; [unfold SQUARE_NULL; lia|].
      intros Hall. exfalso. apply Hocc. apply Hall; assumption.
    + intros _. split; [exact Hr|]. split; [exact Hbb|].
      split; [exact Hocc|]. intros s Hs Hsbb Hsocc. rewrite Hm.
      pose proof (find_first_piece f p (get_piece_at b s) Efind
                    (occupied_real s Hsocc) (Hf s Hs Hsbb Hsocc)) as Hle.
      destruct (Z.eq_dec (piece_index p) (piece_index (get_piece_at b s)))
        as [E|E]; [right | left; lia].
      apply piece_index_inj in E. split; [exact E|].
      assert (HsX : Z.testbit X s = true).
      { unfold X. rewrite (Hbit p s Hreal), <- E, PieceType_eqb_refl, Hsbb,
          (proj2 (valid_square_iff s) Hs). reflexivity. }
      apply (bitscan_forward_lowest X s Hs HsX).
  - split; [|intros H; contradiction].
    split; [|reflexivity]. intros _ s Hs Hsbb.
    destruct (m_board_pieces b s) as [q t|] eqn:E; [|reflexivity].
    exfalso.
    assert (Hocc : m_board_pieces b s <> NO_PIECE) by (rewrite E; discriminate).
    pose proof (Hf s Hs Hsbb Hocc) as Hfq.
    assert (Hin : In (get_piece_at b s) piece_types).
    { pose proof (occupied_real s Hocc) as Hreal.
      destruct (get_piece_at b s); cbn; tauto. }
    rewrite (find_none _ _ Efind _ Hin) in Hfq. discriminate Hfq.
Qed.

(** X20: on a board whose bitboards agree with the mailbox,
    [non_pawn_material()] is the set of squares that hold a knight, bishop,
    rook or queen, [non_pawn_material(turn)] the set of those of one side,
    and [sliders()] the set of squares that hold a bishop, rook or
    queen. *)
Theorem material_sets_spec (s : Square) (turn : Turn) :
  Z.testbit (non_pawn_material b) s
  = valid_square s && is_minor_or_major (get_piece_at b s) /\
  Z.testbit (non_pawn_material_turn b turn) s
  = valid_square s && is_minor_or_major (get_piece_at b s)
    && Piece_eqb (m_board_pieces b s) (Pc (get_piece_at b s) turn) /\
  Z.testbit (sliders b) s = valid_square s && is_slider (get_piece_at b s).
Proof.
  unfold non_pawn_material, non_pawn_material_turn, sliders, get_piece_at.
  pose proof (Hc s) as Hcs.
  split; [|split].
  - rewrite !Z.lor_spec, !Hp by discriminate.
    destruct (m_board_pieces b s) as [[] []|], (valid_square s); reflexivity.
  - destruct turn; rewrite !Z.lor_spec, !Hp by discriminate;
      destruct (m_board_pieces b s) as [[] []|], (valid_square s);
      reflexivity.
  - rewrite !Z.lor_spec, !Hp by discriminate.
    destruct (m_board_pieces b s) as [[] []|], (valid_square s); reflexivity.
Qed.

End Sets.

Lemma startpos_placed : placed startpos.
Proof. apply placed_check_sound. vm_compute. reflexivity. Qed.

Lemma least_valuable_spec_witness :
  least_valuable startpos (Z.ones 64) = SQUARE_NULL <->
  forall s, 0 <= s < 64 -> Z.testbit (Z.ones 64) s = true ->
            m_board_pieces startpos s = NO_PIECE.
Proof.
  apply (least_valuable_spec startpos startpos_placed startpos_mailbox_clean
           (Z.ones 64)).
Defined.

Lemma material_sets_spec_witness :
  Z.testbit (sliders startpos) 0
  = valid_square 0 && is_slider (get_piece_at startpos 0).
Proof.
  apply (material_sets_spec startpos startpos_placed startpos_mailbox_clean
           0 WHITE).
Defined.

(* ================================================================== *)
(** * UCI: moves by their text *)
(* ================================================================== *)

Lemma string_eqb_eq (a b : list ascii) : UCI.string_eqb a b = true <-> a = b.
Proof.
  unfold UCI.string_eqb. destruct (list_eq_dec ascii_dec a b); split;
    congruence.
Qed.

Section Uci.

Variable zk : ZobristKeys.
Variable ev : EvalTables.
Variable to_uci : Move -> list ascii.

Lemma generated_legal (b : Board) (m : Move) :
  In m (generate_moves zk ev b MoveGenType.LEGAL) -> legal zk ev b m = true.
Proof.
  cbn [generate_moves]. intros H. apply filter_In in H. apply H.
Qed.

(** The two outcomes of the search through the legal moves. *)
Lemma move_from_uci_cases (pos : Position.t) (move_str : list ascii) :
  (UCI.move_from_uci zk ev to_uci pos move_str <> MOVE_NULL ->
   legal zk ev (Position.board pos)
         (UCI.move_from_uci zk ev to_uci pos move_str) = true /\
   to_uci (UCI.move_from_uci zk ev to_uci pos move_str) = move_str) /\
  (UCI.move_from_uci zk ev to_uci pos move_str = MOVE_NULL <->
   forall m, In m (Position.generate_moves zk ev pos MoveGenType.LEGAL) ->
             to_uci m <> move_str).
Proof.
  unfold UCI.move_from_uci. cbv zeta.
  destruct (find _ _) as [m|] eqn:E.
  - apply find_some in E. destruct E as [Hin Htext].
    apply string_eqb_eq in Htext.
    pose proof (generated_legal _ _ Hin) as Hl.
    split; [intros _; split; assumption|]. split.
    + intros ->. rewrite legal_null in Hl. discriminate Hl.
    + intros Hall. exfalso. apply (Hall m Hin Htext).
  - split; [intros H; contradiction|].
    split; [|reflexivity]. intros _ m Hin Htext.
    pose proof (find_none _ _ E m Hin) as Hno. cbv beta in Hno.
    apply string_eqb_eq in Htext. congruence.
Qed.

(** X21: [move_from_uci] returns a move that [Board::legal] accepts on the
    current board and whose text is the given string, or else
    [MOVE_NULL]; it returns [MOVE_NULL] exactly when no move that the
    generator lists as legal has that text. *)
Theorem move_from_uci_spec (pos : Position.t) (move_str : list ascii) :
  (UCI.move_from_uci zk ev to_uci pos move_str <> MOVE_NULL ->
   legal zk ev (Position.board pos)
         (UCI.move_from_uci zk ev to_uci pos move_str) = true /\
   to_uci (UCI.move_from_uci zk ev to_uci pos move_str) = move_str) /\
  (UCI.move_from_uci zk ev to_uci pos move_str = MOVE_NULL <->
   forall m, In m (Position.generate_moves zk ev pos MoveGenType.LEGAL) ->
             to_uci m <> move_str).
Proof. exact (move_from_uci_cases pos move_str). Qed.

Lemma board_after_move (pos : Position.t) (m : Move) (extension : bool) :
  Position.board
    (Position.set_init_ply (Position.make_move zk ev pos m extension))
  = make_move zk ev (Position.board pos) m.
Proof.
  unfold Position.board, Position.set_init_ply, Position.make_move.
  cbn [Position.m_boards]. apply last_last.
Qed.

(** X22: the moves of a [position ... moves ...] command are pushed as
    long as each token names a legal move of the position reached so far.
    The moves pushed are, in order, moves whose texts are the first tokens;
    the position that results is the one that [make_move] and
    [set_init_ply] give for these moves, one after the other, each move
    legal on the board it is made on; the loop stops only at the end of
    the tokens or at the first token that is the text of no legal move of
    the position reached; and the final board satisfies the Board
    invariants if the initial board does. *)
Theorem push_moves_legal (tokens : list (list ascii)) :
  forall pos,
    exists moves,
      map to_uci moves = firstn (List.length moves) tokens /\
      UCI.push_moves zk ev to_uci pos tokens
      = fold_left (fun p move =>
                     Position.set_init_ply
                       (Position.make_move zk ev p move false))
                  moves pos /\
      play_moves zk ev (Position.board pos) moves
      = Some (Position.board (UCI.push_moves zk ev to_uci pos tokens)) /\
      (List.length moves = List.length tokens \/
       exists token,
         nth_error tokens (List.length moves) = Some token /\
         forall m,
           In m (Position.generate_moves zk ev
                   (UCI.push_moves zk ev to_uci pos tokens)
                   MoveGenType.LEGAL) ->
           to_uci m <> token) /\
      (board_legal zk ev (Position.board pos) ->
       board_legal zk ev
         (Position.board (UCI.push_moves zk ev to_uci pos tokens))).
Proof.
  induction tokens as [|token rest IH]; intros pos; cbn [UCI.push_moves].
  - exists []. split; [reflexivity|]. split; [reflexivity|].
    split; [reflexivity|]. split; [left; reflexivity | auto].
  - destruct (move_from_uci_cases pos token) as [Hl Hnone].
    destruct (Z.eqb_spec (UCI.move_from_uci zk ev to_uci pos token) MOVE_NULL)
      as [E|E].
    + exists []. split; [reflexivity|]. split; [reflexivity|].
      split; [reflexivity|]. split; [|auto].
      right. exists token. split; [reflexivity|].
      apply Hnone. exact E.
    + destruct (Hl E) as [Hlegal Htext].
      destruct (IH (Position.set_init_ply
                      (Position.make_move zk ev pos
                         (UCI.move_from_uci zk ev to_uci pos token) false)))
        as (moves & Hmap & Hfold & Hplay & Hstop & Hkeep).
      rewrite board_after_move in Hplay, Hkeep.
      exists (UCI.move_from_uci zk ev to_uci pos token :: moves).
      split.
      { cbn [map List.length firstn]. rewrite Htext, Hmap. reflexivity. }
      split; [cbn [fold_left]; exact Hfold|].
      split; [cbn [play_moves]; rewrite Hlegal; exact Hplay|].
      split.
      * destruct Hstop as [Hlen|(t & Hnth & Hno)].
        { left. cbn [List.length]. rewrite Hlen. reflexivity. }
        { right. exists t. split; [exact Hnth | exact Hno]. }
      * intros Hbl. apply Hkeep. apply make_move_legal; assumption.
Qed.

End Uci.

Lemma move_from_uci_spec_witness :
  legal sample_keys sample_eval startpos
        (UCI.move_from_uci sample_keys sample_eval squares_text
           (Position.create sample_keys sample_eval startpos_fen)
           (fen "e2e4"%string)) = true /\
  squares_text
    (UCI.move_from_uci sample_keys sample_eval squares_text
       (Position.create sample_keys sample_eval startpos_fen)
       (fen "e2e4"%string)) = fen "e2e4"%string.
Proof.
  apply (move_from_uci_spec sample_keys sample_eval squares_text
           (Position.create sample_keys sample_eval startpos_fen)
           (fen "e2e4"%string)).
  vm_compute. discriminate.
Defined.

(* ================================================================== *)
(** * FEN: printing a board and reading it back *)
(* ================================================================== *)

Ltac small_cases d :=
  let H := fresh "Hcases" in
  assert (H : d = 0 \/ d = 1 \/ d = 2 \/ d = 3 \/ d = 4 \/ d = 5 \/ d = 6
              \/ d = 7 \/ d = 8 \/ d = 9) by lia;
  repeat (destruct H as [H|H]); subst d.

(** ** Characters *)

Lemma digit_char (d : Z) :
  0 <= d <= 9 ->
  isspace (char_of (48 + d)) = false /\
  isdigit (char_of (48 + d)) = true /\
  code (char_of (48 + d)) - 48 = d.
Proof.
  intros H. small_cases d; vm_compute; repeat split; reflexivity.
Qed.

Lemma file_char (f : Z) :
  0 <= f <= 7 ->
  isspace (char_of (97 + f)) = false /\
  char_eqb (char_of (97 + f)) "-" = false /\
  code (char_of (97 + f)) - 97 = f.
Proof.
  intros H. small_cases f; try lia; vm_compute; repeat split; reflexivity.
Qed.

Lemma rank_char (r : Z) :
  0 <= r <= 7 ->
  isspace (char_of (49 + r)) = false /\ code (char_of (49 + r)) - 49 = r.
Proof.
  intros H. small_cases r; try lia; vm_compute; repeat split; reflexivity.
Qed.

Lemma piece_char (p : PieceType) (t : Turn) :
  p <> PIECE_NONE ->
  isspace (fen_piece_char (Pc p t)) = false /\
  isdigit (fen_piece_char (Pc p t)) = false /\
  char_eqb (fen_piece_char (Pc p t)) "/" = false /\
  fen_piece (fen_piece_char (Pc p t)) = p /\
  (if isupper (fen_piece_char (Pc p t)) then WHITE else BLACK) = t.
Proof.
  intros H. destruct p, t; try congruence; vm_compute; repeat split;
    reflexivity.
Qed.

Lemma show_digit (d : Z) : 0 <= d <= 9 -> show_int d = [char_of (48 + d)].
Proof.
  intros H. small_cases d; vm_compute; reflexivity.
Qed.

(** ** Fields that end at a blank *)

Lemma field_loop_app {S : Type} (body : S -> ascii -> S) (l rest : list ascii) :
  Forall (fun c => isspace c = false) l ->
  forall st,
    field_loop body (l ++ rest) st = field_loop body rest (fold_left body l st).
Proof.
  induction 1 as [|c l Hc _ IH]; intros st; [reflexivity|].
  cbn [app field_loop fold_left]. rewrite Hc. apply IH.
Qed.

Lemma field_loop_end {S : Type} (body : S -> ascii -> S) (rest : list ascii)
      (st : S) :
  field_end rest -> field_loop body rest st = (rest, st).
Proof.
  intros [->|(c & r & -> & Hc)]; [reflexivity|].
  cbn [field_loop]. rewrite Hc. reflexivity.
Qed.

Lemma flat_map_step {A B : Type} (f : A -> list B) (x : A) (l : list A) :
  flat_map f (x :: l) = f x ++ flat_map f l.
Proof. reflexivity. Qed.

Lemma flat_map_none {A B : Type} (f : A -> list B) : flat_map f [] = [].
Proof. reflexivity. Qed.

Lemma fold_left_none {A B : Type} (f : A -> B -> A) (a : A) :
  fold_left f [] a = a.
Proof. reflexivity. Qed.

Lemma fold_left_option {S : Type} (body : S -> ascii -> S) (flag : bool)
      (c : ascii) (st : S) :
  fold_left body (if flag then [c] else []) st
  = if flag then body st c else st.
Proof. destruct flag; reflexivity. Qed.

(** ** Numbers *)

Lemma digits_rev_chars (fuel : nat) :
  forall n, 0 <= n ->
            Forall (fun c => isspace c = false) (digits_rev fuel n).
Proof.
  induction fuel as [|k IH]; intros n Hn; cbn [digits_rev]; [constructor|].
  assert (Hd : 0 <= n mod 10 <= 9)
    by (pose proof (Z.mod_pos_bound n 10); lia).
  destruct (digit_char _ Hd) as (E & _ & _).
  destruct (n <? 10).
  - constructor; [exact E | constructor].
  - constructor; [exact E|]. apply IH. apply Z.div_pos; lia.
Qed.

Lemma digits_rev_value (fuel : nat) :
  forall n, 0 <= n -> n < 2 ^ Z.of_nat fuel ->
            fold_left clock_body (rev (digits_rev fuel n)) 0 = n.
Proof.
  induction fuel as [|k IH]; intros n Hn Hlt.
  - change (2 ^ Z.of_nat 0) with 1 in Hlt. cbn [digits_rev rev fold_left]. lia.
  - cbn [digits_rev].
    assert (Hd : 0 <= n mod 10 <= 9)
      by (pose proof (Z.mod_pos_bound n 10); lia).
    destruct (digit_char _ Hd) as (_ & _ & E).
    destruct (Z.ltb_spec n 10) as [Hsmall|Hbig].
    + cbn [rev app fold_left]. unfold clock_body. rewrite E.
      rewrite Z.mod_small by lia. lia.
    + cbn [rev]. rewrite fold_left_app. cbn [fold_left].
      rewrite IH.
      * unfold clock_body. rewrite E.
        pose proof (Z.div_mod n 10). lia.
      * apply Z.div_pos; lia.
      * rewrite Nat2Z.inj_succ, Z.pow_succ_r in Hlt by lia.
        pose proof (Z.div_mod n 10). lia.
Qed.

(** A number that is not negative is read back as printed. *)
Lemma parse_number (n : Z) (rest : list ascii) :
  0 <= n -> field_end rest ->
  field_loop clock_body (show_int n ++ rest) 0 = (rest, n).
Proof.
  intros Hn Hend. unfold show_int.
  destruct (Z.ltb_spec n 0) as [Hneg|_]; [lia|].
  rewrite field_loop_app
    by (apply Forall_rev, digits_rev_chars; exact Hn).
  rewrite digits_rev_value.
  - apply field_loop_end. exact Hend.
  - exact Hn.
  - destruct (Z.eq_dec n 0) as [->|Hne]; [reflexivity|].
    rewrite Nat2Z.inj_succ, Z2Nat.id by apply Z.log2_nonneg.
    apply Z.log2_spec. lia.
Qed.

(** ** The ep square *)

Lemma square_parts (s : Square) :
  0 <= s < 64 ->
  0 <= file s <= 7 /\ 0 <= rank s <= 7 /\ make_square (rank s) (file s) = s.
Proof.
  intros H. unfold file, rank, make_square.
  assert (E1 : Z.land s 7 = s mod 8)
    by (change 7 with (Z.ones 3); apply Z.land_ones; lia).
  assert (E2 : Z.shiftr s 3 = s / 8)
    by (rewrite Z.shiftr_div_pow2 by lia; reflexivity).
  rewrite E1, E2.
  pose proof (Z.div_mod s 8). pose proof (Z.mod_pos_bound s 8). lia.
Qed.

Lemma parse_ep_square (s : Square) (rest : list ascii) (ep : Square) :
  0 <= s < 64 ->
  parse_ep (get_square s ++ " "%char :: rest) ep = (" "%char :: rest, s).
Proof.
  intros H. destruct (square_parts s H) as (Hf & Hr & E).
  destruct (file_char _ Hf) as (F1 & F2 & F3).
  destruct (rank_char _ Hr) as (R1 & R2).
  unfold get_square. cbn [app parse_ep].
  rewrite F1, F2, R1, F3, R2, E. reflexivity.
Qed.

Lemma parse_ep_field (s : Square) (rest : list ascii) :
  s = SQUARE_NULL \/ 0 <= s < 64 ->
  parse_ep ((if s =? SQUARE_NULL then ["-"%char] else get_square s)
            ++ " "%char :: rest) SQUARE_NULL
  = (" "%char :: rest, s).
Proof.
  intros [->|H].
  - reflexivity.
  - destruct (Z.eqb_spec s SQUARE_NULL) as [->|_].
    + reflexivity.
    + apply parse_ep_square. exact H.
Qed.

(** ** Side to move *)

Lemma parse_turn (t : Turn) (rest : list ascii) :
  field_loop turn_body
    ((match t with WHITE => ["w"; " "] | BLACK => ["b"; " "] end)%char ++ rest)
    WHITE
  = (" "%char :: rest, t).
Proof. destruct t; reflexivity. Qed.

Section FenRoundTrip.

Variable zk : ZobristKeys.
Variable ev : EvalTables.

(** ** The position field *)

Lemma parse_placement_pending (space : Z) (l : list ascii) (sq : Square)
      (b : Board) :
  0 <= space <= 8 ->
  parse_placement zk ev
    ((if negb (space =? 0) then show_int space else []) ++ l) sq b
  = parse_placement zk ev l (sq + space) b.
Proof.
  intros H. destruct (Z.eqb_spec space 0) as [->|Hne]; cbn [negb app].
  - rewrite Z.add_0_r. reflexivity.
  - rewrite show_digit by lia.
    assert (Hd : 0 <= space <= 9) by lia.
    destruct (digit_char space Hd) as (E1 & E2 & E3).
    cbn [app parse_placement]. rewrite E1, E2, E3. reflexivity.
Qed.

Lemma parse_placement_piece (p : PieceType) (t : Turn) (l : list ascii)
      (sq : Square) (b : Board) :
  p <> PIECE_NONE ->
  parse_placement zk ev (fen_piece_char (Pc p t) :: l) sq b
  = parse_placement zk ev l (sq + 1) (set_piece zk ev b p t sq).
Proof.
  intros H. destruct (piece_char p t H) as (E1 & E2 & E3 & E4 & E5).
  cbn [parse_placement]. rewrite E1, E2, E3, E4, E5. reflexivity.
Qed.

Lemma parse_placement_slash (l : list ascii) (sq : Square) (b : Board) :
  parse_placement zk ev ("/"%char :: l) sq b
  = parse_placement zk ev l (sq - 16) b.
Proof. reflexivity. Qed.

Lemma place_square_none (b result : Board) (s : Square) :
  m_board_pieces b s = NO_PIECE -> place_square zk ev b result s = result.
Proof. intros E. unfold place_square. rewrite E. reflexivity. Qed.

Lemma place_square_piece (b result : Board) (s : Square) (p : PieceType)
      (t : Turn) :
  m_board_pieces b s = Pc p t ->
  place_square zk ev b result s = set_piece zk ev result p t s.
Proof. intros E. unfold place_square. rewrite E. reflexivity. Qed.

Lemma rank_inv_step (b : Board) (rank : Z) (acc : list ascii * Z) (k : nat) :
  mailbox_clean b -> (k < 8)%nat ->
  rank_inv zk ev b rank acc k ->
  rank_inv zk ev b rank (fen_rank_step b rank acc (Z.of_nat k)) (S k).
Proof.
  intros Hc Hk [Hs Hrun]. destruct acc as [out space]. cbn [fst snd] in *.
  assert (Hsq : rank_squares rank (S k)
                = rank_squares rank k ++ [make_square rank (Z.of_nat k)]).
  { unfold rank_squares. rewrite seq_S, map_app. reflexivity. }
  unfold fen_rank_step.
  destruct (m_board_pieces b (make_square rank (Z.of_nat k))) as [p t|] eqn:E.
  - assert (Hreal : p <> PIECE_NONE).
    { intros ->. apply (Hc _ _ E). }
    split; cbn [fst snd]; [lia|]. intros l result.
    rewrite <- !app_assoc, Hrun, parse_placement_pending by lia.
    cbn [app]. rewrite parse_placement_piece by exact Hreal.
    rewrite Hsq, fold_left_app. cbn [fold_left].
    rewrite (place_square_piece _ _ _ _ _ E).
    f_equal; [lia|]. f_equal. unfold make_square. lia.
  - split; cbn [fst snd]; [lia|]. intros l result.
    rewrite Hrun, Hsq, fold_left_app. cbn [fold_left].
    rewrite (place_square_none _ _ _ E). f_equal. lia.
Qed.

Lemma rank_inv_fold (b : Board) (rank : Z) :
  mailbox_clean b ->
  forall (n k : nat) (acc : list ascii * Z),
    (k + n <= 8)%nat ->
    rank_inv zk ev b rank acc k ->
    rank_inv zk ev b rank
      (fold_left (fen_rank_step b rank) (map Z.of_nat (seq k n)) acc) (k + n).
Proof.
  intros Hc. induction n as [|n IH]; intros k acc Hk Hinv;
    cbn [seq map fold_left].
  - rewrite Nat.add_0_r. exact Hinv.
  - replace (k + S n)%nat with (S k + n)%nat by lia.
    apply IH; [lia|]. apply rank_inv_step; [exact Hc | lia | exact Hinv].
Qed.

Lemma fen_rank_eq (b : Board) (rank : Z) :
  fen_rank b rank
  = fst (fold_left (fen_rank_step b rank) (map Z.of_nat (seq 0 8)) ([], 0))
    ++ (if negb (snd (fold_left (fen_rank_step b rank)
                                (map Z.of_nat (seq 0 8)) ([], 0)) =? 0)
        then show_int (snd (fold_left (fen_rank_step b rank)
                                      (map Z.of_nat (seq 0 8)) ([], 0)))
        else [])
    ++ [if rank >? 0 then "/" else " "]%char.
Proof.
  unfold fen_rank.
  change (fold_left _ [0; 1; 2; 3; 4; 5; 6; 7] ([], 0))
    with (fold_left (fen_rank_step b rank) (map Z.of_nat (seq 0 8)) ([], 0)).
  destruct (fold_left _ _ _) as [out space]. reflexivity.
Qed.

(** One rank: the characters printed for it set its pieces and leave the
    constructor behind its last file, in front of the separator. *)
Lemma parse_rank (b : Board) (rank : Z) (l : list ascii) (result : Board) :
  mailbox_clean b ->
  parse_placement zk ev (fen_rank b rank ++ l) (rank * 8) result
  = parse_placement zk ev ((if rank >? 0 then "/" else " ")%char :: l)
      (rank * 8 + 8)
      (fold_left (place_square zk ev b) (rank_squares rank 8) result).
Proof.
  intros Hc. rewrite fen_rank_eq.
  assert (H0 : rank_inv zk ev b rank ([], 0) 0).
  { split; cbn [fst snd]; [lia|]. intros l0 r0. cbn [app].
    unfold rank_squares. cbn [seq map fold_left]. f_equal. lia. }
  pose proof (rank_inv_fold b rank Hc 8 0 ([], 0) (Nat.le_refl _) H0) as H.
  cbn [Nat.add] in H.
  destruct (fold_left _ _ _) as [out space]. destruct H as [Hs Hrun].
  cbn [fst snd] in *. rewrite <- !app_assoc, Hrun.
  rewrite parse_placement_pending by lia. cbn [app]. f_equal. lia.
Qed.

Lemma parse_placement_blank (l : list ascii) (sq : Square) (b : Board) :
  parse_placement zk ev (" "%char :: l) sq b = (" "%char :: l, b).
Proof. reflexivity. Qed.

(** A rank above the first one ends at the slash, which takes the
    constructor to the first square of the rank below. *)
Lemma parse_rank_next (b : Board) (rank next : Z) (l : list ascii)
      (result : Board) :
  mailbox_clean b -> 0 < rank -> next = rank - 1 ->
  parse_placement zk ev (fen_rank b rank ++ l) (rank * 8) result
  = parse_placement zk ev l (next * 8)
      (fold_left (place_square zk ev b) (rank_squares rank 8) result).
Proof.
  intros Hc Hrank ->. rewrite parse_rank by exact Hc.
  destruct (Z.gtb_spec rank 0) as [_|Hle]; [|lia].
  rewrite parse_placement_slash. f_equal. lia.
Qed.

(** The first rank ends at the blank, where the loop stops. *)
Lemma parse_rank_last (b : Board) (l : list ascii) (result : Board) :
  mailbox_clean b ->
  parse_placement zk ev (fen_rank b 0 ++ l) (0 * 8) result
  = (" "%char :: l,
     fold_left (place_square zk ev b) (rank_squares 0 8) result).
Proof.
  intros Hc. rewrite parse_rank by exact Hc.
  destruct (Z.gtb_spec 0 0) as [Hlt|_]; [lia|].
  apply parse_placement_blank.
Qed.

Lemma parse_position (b : Board) (rest : list ascii) (result : Board) :
  mailbox_clean b ->
  parse_placement zk ev
    (flat_map (fen_rank b) [7; 6; 5; 4; 3; 2; 1; 0] ++ rest) SQUARE_A8 result
  = (" "%char :: rest, fold_left (place_square zk ev b) fen_order result).
Proof.
  intros Hc. rewrite !flat_map_step, flat_map_none, <- !app_assoc, app_nil_l.
  replace SQUARE_A8 with (7 * 8) by reflexivity.
  rewrite (parse_rank_next b 7 6) by first [exact Hc | lia].
  rewrite (parse_rank_next b 6 5) by first [exact Hc | lia].
  rewrite (parse_rank_next b 5 4) by first [exact Hc | lia].
  rewrite (parse_rank_next b 4 3) by first [exact Hc | lia].
  rewrite (parse_rank_next b 3 2) by first [exact Hc | lia].
  rewrite (parse_rank_next b 2 1) by first [exact Hc | lia].
  rewrite (parse_rank_next b 1 0) by first [exact Hc | lia].
  rewrite parse_rank_last by exact Hc.
  unfold fen_order.
  rewrite !flat_map_step, flat_map_none, !fold_left_app, fold_left_none.
  reflexivity.
Qed.

(** ** The board that the position field gives *)

Lemma place_square_spec (b result : Board) (x : Square) :
  mailbox_clean b -> core ev result -> 0 <= x < 64 ->
  m_board_pieces result x = NO_PIECE ->
  core ev (place_square zk ev b result x) /\
  hash_rest zk (place_square zk ev b result x) = hash_rest zk result /\
  m_board_pieces (place_square zk ev b result x) x = m_board_pieces b x /\
  (forall s, s <> x ->
             m_board_pieces (place_square zk ev b result x) s
             = m_board_pieces result s).
Proof.
  intros Hc Hcore Hx Hempty.
  destruct (m_board_pieces b x) as [p t|] eqn:E.
  - rewrite (place_square_piece _ _ _ _ _ E).
    assert (Hreal : p <> PIECE_NONE).
    { intros ->. apply (Hc _ _ E). }
    destruct (set_piece_core zk ev result p t x Hcore Hx Hempty Hreal)
      as [H1 H2].
    split; [exact H1|]. split; [exact H2|].
    cbn [set_piece m_board_pieces]. unfold upd_mailbox. split.
    + rewrite Z.eqb_refl. reflexivity.
    + intros s Hs. destruct (Z.eqb_spec s x); [contradiction | reflexivity].
  - rewrite (place_square_none _ _ _ E).
    split; [exact Hcore|]. split; [reflexivity|].
    split; [exact Hempty | reflexivity].
Qed.

Lemma place_squares_spec (b : Board) (l : list Square) :
  mailbox_clean b -> NoDup l -> (forall s, In s l -> 0 <= s < 64) ->
  forall result,
    core ev result ->
    (forall s, In s l -> m_board_pieces result s = NO_PIECE) ->
    core ev (fold_left (place_square zk ev b) l result) /\
    hash_rest zk (fold_left (place_square zk ev b) l result)
    = hash_rest zk result /\
    (forall s, In s l ->
               m_board_pieces (fold_left (place_square zk ev b) l result) s
               = m_board_pieces b s) /\
    (forall s, ~ In s l ->
               m_board_pieces (fold_left (place_square zk ev b) l result) s
               = m_board_pieces result s).
Proof.
  intros Hc Hnd. induction Hnd as [|x l Hx Hnd IH];
    intros Hvalid result Hcore Hempty; cbn [fold_left].
  - split; [exact Hcore|]. split; [reflexivity|].
    split; [intros s []|reflexivity].
  - destruct (place_square_spec b result x Hc Hcore
                (Hvalid x (or_introl eq_refl)) (Hempty x (or_introl eq_refl)))
      as (P1 & P2 & P3 & P4).
    assert (Hvalid' : forall s, In s l -> 0 <= s < 64)
      by (intros s Hs; apply Hvalid; right; exact Hs).
    assert (Hempty' : forall s, In s l ->
              m_board_pieces (place_square zk ev b result x) s = NO_PIECE).
    { intros s Hs. rewrite P4; [apply Hempty; right; exact Hs|].
      intros ->. contradiction. }
    destruct (IH Hvalid' _ P1 Hempty') as (I1 & I2 & I3 & I4).
    split; [exact I1|]. split; [congruence|]. split.
    + intros s [<-|Hs]; [|apply I3; exact Hs].
      rewrite I4 by exact Hx. exact P3.
    + intros s Hs. rewrite I4 by (intros Hin; apply Hs; right; exact Hin).
      apply P4. intros ->. apply Hs. left. reflexivity.
Qed.

Lemma distinctb_sound (l : list Z) : distinctb l = true -> NoDup l.
Proof.
  induction l as [|x l IH]; cbn [distinctb]; intros H; [constructor|].
  apply andb_prop in H. destruct H as [H1 H2].
  constructor; [|apply IH; exact H2].
  intros Hin. apply negb_true_iff in H1.
  assert (E : existsb (Z.eqb x) l = true).
  { apply existsb_exists. exists x. split; [exact Hin | apply Z.eqb_refl]. }
  congruence.
Qed.

Lemma fen_order_spec :
  NoDup fen_order /\ forall s, In s fen_order <-> 0 <= s < 64.
Proof.
  split.
  - apply distinctb_sound. vm_compute. reflexivity.
  - intros s. split.
    + intros Hin.
      assert (H : forallb valid_square fen_order = true)
        by (vm_compute; reflexivity).
      rewrite forallb_forall in H. apply valid_square_iff, H, Hin.
    + intros Hs.
      assert (H : forallb (fun x => existsb (Z.eqb x) fen_order) all_squares
                  = true) by (vm_compute; reflexivity).
      rewrite forallb_forall in H.
      specialize (H s (proj2 (in_all_squares s) Hs)).
      apply existsb_exists in H. destruct H as (y & Hy & E).
      apply Z.eqb_eq in E. subst y. exact Hy.
Qed.

Lemma blank_board_core : core ev (blank_board (u8 (Phases_Total ev))).
Proof.
  unfold core, placed, mailbox_clean, placement_mg, placement_eg,
    placement_phase, sum_squares, blank_board.
  cbn [m_pieces m_board_pieces m_psq m_phase piece_mg piece_eg piece_phase].
  split; [|split; [|split]].
  - intros p t s _. rewrite Z.bits_0. cbn [Piece_eqb].
    rewrite andb_false_r. reflexivity.
  - intros s t. discriminate.
  - rewrite (squares_fold_unit Z.add 0) by (intros; lia). reflexivity.
  - rewrite (squares_fold_unit Z.add 0) by (intros; lia).
    rewrite Z.sub_0_r. reflexivity.
Qed.

(** The board read from the position field: the invariants of the
    piece-level primitives hold, the hash holds the terms of the pieces and
    nothing else, and the mailbox is that of the board printed. *)
Lemma position_board (b : Board) :
  mailbox_clean b ->
  let b1 := fold_left (place_square zk ev b) fen_order
                      (blank_board (u8 (Phases_Total ev))) in
  core ev b1 /\ hash_rest zk b1 = 0 /\
  (forall s, 0 <= s < 64 -> m_board_pieces b1 s = m_board_pieces b s) /\
  m_turn b1 = WHITE /\ m_enpassant_square b1 = SQUARE_NULL /\
  m_full_move_clock b1 = 0 /\ m_half_move_clock b1 = 0.
Proof.
  intros Hc b1. destruct fen_order_spec as [Hnd Hin].
  destruct (place_squares_spec b fen_order Hc Hnd
              (fun s H => proj1 (Hin s) H) _ blank_board_core
              (fun s _ => eq_refl)) as (H1 & H2 & H3 & _).
  split; [exact H1|]. split.
  { fold b1 in H2. rewrite H2. unfold hash_rest, placement_hash, xor_squares,
      blank_board. cbn [m_hash m_board_pieces piece_key].
    rewrite (squares_fold_unit Z.lxor 0) by (intros; apply Z.lxor_0_r).
    reflexivity. }
  split; [intros s Hs; apply H3, Hin, Hs|].
  unfold b1. clear. induction fen_order as [|x l IH] using rev_ind.
  - repeat split.
  - rewrite fold_left_app. cbn [fold_left]. unfold place_square at 1 3 5 7.
    destruct (m_board_pieces b x); [|exact IH].
    cbn [set_piece m_turn m_enpassant_square m_full_move_clock
         m_half_move_clock]. exact IH.
Qed.

(** Boards with the same mailbox on the 64 squares have the same piece
    terms. *)
Lemma same_mailbox_terms (b b' : Board) :
  (forall s, 0 <= s < 64 -> m_board_pieces b' s = m_board_pieces b s) ->
  placement_hash zk b' = placement_hash zk b /\
  placement_mg ev b' = placement_mg ev b /\
  placement_eg ev b' = placement_eg ev b /\
  placement_phase ev b' = placement_phase ev b.
Proof.
  intros H.
  unfold placement_hash, placement_mg, placement_eg, placement_phase,
    xor_squares, sum_squares.
  rewrite (squares_fold_ext Z.lxor 0
             (fun s => piece_key zk (m_board_pieces b' s) s)
             (fun s => piece_key zk (m_board_pieces b s) s))
    by (intros s Hs; rewrite H by exact Hs; reflexivity).
  rewrite (squares_fold_ext Z.add 0
             (fun s => piece_mg ev (m_board_pieces b' s) s)
             (fun s => piece_mg ev (m_board_pieces b s) s))
    by (intros s Hs; rewrite H by exact Hs; reflexivity).
  rewrite (squares_fold_ext Z.add 0
             (fun s => piece_eg ev (m_board_pieces b' s) s)
             (fun s => piece_eg ev (m_board_pieces b s) s))
    by (intros s Hs; rewrite H by exact Hs; reflexivity).
  rewrite (squares_fold_ext Z.add 0
             (fun s => piece_phase ev (m_board_pieces b' s))
             (fun s => piece_phase ev (m_board_pieces b s)))
    by (intros s Hs; rewrite H by exact Hs; reflexivity).
  repeat split.
Qed.

(** ** Castling rights *)

Lemma set_castling_new (r : Board) (side : CastleSide) (t : Turn) :
  m_castling_rights r side t = false ->
  set_castling zk true r side t
  = set_hash
      (set_castling_rights r (upd_rights (m_castling_rights r) side t true))
      (Z.lxor (m_hash r) (get_castle_side_turn zk side t)).
Proof. intros E. unfold set_castling. rewrite E. reflexivity. Qed.

(** One letter of the castling field, printed or not. *)
Lemma grant_spec (flag : bool) (r : Board) (side : CastleSide) (t : Turn) :
  m_castling_rights r side t = false ->
  let r' := if flag then set_castling zk true r side t else r in
  same_placement r r' /\ m_turn r' = m_turn r /\ same_clocks r r' /\
  m_hash r'
  = Z.lxor (m_hash r) (if flag then get_castle_side_turn zk side t else 0) /\
  m_castling_rights r' side t = flag /\
  (forall s' t', (s', t') <> (side, t) ->
                 m_castling_rights r' s' t' = m_castling_rights r s' t').
Proof.
  intros E. cbv zeta. destruct flag.
  - rewrite set_castling_new by exact E. board_norm. unfold upd_rights.
    split; [repeat split|]. split; [reflexivity|].
    split; [repeat split|]. split; [reflexivity|]. split.
    + destruct side, t; reflexivity.
    + intros s' t' Hne.
      destruct s', side, t', t; cbn [CastleSide_eqb Turn_eqb andb];
        try reflexivity; exfalso; apply Hne; reflexivity.
  - split; [apply same_placement_refl|]. split; [reflexivity|].
    split; [apply same_clocks_refl|]. split; [|split; [exact E|reflexivity]].
    rewrite Z.lxor_0_r. reflexivity.
Qed.

Lemma castle_body_char (r : Board) (side : CastleSide) (t : Turn) :
  side <> NO_SIDE ->
  castle_body zk r (fen_castle_side_char side t)
  = set_castling zk true r side t.
Proof. intros H. destruct side, t; try congruence; reflexivity. Qed.

Lemma rights_text_chars (b : Board) :
  Forall (fun c => isspace c = false) (rights_text b).
Proof.
  unfold rights_text. cbn [flat_map turns castle_sides].
  destruct (m_castling_rights b KINGSIDE WHITE),
           (m_castling_rights b QUEENSIDE WHITE),
           (m_castling_rights b KINGSIDE BLACK),
           (m_castling_rights b QUEENSIDE BLACK);
    cbn [app]; repeat constructor.
Qed.

Lemma rights_text_fold (b r : Board) :
  fold_left (castle_body zk) (rights_text b) r
  = (let r1 := if m_castling_rights b KINGSIDE WHITE
               then set_castling zk true r KINGSIDE WHITE else r in
     let r2 := if m_castling_rights b QUEENSIDE WHITE
               then set_castling zk true r1 QUEENSIDE WHITE else r1 in
     let r3 := if m_castling_rights b KINGSIDE BLACK
               then set_castling zk true r2 KINGSIDE BLACK else r2 in
     if m_castling_rights b QUEENSIDE BLACK
     then set_castling zk true r3 QUEENSIDE BLACK else r3).
Proof.
  unfold rights_text. cbn [flat_map turns castle_sides]. cbv zeta.
  rewrite !app_nil_r, !fold_left_app, !fold_left_option.
  rewrite !castle_body_char by discriminate. reflexivity.
Qed.

Lemma castle_field_end (found : bool) (rest : list ascii) (r : Board) :
  field_loop (castle_body zk)
    ((if found then [" "] else ["-"; " "])%char ++ rest) r
  = (" "%char :: rest, r).
Proof. destruct found; reflexivity. Qed.

(** The castling field: the letters printed give back the four rights,
    and each right granted XORs its term into the hash. *)
Lemma parse_rights (b r : Board) (rest : list ascii) :
  (forall side t, m_castling_rights r side t = false) ->
  exists r',
    field_loop (castle_body zk)
      (rights_text b
       ++ (if negb (Nat.eqb (List.length (rights_text b)) 0)
           then [" "] else ["-"; " "])%char ++ rest) r
    = (" "%char :: rest, r') /\
    same_placement r r' /\ m_turn r' = m_turn r /\ same_clocks r r' /\
    m_hash r'
    = Z.lxor (m_hash r)
        (Z.lxor (Z.lxor (Z.lxor
           (right_term zk (m_castling_rights b) KINGSIDE WHITE)
           (right_term zk (m_castling_rights b) KINGSIDE BLACK))
           (right_term zk (m_castling_rights b) QUEENSIDE WHITE))
           (right_term zk (m_castling_rights b) QUEENSIDE BLACK)) /\
    (forall side t, side <> NO_SIDE ->
                    m_castling_rights r' side t = m_castling_rights b side t).
Proof.
  intros Hno.
  rewrite (field_loop_app _ _ _ (rights_text_chars b)).
  rewrite castle_field_end, rights_text_fold. cbv zeta.
  set (f1 := m_castling_rights b KINGSIDE WHITE).
  set (f2 := m_castling_rights b QUEENSIDE WHITE).
  set (f3 := m_castling_rights b KINGSIDE BLACK).
  set (f4 := m_castling_rights b QUEENSIDE BLACK).
  pose proof (grant_spec f1 r KINGSIDE WHITE (Hno _ _)) as G1.
  cbv zeta in G1. destruct G1 as (P1 & T1 & C1 & H1 & R1 & O1).
  set (r1 := if f1 then set_castling zk true r KINGSIDE WHITE else r) in *.
  assert (N2 : m_castling_rights r1 QUEENSIDE WHITE = false)
    by (rewrite O1 by discriminate; apply Hno).
  pose proof (grant_spec f2 r1 QUEENSIDE WHITE N2) as G2.
  cbv zeta in G2. destruct G2 as (P2 & T2 & C2 & H2 & R2 & O2).
  set (r2 := if f2 then set_castling zk true r1 QUEENSIDE WHITE else r1) in *.
  assert (N3 : m_castling_rights r2 KINGSIDE BLACK = false)
    by (rewrite O2, O1 by discriminate; apply Hno).
  pose proof (grant_spec f3 r2 KINGSIDE BLACK N3) as G3.
  cbv zeta in G3. destruct G3 as (P3 & T3 & C3 & H3 & R3 & O3).
  set (r3 := if f3 then set_castling zk true r2 KINGSIDE BLACK else r2) in *.
  assert (N4 : m_castling_rights r3 QUEENSIDE BLACK = false)
    by (rewrite O3, O2, O1 by discriminate; apply Hno).
  pose proof (grant_spec f4 r3 QUEENSIDE BLACK N4) as G4.
  cbv zeta in G4. destruct G4 as (P4 & T4 & C4 & H4 & R4 & O4).
  set (r4 := if f4 then set_castling zk true r3 QUEENSIDE BLACK else r3) in *.
  exists r4. split; [reflexivity|].
  split.
  { exact (same_placement_trans _ _ _
             (same_placement_trans _ _ _
                (same_placement_trans _ _ _ P1 P2) P3) P4). }
  split; [congruence|]. split.
  { exact (same_clocks_trans _ _ _
             (same_clocks_trans _ _ _
                (same_clocks_trans _ _ _ C1 C2) C3) C4). }
  split.
  { rewrite H4, H3, H2, H1. unfold right_term. fold f1 f2 f3 f4.
    xor_solve. }
  intros side t Hside.
  destruct side, t; try congruence.
  - rewrite O4, O3, O2 by discriminate. exact R1.
  - rewrite O4 by discriminate. exact R3.
  - rewrite O4, O3 by discriminate. exact R2.
  - exact R4.
Qed.

(** ** The constructor, stage by stage *)

Lemma Board_of_fen_fields (fen c1 c2 c3 c4 c5 c6 : list ascii)
      (b1 b3 : Board) (turn : Turn) (ep hmc fmc : Z) :
  parse_placement zk ev fen SQUARE_A8 (blank_board (u8 (Phases_Total ev)))
  = (c1, b1) ->
  field_loop turn_body (tl c1) WHITE = (c2, turn) ->
  field_loop (castle_body zk) (tl c2)
    (set_castling_rights (set_turn b1 turn) (fun _ _ => false)) = (c3, b3) ->
  parse_ep (tl c3) SQUARE_NULL = (c4, ep) ->
  field_loop clock_body (tl c4) 0 = (c5, hmc) ->
  field_loop clock_body (tl c5) 0 = (c6, fmc) ->
  Board_of_fen zk ev fen
  = (let b := set_full_move_clock
                (set_half_move_clock (set_enpassant b3 ep) hmc)
                (Z.max fmc 1) in
     let b := if Turn_eqb (m_turn b) BLACK
              then set_hash b (Z.lxor (m_hash b) (get_black_move zk)) else b in
     let b := if negb (m_enpassant_square b =? SQUARE_NULL)
              then set_hash b
                     (Z.lxor (m_hash b)
                        (get_ep_file zk (file (m_enpassant_square b))))
              else b in
     update_checkers b).
Proof.
  unfold turn_body, castle_body, clock_body. intros E1 E2 E3 E4 E5 E6.
  unfold Board_of_fen. cbv zeta.
  rewrite E1, E2, E3, E4, E5, E6. reflexivity.
Qed.

Lemma to_fen_shape (b : Board) :
  to_fen b
  = flat_map (fen_rank b) [7; 6; 5; 4; 3; 2; 1; 0]
    ++ (match m_turn b with
        | WHITE => ["w"; " "] | BLACK => ["b"; " "]
        end)%char
    ++ rights_text b
    ++ (if negb (Nat.eqb (List.length (rights_text b)) 0)
        then [" "] else ["-"; " "])%char
    ++ (if m_enpassant_square b =? SQUARE_NULL then ["-"%char]
        else get_square (m_enpassant_square b))
    ++ " "%char :: show_int (m_half_move_clock b)
    ++ " "%char :: show_int (m_full_move_clock b).
Proof.
  unfold to_fen, rights_text. cbv zeta. rewrite <- !app_assoc. reflexivity.
Qed.

(** ** The round trip *)

Lemma hash_rest_zero (x : Board) :
  hash_rest zk x = 0 -> m_hash x = placement_hash zk x.
Proof. unfold hash_rest. apply Z.lxor_eq. Qed.

Lemma hash_gap_zero (x : Board) :
  hash_gap zk x = 0 ->
  m_hash x
  = Z.lxor (placement_hash zk x)
      (state_terms zk (m_turn x) (m_enpassant_square x)
                   (m_castling_rights x)).
Proof.
  unfold hash_gap, hash_rest. intros H. apply Z.lxor_eq in H.
  rewrite <- H. xor_solve.
Qed.

Lemma tl_step {A : Type} (x : A) (l : list A) : tl (x :: l) = l.
Proof. reflexivity. Qed.

(** The six fields of the FEN of a board, as the constructor reads them. *)
Lemma fen_stages (b : Board) :
  mailbox_clean b ->
  m_enpassant_square b = SQUARE_NULL \/ 0 <= m_enpassant_square b < 64 ->
  0 <= m_half_move_clock b -> 0 <= m_full_move_clock b ->
  forall b1,
    b1 = fold_left (place_square zk ev b) fen_order
                   (blank_board (u8 (Phases_Total ev))) ->
    exists b3,
      Board_of_fen zk ev (to_fen b)
      = (let r := set_full_move_clock
                    (set_half_move_clock
                       (set_enpassant b3 (m_enpassant_square b))
                       (m_half_move_clock b))
                    (Z.max (m_full_move_clock b) 1) in
         let r := if Turn_eqb (m_turn r) BLACK
                  then set_hash r (Z.lxor (m_hash r) (get_black_move zk))
                  else r in
         let r := if negb (m_enpassant_square r =? SQUARE_NULL)
                  then set_hash r
                         (Z.lxor (m_hash r)
                            (get_ep_file zk (file (m_enpassant_square r))))
                  else r in
         update_checkers r) /\
      same_placement b1 b3 /\ m_turn b3 = m_turn b /\
      m_hash b3
      = Z.lxor (m_hash b1)
          (Z.lxor (Z.lxor (Z.lxor
             (right_term zk (m_castling_rights b) KINGSIDE WHITE)
             (right_term zk (m_castling_rights b) KINGSIDE BLACK))
             (right_term zk (m_castling_rights b) QUEENSIDE WHITE))
             (right_term zk (m_castling_rights b) QUEENSIDE BLACK)) /\
      (forall side t, side <> NO_SIDE ->
                      m_castling_rights b3 side t = m_castling_rights b side t).
Proof.
  intros Hc Hep Hh Hf b1 Eb1.
  destruct (parse_rights b
              (set_castling_rights (set_turn b1 (m_turn b)) (fun _ _ => false))
              ((if m_enpassant_square b =? SQUARE_NULL then ["-"%char]
                else get_square (m_enpassant_square b))
               ++ " "%char :: show_int (m_half_move_clock b)
               ++ " "%char :: show_int (m_full_move_clock b))
              (fun _ _ => eq_refl))
    as (b3 & E3 & P3 & T3 & _ & H3 & R3).
  exists b3. split; [|split; [exact P3|split; [exact T3|split;
                                                 [exact H3 | exact R3]]]].
  eapply (Board_of_fen_fields (to_fen b) _ _ _ _ _ _ b1 b3).
  - rewrite to_fen_shape, parse_position by exact Hc.
    rewrite <- Eb1. reflexivity.
  - rewrite tl_step. apply parse_turn.
  - rewrite tl_step. exact E3.
  - rewrite tl_step. apply parse_ep_field. exact Hep.
  - rewrite tl_step. apply parse_number; [exact Hh|].
    right. exists " "%char, (show_int (m_full_move_clock b)).
    split; reflexivity.
  - rewrite tl_step.
    rewrite <- (app_nil_r (show_int (m_full_move_clock b))).
    apply parse_number; [exact Hf | left; reflexivity].
Qed.

(** What the constructor makes of the FEN of a board: the fields of the
    board that was printed. *)
Lemma fen_read_back (b : Board) :
  board_legal zk ev b ->
  0 <= m_half_move_clock b -> 0 <= m_full_move_clock b ->
  let r := Board_of_fen zk ev (to_fen b) in
  m_hash r = m_hash b /\
  (forall p t, p <> PIECE_NONE -> m_pieces r p t = m_pieces b p t) /\
  (forall s, 0 <= s < 64 -> m_board_pieces r s = m_board_pieces b s) /\
  m_turn r = m_turn b /\
  (forall side t, side <> NO_SIDE ->
                  m_castling_rights r side t = m_castling_rights b side t) /\
  m_enpassant_square r = m_enpassant_square b /\
  m_half_move_clock r = m_half_move_clock b /\
  m_full_move_clock r = Z.max (m_full_move_clock b) 1 /\
  m_psq r = m_psq b /\ m_phase r = m_phase b /\
  core ev r.
Proof.
  intros Hl Hh Hf.
  destruct (board_legal_core zk ev b Hl) as [(Hp & Hc & Epsq & Eph) Hgap].
  assert (Hep : m_enpassant_square b = SQUARE_NULL
                \/ 0 <= m_enpassant_square b < 64).
  { destruct (legal_ep _ _ _ Hl) as [E|(V & _)]; [left; exact E|].
    right. apply valid_square_iff. exact V. }
  pose proof (position_board b Hc) as Hb1. cbv zeta in Hb1.
  remember (fold_left (place_square zk ev b) fen_order
                      (blank_board (u8 (Phases_Total ev)))) as b1 eqn:Eb1.
  destruct Hb1 as (C1 & G1 & M1 & _).
  destruct (fen_stages b Hc Hep Hh Hf b1 Eb1) as (b3 & E & P3 & T3 & H3 & R3).
  cbv zeta. rewrite E. clear E Eb1.
  destruct P3 as (P3a & P3b & P3c & P3d).
  board_norm.
  destruct (same_mailbox_terms b b1 M1) as (S1 & S2 & S3 & S4).
  destruct C1 as (Hp1 & Hc1 & Epsq1 & Eph1).
  assert (Hhash1 : m_hash b1 = placement_hash zk b).
  { rewrite <- S1. apply hash_rest_zero. exact G1. }
  pose proof (hash_gap_zero b Hgap) as Hhash.
  assert (Hpieces : forall p t, p <> PIECE_NONE ->
                                m_pieces b1 p t = m_pieces b p t).
  { intros p t Hreal. apply Z.bits_inj'. intros n _.
    rewrite (Hp1 p t n Hreal), (Hp p t n Hreal).
    destruct (valid_square n) eqn:V; [|reflexivity].
    rewrite M1 by (apply valid_square_iff; exact V). reflexivity. }
  set (r := update_checkers _).
  assert (F1 : m_pieces r = m_pieces b1).
  { unfold r, update_checkers.
    destruct (Turn_eqb _ _), (negb _); board_norm; exact P3a. }
  assert (F2 : m_board_pieces r = m_board_pieces b1).
  { unfold r, update_checkers.
    destruct (Turn_eqb _ _), (negb _); board_norm; exact P3b. }
  assert (F3 : m_psq r = m_psq b1).
  { unfold r, update_checkers.
    destruct (Turn_eqb _ _), (negb _); board_norm; exact P3c. }
  assert (F4 : m_phase r = m_phase b1).
  { unfold r, update_checkers.
    destruct (Turn_eqb _ _), (negb _); board_norm; exact P3d. }
  assert (F5 : m_turn r = m_turn b).
  { unfold r, update_checkers.
    destruct (Turn_eqb _ _), (negb _); board_norm; exact T3. }
  assert (F6 : m_castling_rights r = m_castling_rights b3).
  { unfold r, update_checkers.
    destruct (Turn_eqb _ _), (negb _); board_norm; reflexivity. }
  assert (F7 : m_enpassant_square r = m_enpassant_square b).
  { unfold r, update_checkers.
    destruct (Turn_eqb _ _), (negb _); board_norm; reflexivity. }
  assert (F8 : m_half_move_clock r = m_half_move_clock b).
  { unfold r, update_checkers.
    destruct (Turn_eqb _ _), (negb _); board_norm; reflexivity. }
  assert (F9 : m_full_move_clock r = Z.max (m_full_move_clock b) 1).
  { unfold r, update_checkers.
    destruct (Turn_eqb _ _), (negb _); board_norm; reflexivity. }
  assert (F0 : m_hash r = m_hash b).
  { unfold r, update_checkers. board_norm. rewrite T3.
    rewrite Hhash. unfold state_terms, ep_term.
    destruct (Turn_eqb (m_turn b) BLACK); board_norm;
      destruct (negb (m_enpassant_square b =? SQUARE_NULL)); board_norm;
      rewrite H3, Hhash1; xor_solve. }
  split; [exact F0|].
  split; [intros p t Hreal; rewrite F1; apply Hpieces; exact Hreal|].
  split; [intros s Hs; rewrite F2; apply M1; exact Hs|].
  split; [exact F5|].
  split; [intros side t Hside; rewrite F6; apply R3; exact Hside|].
  split; [exact F7|]. split; [exact F8|]. split; [exact F9|].
  split; [rewrite F3, Epsq1, Epsq, S2, S3; reflexivity|].
  split; [rewrite F4, Eph1, Eph, S4; reflexivity|].
  apply (core_frame ev b1 r F1 F2 F3 F4).
  repeat split; assumption.
Qed.

Lemma Board_eq_intro (a b : Board) :
  m_hash a = m_hash b -> m_turn a = m_turn b ->
  m_enpassant_square a = m_enpassant_square b ->
  (forall side t, side <> NO_SIDE ->
                  m_castling_rights a side t = m_castling_rights b side t) ->
  (forall p t, p <> PIECE_NONE -> m_pieces a p t = m_pieces b p t) ->
  Board_eq a b = true.
Proof.
  intros H1 H2 H3 H4 H5. unfold Board_eq.
  rewrite H1, H2, H3, !Z.eqb_refl, Turn_eqb_refl. cbn [negb orb].
  cbn [forallb castle_sides turns piece_types].
  rewrite !H4 by discriminate. rewrite !H5 by discriminate.
  rewrite !Z.eqb_refl, !Bool.eqb_reflx. reflexivity.
Qed.

Lemma update_checkers_correct (x : Board) :
  checkers_correct (update_checkers x).
Proof. reflexivity. Qed.

(** The constructor ends with [update_checkers], whatever the string. *)
Lemma Board_of_fen_checkers (fen : list ascii) :
  checkers_correct (Board_of_fen zk ev fen).
Proof.
  unfold Board_of_fen. cbv zeta.
  repeat match goal with
         | |- context [match ?x with pair _ _ => _ end] => destruct x
         end.
  apply update_checkers_correct.
Qed.

Lemma rook_home_range (side : CastleSide) (t : Turn) :
  0 <= rook_home side t < 64.
Proof. destruct side, t; cbv; split; congruence. Qed.

(** X23: reading the FEN of a board gives the board back.  For a board [b]
    that satisfies the Board invariants and whose clocks are not negative,
    [Board(b.to_fen())] equals [b] under [operator==] and has the hash, the
    twelve bitboards, the mailbox, the side to move, the four castling
    rights, the ep square, the half-move clock, the scores and the phase
    of [b]; its full-move clock is that of [b], but at least 1. *)
Theorem fen_round_trip (b : Board) :
  board_legal zk ev b ->
  0 <= m_half_move_clock b -> 0 <= m_full_move_clock b ->
  let r := Board_of_fen zk ev (to_fen b) in
  Board_eq r b = true /\
  m_hash r = m_hash b /\
  (forall p t, p <> PIECE_NONE -> m_pieces r p t = m_pieces b p t) /\
  (forall s, 0 <= s < 64 -> m_board_pieces r s = m_board_pieces b s) /\
  m_turn r = m_turn b /\
  (forall side t, side <> NO_SIDE ->
                  m_castling_rights r side t = m_castling_rights b side t) /\
  m_enpassant_square r = m_enpassant_square b /\
  m_half_move_clock r = m_half_move_clock b /\
  m_full_move_clock r = Z.max (m_full_move_clock b) 1 /\
  m_psq r = m_psq b /\ m_phase r = m_phase b.
Proof.
  intros Hl Hh Hf.
  pose proof (fen_read_back b Hl Hh Hf) as H. cbv zeta in H |- *.
  destruct H as (H1 & H2 & H3 & H4 & H5 & H6 & H7 & H8 & H9 & H10 & _).
  split; [apply Board_eq_intro; assumption|].
  repeat (split; [assumption|]). assumption.
Qed.

(** C3: for every legal board [b] - a board that satisfies the Board
    invariants, with the clocks that the constructor and [make_move]
    produce: [int] values, the half-move clock not negative and the
    full-move clock at least 1 - parsing the FEN that [to_fen] emits gives
    [b] back: [Board(b.to_fen()) == b], and the hash, the piece bitboards,
    the castling rights, the ep square, the half-move clock and the
    full-move clock are those of [b]. *)
Theorem to_fen_round_trip (b : Board) :
  board_legal zk ev b ->
  0 <= m_half_move_clock b <= INT_MAX ->
  1 <= m_full_move_clock b <= INT_MAX ->
  Board_eq (Board_of_fen zk ev (to_fen b)) b = true /\
  m_hash (Board_of_fen zk ev (to_fen b)) = m_hash b /\
  (forall p t, p <> PIECE_NONE ->
               m_pieces (Board_of_fen zk ev (to_fen b)) p t = m_pieces b p t) /\
  (forall side t, side <> NO_SIDE ->
                  m_castling_rights (Board_of_fen zk ev (to_fen b)) side t
                  = m_castling_rights b side t) /\
  m_enpassant_square (Board_of_fen zk ev (to_fen b)) = m_enpassant_square b /\
  m_half_move_clock (Board_of_fen zk ev (to_fen b)) = m_half_move_clock b /\
  m_full_move_clock (Board_of_fen zk ev (to_fen b)) = m_full_move_clock b.
Proof.
  intros Hl [Hh _] [Hf _].
  assert (Hf0 : 0 <= m_full_move_clock b) by lia.
  pose proof (fen_read_back b Hl Hh Hf0) as H. cbv zeta in H.
  destruct H as (H1 & H2 & H3 & H4 & H5 & H6 & H7 & H8 & _).
  split; [apply Board_eq_intro; assumption|].
  split; [exact H1|]. split; [exact H2|]. split; [exact H5|].
  split; [exact H6|]. split; [exact H7|].
  rewrite H8. apply Z.max_l. exact Hf.
Qed.

(** X24: the board read from the FEN of a board that satisfies the Board
    invariants satisfies them too - bitboards and mailbox agree, the hash
    is the from-scratch hash, scores and phase equal their recomputation,
    the ep square and the castling rights fit the pieces - and its checkers
    are those of the position. *)
Theorem fen_board_legal (b : Board) :
  board_legal zk ev b ->
  0 <= m_half_move_clock b -> 0 <= m_full_move_clock b ->
  board_legal zk ev (Board_of_fen zk ev (to_fen b)) /\
  m_hash (Board_of_fen zk ev (to_fen b))
  = generate_hash zk (Board_of_fen zk ev (to_fen b)) /\
  checkers_correct (Board_of_fen zk ev (to_fen b)).
Proof.
  intros Hl Hh Hf.
  pose proof (fen_read_back b Hl Hh Hf) as H. cbv zeta in H.
  destruct H as (H1 & H2 & H3 & H4 & H5 & H6 & H7 & H8 & H9 & H10 & Hcore).
  destruct (board_legal_core zk ev b Hl) as [_ Hgap].
  pose proof (hash_gap_zero b Hgap) as Hhash.
  destruct (same_mailbox_terms b _ H3) as (S1 & _).
  assert (Hlegal : board_legal zk ev (Board_of_fen zk ev (to_fen b))).
  { apply core_board_legal.
    - exact Hcore.
    - unfold hash_gap, hash_rest, state_terms, right_term.
      rewrite H1, S1, H4, H6, !H5 by discriminate.
      rewrite Hhash. unfold state_terms, right_term. xor_solve.
    - destruct (legal_ep _ _ _ Hl) as [E|(V1 & V2 & E1 & E2)].
      + left. rewrite H6. exact E.
      + right. rewrite H6, H4.
        rewrite !H3 by (apply valid_square_iff; assumption).
        repeat split; assumption.
    - intros side t Hside Hright.
      rewrite H5 in Hright by exact Hside.
      rewrite H3 by apply rook_home_range.
      apply (legal_castling _ _ _ Hl); assumption. }
  split; [exact Hlegal|]. split; [apply (legal_hash _ _ _ Hlegal)|].
  apply Board_of_fen_checkers.
Qed.

(** X25: the FEN tells boards apart.  Two boards that satisfy the Board
    invariants, have clocks that are not negative and print the same FEN
    are equal under [operator==]; they have the same mailbox on the 64
    squares, the same half-move clock, scores and phase, and the same
    full-move clock as far as it is at least 1. *)
Theorem same_fen_same_board (b b' : Board) :
  board_legal zk ev b -> board_legal zk ev b' ->
  0 <= m_half_move_clock b -> 0 <= m_full_move_clock b ->
  0 <= m_half_move_clock b' -> 0 <= m_full_move_clock b' ->
  to_fen b = to_fen b' ->
  Board_eq b b' = true /\
  (forall s, 0 <= s < 64 -> m_board_pieces b s = m_board_pieces b' s) /\
  m_half_move_clock b = m_half_move_clock b' /\
  Z.max (m_full_move_clock b) 1 = Z.max (m_full_move_clock b') 1 /\
  m_psq b = m_psq b' /\ m_phase b = m_phase b'.
Proof.
  intros Hl Hl' Hh Hf Hh' Hf' E.
  pose proof (fen_read_back b Hl Hh Hf) as H.
  pose proof (fen_read_back b' Hl' Hh' Hf') as H'.
  cbv zeta in H, H'. rewrite <- E in H'.
  destruct H as (H1 & H2 & H3 & H4 & H5 & H6 & H7 & H8 & H9 & H10 & _).
  destruct H' as (G1 & G2 & G3 & G4 & G5 & G6 & G7 & G8 & G9 & G10 & _).
  split.
  { apply Board_eq_intro; try congruence.
    - intros side t Hside.
      rewrite <- H5, <- G5 by exact Hside. reflexivity.
    - intros p t Hreal.
      rewrite <- H2, <- G2 by exact Hreal. reflexivity. }
  split.
  { intros s Hs. rewrite <- H3, <- G3 by exact Hs. reflexivity. }
  repeat split; congruence.
Qed.

End FenRoundTrip.

Lemma startpos_clocks :
  0 <= m_half_move_clock startpos /\ 0 <= m_full_move_clock startpos.
Proof. split; vm_compute; discriminate. Qed.

(** After [1. e4]: Black to move, all four rights, ep square e3. *)
Lemma after_e4_legal :
  board_legal sample_keys sample_eval
              (make_move sample_keys sample_eval startpos quiet_e4).
Proof.
  apply make_move_legal; [exact startpos_legal|].
  vm_compute. reflexivity.
Qed.

Lemma after_e4_clocks :
  0 <= m_half_move_clock (make_move sample_keys sample_eval startpos quiet_e4)
    <= INT_MAX /\
  1 <= m_full_move_clock (make_move sample_keys sample_eval startpos quiet_e4)
    <= INT_MAX.
Proof. repeat split; vm_compute; discriminate. Qed.

Lemma to_fen_round_trip_witness :
  Board_eq
    (Board_of_fen sample_keys sample_eval
       (to_fen (make_move sample_keys sample_eval startpos quiet_e4)))
    (make_move sample_keys sample_eval startpos quiet_e4)
  = true.
Proof.
  exact (proj1 (to_fen_round_trip sample_keys sample_eval
                  (make_move sample_keys sample_eval startpos quiet_e4)
                  after_e4_legal
                  (proj1 after_e4_clocks) (proj2 after_e4_clocks))).
Defined.

Lemma fen_round_trip_witness :
  Board_eq (Board_of_fen sample_keys sample_eval (to_fen startpos)) startpos
  = true.
Proof.
  exact (proj1 (fen_round_trip sample_keys sample_eval startpos startpos_legal
                  (proj1 startpos_clocks) (proj2 startpos_clocks))).
Defined.

Lemma fen_board_legal_witness :
  board_legal sample_keys sample_eval
              (Board_of_fen sample_keys sample_eval (to_fen startpos)).
Proof.
  exact (proj1 (fen_board_legal sample_keys sample_eval startpos startpos_legal
                  (proj1 startpos_clocks) (proj2 startpos_clocks))).
Defined.

Lemma same_fen_same_board_witness : Board_eq startpos startpos = true.
Proof.
  exact (proj1 (same_fen_same_board sample_keys sample_eval startpos startpos
                  startpos_legal startpos_legal
                  (proj1 startpos_clocks) (proj2 startpos_clocks)
                  (proj1 startpos_clocks) (proj2 startpos_clocks) eq_refl)).
Defined.

(* ================================================================== *)
(** * Static exchange evaluation *)
(* ================================================================== *)

Lemma from_square_bit (a s : Square) :
  0 <= a -> 0 <= s -> Z.testbit (from_square a) s = (a =? s).
Proof.
  intros Ha Hs. unfold from_square.
  rewrite <- (Z.lor_0_l (Z.shiftl 1 a)).
  change (Z.lor 0 (Z.shiftl 1 a)) with (Z.setbit 0 a).
  rewrite Z.setbit_eqb by exact Ha. rewrite Z.bits_0, orb_false_r.
  reflexivity.
Qed.

(** A filter that lets less through, and stops one more element, gives a
    shorter list. *)
Lemma filter_length_lt {A : Type} (f g : A -> bool) (l : list A) (x : A) :
  (forall y, f y = true -> g y = true) ->
  In x l -> g x = true -> f x = false ->
  (List.length (filter f l) < List.length (filter g l))%nat.
Proof.
  intros Hsub. induction l as [|y l IH]; intros Hin Hg Hf; [destruct Hin|].
  cbn [filter].
  assert (Hle : (List.length (filter f l) <= List.length (filter g l))%nat).
  { clear -Hsub. induction l as [|z l IH]; cbn [filter]; [lia|].
    destruct (f z) eqn:Ef.
    - rewrite (Hsub z Ef). cbn [List.length]. lia.
    - destruct (g z); cbn [List.length]; lia. }
  destruct Hin as [->|Hin].
  - rewrite Hg, Hf. cbn [List.length]. lia.
  - specialize (IH Hin Hg Hf). destruct (f y) eqn:Ef.
    + rewrite (Hsub y Ef). cbn [List.length]. lia.
    + destruct (g y); cbn [List.length]; lia.
Qed.

(** Taking a member out of a bitboard. *)
Lemma remove_member (occ : Bitboard) (a : Square) :
  0 <= a < 64 -> Z.testbit occ a = true ->
  (List.length (bb_squares (Z.lxor occ (from_square a)))
   < List.length (bb_squares occ))%nat /\
  (forall s, 0 <= s -> Z.testbit (Z.lxor occ (from_square a)) s = true ->
             Z.testbit occ s = true).
Proof.
  intros Ha Hbit.
  assert (Hx : forall s, 0 <= s ->
             Z.testbit (Z.lxor occ (from_square a)) s
             = Z.testbit occ s && negb (a =? s) || negb (Z.testbit occ s) && (a =? s)).
  { intros s Hs. rewrite Z.lxor_spec, from_square_bit by lia.
    destruct (Z.testbit occ s), (a =? s); reflexivity. }
  assert (Hsub : forall s, 0 <= s ->
             Z.testbit (Z.lxor occ (from_square a)) s = true ->
             Z.testbit occ s = true).
  { intros s Hs H. rewrite Hx in H by exact Hs.
    destruct (Z.eqb_spec a s) as [<-|Hne]; [exact Hbit|].
    destruct (Z.testbit occ s); [reflexivity | discriminate H]. }
  split; [|exact Hsub].
  unfold bb_squares.
  assert (E : filter (bb_test (Z.lxor occ (from_square a))) all_squares
              = filter (fun s => bb_test occ s && negb (a =? s)) all_squares).
  { apply filter_ext_in. intros s Hs. apply in_all_squares in Hs.
    unfold bb_test. rewrite Hx by lia.
    destruct (Z.eqb_spec a s) as [<-|Hne].
    - rewrite Hbit. reflexivity.
    - rewrite andb_false_r, orb_false_r. reflexivity. }
  rewrite E.
  apply (filter_length_lt _ _ all_squares a).
  - intros y H. apply andb_prop in H. apply H.
  - apply in_all_squares. exact Ha.
  - exact Hbit.
  - rewrite Z.eqb_refl, andb_false_r. reflexivity.
Qed.

(** One round of the loop. *)
Lemma see_loop_step (k : nat) (b : Board) (target : Square) (gain : Z)
      (last_attacker : PieceType) (occupancy : Bitboard) (side_to_move : Turn)
      (color : Z) (attacks_target : Bitboard) :
  see_loop (S k) b target gain last_attacker occupancy side_to_move color
           attacks_target
  = if bb_any attacks_target then
      if color * gain >? 0 then Some (10 * gain)
      else
        let attacker := least_valuable b attacks_target in
        let occupancy := Z.lxor occupancy (from_square attacker) in
        see_loop k b target (gain + color * see_piece_score last_attacker)
                 (get_piece_at b attacker) occupancy (opp side_to_move)
                 (- color)
                 (Z.land (attackers b target occupancy (opp side_to_move))
                         occupancy)
    else Some (10 * gain).
Proof. reflexivity. Qed.

Section See.

Variable b : Board.
Hypothesis Hp : placed b.
Hypothesis Hc : mailbox_clean b.

(** On a bitboard with a piece on one of its squares, [least_valuable]
    returns one of its squares. *)
Lemma least_valuable_member (bb : Bitboard) (s : Square) :
  0 <= s < 64 -> Z.testbit bb s = true -> m_board_pieces b s <> NO_PIECE ->
  0 <= least_valuable b bb < 64 /\
  Z.testbit bb (least_valuable b bb) = true.
Proof.
  intros Hs Hbit Hocc. unfold least_valuable.
  rewrite (least_valuable_from_find b).
  assert (Hboth : forall p x, p <> PIECE_NONE ->
            Z.testbit (Z.land (Z.lor (get_pieces_tp b WHITE p)
                                     (get_pieces_tp b BLACK p)) bb) x
            = valid_square x && PieceType_eqb (get_piece_at b x) p
              && Z.testbit bb x).
  { intros p x Hreal. rewrite Z.land_spec, (both_colours_spec b Hp) by
      exact Hreal. reflexivity. }
  destruct (find _ piece_types) as [p|] eqn:F.
  - apply find_some in F. destruct F as [Hin Hany].
    assert (Hreal : p <> PIECE_NONE)
      by (intros ->; cbn in Hin; intuition discriminate).
    assert (Hbound : bb_bounded (Z.land (Z.lor (get_pieces_tp b WHITE p)
                                               (get_pieces_tp b BLACK p)) bb)).
    { intros x Hx. rewrite Hboth in Hx by exact Hreal.
      apply andb_prop in Hx. destruct Hx as [Hx _].
      apply andb_prop in Hx. destruct Hx as [Hx _].
      apply valid_square_iff. exact Hx. }
    assert (Hnz : Z.land (Z.lor (get_pieces_tp b WHITE p)
                                (get_pieces_tp b BLACK p)) bb <> 0).
    { intros E. unfold bb_any in Hany. rewrite E in Hany. discriminate Hany. }
    destruct (nonzero_has_bit _ Hbound Hnz) as (x & Hx & Hbx).
    destruct (bitscan_forward_lowest _ x Hx Hbx) as [Hrange Hmem].
    split; [lia|]. rewrite Hboth in Hmem by exact Hreal.
    apply andb_prop in Hmem. apply Hmem.
  - exfalso.
    pose proof (occupied_real b Hc s Hocc) as Hreal.
    assert (Hin : In (get_piece_at b s) piece_types).
    { destruct (get_piece_at b s); cbn; tauto. }
    pose proof (find_none _ _ F _ Hin) as Hno. cbv beta in Hno.
    unfold bb_any in Hno. apply negb_false_iff, Z.eqb_eq in Hno.
    assert (Hbit' : Z.testbit (Z.land (Z.lor
                       (get_pieces_tp b WHITE (get_piece_at b s))
                       (get_pieces_tp b BLACK (get_piece_at b s))) bb) s
                    = true).
    { rewrite Hboth by exact Hreal.
      rewrite (proj2 (valid_square_iff s) Hs), PieceType_eqb_refl, Hbit.
      reflexivity. }
    rewrite Hno, Z.bits_0 in Hbit'. discriminate Hbit'.
Qed.

(** The loop ends: with more fuel than the occupancy has squares, it
    returns a score, and the same one for any larger fuel. *)
Lemma see_loop_total (target : Square) :
  forall (fuel : nat) (gain : Z) (last_attacker : PieceType)
         (occupancy : Bitboard) (side_to_move : Turn) (color : Z)
         (attackers_bb : Bitboard),
    all_occupied b occupancy ->
    (List.length (bb_squares occupancy) < fuel)%nat ->
    exists g,
      forall fuel', (fuel <= fuel')%nat ->
        see_loop fuel' b target gain last_attacker occupancy side_to_move
                 color (Z.land attackers_bb occupancy)
        = Some (10 * g).
Proof.
  induction fuel as [|k IH];
    intros gain last occupancy side color att Hocc Hlen; [lia|].
  destruct (bb_any (Z.land att occupancy)) eqn:Hany.
  2:{ exists gain. intros fuel' Hf.
      destruct fuel' as [|k']; [lia|]. cbn [see_loop]. rewrite Hany.
      reflexivity. }
  destruct (color * gain >? 0) eqn:Hahead.
  { exists gain. intros fuel' Hf.
    destruct fuel' as [|k']; [lia|]. cbn [see_loop]. rewrite Hany, Hahead.
    reflexivity. }
  (* the attackers that are left hold a square of the occupancy *)
  assert (Hbit : exists s, 0 <= s < 64 /\
                           Z.testbit (Z.land att occupancy) s = true).
  { apply nonzero_has_bit.
    - intros s H. rewrite Z.land_spec in H. apply andb_prop in H.
      destruct H as [_ H].
      destruct (Z.neg_nonneg_cases s) as [Hneg|Hpos].
      + rewrite Z.testbit_neg_r in H by exact Hneg. discriminate H.
      + split; [exact Hpos|]. apply (Hocc s Hpos H).
    - intros E. unfold bb_any in Hany. rewrite E in Hany. discriminate Hany. }
  destruct Hbit as (s & Hs & Hbs).
  assert (Hs_occ : m_board_pieces b s <> NO_PIECE).
  { rewrite Z.land_spec in Hbs. apply andb_prop in Hbs.
    apply (Hocc s (proj1 Hs) (proj2 Hbs)). }
  destruct (least_valuable_member _ s Hs Hbs Hs_occ) as [Ha Hmem].
  set (a := least_valuable b (Z.land att occupancy)) in *.
  assert (Ha_occ : Z.testbit occupancy a = true).
  { rewrite Z.land_spec in Hmem. apply andb_prop in Hmem. apply Hmem. }
  destruct (remove_member occupancy a Ha Ha_occ) as [Hshorter Hsub].
  assert (Hocc' : all_occupied b (Z.lxor occupancy (from_square a))).
  { intros x Hx H. apply (Hocc x Hx). apply Hsub; assumption. }
  destruct (IH (gain + color * see_piece_score last) (get_piece_at b a)
               (Z.lxor occupancy (from_square a)) (opp side) (- color)
               (attackers b target (Z.lxor occupancy (from_square a))
                          (opp side))
               Hocc' ltac:(lia)) as (v & Hv).
  exists v. intros fuel' Hf. destruct fuel' as [|k']; [lia|].
  cbn [see_loop]. rewrite Hany, Hahead. cbv zeta. fold a.
  apply Hv. lia.
Qed.

(** The occupancy that the exchange starts from. *)
Lemma see_occupancy (move : Move) :
  m_board_pieces b (move_from move) <> NO_PIECE ->
  all_occupied b (Z.lxor (get_pieces b) (from_square (move_from move))).
Proof.
  intros Hfrom s Hs H.
  pose proof (move_from_range move) as Hr.
  rewrite Z.lxor_spec, from_square_bit, (get_pieces_spec b Hp Hc) in H by lia.
  destruct (Z.eqb_spec (move_from move) s) as [<-|Hne].
  - split; [lia | exact Hfrom].
  - rewrite xorb_false_r in H. apply andb_prop in H. destruct H as [V O].
    apply valid_square_iff in V. split; [lia|].
    apply negb_true_iff, Piece_eqb_neq in O. exact O.
Qed.

(** X26: [see] terminates.  On a board whose bitboards agree with the
    mailbox, for a move whose origin square holds a piece, the exchange
    loop ends after at most as many rounds as the board has pieces: [see]
    returns a score, which is ten times an integer, and no larger bound on
    the number of rounds changes it. *)
Theorem see_terminates (move : Move) (threshold : Z) :
  m_board_pieces b (move_from move) <> NO_PIECE ->
  exists gain,
    see b move threshold = Some (10 * gain) /\
    forall fuel,
      (List.length (bb_squares (get_pieces b)) <= fuel)%nat ->
      see_with fuel b move threshold = Some (10 * gain).
Proof.
  intros Hfrom.
  pose proof (move_from_range move) as Hr.
  assert (Hbit : Z.testbit (get_pieces b) (move_from move) = true).
  { rewrite (get_pieces_spec b Hp Hc), (proj2 (valid_square_iff _) Hr).
    destruct (m_board_pieces b (move_from move)); [reflexivity|].
    contradiction. }
  destruct (remove_member (get_pieces b) (move_from move) Hr Hbit)
    as [Hshort _].
  destruct (see_loop_total (move_to move)
              (List.length (bb_squares (get_pieces b)))
              (see_seed b move threshold)
              (get_piece_at b (move_from move))
              (Z.lxor (get_pieces b) (from_square (move_from move)))
              (opp (m_turn b)) (-1)
              (attackers b (move_to move)
                 (Z.lxor (get_pieces b) (from_square (move_from move)))
                 (opp (m_turn b)))
              (see_occupancy move Hfrom) Hshort) as (g & Hg).
  exists g. split.
  - apply Hg. apply bb_squares_length.
  - intros fuel Hf. apply Hg. exact Hf.
Qed.

(** X27: the exchange up to the first recapture.  [see] returns ten times
    the value of the victim less [threshold / 10] when no piece of the
    opponent can take back or when that seed is negative already; and ten
    times the seed less the value of the moving piece when the seed is not
    negative, the opponent can take back, and then either the side that
    moved is ahead or it has no piece left to take again. *)
Theorem see_first_exchange (move : Move) (threshold : Z) :
  (see_defenders b move = 0 \/ see_seed b move threshold < 0 ->
   see b move threshold = Some (10 * see_seed b move threshold)) /\
  (see_defenders b move <> 0 -> 0 <= see_seed b move threshold ->
   see_second_attackers b move = 0 \/
   see_piece_score (get_piece_at b (move_from move))
   < see_seed b move threshold ->
   see b move threshold
   = Some (10 * (see_seed b move threshold
                 - see_piece_score (get_piece_at b (move_from move))))).
Proof.
  unfold see, see_with, see_second_attackers, see_defenders, see_seed.
  cbv zeta.
  set (seed := see_piece_score _ - Z.quot threshold 10).
  set (occ := Z.lxor (get_pieces b) (from_square (move_from move))).
  set (def := Z.land (attackers b (move_to move) occ (opp (m_turn b))) occ).
  change 64%nat with (S (S 62)). rewrite see_loop_step.
  split.
  - intros H. unfold bb_any.
    destruct (Z.eqb_spec def 0) as [E|Hne]; cbn [negb]; [reflexivity|].
    destruct H as [H|H]; [contradiction|].
    destruct (Z.gtb_spec (-1 * seed) 0); [reflexivity | lia].
  - intros Hdef Hseed H.
    cbv zeta. rewrite see_loop_step. unfold bb_any.
    destruct (Z.eqb_spec def 0) as [E|_]; [contradiction|]. cbn [negb].
    destruct (Z.gtb_spec (-1 * seed) 0) as [Hlt|_]; [lia|].
    replace (seed + -1 * see_piece_score (get_piece_at b (move_from move)))
      with (seed - see_piece_score (get_piece_at b (move_from move)))
      by lia.
    match goal with
    | |- (if negb (?x =? 0) then _ else _) = _ =>
        destruct (Z.eqb_spec x 0) as [E|Hne]
    end; cbn [negb]; [reflexivity|].
    destruct H as [H|H]; [contradiction|].
    destruct (Z.gtb_spec
                (- -1 * (seed - see_piece_score
                                  (get_piece_at b (move_from move)))) 0);
      [reflexivity | lia].
Qed.

End See.

Lemma see_terminates_witness :
  exists gain,
    see startpos quiet_e4 0 = Some (10 * gain) /\
    forall fuel,
      (List.length (bb_squares (get_pieces startpos)) <= fuel)%nat ->
      see_with fuel startpos quiet_e4 0 = Some (10 * gain).
Proof.
  apply (see_terminates startpos startpos_placed startpos_mailbox_clean
           quiet_e4 0).
  vm_compute. discriminate.
Defined.

Lemma see_first_exchange_witness :
  see queen_takes_pawn_board queen_takes_pawn 0
  = Some (10 * (see_seed queen_takes_pawn_board queen_takes_pawn 0
                - see_piece_score
                    (get_piece_at queen_takes_pawn_board
                                  (move_from queen_takes_pawn)))).
Proof.
  refine (proj2 (see_first_exchange queen_takes_pawn_board queen_takes_pawn 0)
                _ _ _).
  - vm_compute. discriminate.
  - vm_compute. discriminate.
  - left. vm_compute. reflexivity.
Defined.
